(* ===== verification/_CoqProject ===== *)
-Q . S2P
Prelude.v
Validation.v
PuzzleSpec.v
Packed.v
Float.v
Energy.v
Gse.v
Diversity.v
Ising.v
SolutionReport.v
Difficulty.v
Frame.v
BoundedHeap.v
Weights.v
TxCrypto.v
Bindings.v
RuntimeParams.v
QuantumPow.v
QuantumPowProps.v
PowMigration.v
MempoolCore.v
Mempool.v
MempoolProps.v
MempoolSettlement.v
MinerRegistry.v
Template.v
Emission.v
StakingRewards.v
MainnetAllocation.v
RuntimeWeights.v
Faucet.v
SlashPolicy.v
Slashing.v
ElectionData.v
Admission.v
Governance.v
RuntimeGuards.v
RuntimeIdentity.v
ElectionRound.v
GenesisPresets.v
NodeSpecs.v
Xqvm.v
RuntimeConfig.v
XqvmAdapter.v
UpgradeChecks.v
Metering.v
Runtime.v
RuntimeApi.v
CallWeights.v
RuntimeProps.v
RuntimeUpgrade.v
RuntimeRefinement.v
RuntimeOrigins.v
RuntimeTotal.v
Instances.v
CompositionTheorems.v
MempoolTheorems.v
PowTheorems.v
ValidationTheorems.v
EmissionTheorems.v
GovernanceTheorems.v
RegistryTheorems.v
XqvmTheorems.v
ElectionTheorems.v
CryptoTheorems.v
GenesisTheorems.v
RuntimeTheorems.v
MeteringTheorems.v
