(* ===== verification/Prelude.v ===== *)
(** * Quip validator: a verification library for the node's on-chain logic

    ** The program

    The repository is a Substrate node whose runtime rewards miners for solving
    Ising problems.  Its own logic is a validation library, the transaction
    cryptography, nine pallets and the policies of the runtime:

    - [crates/quantum-validation] scores solutions: Ising energy, packed
      payloads, value specifications, diversity, problem generation, reports;
    - [pallets/quantum-pow] is the proof of work: miners register, submit proofs
      for a registered topology, the best proof of a block wins it, the
      difficulty adapts, and the block is indexed as a qblock;
    - [pallets/quantum-compute-mempool] sells computation: proposers escrow a
      reward for an order, solvers compete, expired orders are finalised by the
      block hook and claimed or reclaimed;
    - [pallets/xqvm] stores and runs metered programs; the mempool's transform
      adapter runs them on submitted solutions;
    - [pallets/miner-registry] holds node descriptors against a deposit and
      counts participation per qblock;
    - [pallets/emission-controller] accrues issuance into subnet pots and pays
      mining rewards from them; [pallets/faucet-ops] mints within its budget;
    - [pallets/slash-policy] bounds discretionary slashes,
      [pallets/validator-admission] admits validators and dispatches filtered
      Root calls, [pallets/evm-chain-id] stores the chain id;
    - [crates/transaction-crypto-core] and [crates/transaction-crypto] are the
      hybrid transaction signatures, their envelopes, accounts and secret URIs;
      [crates/transaction-crypto-py] and [crates/transaction-crypto-wasm] are
      the signers for Python and the browser;
    - [runtime] composes the pallets: it elects validators among the admitted
      ones, guards offence reports and upgrades, pays staking rewards, prices
      work, and builds and checks the genesis of every network.
      [runtime-testnet] is the same code with another clock.

    ** Which file models what

    Every storage item is a field of one record per pallet, every call and hook
    a function on it.  A call returns [Ok] with the new state, [Err] with the
    dispatch error (the old state then stands, as FRAME rolls back), or [Panic].

    - [Prelude]: results and panics, machine integers, record updates, sums.
    - [Validation], [PuzzleSpec], [Packed], [Energy], [Diversity], [Ising],
      [SolutionReport]: the modules of the validation library ([validation.rs]
      with [errors.rs] and [fixed.rs], [puzzle_spec.rs], [packed.rs],
      [energy.rs], [diversity.rs], [ising.rs], the reports of [validation.rs]);
      [Float] is binary64 arithmetic and [Gse] the estimate of [energy.rs].
    - [Frame]: what pallets use of FRAME: origins, dispatch errors, and the
      interfaces [Currency], [Issuance], [MiningReward] and [SpArithmetic] with
      their laws; [Ledger] is a concrete currency.
    - [Difficulty], [QuantumPow], [PowMigration]: [quantum-pow]'s
      [difficulty.rs]; its types, calls, hooks and proof validation
      ([types.rs], [topology.rs], [lib.rs]); its storage migrations.
      [QuantumPowProps] assembles calls and hooks into chains of blocks.
    - [MempoolCore], [Mempool]: the mempool's [types.rs], [rewards.rs],
      [selection.rs], [lifecycle.rs], [delivery.rs]; and its [lib.rs].
      [MempoolProps] is scheduling, [MempoolSettlement] ranking, payouts and
      solvency over arbitrary runs.
    - [Xqvm], [XqvmAdapter]: [pallets/xqvm] and the mempool's [xqvm.rs].
    - [MinerRegistry], [Emission], [Faucet] (with the EVM chain id),
      [SlashPolicy], [Admission] (with [CouncilRootCalls::check] of
      [runtime/src/configs/slashing.rs]): the remaining pallets.
    - [TxCrypto], [Bindings]: both crates of transaction cryptography; the
      Python and browser signers.
    - [RuntimeParams], [RuntimeConfig]: constants, the two networks' clocks, the
      configurations of the pallets ([runtime/src/lib.rs], [configs/mod.rs],
      [network_params.rs]).
    - [BoundedHeap], [ElectionData], [ElectionRound]: [AdmissionData] of
      [configs/validator_onboarding.rs] with the heap it uses; the provider, the
      removal hook and the scheduler of [configs/election.rs].
    - [Slashing], [StakingRewards], [RuntimeGuards], [RuntimeIdentity]: the report
      guard of [configs/slashing.rs]; the era payout of
      [configs/staking_rewards.rs]; the proxies' filter, the upgrade guard and
      the migrations of the runtime; the versions of the two networks and the
      transaction extensions of [runtime/src/lib.rs].
    - [MainnetAllocation], [GenesisPresets], [NodeSpecs]: the allocation plan and
      the presets of [genesis_config_presets.rs]; the chain specifications and
      the [insert-hybrid-key] command of the node.
    - [Weights], [Metering], [CallWeights], [RuntimeWeights]: the weight tables
      and formulas, with bounds for sums of them; what the calls declare before
      and report after dispatch; the weight of every call of the runtime and of
      the block hooks; the runtime's table for the vesting pallet and the
      weights of equivocation reports.
    - [Template]: the template pallet.
    - [UpgradeChecks], [RuntimeUpgrade]: the [try-runtime] hooks and integrity
      tests of the pallets and of the runtime's migrations; the whole upgrade of
      the composed chain, as the [Executive] of [runtime/src/lib.rs] runs it,
      with and without the checks: a list of steps over storage that still
      holds the bytes of older layouts.
    - [Governance], [Runtime], [RuntimeApi]: the composed runtime.  [Governance]
      is the Foundation's origin ([configs/validator_onboarding.rs]); [Runtime]
      puts all pallets over one ledger, with the calls, hooks and interfaces
      [runtime/src/lib.rs] and [configs/mod.rs] give them: every pallet's state
      is a view ([Pallet]) of the runtime's; [RuntimeApi] is the part of
      [apis.rs] that serves the repository's pallets.
    - [RuntimeProps], [RuntimeRefinement], [RuntimeOrigins], [RuntimeTotal]: runs
      of the composed runtime and their invariant; the simulation of the mempool
      and of the proof of work alone; who may call what; absence of panics.
    - [Instances]: concrete instances of all interfaces, which the witnesses
      run ([Vault] is a ledger with reserves and holds).
      [CompositionTheorems], [MempoolTheorems], [PowTheorems], [ValidationTheorems],
      [EmissionTheorems], [GovernanceTheorems], [RegistryTheorems],
      [XqvmTheorems], [ElectionTheorems], [CryptoTheorems], [GenesisTheorems],
      [RuntimeTheorems] and [MeteringTheorems] state the properties, each with a
      concrete run.

    ** How components meet

    A client is written against a class and the implementation is an instance:
    [Currency] and [Issuance] (balances), [MiningReward] (the proof of work pays
    through it; [Emission.emission_reward] implements it with its laws),
    [QuantumVm] (the mempool's virtual machine; [XqvmAdapter.XqvmAdapter]
    implements it), [XqvmLib] (the interpreter crate), [StakingOps], [Holds],
    [MintInto] (what an upgrade mints with), [MultiBlock] (the SDK's multi-block election, over which the removal hook
    of [Admission] is [ElectionRound.on_removal]), [EnsureProportion] (the
    collective's origin check).  [Runtime] instantiates them with each other, and
    [BalancesLaws] says how reserves, holds and issuance of the one ledger relate.
    Code outside the repository is always such a parameter: hashes with the
    SCALE encodings fed to them ([PowPrims], [IsingPrims], [DifficultyPrims],
    [MempoolPrims]), the pseudo random generator ([RngCore]), [libm] ([Libm]),
    [sp_arithmetic] ([SpArithmetic], [PerbillTimes]), the signature suite
    ([Suite], [PairScheme]) and the [hex] crate ([HexCrate]), placeholder accounts and derived keys
    ([GenesisHashes], [GenesisKeys]), the cost of a storage access ([DbWeight]).
    The laws of such a class state its documented behaviour, and a witness
    shows an instance that satisfies them.

    ** What the theorems show

    - The composed runtime (C5, C7, C11, C16, C17, C29, C31, C37): along any run of
      blocks, calls, Root dispatches and SDK steps every deposit can be returned
      in full; the APIs are consistent; nothing aborts; every call is refused
      exactly to the origins the matrix does not admit; the runtime refines its
      pallets, so that their theorems hold of it; every token is accounted for;
      an upgrade from storage of an older layout that carries data (the proof of
      work from version 2, the mempool from 3) keeps the qblocks and the invariants, moves issuance and reserves by exactly what it releases and
      mints (records it cannot decode are dropped with their deposits left
      reserved), changes nothing when run again, and passes its checks; the
      proof of work's check fails exactly for a chain that is wiped with qblocks
      in it.
    - Mempool (C1, C2, C6, C8 to C10, C12): a claim pays the whole reward once,
      in the shares [MempoolSettlement.by_rule] states for the order's mode, to
      the best solvers; no open order is ever stranded; settlement can only fail
      in a currency transfer or in the virtual machine, and the XQVM adapter
      never fails there; what an accepted submission is, its diversity included;
      the ranking is the top-n of the recorded energies; the block hook is
      bounded and leaves no order open past its expiry while it is not behind;
      orders only advance.  Further theorems:
      reserves, refunds and the hook's totality for the pallet alone.
    - Proof of work (C3, C4, C13, C27): what an accepted proof is; the first best
      proof wins the block; settlement; upgrades keep the history.  Further
      theorems: the qblock index, the topology whitelist, no submission panics,
      the nonce seed is the last winning header, canonical hashes, re-derived
      nonces, bounded hardening and easing, deposits.
    - Validation (C23 to C25, C28): exact energies and reports, packing round
      trips, farthest-first selection; also the value of the diversity score,
      safe unpacking and problem generation.
    - Elections and offences (C18, C21, C22, C32): the voter snapshot is the
      reference one; a removed validator never wins; rounds are started and
      restarted in time; exactly the reports that can still be slashed pass.
    - Cryptography (C14, C15, C26, C38): secret URIs, exactly; where the Python and
      browser signers agree and the two inputs they treat differently; the envelope's codec, and that a signature binds the
      account of the key inside it.
    - Genesis and budget (C19, C20, C30): what an accepted allocation plan and
      a mainnet genesis built from it are, that the pallets' genesis builders
      accept it, and that the mainnet preset itself refuses to export; that the
      controller and staking together stay within the annual emission.
    - Metering (C33): charges cover the work, the work fits a block, and what
      the repository itself declares for a call fits an extrinsic; the SDK's
      weights (the end of an election export, a Root call handed on) are added
      to it unchanged.
    - The faucet (C34), slashing and Root calls (C35, C36), programs and
      transforms (C39, C40); further theorems on the emission schedule and the
      registry's deposits for the pallets alone.

    Properties about "any run" are proved by induction over step relations
    ([QuantumPowProps.step], [MempoolSettlement.step], [emission_step],
    [faucet_step], [slash_step], [registry_step], [xqvm_step]), whose steps are
    blocks and successful calls with arguments of the Rust types.  Runs of the
    composed runtime are [RuntimeProps.node_step]: blocks, the timestamp, the
    acts [RuntimeProps.act] (a call of a pallet, or a step of the SDK's pallets,
    which may move balances as long as they account for what they reserve and
    issue), and Root dispatches, which run such acts.

    ** Bounds and fuel

    Integers are [Z] with the width's wrap-around, saturation or check written
    out where the code has one.  No fuel is made up: loops recurse on the list
    they consume or on what their own guard counts down, the missing elements in
    [Diversity.select_loop] and [MempoolCore.select_from_best_loop], the code's
    budget of eight buckets per block in [Mempool.finalise_loop].
    Block numbers stay below [2^32 - 1] and order ids below [2^64 - 1] in the
    runs; a solution list has fewer than [2^31] entries.  The voter snapshot
    assumes the bounds of the runtime: at most 64 admitted accounts and 16
    nominations each.

    ** What is not modelled

    The benchmark harnesses; the node's service, RPC and the dispatch of its SDK
    subcommands; the registration of the bindings with Python and the browser;
    the JSON text of the presets; the associated types with which the runtime
    configures SDK pallets, and the runtime APIs that hand a request on to
    them: all I/O, or glue over code outside the repository.  The SDK's pallets
    run in a block as steps of their own, not as code, and an upgrade here is
    the repository's part of it.  The testnet runtime is the
    same text as the mainnet's but for its name and its clock, so that the
    definitions stand for both; their source lines name the mainnet copy.  The
    byte lengths that [BoundedVec] types enforce appear as hypotheses on arguments,
    not as checks. *)

From Stdlib Require Export ZArith Lia.
From stdpp Require Export base gmap list sets option sorting.

#[export] Set Default Goal Selector "!".
#[export] Set Warnings "-clear-no-such-hyp,-level-tolerance".

(** Number literals are machine integers ([Z]); indices into lists are [nat]. *)
#[global] Open Scope Z_scope.

(* ------------------------------------------------------------------ *)
(** ** Results: [Result<A, E>] and panics                              *)
(* ------------------------------------------------------------------ *)

(** The outcome of a Rust call: [Ok], [Err], or a panic (slice index out of
    range, division by zero, a failed [expect]). *)
Inductive result (E A : Type) : Type :=
  | Ok (a : A)
  | Err (e : E)
  | Panic.
Arguments Ok {E A} a.
Arguments Err {E A} e.
Arguments Panic {E A}.

#[global] Instance result_eq_dec {E A} `{EqDecision E, EqDecision A} :
  EqDecision (result E A).
Proof. solve_decision. Defined.

Definition rbind {E A B} (m : result E A) (k : A -> result E B) : result E B :=
  match m with
  | Ok a => k a
  | Err e => Err e
  | Panic => Panic
  end.

Definition rmap_err {E F A} (f : E -> F) (m : result E A) : result F A :=
  match m with
  | Ok a => Ok a
  | Err e => Err (f e)
  | Panic => Panic
  end.

(** [Option::ok_or] *)
Definition ok_or {E A} (o : option A) (e : E) : result E A :=
  match o with Some a => Ok a | None => Err e end.

(** [slice[i]], [Option::expect] *)
Definition or_panic {E A} (o : option A) : result E A :=
  match o with Some a => Ok a | None => Panic end.

(** [Result::ok] *)
Definition rok {E A} (m : result E A) : option A :=
  match m with Ok a => Some a | _ => None end.

(** [ensure!(b, e)] *)
Definition ensure {E} (b : bool) (e : E) : result E unit :=
  if b then Ok tt else Err e.

Definition is_ok {E A} (m : result E A) : bool :=
  match m with Ok _ => true | _ => false end.

Declare Scope quip_scope.
Delimit Scope quip_scope with quip.
#[global] Open Scope quip_scope.

Notation "x <-? m ;; k" := (rbind m (fun x => k))
  (at level 100, m at next level, right associativity) : quip_scope.
Notation "m ;;? k" := (rbind m (fun _ => k))
  (at level 100, right associativity) : quip_scope.

(** [for x in l { acc = f(acc, x)?; }] *)
Fixpoint rfold {E A B} (f : B -> A -> result E B) (acc : B) (l : list A) : result E B :=
  match l with
  | [] => Ok acc
  | x :: l => acc' <-? f acc x;; rfold f acc' l
  end.

(** [for x in l { out.push(f(x)?); }] *)
Fixpoint rmapM {E A B} (f : A -> result E B) (l : list A) : result E (list B) :=
  match l with
  | [] => Ok []
  | x :: l => y <-? f x;; ys <-? rmapM f l;; Ok (y :: ys)
  end.

(* ------------------------------------------------------------------ *)
(** ** Machine integers                                                *)
(* ------------------------------------------------------------------ *)

(** A [w]-bit unsigned (signed) integer is a [Z] in range. *)
Definition in_u (w x : Z) : Prop := 0 <= x < 2 ^ w.
Definition in_s (w x : Z) : Prop := - 2 ^ (w - 1) <= x < 2 ^ (w - 1).

#[global] Instance in_u_dec w x : Decision (in_u w x).
Proof. unfold in_u. apply _. Defined.
#[global] Instance in_s_dec w x : Decision (in_s w x).
Proof. unfold in_s. apply _. Defined.

(** Wrap-around ([as uN], release-mode [+]). *)
Definition wrap_u (w x : Z) : Z := x mod 2 ^ w.
Definition wrap_s (w x : Z) : Z := (x + 2 ^ (w - 1)) mod 2 ^ w - 2 ^ (w - 1).

(** Clamping ([saturating_add] and friends, [saturated_into]). *)
Definition sat_u (w x : Z) : Z := Z.max 0 (Z.min x (2 ^ w - 1)).
Definition sat_s (w x : Z) : Z := Z.max (- 2 ^ (w - 1)) (Z.min x (2 ^ (w - 1) - 1)).

(** [checked_add] and friends. *)
Definition checked_u (w x : Z) : option Z := if decide (in_u w x) then Some x else None.
Definition checked_s (w x : Z) : option Z := if decide (in_s w x) then Some x else None.

(** [usize] is 32 bits in the Wasm runtime and 64 bits natively. *)
Class UsizeWidth := {
  usize_bits : Z;
  usize_bits_cases : usize_bits = 32 \/ usize_bits = 64
}.

(** Wrap-around and clamping at [usize]. *)
Definition wrap_usize `{UsizeWidth} (x : Z) : Z := wrap_u usize_bits x.
Definition sat_usize `{UsizeWidth} (x : Z) : Z := sat_u usize_bits x.

Definition wasm32 : UsizeWidth := {| usize_bits := 32; usize_bits_cases := or_introl eq_refl |}.
Definition native64 : UsizeWidth := {| usize_bits := 64; usize_bits_cases := or_intror eq_refl |}.

(** [Vec::len] *)
Definition zlen {A} (l : list A) : Z := Z.of_nat (length l).

(* ------------------------------------------------------------------ *)
(** ** Record update                                                   *)
(* ------------------------------------------------------------------ *)

(** A record type declares its eta-expansion once; a field's setter is then
    found by abstracting that field's projection in the expansion. *)
Class Expansion (R : Type) := expand : R -> R.
Class FieldUpdate {R T : Type} (field : R -> T) := update_field : (T -> T) -> R -> R.
Arguments update_field {R T} field {_} f r.

Ltac derive_field_update :=
  lazymatch goal with
  | |- @FieldUpdate ?R ?T ?field =>
      let inst := constr:(_ : Expansion R) in
      let body := eval red in inst in
      let body := eval cbv beta in body in
      lazymatch eval pattern field in body with
      | ?abstracted _ =>
          let t := constr:(fun f : T -> T => abstracted (fun r => f (field r))) in
          let t := eval cbv beta in t in
          exact t
      end
  end.

#[global] Hint Extern 1 (FieldUpdate _) => derive_field_update : typeclass_instances.

#[local] Set Warnings "-postfix-notation-not-level-1".
Notation "r <| field := v |>" := (update_field field (fun _ => v) r)
  (at level 14, left associativity) : quip_scope.
Notation "r <| field $= f |>" := (update_field field f r)
  (at level 14, left associativity) : quip_scope.

(* ------------------------------------------------------------------ *)
(** ** Proof automation                                                *)
(* ------------------------------------------------------------------ *)

Create HintDb quip discriminated.

Section ResultLemmas.
Context {E A B : Type}.
Implicit Types (m : result E A) (k : A -> result E B).

Lemma rbind_Ok_inv m k b : rbind m k = Ok b -> exists a, m = Ok a /\ k a = Ok b.
Proof. destruct m; simpl; naive_solver. Qed.

Lemma rbind_Err_inv m k e :
  rbind m k = Err e -> m = Err e \/ exists a, m = Ok a /\ k a = Err e.
Proof. destruct m; simpl; naive_solver. Qed.

Lemma rbind_Panic_inv m k :
  rbind m k = Panic -> m = Panic \/ exists a, m = Ok a /\ k a = Panic.
Proof. destruct m; simpl; naive_solver. Qed.

Lemma rbind_no_panic m k : m <> Panic -> (forall a, m = Ok a -> k a <> Panic) -> rbind m k <> Panic.
Proof. destruct m; simpl; naive_solver. Qed.

Lemma ok_or_no_panic (o : option A) (e : E) : ok_or o e <> Panic.
Proof. by destruct o. Qed.

Lemma rmap_err_no_panic {F} (f : E -> F) m : m <> Panic -> rmap_err f m <> Panic.
Proof. by destruct m. Qed.

Lemma ensure_no_panic b (e : E) : ensure b e <> Panic.
Proof. by destruct b. Qed.

Lemma ensure_Ok b (e : E) u : ensure b e = Ok u -> b = true.
Proof. by destruct b. Qed.

End ResultLemmas.

Section LoopLemmas.
Context {E A B : Type}.

Lemma rmapM_Ok_inv (f : A -> result E B) l ys :
  rmapM f l = Ok ys -> Forall2 (fun x y => f x = Ok y) l ys.
Proof.
  revert ys; induction l as [|x l IH]; intros ys; simpl; [by intros [= <-]|].
  intros (y & Hy & (ys' & Hys & [= <-])%rbind_Ok_inv)%rbind_Ok_inv; auto.
Qed.

Lemma rmapM_Ok (f : A -> result E B) l ys :
  Forall2 (fun x y => f x = Ok y) l ys -> rmapM f l = Ok ys.
Proof. induction 1 as [|x y l ys Hy _ IH]; simpl; [done|]. by rewrite Hy, IH. Qed.

Lemma rmapM_length (f : A -> result E B) l ys : rmapM f l = Ok ys -> length ys = length l.
Proof. intros H%rmapM_Ok_inv. symmetry. eapply Forall2_length, H. Qed.

Lemma rfold_app (f : B -> A -> result E B) acc l1 l2 :
  rfold f acc (l1 ++ l2) = (acc' <-? rfold f acc l1;; rfold f acc' l2).
Proof. revert acc; induction l1 as [|x l1 IH]; intros acc; simpl; [done|]. destruct (f acc x); simpl; auto. Qed.

(** Loop rule: an invariant of every successful iteration holds at the end. *)
Lemma rfold_Ok_ind (f : B -> A -> result E B) (P : B -> Prop) l acc b :
  (forall acc x acc', x ∈ l -> P acc -> f acc x = Ok acc' -> P acc') ->
  P acc -> rfold f acc l = Ok b -> P b.
Proof.
  revert acc; induction l as [|x l IH]; intros acc Hstep Hacc; simpl; [by intros [= <-]|].
  intros (acc' & Hf & Hl)%rbind_Ok_inv.
  eapply IH; [..|exact Hl]; [intros; eapply Hstep; eauto; set_solver|].
  eapply Hstep; eauto; set_solver.
Qed.

(** Loop rule for total correctness. *)
Lemma rfold_total (f : B -> A -> result E B) (P : B -> Prop) l acc :
  (forall acc x, x ∈ l -> P acc -> exists acc', f acc x = Ok acc' /\ P acc') ->
  P acc -> exists acc', rfold f acc l = Ok acc' /\ P acc'.
Proof.
  revert acc; induction l as [|x l IH]; intros acc Hstep Hacc; simpl; [eauto|].
  destruct (Hstep acc x) as (acc' & -> & Hacc'); [set_solver|done|].
  apply IH; [|done]. intros; apply Hstep; [set_solver|done].
Qed.

Lemma rfold_no_panic (f : B -> A -> result E B) l acc :
  (forall acc x, x ∈ l -> f acc x <> Panic) -> rfold f acc l <> Panic.
Proof.
  revert acc; induction l as [|x l IH]; intros acc Hf; simpl; [done|].
  apply rbind_no_panic; [apply Hf; set_solver|]. intros a _. apply IH. intros; apply Hf; set_solver.
Qed.

Lemma rmapM_Err_inv (f : A -> result E B) l e : rmapM f l = Err e -> exists x, x ∈ l /\ f x = Err e.
Proof.
  induction l as [|x l IH]; simpl; [done|]. destruct (f x) as [y|e'|] eqn:Hx; simpl; [|intros [= ->]; set_solver|done].
  destruct (rmapM f l) as [ys|e'|]; simpl; [done| |done]. intros [= ->]. destruct IH as (z & Hz & Hf); [done|]. set_solver.
Qed.

Lemma rmapM_no_panic (f : A -> result E B) l :
  (forall x, x ∈ l -> f x <> Panic) -> rmapM f l <> Panic.
Proof.
  induction l as [|x l IH]; simpl; [done|]. intros Hf Hp.
  apply rbind_Panic_inv in Hp as [Hp|(y & _ & Hp)]; [eapply Hf; [|done]; set_solver|].
  apply rbind_Panic_inv in Hp as [Hp|(? & _ & ?)]; [eapply IH; [|done]; set_solver|done].
Qed.

Lemma Forall2_zip (R : A -> B -> Prop) l k :
  Forall2 R l k -> Forall (fun p => R p.1 p.2) (zip l k).
Proof. induction 1; constructor; done. Qed.

(** [for i in start..start + len]: an indexed invariant that every iteration
    re-establishes shows that the loop finishes without error. *)
Lemma rfold_seq_ind (f : B -> nat -> result E B) (P : nat -> B -> Prop) start len acc :
  (forall i acc, (start <= i < start + len)%nat -> P i acc ->
     exists acc', f acc i = Ok acc' /\ P (S i) acc') ->
  P start acc ->
  exists acc', rfold f acc (seq start len) = Ok acc' /\ P (start + len)%nat acc'.
Proof.
  revert start acc; induction len as [|len IH]; intros start acc Hstep Hacc; simpl.
  { exists acc. by rewrite Nat.add_0_r. }
  destruct (Hstep start acc) as (acc1 & -> & H1); [lia|done|]. simpl.
  destruct (IH (S start) acc1) as (acc' & Hr & H'); [intros; apply Hstep; [lia|done]|done|].
  exists acc'. split; [done|]. by replace (start + S len)%nat with (S start + len)%nat by lia.
Qed.

(** [for x in l] without errors, with the processed prefix in the invariant. *)
Lemma foldl_prefix_ind (f : B -> A -> B) (P : list A -> B -> Prop) l acc :
  P [] acc ->
  (forall pre x acc, x ∈ l -> P pre acc -> P (pre ++ [x]) (f acc x)) ->
  P l (foldl f acc l).
Proof.
  intros H0 Hstep.
  cut (forall pre acc, P pre acc -> P (pre ++ l) (foldl f acc l)); [intros Hc; by apply (Hc [])|].
  clear H0 acc. induction l as [|x l IH]; intros pre acc Hp; simpl; [by rewrite app_nil_r|].
  rewrite (cons_middle x pre l), app_assoc. apply IH; [|apply Hstep; [set_solver|done]].
  intros; apply Hstep; [set_solver|done].
Qed.
End LoopLemmas.

(** [no_panic] shows that a monadic program without panics of its own returns. *)
Ltac no_panic_step :=
  match goal with
  | |- rbind _ _ <> Panic => apply rbind_no_panic; [|intros ? ?]
  | |- ensure _ _ <> Panic => apply ensure_no_panic
  | |- ok_or _ _ <> Panic => apply ok_or_no_panic
  | |- rmap_err _ _ <> Panic => apply rmap_err_no_panic
  | |- Ok _ <> Panic => discriminate
  | |- Err _ <> Panic => discriminate
  | |- (if ?b then _ else _) <> Panic => destruct b
  | |- (let '_ := ?p in _) <> Panic => destruct p
  | |- match ?o with Some _ => _ | None => _ end <> Panic => destruct o
  | |- rfold _ _ _ <> Panic => apply rfold_no_panic; intros
  | |- rmapM _ _ <> Panic => apply rmapM_no_panic; intros
  | H : Panic = Panic -> False |- _ => destruct H
  end.
Ltac no_panic := repeat (cbv beta zeta; no_panic_step).

(** [rinv] destructs every hypothesis that says a monadic program succeeded. *)
Ltac rinv_step :=
  match goal with
  | H : rbind _ _ = Ok _ |- _ =>
      let a := fresh "a" in let Ha := fresh "Hm" in
      apply rbind_Ok_inv in H as (a & Ha & H)
  | H : Ok _ = Ok _ |- _ => injection H as H
  | H : Err _ = Ok _ |- _ => discriminate H
  | H : Panic = Ok _ |- _ => discriminate H
  | H : ensure ?b _ = Ok _ |- _ =>
      let Hb := fresh "Hb" in destruct b eqn:Hb; [clear H|discriminate H]
  | H : ok_or ?o _ = Ok _ |- _ =>
      let Ho := fresh "Ho" in destruct o eqn:Ho; [|discriminate H]; cbn [ok_or] in H
  | H : or_panic ?o = Ok _ |- _ =>
      let Ho := fresh "Ho" in destruct o eqn:Ho; [|discriminate H]; cbn [or_panic] in H
  | H : rmap_err _ ?m = Ok _ |- _ =>
      let Ho := fresh "Hr" in destruct m eqn:Ho; cbn [rmap_err] in H; try discriminate H
  end.
Ltac rinv := repeat rinv_step; subst.

(** [bool_to_prop] turns boolean tests in the context into propositions. *)
Ltac bool_to_prop :=
  repeat match goal with
  | H : (_ && _)%bool = true |- _ => apply andb_true_iff in H as [? ?]
  | H : (_ || _)%bool = false |- _ => apply orb_false_iff in H as [? ?]
  | H : negb _ = true |- _ => apply negb_true_iff in H
  | H : negb _ = false |- _ => apply negb_false_iff in H
  | H : bool_decide _ = true |- _ => apply bool_decide_eq_true in H
  | H : bool_decide _ = false |- _ => apply bool_decide_eq_false in H
  | H : (_ <=? _) = true |- _ => apply Z.leb_le in H
  | H : (_ <=? _) = false |- _ => apply Z.leb_gt in H
  | H : (_ <? _) = true |- _ => apply Z.ltb_lt in H
  | H : (_ <? _) = false |- _ => apply Z.ltb_ge in H
  | H : (_ =? _) = true |- _ => apply Z.eqb_eq in H
  | H : (_ =? _) = false |- _ => apply Z.eqb_neq in H
  end.

(* ------------------------------------------------------------------ *)
(** ** Machine integers: shared lemmas                                 *)
(* ------------------------------------------------------------------ *)

Lemma pow2_pos w : 0 <= w -> 0 < 2 ^ w.
Proof. intros; apply Z.pow_pos_nonneg; lia. Qed.

Lemma wrap_u_small w x : in_u w x -> wrap_u w x = x.
Proof. intros; apply Z.mod_small; done. Qed.

Lemma wrap_u_range w x : 0 <= w -> in_u w (wrap_u w x).
Proof. intros; apply Z.mod_pos_bound, pow2_pos; lia. Qed.

Lemma wrap_s_small w x : 0 < w -> in_s w x -> wrap_s w x = x.
Proof.
  unfold in_s, wrap_s. intros Hw Hx.
  assert (2 ^ w = 2 * 2 ^ (w - 1)) as Hp.
  { rewrite <- Z.pow_succ_r by lia. f_equal; lia. }
  rewrite Z.mod_small by lia. lia.
Qed.

Lemma wrap_s_range w x : 0 < w -> in_s w (wrap_s w x).
Proof.
  unfold in_s, wrap_s. intros Hw.
  assert (2 ^ w = 2 * 2 ^ (w - 1)) as Hp.
  { rewrite <- Z.pow_succ_r by lia. f_equal; lia. }
  pose proof (Z.mod_pos_bound (x + 2 ^ (w - 1)) (2 ^ w) (pow2_pos w ltac:(lia))). lia.
Qed.

(** [as iN] undoes [as uN]. *)
Lemma wrap_s_wrap_u w x : 0 < w -> in_s w x -> wrap_s w (wrap_u w x) = x.
Proof.
  intros Hw Hx. rewrite <- (wrap_s_small w x) at 2 by done.
  unfold wrap_s, wrap_u. by rewrite Zplus_mod_idemp_l.
Qed.

Lemma sat_u_range w x : 0 <= w -> in_u w (sat_u w x).
Proof. intros Hw; pose proof (pow2_pos w Hw). unfold in_u, sat_u. lia. Qed.

Lemma sat_u_small w x : in_u w x -> sat_u w x = x.
Proof. unfold in_u, sat_u. lia. Qed.

Lemma sat_s_small w x : in_s w x -> sat_s w x = x.
Proof. unfold in_s, sat_s. lia. Qed.

Lemma sat_s_range w x : 0 < w -> in_s w (sat_s w x).
Proof. intros Hw; pose proof (pow2_pos (w - 1) ltac:(lia)). unfold in_s, sat_s. lia. Qed.

Lemma checked_s_Some w x y : checked_s w x = Some y <-> y = x /\ in_s w x.
Proof. unfold checked_s. case_decide; naive_solver. Qed.

Lemma checked_u_Some w x y : checked_u w x = Some y <-> y = x /\ in_u w x.
Proof. unfold checked_u. case_decide; naive_solver. Qed.

Lemma zlen_nonneg {A} (l : list A) : 0 <= zlen l.
Proof. unfold zlen; lia. Qed.

Lemma zlen_app {A} (l k : list A) : zlen (l ++ k) = zlen l + zlen k.
Proof. unfold zlen; rewrite length_app; lia. Qed.

Lemma zlen_cons {A} (x : A) l : zlen (x :: l) = zlen l + 1.
Proof. unfold zlen; simpl; lia. Qed.

Lemma usize_bits_range `{UsizeWidth} : 32 <= usize_bits <= 64.
Proof. destruct usize_bits_cases; lia. Qed.

#[export] Hint Resolve pow2_pos wrap_u_range sat_u_range zlen_nonneg : quip.
Create Rewrite HintDb quip_len.
#[export] Hint Rewrite @zlen_app @zlen_cons : quip_len.

(* ------------------------------------------------------------------ *)
(** ** Sums                                                            *)
(* ------------------------------------------------------------------ *)

(** [iter().sum()] over the integers. *)
Definition zsum (l : list Z) : Z := foldr Z.add 0 l.

Lemma zsum_app l k : zsum (l ++ k) = zsum l + zsum k.
Proof. unfold zsum. induction l; simpl; lia. Qed.

Lemma zsum_nonneg l : Forall (fun x => 0 <= x) l -> 0 <= zsum l.
Proof. unfold zsum. induction 1; simpl; lia. Qed.

Lemma zsum_repeat n x : zsum (replicate n x) = Z.of_nat n * x.
Proof. unfold zsum. induction n; simpl; lia. Qed.

Lemma zsum_Permutation l k : l ≡ₚ k -> zsum l = zsum k.
Proof. unfold zsum. induction 1; simpl; lia. Qed.

(* ------------------------------------------------------------------ *)
(** ** Big-endian bytes                                                *)
(* ------------------------------------------------------------------ *)

(** [to_be_bytes] of an [8 * n]-bit integer (its two's complement). *)
Fixpoint to_be_bytes (n : nat) (x : Z) : list Z :=
  match n with
  | O => []
  | S n => Z.shiftr x (8 * Z.of_nat n) mod 256 :: to_be_bytes n x
  end.

(** [from_be_bytes] of an unsigned integer. *)
Definition from_be_bytes (bytes : list Z) : Z := foldl (fun acc b => acc * 256 + b) 0 bytes.

Lemma to_be_bytes_length n x : length (to_be_bytes n x) = n.
Proof. induction n; simpl; congruence. Qed.

Lemma to_be_bytes_range n x : Forall (in_u 8) (to_be_bytes n x).
Proof. induction n; simpl; constructor; [|done]. apply Z.mod_pos_bound; lia. Qed.

#[local] Lemma from_be_bytes_acc n x acc :
  foldl (fun acc b => acc * 256 + b) acc (to_be_bytes n x) =
  acc * 2 ^ (8 * Z.of_nat n) + x mod 2 ^ (8 * Z.of_nat n).
Proof.
  revert acc; induction n as [|n IH]; intros acc; simpl.
  { rewrite Z.mod_1_r. lia. }
  rewrite IH, Z.shiftr_div_pow2 by lia.
  set (k := 2 ^ (8 * Z.of_nat n)).
  assert (0 < k) by (apply pow2_pos; lia).
  assert (2 ^ (8 * Z.of_nat (S n)) = k * 256) as ->.
  { replace (8 * Z.of_nat (S n)) with (8 * Z.of_nat n + 8) by lia. by rewrite Z.pow_add_r by lia. }
  rewrite (Z.rem_mul_r x k 256) by lia. lia.
Qed.

(** Encoding then decoding is reduction to the width. *)
Lemma from_to_be_bytes n x : from_be_bytes (to_be_bytes n x) = wrap_u (8 * Z.of_nat n) x.
Proof. unfold from_be_bytes, wrap_u. by rewrite from_be_bytes_acc, Z.mul_0_l, Z.add_0_l. Qed.

Lemma to_be_bytes_inj_u n x y :
  in_u (8 * Z.of_nat n) x -> in_u (8 * Z.of_nat n) y ->
  to_be_bytes n x = to_be_bytes n y -> x = y.
Proof.
  intros Hx Hy H. apply (f_equal from_be_bytes) in H.
  rewrite !from_to_be_bytes, !wrap_u_small in H by done. done.
Qed.

Lemma to_be_bytes_inj_s n x y :
  (0 < n)%nat -> in_s (8 * Z.of_nat n) x -> in_s (8 * Z.of_nat n) y ->
  to_be_bytes n x = to_be_bytes n y -> x = y.
Proof.
  intros Hn Hx Hy H. apply (f_equal from_be_bytes) in H. rewrite !from_to_be_bytes in H.
  transitivity (wrap_s (8 * Z.of_nat n) (wrap_u (8 * Z.of_nat n) x)); [symmetry|rewrite H];
    apply wrap_s_wrap_u; done || lia.
Qed.

(* ------------------------------------------------------------------ *)
(** ** Sums over finite maps                                           *)
(* ------------------------------------------------------------------ *)

Section MapSum.
Context {K A : Type} `{Countable K} (f : A -> Z).
Implicit Types m : gmap K A.

Definition msum m : Z := map_fold (fun _ a acc => f a + acc) 0 m.

Lemma msum_empty : msum ∅ = 0.
Proof. apply map_fold_empty. Qed.

Lemma msum_insert_fresh m k a : m !! k = None -> msum (<[k := a]> m) = f a + msum m.
Proof. intros Hk. unfold msum. rewrite (map_fold_insert_L (fun _ a acc => f a + acc)); [done|intros; lia|done]. Qed.

Lemma msum_insert m k a : msum (<[k := a]> m) = f a - from_option f 0 (m !! k) + msum m.
Proof.
  destruct (m !! k) as [b|] eqn:Hk; simpl; [|rewrite msum_insert_fresh by done; lia].
  rewrite <- (insert_delete_id m k b Hk) at 2. rewrite <- insert_delete_eq.
  rewrite !msum_insert_fresh by apply lookup_delete_eq. lia.
Qed.

Lemma msum_delete m k : msum (delete k m) = msum m - from_option f 0 (m !! k).
Proof.
  destruct (m !! k) as [b|] eqn:Hk; simpl; [|rewrite delete_id by done; lia].
  rewrite <- (insert_delete_id m k b Hk) at 2. rewrite msum_insert_fresh by apply lookup_delete_eq. lia.
Qed.

Lemma msum_nonneg m : (forall k a, m !! k = Some a -> 0 <= f a) -> 0 <= msum m.
Proof.
  induction m as [|k a m Hk IH] using map_ind; [rewrite msum_empty; lia|]. intros Hm.
  rewrite msum_insert_fresh by done. pose proof (Hm k a (lookup_insert_eq _ _ _)).
  assert (0 <= msum m); [|lia]. apply IH. intros k' a' Hk'. apply (Hm k'). rewrite lookup_insert_ne; [done|congruence].
Qed.

Lemma msum_lookup_le m k a : (forall k a, m !! k = Some a -> 0 <= f a) -> m !! k = Some a -> f a <= msum m.
Proof.
  intros Hm Hk. rewrite <- (insert_delete_id m k a Hk), msum_insert_fresh by apply lookup_delete_eq.
  assert (0 <= msum (delete k m)); [|lia]. apply msum_nonneg. intros k' a' [_ Hk']%lookup_delete_Some. eauto.
Qed.
End MapSum.

Lemma msum_fmap {K A} `{Countable K} (f : A -> Z) (m : gmap K A) : msum id (f <$> m) = msum f m.
Proof.
  induction m as [|k a m Hk IH] using map_ind; [by rewrite fmap_empty, !msum_empty|].
  rewrite fmap_insert, !msum_insert_fresh, IH; [done|done|]. by rewrite lookup_fmap, Hk.
Qed.

(** A list of pairs with distinct keys is a function. *)
Lemma NoDup_fst_functional {A B} (l : list (A * B)) k a b :
  NoDup l.*1 -> (k, a) ∈ l -> (k, b) ∈ l -> a = b.
Proof.
  intros Hnd [i Hi]%list_elem_of_lookup [j Hj]%list_elem_of_lookup.
  assert (i = j) as <-; [|by simplify_eq].
  eapply (NoDup_lookup l.*1); [done|by rewrite list_lookup_fmap, Hi|by rewrite list_lookup_fmap, Hj].
Qed.

(** A page of a sorted listing: sorted, within the listing, at most [n] long;
    what is not on it comes after everything on it, and then the page is
    full. *)
Lemma page_spec {A} (R : relation A) `{forall x y, Decision (R x y)} `{!Transitive R, !Total R} n (l : list A) :
  let page := take n (merge_sort R l) in
  StronglySorted R page /\ (forall x, x ∈ page -> x ∈ l) /\ (length page <= n)%nat /\ (NoDup l -> NoDup page) /\
  (forall x, x ∈ l -> x ∈ page \/ length page = n /\ Forall (fun y => R y x) page).
Proof.
  pose proof (StronglySorted_merge_sort R l) as Hsort. pose proof (merge_sort_Permutation R l) as Hperm.
  set (L := merge_sort R l) in *. simpl. split_and!.
  - rewrite <- (take_drop n L) in Hsort. by eapply StronglySorted_app_1_l.
  - intros x Hx. rewrite <- Hperm, <- (take_drop n L). apply elem_of_app. by left.
  - rewrite length_take. lia.
  - rewrite <- Hperm, <- (take_drop n L) at 1. by intros [? _]%NoDup_app.
  - intros x Hin. rewrite <- Hperm, <- (take_drop n L) in Hin. apply elem_of_app in Hin as [?|Hd]; [by left|right]. split.
    + apply list_elem_of_lookup in Hd as [i Hd]. apply lookup_lt_Some in Hd. rewrite length_drop in Hd. rewrite length_take. lia.
    + apply Forall_forall. intros y Hy. rewrite <- (take_drop n L) in Hsort.
      apply StronglySorted_app in Hsort as (Hcross & _ & _). by apply (Hcross y x).
Qed.
