(* ===== verification/Validation.v ===== *)
(** * Spins and topologies

    Models [crates/quantum-validation/src/errors.rs], [fixed.rs] and the
    structural half of [validation.rs]: the error type, the spin alphabet
    checks and [TopologyIndex], the node-id to position map every energy
    evaluation goes through.  [i8] spins, [u32] node ids and [i32] milli
    values are [Z]; [BTreeMap<u32, usize>] is a [gmap]. *)

From S2P Require Import Prelude.

(** [pub enum ValidationError] *)
Inductive ValidationError :=
  | EmptyNodes
  | EmptyFieldValues
  | EmptyAllowedValues
  | InvalidEncodedValue (raw : Z)
  | EncodingTooWide (bits : Z)
  | PackedSolutionLengthMismatch (expected actual : Z)
  | SolutionLengthMismatch (expected actual : Z)
  | FieldLengthMismatch (expected actual : Z)
  | EdgeWeightLengthMismatch (edges weights : Z)
  | InvalidSpinValue (index value : Z)
  | DuplicateNode (node : Z)
  | UnknownNodeInEdge (node : Z)
  | ArithmeticOverflow.

#[global] Instance ValidationError_eq_dec : EqDecision ValidationError.
Proof. solve_decision. Defined.

(** A validation routine returns a value or a [ValidationError]. *)
Abbreviation vresult := (result ValidationError).

Definition MILLI_SCALE : Z := 1000.

(** [(numerator + denominator / 2) / denominator] on [u64]; division by zero
    panics in the release build too. *)
Definition round_div_u64 {E} (numerator denominator : Z) : result E Z :=
  if denominator =? 0 then Panic
  else Ok (wrap_u 64 (numerator + denominator / 2) / denominator).

(** [matches!(spin, -1 | 1)] *)
Definition is_spin (s : Z) : bool := (s =? -1) || (s =? 1).

Definition validate_spins (spins : list Z) : bool := forallb is_spin spins.

Definition validate_solution_set (solutions : list (list Z)) (expected_len : Z) : bool :=
  forallb (fun spins => (zlen spins =? expected_len) && validate_spins spins) solutions.

(** The [enumerate] loop of [ensure_valid_spins], from position [index]. *)
Fixpoint ensure_valid_spins_from (index : Z) (spins : list Z) : vresult unit :=
  match spins with
  | [] => Ok tt
  | spin :: spins =>
      if is_spin spin then ensure_valid_spins_from (index + 1) spins
      else Err (InvalidSpinValue index spin)
  end.
Definition ensure_valid_spins (spins : list Z) : vresult unit :=
  ensure_valid_spins_from 0 spins.

Module TopologyIndex.

Record t := mk { positions : gmap Z nat }.

(** The first loop of [TopologyIndex::new]: insert each node at its position,
    rejecting a node that is already present. *)
Fixpoint insert_nodes (position : nat) (nodes : list Z) (positions : gmap Z nat)
    : vresult (gmap Z nat) :=
  match nodes with
  | [] => Ok positions
  | node :: nodes =>
      match positions !! node with
      | Some _ => Err (DuplicateNode node)
      | None => insert_nodes (S position) nodes (<[node := position]> positions)
      end
  end.

(** The second loop: both endpoints of every edge must be known. *)
Fixpoint check_edges (positions : gmap Z nat) (edges : list (Z * Z)) : vresult unit :=
  match edges with
  | [] => Ok tt
  | (u, v) :: edges =>
      if bool_decide (positions !! u = None) then Err (UnknownNodeInEdge u)
      else if bool_decide (positions !! v = None) then Err (UnknownNodeInEdge v)
      else check_edges positions edges
  end.

Definition new (nodes : list Z) (edges : list (Z * Z)) : vresult t :=
  positions <-? insert_nodes 0 nodes ∅;;
  check_edges positions edges;;?
  Ok (mk positions).

Definition len (topology : t) : Z := Z.of_nat (size (positions topology)).

Definition position (topology : t) (node : Z) : option nat := positions topology !! node.

(** *** What the index promises *)

(** [topology] indexes [nodes]: distinct nodes, each at its own position. *)
Definition indexes (topology : t) (nodes : list Z) : Prop :=
  NoDup nodes /\ forall node i, position topology node = Some i <-> nodes !! i = Some node.

(** Every edge joins two nodes of the list. *)
Definition edges_known (nodes : list Z) (edges : list (Z * Z)) : Prop :=
  Forall (fun e => e.1 ∈ nodes /\ e.2 ∈ nodes) edges.

#[local] Lemma insert_nodes_Ok k nodes m m' :
  insert_nodes k nodes m = Ok m' ->
  NoDup nodes /\ (forall x, x ∈ nodes -> m !! x = None) /\
  forall x i, m' !! x = Some i <->
    m !! x = Some i \/ exists j, i = (k + j)%nat /\ nodes !! j = Some x.
Proof.
  revert k m; induction nodes as [|n nodes IH]; intros k m; simpl.
  { intros [= ->]. split_and!; [constructor|set_solver|]. intros x i. split; [naive_solver|].
    intros [?|(j & ? & ?)]; [done|]. by destruct j. }
  destruct (m !! n) eqn:Hn; [done|]. intros (Hnd & Hfresh & Hm')%IH.
  assert (n ∉ nodes) as Hnin.
  { intros Hin. specialize (Hfresh n Hin). by rewrite lookup_insert_eq in Hfresh. }
  split_and!; [by constructor| |].
  { intros x [->|Hx]%elem_of_cons; [done|]. specialize (Hfresh x Hx).
    by apply lookup_insert_None in Hfresh as [? _]. }
  intros x i. rewrite Hm', lookup_insert_Some. split.
  - intros [[[<- <-]|[? ?]]|(j & -> & ?)]; [|by left|].
    + right. exists 0%nat. split; [lia|done].
    + right. exists (S j). split; [lia|done].
  - intros [Hx|([|j] & -> & Hj)]; [left|left|right].
    + right. split; [by intros ->; congruence|done].
    + simplify_eq/=. left. split; [done|lia].
    + exists j. split; [lia|done].
Qed.

#[local] Lemma insert_nodes_complete k nodes m :
  NoDup nodes -> (forall x, x ∈ nodes -> m !! x = None) ->
  exists m', insert_nodes k nodes m = Ok m'.
Proof.
  intros Hnd; revert k m; induction Hnd as [|n nodes Hn Hnd IH]; intros k m Hm; simpl; [eauto|].
  rewrite (Hm n) by set_solver. apply IH. intros x Hx.
  rewrite lookup_insert_ne by (intros ->; done). apply Hm. set_solver.
Qed.

#[local] Lemma check_edges_Ok m edges :
  check_edges m edges = Ok tt <->
  Forall (fun e => is_Some (m !! e.1) /\ is_Some (m !! e.2)) edges.
Proof.
  induction edges as [|[u v] edges IH]; simpl; [by split|].
  rewrite Forall_cons, <- IH; simpl. rewrite <- !not_eq_None_Some.
  repeat case_bool_decide; naive_solver.
Qed.

Lemma new_Ok nodes edges topology :
  new nodes edges = Ok topology -> indexes topology nodes /\ edges_known nodes edges.
Proof.
  unfold new. intros H. rinv. destruct a0.
  apply insert_nodes_Ok in Hm as (Hnd & _ & Hm).
  assert (forall x i, a !! x = Some i <-> nodes !! i = Some x) as Hpos.
  { intros x i. rewrite Hm, lookup_empty. naive_solver. }
  split; [by split|].
  apply check_edges_Ok in Hm0. eapply Forall_impl; [exact Hm0|].
  intros [u v] [[i Hi] [j Hj]]; simpl in *.
  rewrite Hpos in Hi, Hj. split; eapply list_elem_of_lookup_2; eauto.
Qed.

Lemma new_complete nodes edges :
  NoDup nodes -> edges_known nodes edges -> exists topology, new nodes edges = Ok topology.
Proof.
  intros Hnd Hedges. unfold new.
  destruct (insert_nodes_complete 0 nodes ∅ Hnd) as [m Hm]; [intros; apply lookup_empty|].
  rewrite Hm; simpl.
  pose proof (insert_nodes_Ok _ _ _ _ Hm) as (_ & _ & Hpos).
  assert (check_edges m edges = Ok tt) as ->; [|simpl; eauto].
  apply check_edges_Ok. eapply Forall_impl; [exact Hedges|].
  intros [u v] [[i Hi]%list_elem_of_lookup [j Hj]%list_elem_of_lookup]; simpl in *.
  split; [exists i|exists j]; apply Hpos; right; eexists; split; eauto.
Qed.

#[local] Lemma insert_nodes_Err k nodes m e :
  insert_nodes k nodes m = Err e -> exists n, e = DuplicateNode n /\ n ∈ nodes /\ (is_Some (m !! n) \/ ~ NoDup nodes).
Proof.
  revert k m; induction nodes as [|n nodes IH]; intros k m; simpl; [done|].
  destruct (m !! n) eqn:Hn.
  { intros [= <-]. exists n. split_and!; [done|set_solver|left; eauto]. }
  intros (x & -> & Hx & Hor)%IH. exists x. split_and!; [done|set_solver|].
  destruct Hor as [Hsome|Hnd]; [|right; inversion 1; naive_solver].
  destruct (decide (x = n)) as [->|Hne]; [right; inversion 1; naive_solver|].
  left. by rewrite lookup_insert_ne in Hsome.
Qed.

(** The index never panics and its only errors are the two it documents. *)
Lemma new_Err nodes edges e :
  new nodes edges = Err e ->
  (exists n, e = DuplicateNode n /\ n ∈ nodes /\ ~ NoDup nodes) \/
  (exists n, e = UnknownNodeInEdge n /\ n ∉ nodes /\
     exists edge, edge ∈ edges /\ (n = edge.1 \/ n = edge.2)).
Proof.
  unfold new. intros [Hi|(m & Hi & Hc)]%rbind_Err_inv.
  { left. apply insert_nodes_Err in Hi as (n & -> & Hn & [[? Hs]|?]); [|eauto].
    by rewrite lookup_empty in Hs. }
  right. apply rbind_Err_inv in Hc as [Hc|(? & _ & ?)]; [|done].
  pose proof (insert_nodes_Ok _ _ _ _ Hi) as (_ & _ & Hpos).
  assert (forall x, m !! x = None -> x ∉ nodes) as Hnone.
  { intros x Hx [i Hin]%list_elem_of_lookup.
    assert (m !! x = Some i); [|congruence]. apply Hpos. right. eauto. }
  clear Hi Hpos. induction edges as [|[u v] edges IH]; simpl in *; [done|].
  repeat case_bool_decide; simplify_eq/=.
  - exists u. split_and!; [done|by apply Hnone|]. exists (u, v). set_solver.
  - exists v. split_and!; [done|by apply Hnone|]. exists (u, v). set_solver.
  - apply IH in Hc as (n & -> & ? & edge & ? & ?). exists n. split_and!; [done..|].
    exists edge. set_solver.
Qed.

Lemma new_no_panic nodes edges : new nodes edges <> Panic.
Proof.
  assert (forall k m, insert_nodes k nodes m <> Panic) as Hn.
  { induction nodes as [|n nodes IH]; intros k m; simpl; [done|]. by destruct (m !! n). }
  assert (forall m, check_edges m edges <> Panic) as He.
  { intros m. induction edges as [|[u v] edges IH]; simpl; [done|]. by repeat case_bool_decide. }
  unfold new. intros [?|(? & _ & [?|(? & _ & ?)]%rbind_Panic_inv)]%rbind_Panic_inv; naive_solver.
Qed.

Lemma indexes_len topology nodes : indexes topology nodes -> len topology = zlen nodes.
Proof.
  intros [Hnd Hpos]. unfold len, zlen, position in *. f_equal.
  assert (positions topology = list_to_map (zip nodes (seq 0 (length nodes)))) as ->.
  { apply map_eq. intros x. apply option_eq. intros i. rewrite Hpos.
    rewrite <- elem_of_list_to_map by (rewrite fst_zip; [done|by rewrite length_seq]).
    rewrite elem_of_lookup_zip_with. setoid_rewrite lookup_seq. split.
    - intros Hi. exists i, x, i. pose proof (lookup_lt_Some _ _ _ Hi). split_and!; try done; lia.
    - naive_solver. }
  rewrite map_size_list_to_map by (rewrite fst_zip; [done|by rewrite length_seq]).
  rewrite length_zip, length_seq. lia.
Qed.

Lemma indexes_lt topology nodes node i :
  indexes topology nodes -> position topology node = Some i -> (i < length nodes)%nat.
Proof. intros [_ Hpos] Hi. apply Hpos in Hi. by eapply lookup_lt_Some. Qed.

Lemma indexes_known topology nodes node :
  indexes topology nodes -> node ∈ nodes -> exists i, position topology node = Some i.
Proof. intros [_ Hpos] [i Hi]%list_elem_of_lookup. exists i. by apply Hpos. Qed.

End TopologyIndex.

(** *** Spins *)

Lemma is_spin_iff s : is_spin s = true <-> s = 1 \/ s = -1.
Proof. unfold is_spin. rewrite orb_true_iff, !Z.eqb_eq. lia. Qed.

Lemma validate_spins_iff spins :
  validate_spins spins = true <-> Forall (fun s => s = 1 \/ s = -1) spins.
Proof.
  unfold validate_spins. rewrite forallb_forall, Forall_forall.
  setoid_rewrite is_spin_iff. by setoid_rewrite list_elem_of_In.
Qed.

Lemma ensure_valid_spins_from_Ok index spins :
  ensure_valid_spins_from index spins = Ok tt <-> Forall (fun s => s = 1 \/ s = -1) spins.
Proof.
  revert index; induction spins as [|s spins IH]; intros index; simpl; [by split|].
  rewrite Forall_cons, <- is_spin_iff. destruct (is_spin s).
  - rewrite IH. naive_solver.
  - naive_solver.
Qed.

Lemma ensure_valid_spins_Ok spins :
  ensure_valid_spins spins = Ok tt <-> Forall (fun s => s = 1 \/ s = -1) spins.
Proof. apply ensure_valid_spins_from_Ok. Qed.

(** The error names the first value outside the alphabet. *)
Lemma ensure_valid_spins_Err spins e :
  ensure_valid_spins spins = Err e ->
  exists i v, e = InvalidSpinValue (Z.of_nat i) v /\ spins !! i = Some v /\ is_spin v = false /\
    validate_spins (take i spins) = true.
Proof.
  unfold ensure_valid_spins.
  cut (forall k, ensure_valid_spins_from k spins = Err e ->
    exists i v, e = InvalidSpinValue (k + Z.of_nat i) v /\ spins !! i = Some v /\
      is_spin v = false /\ validate_spins (take i spins) = true).
  { intros H He. destruct (H 0 He) as (i & v & -> & ?). by exists i, v. }
  induction spins as [|s spins IH]; intros k; simpl; [done|].
  destruct (is_spin s) eqn:Hs.
  - intros (i & v & -> & ? & ? & ?)%IH. exists (S i), v. simpl. rewrite Hs.
    split_and!; [f_equal; lia|done..].
  - intros [= <-]. exists 0%nat, s. split_and!; [f_equal; lia|done..].
Qed.

Lemma ensure_valid_spins_no_panic spins : ensure_valid_spins spins <> Panic.
Proof.
  unfold ensure_valid_spins. generalize 0. induction spins as [|s spins IH]; intros k; simpl; [done|].
  by destruct (is_spin s).
Qed.

Lemma round_div_u64_Ok {E} n d :
  0 < d -> @round_div_u64 E n d = Ok (wrap_u 64 (n + d / 2) / d).
Proof. intros Hd. unfold round_div_u64. by rewrite (proj2 (Z.eqb_neq d 0)) by lia. Qed.
