(* ===== verification/PuzzleSpec.v ===== *)
(** * Allowed-value specs

    Models [crates/quantum-validation/src/puzzle_spec.rs]: the three spec
    variants, their bit width, decoding, nonce-seeded sampling and the
    canonical bytes that enter a topology's hash. *)

From S2P Require Import Prelude Validation.

Definition MAX_INDEXED_BITS : Z := 8.

(** [enum AllowedValueSpec<Set>]; every storage of [Set] is read through
    [as_slice], so the model keeps the slice. *)
Inductive AllowedValueSpec :=
  | SetSpec (values : list Z)
  | IntegerRange (min max : Z)
  | ContinuousRange (min max : Z).

#[global] Instance AllowedValueSpec_eq_dec : EqDecision AllowedValueSpec.
Proof. solve_decision. Defined.

(** The [rand_core::RngCore] operation sampling draws from. *)
Class RngCore (R : Type) := next_u32 : R -> Z * R.

(** [next_u32] returns a [u32]. *)
Class RngCoreLaws (R : Type) `{RngCore R} :=
  next_u32_range : forall rng : R, in_u 32 (next_u32 rng).1.

(** [u64::leading_zeros] *)
Definition leading_zeros_u64 (x : Z) : Z := if x =? 0 then 64 else 63 - Z.log2 x.

Definition bits_for_count (count : Z) : Z :=
  if (count =? 0) || (count =? 1) then 1 else 64 - leading_zeros_u64 (count - 1).

Definition check_indexed_bits (bits : Z) : vresult unit :=
  if MAX_INDEXED_BITS <? bits then Err (EncodingTooWide bits) else Ok tt.

(** [(max as i64 - min as i64 + 1) as u64] *)
Definition range_span (min max : Z) : Z := wrap_u 64 (max - min + 1).

Definition bits_per_value (spec : AllowedValueSpec) : vresult Z :=
  match spec with
  | SetSpec values =>
      if bool_decide (values = []) then Err EmptyAllowedValues else
      let bits := bits_for_count (zlen values) in
      check_indexed_bits bits;;?
      Ok bits
  | IntegerRange min max =>
      if max <? min then Err EmptyAllowedValues else
      let bits := bits_for_count (range_span min max) in
      check_indexed_bits bits;;?
      let scaled_min := sat_s 64 (min * MILLI_SCALE) in
      let scaled_max := sat_s 64 (max * MILLI_SCALE) in
      if (scaled_min <? - 2 ^ 31) || (2 ^ 31 - 1 <? scaled_max) then Err ArithmeticOverflow
      else Ok bits
  | ContinuousRange min max =>
      if max <? min then Err EmptyAllowedValues else Ok 32
  end.

Definition decode_value (spec : AllowedValueSpec) (raw : Z) : vresult Z :=
  match spec with
  | SetSpec values => ok_or (values !! Z.to_nat raw) (InvalidEncodedValue raw)
  | IntegerRange min max =>
      let span := range_span min max in
      if span <=? raw then Err (InvalidEncodedValue raw) else
      let value := sat_s 64 (min + raw) in
      ok_or (checked_s 32 (sat_s 64 (value * MILLI_SCALE))) ArithmeticOverflow
  | ContinuousRange min max =>
      let value := wrap_s 32 raw in
      if (value <? min) || (max <? value) then Err (InvalidEncodedValue raw) else Ok value
  end.

(** [sample]: the drawn value and the advanced generator. *)
Definition sample `{RngCore R} (spec : AllowedValueSpec) (rng : R) : vresult (Z * R) :=
  match spec with
  | SetSpec values =>
      if bool_decide (values = []) then Err EmptyAllowedValues else
      let '(x, rng) := next_u32 rng in
      let index := x mod zlen values in
      v <-? or_panic (values !! Z.to_nat index);;
      Ok (v, rng)
  | IntegerRange min max =>
      if max <? min then Err EmptyAllowedValues else
      let span := range_span min max in
      let '(x, rng) := next_u32 rng in
      let offset := x mod span in
      v <-? decode_value spec (wrap_u 32 offset);;
      Ok (v, rng)
  | ContinuousRange min max =>
      if max <? min then Err EmptyAllowedValues else
      let span := range_span min max in
      let '(x, rng) := next_u32 rng in
      let offset := x mod span in
      let value := sat_s 64 (min + offset) in
      Ok (wrap_s 32 value, rng)
  end.

(** [values.windows(2).all(|pair| pair[0] <= pair[1])] *)
Fixpoint windows_sorted (values : list Z) : bool :=
  match values with
  | x :: (y :: _) as rest => (x <=? y) && windows_sorted rest
  | _ => true
  end.

(** [sort_unstable]; equal integers are indistinguishable, so every sort
    gives the same list. *)
Definition sort_values (values : list Z) : list Z := merge_sort Z.le values.

Definition canonical_bytes (spec : AllowedValueSpec) : list Z :=
  match spec with
  | SetSpec values =>
      0 :: (if windows_sorted values then values ≫= to_be_bytes 4
            else sort_values values ≫= to_be_bytes 4)
  | IntegerRange min max => 1 :: to_be_bytes 4 min ++ to_be_bytes 4 max
  | ContinuousRange min max => 2 :: to_be_bytes 4 min ++ to_be_bytes 4 max
  end.

(** ** Meaning of a spec *)

(** The values are [i32]s and a stored list is a Rust slice. *)
Definition spec_typed (spec : AllowedValueSpec) : Prop :=
  match spec with
  | SetSpec values => Forall (in_s 32) values /\ in_u 32 (zlen values)
  | IntegerRange min max | ContinuousRange min max => in_s 32 min /\ in_s 32 max
  end.

(** The milli values a spec allows. *)
Definition allowed (spec : AllowedValueSpec) (v : Z) : Prop :=
  match spec with
  | SetSpec values => v ∈ values
  | IntegerRange min max => exists i, min <= i <= max /\ v = i * MILLI_SCALE
  | ContinuousRange min max => min <= v <= max
  end.

(** How many encodings an indexed spec has. *)
Definition spec_count (spec : AllowedValueSpec) : Z :=
  match spec with
  | SetSpec values => zlen values
  | IntegerRange min max | ContinuousRange min max => max - min + 1
  end.

(** Specs that denote the same sampling set up to the order of a [Set]. *)
Inductive spec_equiv : AllowedValueSpec -> AllowedValueSpec -> Prop :=
  | spec_equiv_set vs ws : vs ≡ₚ ws -> spec_equiv (SetSpec vs) (SetSpec ws)
  | spec_equiv_int min max : spec_equiv (IntegerRange min max) (IntegerRange min max)
  | spec_equiv_cont min max : spec_equiv (ContinuousRange min max) (ContinuousRange min max).

#[export] Instance spec_equiv_equivalence : Equivalence spec_equiv.
Proof.
  split.
  - intros []; constructor; done.
  - intros ? ? []; constructor; done.
  - intros ? ? ? [] H2; inversion H2; subst; constructor; by etrans.
Qed.

(** ** Bit widths *)

Lemma bits_for_count_spec count :
  1 <= count < 2 ^ 64 ->
  1 <= bits_for_count count <= 64 /\ count <= 2 ^ bits_for_count count /\
  (1 < bits_for_count count -> 2 ^ (bits_for_count count - 1) < count).
Proof.
  intros Hc. unfold bits_for_count, leading_zeros_u64.
  destruct (decide (count = 1)) as [->|Hne]; [simpl; lia|].
  rewrite (proj2 (Z.eqb_neq count 0)), (proj2 (Z.eqb_neq count 1)) by lia. simpl.
  rewrite (proj2 (Z.eqb_neq (count - 1) 0)) by lia.
  pose proof (Z.log2_spec (count - 1) ltac:(lia)) as [Hlo Hhi].
  pose proof (Z.log2_nonneg (count - 1)).
  assert (Z.log2 (count - 1) < 64) by (apply Z.log2_lt_pow2; lia).
  replace (64 - (63 - Z.log2 (count - 1))) with (Z.succ (Z.log2 (count - 1))) by lia.
  replace (Z.succ (Z.log2 (count - 1)) - 1) with (Z.log2 (count - 1)) by lia.
  split_and!; lia.
Qed.

Lemma range_span_exact min max :
  in_s 32 min -> in_s 32 max -> min <= max -> range_span min max = max - min + 1.
Proof. unfold in_s. intros. apply wrap_u_small. unfold in_u. lia. Qed.

Lemma check_indexed_bits_Ok bits : check_indexed_bits bits = Ok tt <-> bits <= 8.
Proof. unfold check_indexed_bits, MAX_INDEXED_BITS. case_match; bool_to_prop; naive_solver lia. Qed.

(** A registered spec has a width its index fits in; only a [ContinuousRange]
    uses the raw 32-bit encoding. *)
Lemma bits_per_value_Ok spec b :
  spec_typed spec -> bits_per_value spec = Ok b ->
  (b = 32 /\ (exists min max, spec = ContinuousRange min max /\ min <= max)) \/
  (1 <= b <= 8 /\ 1 <= spec_count spec <= 2 ^ b /\ (1 < b -> 2 ^ (b - 1) < spec_count spec) /\
   forall v, allowed spec v -> in_s 32 v).
Proof.
  destruct spec as [values|min max|min max]; simpl; intros [H1 H2] Hb.
  - right. case_bool_decide as Hne; [done|]. rinv. destruct a. apply check_indexed_bits_Ok in Hm.
    assert (1 <= zlen values) by (destruct values; [done|rewrite zlen_cons; pose proof (zlen_nonneg values); lia]).
    unfold in_u in H2.
    pose proof (bits_for_count_spec (zlen values) ltac:(lia)) as (? & ? & ?).
    split_and!; try lia. intros v Hv. by eapply Forall_forall in H1.
  - right. destruct (max <? min) eqn:Hlt; bool_to_prop; [done|].
    rewrite range_span_exact in Hb by done. rinv. destruct a. apply check_indexed_bits_Ok in Hm.
    destruct (_ || _) eqn:Hsc; [done|]. rinv. bool_to_prop.
    unfold in_s in H1, H2. unfold MILLI_SCALE in *.
    rewrite sat_s_small in H, H0 by (unfold in_s; lia).
    pose proof (bits_for_count_spec (max - min + 1) ltac:(lia)) as (? & ? & ?).
    split_and!; try lia. intros v (i & Hi & ->). unfold in_s, MILLI_SCALE. lia.
  - left. destruct (max <? min) eqn:Hlt; bool_to_prop; [done|]. rinv. split; [done|eauto].
Qed.

(** ** Decoding *)

Lemma decode_value_allowed spec raw v :
  spec_typed spec -> 1 <= spec_count spec -> 0 <= raw ->
  decode_value spec raw = Ok v -> allowed spec v.
Proof.
  destruct spec as [values|min max|min max]; simpl; intros [H1 H2] Hc Hraw Hd.
  - rinv. by eapply list_elem_of_lookup_2.
  - rewrite range_span_exact in Hd by (done || lia).
    destruct (_ <=? _) eqn:Hs; [done|]. rinv. bool_to_prop.
    apply checked_s_Some in Ho as [-> Hin]. unfold in_s in H1, H2.
    rewrite (sat_s_small 64 (min + raw)) by (unfold in_s; lia).
    rewrite sat_s_small by (unfold in_s, MILLI_SCALE; lia).
    exists (min + raw). split; [lia|done].
  - destruct (_ || _) eqn:Hs; [done|]. rinv. bool_to_prop. lia.
Qed.

(** An in-range index of an integer range decodes to that integer. *)
Lemma decode_value_integer min max raw :
  in_s 32 min -> in_s 32 max -> 0 <= raw -> min + raw <= max ->
  in_s 32 ((min + raw) * MILLI_SCALE) ->
  decode_value (IntegerRange min max) raw = Ok ((min + raw) * MILLI_SCALE).
Proof.
  intros Hmin Hmax Hr Hle Hfit. simpl. rewrite range_span_exact by (done || lia).
  rewrite (proj2 (Z.leb_gt _ _)) by lia. unfold in_s in Hmin, Hmax.
  rewrite (sat_s_small 64 (min + raw)) by (unfold in_s; lia).
  rewrite sat_s_small by (unfold in_s, MILLI_SCALE; lia).
  unfold checked_s. by rewrite decide_True.
Qed.

(** ** Sampling *)

(** A spec that passed registration always yields an allowed value, and
    neither fails nor panics. *)
Lemma sample_total `{RngCoreLaws R} spec b (rng : R) :
  spec_typed spec -> bits_per_value spec = Ok b ->
  exists v, sample spec rng = Ok (v, (next_u32 rng).2) /\ allowed spec v.
Proof.
  intros Ht Hb. pose proof (bits_per_value_Ok _ _ Ht Hb) as Hw.
  pose proof (next_u32_range rng) as Hx. unfold sample.
  destruct (next_u32 rng) as [x rng'] eqn:Hr; simpl in *. unfold in_u in Hx.
  destruct spec as [values|min max|min max]; simpl in *; destruct Ht as [H1 H2].
  - case_bool_decide; [done|]. destruct Hw as [(_ & ? & ? & ? & _)|(_ & Hc & _)]; [done|].
    pose proof (Z.mod_pos_bound x (zlen values) ltac:(lia)).
    destruct (values !! Z.to_nat (x mod zlen values)) as [v|] eqn:Hv.
    + exists v. split; [done|]. by eapply list_elem_of_lookup_2.
    + apply lookup_ge_None in Hv. unfold zlen in *. lia.
  - destruct Hw as [(_ & ? & ? & ? & _)|(Hb8 & Hc & _ & Hfit)]; [done|].
    destruct (max <? min) eqn:?; [done|]. bool_to_prop. rewrite range_span_exact by (done || lia).
    pose proof (Z.mod_pos_bound x (max - min + 1) ltac:(lia)).
    unfold in_s in H1, H2. rewrite wrap_u_small by (unfold in_u; lia).
    assert (in_s 32 ((min + x mod (max - min + 1)) * MILLI_SCALE)) as Hf.
    { apply Hfit. eexists; split; [|done]. lia. }
    pose proof (decode_value_integer min max (x mod (max - min + 1)) H1 H2 ltac:(lia) ltac:(lia) Hf) as Hd.
    simpl in Hd. rewrite range_span_exact in Hd by (done || lia). rewrite Hd. simpl. eexists; split; [done|]. eexists; split; [|done]. lia.
  - destruct (max <? min) eqn:?; [done|]. bool_to_prop. rewrite range_span_exact by (done || lia).
    pose proof (Z.mod_pos_bound x (max - min + 1) ltac:(lia)). unfold in_s in H1, H2.
    rewrite sat_s_small by (unfold in_s; lia). rewrite wrap_s_small by (unfold in_s; lia).
    eexists; split; [done|]. lia.
Qed.

(** ** Canonical bytes *)

#[local] Lemma windows_sorted_iff values : windows_sorted values = true -> StronglySorted Z.le values.
Proof.
  intros H. apply Sorted_StronglySorted; [intros ???; lia|].
  induction values as [|x [|y values] IH]; [constructor|repeat constructor|].
  simpl in H. bool_to_prop. constructor; [by apply IH|]. by constructor.
Qed.

(** Both branches of the [Set] case write the sorted values. *)
Lemma canonical_bytes_set values :
  canonical_bytes (SetSpec values) = 0 :: (sort_values values ≫= to_be_bytes 4).
Proof.
  simpl. destruct (windows_sorted values) eqn:Hs; [|done]. do 2 f_equal.
  apply (StronglySorted_unique Z.le).
  - by apply windows_sorted_iff.
  - apply Sorted_StronglySorted; [intros ???; lia|]. apply Sorted_merge_sort. intros ??; lia.
  - unfold sort_values. by rewrite merge_sort_Permutation.
Qed.

#[local] Lemma bind_be_bytes_inj vs ws :
  Forall (in_s 32) vs -> Forall (in_s 32) ws ->
  vs ≫= to_be_bytes 4 = ws ≫= to_be_bytes 4 -> vs = ws.
Proof.
  intros Hvs; revert ws; induction Hvs as [|v vs Hv Hvs IH]; intros ws Hws Heq.
  { destruct ws; [done|]. apply (f_equal length) in Heq. by rewrite bind_cons, length_app in Heq. }
  destruct Hws as [|w ws Hw Hws].
  { apply (f_equal length) in Heq. by rewrite bind_cons, length_app in Heq. }
  rewrite !bind_cons in Heq. apply app_inj_1 in Heq as [Hvw Heq]; [|by rewrite !to_be_bytes_length].
  f_equal; [|by apply IH]. by apply (to_be_bytes_inj_s 4 v w ltac:(lia)).
Qed.

#[local] Lemma range_bytes_inj (tag a b c d : Z) :
  tag :: to_be_bytes 4 a ++ to_be_bytes 4 b = tag :: to_be_bytes 4 c ++ to_be_bytes 4 d ->
  in_s 32 a /\ in_s 32 b -> in_s 32 c /\ in_s 32 d -> a = c /\ b = d.
Proof.
  intros Heq [Ha Hb] [Hc Hd]. apply (f_equal tail) in Heq. cbn [tail] in Heq.
  apply app_inj_1 in Heq as [H1 H2]; [|by rewrite !to_be_bytes_length].
  split; (apply (to_be_bytes_inj_s 4); [lia|done..]).
Qed.

Lemma sort_values_equiv vs ws : vs ≡ₚ ws <-> sort_values vs = sort_values ws.
Proof.
  unfold sort_values. split; intros H.
  - apply (StronglySorted_unique Z.le).
    1-2: apply Sorted_StronglySorted; [intros ???; lia|]; apply Sorted_merge_sort; intros ??; lia.
    by rewrite !merge_sort_Permutation.
  - by rewrite <- (merge_sort_Permutation Z.le vs), H, merge_sort_Permutation.
Qed.

(** Two specs share their canonical bytes exactly when they denote the same
    sampling set. *)
Lemma canonical_bytes_iff s1 s2 :
  spec_typed s1 -> spec_typed s2 ->
  canonical_bytes s1 = canonical_bytes s2 <-> spec_equiv s1 s2.
Proof.
  intros H1 H2. split.
  - destruct s1 as [vs|a b|a b], s2 as [ws|c d|c d];
      try (rewrite ?canonical_bytes_set; simpl; intros [=]; done).
    + rewrite !canonical_bytes_set. intros [= Heq]. constructor. apply sort_values_equiv.
      destruct H1 as [H1 _], H2 as [H2 _].
      apply bind_be_bytes_inj; unfold sort_values; [by rewrite merge_sort_Permutation..|done].
    + intros [-> ->]%range_bytes_inj; [constructor|done..].
    + intros [-> ->]%range_bytes_inj; [constructor|done..].
  - intros [vs ws Hp|min max|min max]; [|done|done].
    rewrite !canonical_bytes_set. by rewrite (proj1 (sort_values_equiv vs ws) Hp).
Qed.
