(* ===== verification/Packed.v ===== *)
(** * Bit-packed solution payloads

    Models [crates/quantum-validation/src/packed.rs].  Bytes are [Z] values in
    [[0, 256)]; [usize] arithmetic is kept at the platform's width.  The main
    result is that [unpack_solution] inverts [pack_solution] for every spec. *)

From S2P Require Import Prelude Validation PuzzleSpec.

Section Packed.
Context `{UsizeWidth}.

Definition packed_solution_byte_len (num_spins : Z) (spec : AllowedValueSpec) : vresult Z :=
  bits_per_spin <-? bits_per_value spec;;
  Ok (sat_usize (sat_usize (num_spins * bits_per_spin) + 7) / 8).

(** One iteration of the [decode_indexed] loop. *)
Definition decode_indexed_at (packed : list Z) (bits_per_spin : Z) (spec : AllowedValueSpec)
    (spin_index : Z) : vresult Z :=
  let mask := if bits_per_spin =? 32 then 2 ^ 32 - 1 else 2 ^ bits_per_spin - 1 in
  let bit_offset := wrap_usize (spin_index * bits_per_spin) in
  let byte_index := bit_offset / 8 in
  let intra_byte := bit_offset mod 8 in
  b0 <-? or_panic (packed !! Z.to_nat byte_index);;
  let b1 := default 0 (packed !! Z.to_nat (byte_index + 1)) in
  let raw := Z.land (Z.shiftr (Z.lor b0 (Z.shiftl b1 8)) intra_byte) mask in
  decode_value spec raw.

Definition decode_indexed (packed : list Z) (num_spins bits_per_spin : Z)
    (spec : AllowedValueSpec) : vresult (list Z) :=
  rmapM (decode_indexed_at packed bits_per_spin spec) (seqZ 0 num_spins).

(** [packed.get(offset..offset + 4)], then [u32::from_be_bytes]. *)
Definition decode_continuous_at (packed : list Z) (num_spins : Z) (spec : AllowedValueSpec)
    (spin_index : Z) : vresult Z :=
  let offset := wrap_usize (spin_index * 4) in
  if offset + 4 <=? zlen packed then
    decode_value spec (from_be_bytes (take 4 (drop (Z.to_nat offset) packed)))
  else Err (PackedSolutionLengthMismatch (wrap_usize (num_spins * 4)) (zlen packed)).

Definition decode_continuous (packed : list Z) (num_spins : Z) (spec : AllowedValueSpec)
    : vresult (list Z) :=
  rmapM (decode_continuous_at packed num_spins spec) (seqZ 0 num_spins).

Definition unpack_solution (packed : list Z) (num_spins : Z) (spec : AllowedValueSpec)
    : vresult (list Z) :=
  bits_per_spin <-? bits_per_value spec;;
  expected <-? packed_solution_byte_len num_spins spec;;
  if negb (zlen packed =? expected) then
    Err (PackedSolutionLengthMismatch expected (zlen packed))
  else if bits_per_spin =? 32 then decode_continuous packed num_spins spec
  else decode_indexed packed num_spins bits_per_spin spec.

(** [iter().position(|&v| v == value)] *)
Fixpoint position_of (value : Z) (values : list Z) : option Z :=
  match values with
  | [] => None
  | v :: values => if v =? value then Some 0 else Z.succ <$> position_of value values
  end.

Definition encode_value (value : Z) (spec : AllowedValueSpec) : vresult Z :=
  match spec with
  | SetSpec values =>
      ok_or (wrap_u 32 <$> position_of value values) (InvalidEncodedValue (wrap_u 32 value))
  | IntegerRange min max =>
      if negb (Z.rem value MILLI_SCALE =? 0) then Err (InvalidEncodedValue (wrap_u 32 value)) else
      let whole := Z.quot value MILLI_SCALE in
      if (whole <? min) || (max <? whole) then Err (InvalidEncodedValue (wrap_u 32 value))
      else Ok (wrap_u 32 (wrap_s 32 (whole - min)))
  | ContinuousRange min max =>
      if (value <? min) || (max <? value) then Err (InvalidEncodedValue (wrap_u 32 value))
      else Ok (wrap_u 32 value)
  end.

(** [out[index] |= byte], panicking out of range. *)
Definition or_byte {E} (out : list Z) (index : nat) (byte : Z) : result E (list Z) :=
  b <-? or_panic (out !! index);;
  Ok (<[index := Z.lor b byte]> out).

(** The body of the indexed packing loop after [encode_value]. *)
Definition pack_bits {E} (out : list Z) (bit_offset raw : Z) : result E (list Z) :=
  let byte_index := Z.to_nat (bit_offset / 8) in
  let intra_byte := bit_offset mod 8 in
  let shifted := wrap_u 32 (Z.shiftl raw intra_byte) in
  out <-? or_byte out byte_index (Z.land shifted 255);;
  if (S byte_index <? length out)%nat
  then or_byte out (S byte_index) (Z.land (Z.shiftr shifted 8) 255)
  else Ok out.

Fixpoint pack_indexed (spin_index : Z) (spins : list Z) (bits_per_spin : Z)
    (spec : AllowedValueSpec) (out : list Z) : vresult (list Z) :=
  match spins with
  | [] => Ok out
  | spin :: spins =>
      raw <-? encode_value spin spec;;
      out <-? pack_bits out (wrap_usize (spin_index * bits_per_spin)) raw;;
      pack_indexed (spin_index + 1) spins bits_per_spin spec out
  end.

(** [out[offset..offset + 4].copy_from_slice(bytes)], panicking out of range. *)
Definition copy_word {E} (out : list Z) (offset : Z) (bytes : list Z) : result E (list Z) :=
  if offset + 4 <=? zlen out
  then Ok (take (Z.to_nat offset) out ++ bytes ++ drop (Z.to_nat offset + 4) out)
  else Panic.

Fixpoint pack_continuous (i : Z) (spins : list Z) (out : list Z) : vresult (list Z) :=
  match spins with
  | [] => Ok out
  | spin :: spins =>
      let bytes := to_be_bytes 4 (wrap_u 32 spin) in
      out <-? copy_word out (wrap_usize (i * 4)) bytes;;
      pack_continuous (i + 1) spins out
  end.

Definition pack_solution (spins : list Z) (spec : AllowedValueSpec) : vresult (list Z) :=
  bits_per_spin <-? bits_per_value spec;;
  byte_len <-? packed_solution_byte_len (zlen spins) spec;;
  let out := replicate (Z.to_nat byte_len) 0 in
  if bits_per_spin =? 32 then pack_continuous 0 spins out
  else pack_indexed 0 spins bits_per_spin spec out.

(** The [enumerate] loop of [spin_signs], from position [index]. *)
Fixpoint spin_signs_from (index : Z) (milli : list Z) : vresult (list Z) :=
  match milli with
  | [] => Ok []
  | value :: milli =>
      let sign := Z.sgn value in
      if sign =? 0 then Err (InvalidSpinValue index 0)
      else spins <-? spin_signs_from (index + 1) milli;; Ok (sign :: spins)
  end.
Definition spin_signs (milli : list Z) : vresult (list Z) := spin_signs_from 0 milli.

(** ** Bits of a byte string *)

(** Bit [k] of a payload, least significant bit of byte 0 first. *)
Definition bit_at (l : list Z) (k : Z) : bool :=
  Z.testbit (default 0 (l !! Z.to_nat (k / 8))) (k mod 8).

#[local] Lemma testbit_high r b k : 0 <= r < 2 ^ b -> b <= k -> Z.testbit r k = false.
Proof.
  intros Hr Hk. destruct (decide (r = 0)) as [->|]; [apply Z.bits_0|].
  destruct (decide (0 <= b)); [|rewrite Z.pow_neg_r in Hr by lia; lia].
  apply Z.bits_above_log2; [lia|]. eapply Z.lt_le_trans; [|exact Hk]. apply Z.log2_lt_pow2; lia.
Qed.

#[local] Lemma land_255_bit x m : 0 <= m < 8 -> Z.testbit (Z.land x 255) m = Z.testbit x m.
Proof.
  intros Hm. rewrite Z.land_spec. change 255 with (Z.ones 8).
  rewrite Z.ones_spec_low by lia. apply andb_true_r.
Qed.

#[local] Lemma shiftl_small r b i : 0 <= r < 2 ^ b -> 0 <= b <= 8 -> 0 <= i < 8 ->
  wrap_u 32 (Z.shiftl r i) = Z.shiftl r i.
Proof.
  intros Hr Hb Hi. apply wrap_u_small. rewrite Z.shiftl_mul_pow2 by lia.
  assert (2 ^ b <= 2 ^ 8) by (apply Z.pow_le_mono_r; lia).
  assert (2 ^ i <= 2 ^ 7) by (apply Z.pow_le_mono_r; lia).
  assert (0 < 2 ^ i) by (apply pow2_pos; lia). unfold in_u. nia.
Qed.

#[local] Lemma or_byte_Ok {E} (out : list Z) i byte :
  (i < length out)%nat ->
  exists out', @or_byte E out i byte = Ok out' /\ length out' = length out /\
    forall n, default 0 (out' !! n) =
      if decide (n = i) then Z.lor (default 0 (out !! n)) byte else default 0 (out !! n).
Proof.
  intros Hi. unfold or_byte. destruct (lookup_lt_is_Some_2 out i Hi) as [b Hb].
  rewrite Hb. simpl. eexists; split_and!; [done|by rewrite length_insert|].
  intros n. case_decide as Hn; [subst n|]; [by rewrite list_lookup_insert_eq, Hb|].
  by rewrite list_lookup_insert_ne.
Qed.

(** Writing [raw] at [off] ors its bits into place and touches nothing else. *)
Lemma pack_bits_Ok {E} out off raw b :
  0 <= off -> 1 <= b <= 8 -> 0 <= raw < 2 ^ b -> off + b <= 8 * zlen out ->
  exists out', @pack_bits E out off raw = Ok out' /\ length out' = length out /\
    forall k, 0 <= k -> bit_at out' k = bit_at out k || Z.testbit raw (k - off).
Proof.
  intros Hoff Hb Hraw Hlen. unfold pack_bits.
  pose proof (Z.div_mod off 8 ltac:(lia)) as Hdiv.
  pose proof (Z.mod_pos_bound off 8 ltac:(lia)) as Hmod.
  rewrite (shiftl_small raw b) by lia.
  set (q := off / 8) in *. set (i := off mod 8) in *. unfold zlen in Hlen.
  destruct (@or_byte_Ok E out (Z.to_nat q) (Z.land (Z.shiftl raw i) 255)) as (out1 & -> & Hl1 & H1); [lia|].
  simpl.
  assert (forall m, 0 <= m < 8 ->
    Z.testbit (Z.land (Z.shiftl raw i) 255) m = Z.testbit raw (q * 8 + m - off)) as Hlo.
  { intros m Hm. rewrite land_255_bit, Z.shiftl_spec by lia. f_equal; lia. }
  assert (forall m, 0 <= m < 8 ->
    Z.testbit (Z.land (Z.shiftr (Z.shiftl raw i) 8) 255) m = Z.testbit raw ((q + 1) * 8 + m - off)) as Hhi.
  { intros m Hm. rewrite land_255_bit, Z.shiftr_spec, Z.shiftl_spec by lia. f_equal; lia. }
  destruct (S (Z.to_nat q) <? length out1)%nat eqn:Hcmp.
  - apply Nat.ltb_lt in Hcmp.
    destruct (@or_byte_Ok E out1 (S (Z.to_nat q)) (Z.land (Z.shiftr (Z.shiftl raw i) 8) 255)) as (out2 & -> & Hl2 & H2); [lia|].
    eexists; split_and!; [done|lia|]. intros k Hk. unfold bit_at. rewrite H2, H1.
    pose proof (Z.div_mod k 8 ltac:(lia)). pose proof (Z.mod_pos_bound k 8 ltac:(lia)).
    repeat case_decide; try lia; rewrite ?Z.lor_spec.
    + rewrite Hhi by lia. do 2 f_equal. lia.
    + rewrite Hlo by lia. do 2 f_equal. lia.
    + destruct (decide (k < off)); [rewrite (Z.testbit_neg_r raw) by lia|rewrite (testbit_high raw b) by lia]; by rewrite orb_false_r.
  - apply Nat.ltb_ge in Hcmp. eexists; split_and!; [done|lia|]. intros k Hk. unfold bit_at. rewrite H1.
    pose proof (Z.div_mod k 8 ltac:(lia)). pose proof (Z.mod_pos_bound k 8 ltac:(lia)).
    case_decide; rewrite ?Z.lor_spec.
    + rewrite Hlo by lia. do 2 f_equal. lia.
    + destruct (decide (k < off)); [rewrite (Z.testbit_neg_r raw) by lia|rewrite (testbit_high raw b) by lia]; by rewrite orb_false_r.
Qed.

#[local] Lemma lor_byte a b : in_u 8 a -> in_u 8 b -> in_u 8 (Z.lor a b).
Proof.
  unfold in_u. intros Ha Hb. split; [apply Z.lor_nonneg; lia|].
  destruct (decide (Z.lor a b = 0)) as [->|]; [lia|].
  assert (0 <= Z.lor a b) by (apply Z.lor_nonneg; lia).
  apply Z.log2_lt_pow2; [lia|]. rewrite Z.log2_lor by lia.
  assert (forall x, 0 <= x < 2 ^ 8 -> Z.log2 x < 8) as Hlog.
  { intros x Hx. destruct (decide (x = 0)) as [->|]; [done|]. apply Z.log2_lt_pow2; lia. }
  apply Z.max_lub_lt; apply Hlog; lia.
Qed.

#[local] Lemma land_byte a : in_u 8 (Z.land a 255).
Proof.
  change 255 with (Z.ones 8). rewrite Z.land_ones by lia. apply Z.mod_pos_bound. lia.
Qed.

#[local] Lemma or_byte_range {E} out i byte out' :
  Forall (in_u 8) out -> in_u 8 byte -> @or_byte E out i byte = Ok out' -> Forall (in_u 8) out'.
Proof.
  unfold or_byte. intros Hout Hb H0. rinv. apply Forall_insert; [done|].
  apply lor_byte; [|done]. by eapply Forall_lookup_1.
Qed.

#[local] Lemma pack_bits_range {E} out off raw out' :
  Forall (in_u 8) out -> @pack_bits E out off raw = Ok out' -> Forall (in_u 8) out'.
Proof.
  unfold pack_bits. intros Hout H0. rinv.
  apply or_byte_range in Hm; [|done|apply land_byte]. case_match.
  - eapply or_byte_range; [exact Hm| |exact H0]. apply land_byte.
  - by rinv.
Qed.

(** ** Encoding a value *)

#[local] Lemma position_of_Some v values :
  v ∈ values ->
  exists p, position_of v values = Some p /\ 0 <= p < zlen values /\ values !! Z.to_nat p = Some v.
Proof.
  induction values as [|w values IH]; intros Hv; [by apply elem_of_nil in Hv|]. simpl.
  rewrite zlen_cons. pose proof (zlen_nonneg values). destruct (w =? v) eqn:Hw; bool_to_prop.
  { subst w. exists 0. split_and!; [done|lia..|done]. }
  destruct IH as (p & -> & Hp & Hl); [set_solver|]. exists (Z.succ p).
  split_and!; [done|lia..|]. by rewrite Z2Nat.inj_succ by lia.
Qed.

(** Every allowed value has an encoding that fits the width and decodes to it. *)
Lemma encode_value_Ok spec b v :
  spec_typed spec -> bits_per_value spec = Ok b -> in_s 32 v -> allowed spec v ->
  exists raw, encode_value v spec = Ok raw /\ 0 <= raw < 2 ^ b /\ decode_value spec raw = Ok v.
Proof.
  intros Ht Hb Hv Hall. pose proof (bits_per_value_Ok _ _ Ht Hb) as Hw.
  destruct spec as [values|min max|min max]; simpl in *.
  - destruct Hw as [(_ & ? & ? & ? & _)|(Hb8 & Hc & _ & _)]; [done|].
    destruct (position_of_Some v values Hall) as (p & Hp & Hlt & Hl). rewrite Hp. simpl.
    assert (2 ^ b <= 2 ^ 8) by (apply Z.pow_le_mono_r; lia).
    rewrite wrap_u_small by (unfold in_u; lia). exists p. split_and!; [done|lia..|by rewrite Hl].
  - destruct Hw as [(_ & ? & ? & ? & _)|(Hb8 & Hc & _ & Hfit)]; [done|].
    destruct Hall as (i & Hi & ->). destruct Ht as [Hmin Hmax].
    assert (2 ^ b <= 2 ^ 8) by (apply Z.pow_le_mono_r; lia).
    rewrite Z.rem_mul, Z.quot_mul by done. simpl.
    rewrite (proj2 (Z.ltb_ge i min)), (proj2 (Z.ltb_ge max i)) by lia. simpl.
    exists (i - min). rewrite wrap_s_small, wrap_u_small by (unfold in_u, in_s in *; lia).
    split_and!; [done|lia..|].
    pose proof (decode_value_integer min max (i - min) Hmin Hmax ltac:(lia) ltac:(lia)) as Hd.
    replace (min + (i - min)) with i in Hd by lia. by apply Hd.
  - destruct (max <? min); [done|]. rinv.
    rewrite (proj2 (Z.ltb_ge v min)), (proj2 (Z.ltb_ge max v)) by lia. simpl.
    exists (wrap_u 32 v). split; [done|]. split; [apply wrap_u_range; lia|].
    rewrite wrap_s_wrap_u by (done || lia).
    by rewrite (proj2 (Z.ltb_ge v min)), (proj2 (Z.ltb_ge max v)) by lia.
Qed.

(** ** The indexed round trip *)

(** After packing, spin [j]'s bits are at its offset and earlier bits are as
    they were. *)
Lemma pack_indexed_Ok spec b spins i out :
  spec_typed spec -> bits_per_value spec = Ok b -> 1 <= b <= 8 ->
  Forall (in_s 32) spins -> Forall (allowed spec) spins ->
  0 <= i -> (i + zlen spins) * b <= 8 * zlen out -> (i + zlen spins) * b < 2 ^ usize_bits ->
  Forall (in_u 8) out -> (forall k, i * b <= k -> bit_at out k = false) ->
  exists out', pack_indexed i spins b spec out = Ok out' /\ length out' = length out /\
    Forall (in_u 8) out' /\
    (forall k, 0 <= k < i * b -> bit_at out' k = bit_at out k) /\
    (forall j v, spins !! j = Some v -> exists raw, decode_value spec raw = Ok v /\
       0 <= raw < 2 ^ b /\
       forall t, 0 <= t < b -> bit_at out' ((i + Z.of_nat j) * b + t) = Z.testbit raw t).
Proof.
  intros Ht Hb Hb8 Hs Ha. revert i out. induction spins as [|v spins IH]; intros i out Hi Hlen Hus Hout Hz; simpl.
  { exists out. split_and!; try done. }
  apply Forall_cons in Hs as [Hv Hs]. apply Forall_cons in Ha as [Hva Ha].
  rewrite zlen_cons in Hlen, Hus. pose proof (zlen_nonneg spins).
  destruct (encode_value_Ok spec b v Ht Hb Hv Hva) as (raw & -> & Hraw & Hdec). simpl.
  unfold wrap_usize. rewrite wrap_u_small by (unfold in_u; nia).
  destruct (@pack_bits_Ok ValidationError out (i * b) raw b) as (out1 & Hp & Hl1 & H1); [nia|lia|lia|nia|].
  rewrite Hp. simpl.
  assert (forall k, (i + 1) * b <= k -> bit_at out1 k = false) as Hz1.
  { intros k Hk. rewrite H1, Hz, (testbit_high raw b) by nia. done. }
  destruct (IH Hs Ha (i + 1) out1) as (out' & -> & Hl & Hr & Hlo & Hhi);
    [lia|unfold zlen in *; rewrite Hl1; nia|nia|by eapply pack_bits_range|done|].
  exists out'. split_and!; [done|congruence|done| |].
  - intros k Hk. rewrite Hlo, H1 by nia. rewrite (Z.testbit_neg_r raw) by lia. by rewrite orb_false_r.
  - intros [|j] w Hw; simpl in Hw.
    + simplify_eq. exists raw. split_and!; [done|lia..|]. intros t Htb.
      rewrite Hlo, H1, Hz by nia. simpl. f_equal. lia.
    + destruct (Hhi j w Hw) as (raw' & ? & ? & Hbits). exists raw'. split_and!; [done|lia..|].
      intros t Htb. rewrite <- Hbits by done. f_equal. lia.
Qed.

(** Reading at an offset returns the bits stored there. *)
Lemma decode_indexed_at_bits packed b spec i raw :
  Forall (in_u 8) packed -> 1 <= b <= 8 -> 0 <= i -> (i + 1) * b <= 8 * zlen packed ->
  (i + 1) * b < 2 ^ usize_bits -> 0 <= raw < 2 ^ b ->
  (forall t, 0 <= t < b -> bit_at packed (i * b + t) = Z.testbit raw t) ->
  decode_indexed_at packed b spec i = decode_value spec raw.
Proof.
  intros Hp Hb Hi Hlen Hus Hraw Hbits. unfold decode_indexed_at, wrap_usize.
  rewrite wrap_u_small by (unfold in_u; nia). rewrite (proj2 (Z.eqb_neq b 32)) by lia.
  set (off := i * b) in *.
  pose proof (Z.div_mod off 8 ltac:(lia)). pose proof (Z.mod_pos_bound off 8 ltac:(lia)).
  assert (0 <= off) by (unfold off; nia).
  destruct (lookup_lt_is_Some_2 packed (Z.to_nat (off / 8))) as [b0 Hb0]; [unfold zlen in *; nia|].
  rewrite Hb0. simpl. f_equal. apply Z.bits_inj'. intros t Ht0.
  replace (2 ^ b - 1) with (Z.ones b) by (rewrite Z.ones_equiv; lia).
  rewrite Z.land_spec. destruct (decide (t < b)) as [Htb|Htb].
  2: { rewrite Z.ones_spec_high, andb_false_r by lia. symmetry. apply (testbit_high raw b); lia. }
  rewrite Z.ones_spec_low, andb_true_r by lia.
  rewrite Z.shiftr_spec, Z.lor_spec by lia. rewrite <- Hbits by lia. unfold bit_at.
  assert (in_u 8 b0) as Hr0 by (by eapply Forall_lookup_1).
  destruct (decide (t + off mod 8 < 8)) as [Hin|Hout].
  - replace ((off + t) / 8) with (off / 8) by (apply Z.div_unique with (r := t + off mod 8); lia).
    replace ((off + t) mod 8) with (t + off mod 8) by (apply Z.mod_unique with (q := off / 8); lia).
    rewrite Hb0. simpl. by rewrite (Z.shiftl_spec_low _ 8), orb_false_r by lia.
  - replace ((off + t) / 8) with (off / 8 + 1) by (apply Z.div_unique with (r := t + off mod 8 - 8); lia).
    replace ((off + t) mod 8) with (t + off mod 8 - 8) by (apply Z.mod_unique with (q := off / 8 + 1); lia).
    rewrite (testbit_high b0 8) by (unfold in_u in *; lia). rewrite Z.shiftl_spec_high by lia. done.
Qed.

(** ** The round trip *)

#[local] Lemma rmapM_seqZ {E} (f : Z -> result E Z) (l : list Z) :
  (forall j v, l !! j = Some v -> f (Z.of_nat j) = Ok v) -> rmapM f (seqZ 0 (zlen l)) = Ok l.
Proof.
  intros Hf. apply rmapM_Ok. apply Forall2_same_length_lookup. unfold zlen. split.
  { rewrite length_seqZ. lia. }
  intros j x v Hx Hv. apply lookup_seqZ in Hx as [-> _]. by rewrite <- Hf with (j := j).
Qed.

Lemma packed_solution_byte_len_exact spec b n :
  bits_per_value spec = Ok b -> 0 <= n -> 0 <= b -> n * b + 7 < 2 ^ usize_bits ->
  packed_solution_byte_len n spec = Ok ((n * b + 7) / 8).
Proof.
  intros Hb Hn Hb0 Hlt. unfold packed_solution_byte_len, sat_usize. rewrite Hb. simpl.
  by rewrite (sat_u_small _ (n * b)), sat_u_small by (unfold in_u; nia).
Qed.

#[local] Lemma pack_continuous_Ok i spins out :
  Z.of_nat (4 * (i + length spins)) < 2 ^ usize_bits -> (4 * (i + length spins) <= length out)%nat ->
  pack_continuous (Z.of_nat i) spins out =
  Ok (take (4 * i) out ++ (spins ≫= (fun v => to_be_bytes 4 (wrap_u 32 v))) ++
      drop (4 * (i + length spins)) out).
Proof.
  revert i out. induction spins as [|v spins IH]; intros i out Hus Hlen; cbn [pack_continuous].
  { change ([] ≫= _) with (@nil Z). rewrite app_nil_l. cbn [length]. by rewrite Nat.add_0_r, take_drop. }
  cbn [length] in *. unfold copy_word, wrap_usize. rewrite wrap_u_small by (unfold in_u; lia).
  rewrite (proj2 (Z.leb_le _ _)) by (unfold zlen; lia). cbn [rbind].
  replace (Z.to_nat (Z.of_nat i * 4)) with (4 * i)%nat by lia.
  replace (Z.of_nat i + 1) with (Z.of_nat (S i)) by lia.
  set (w := to_be_bytes 4 (wrap_u 32 v)).
  assert (length w = 4%nat) as Hw by apply to_be_bytes_length.
  assert (length (take (4 * i) out) = (4 * i)%nat) as Ht by (rewrite length_take; lia).
  rewrite IH; [|lia|rewrite !length_app, length_drop, Hw, Ht; lia]. f_equal.
  rewrite bind_cons. fold w. rewrite take_app, Ht, (take_ge (take _ _)) by lia.
  replace (4 * S i - 4 * i)%nat with 4%nat by lia. rewrite (take_app_length' w) by lia.
  rewrite drop_app, Ht, (drop_ge (take _ _)), drop_app, Hw, (drop_ge w), drop_drop by lia.
  rewrite !app_nil_l, <- !app_assoc. do 4 f_equal. lia.
Qed.

#[local] Lemma bind_words_lookup spins j v :
  spins !! j = Some v ->
  take 4 (drop (j * 4) (spins ≫= (fun v => to_be_bytes 4 (wrap_u 32 v)))) = to_be_bytes 4 (wrap_u 32 v).
Proof.
  revert j. induction spins as [|w spins IH]; intros [|j] Hj; simplify_eq/=; [done|]. by rewrite IH.
Qed.

#[local] Lemma bind_words_length spins :
  length (spins ≫= (fun v => to_be_bytes 4 (wrap_u 32 v))) = (length spins * 4)%nat.
Proof. induction spins as [|w spins IH]; [done|]. rewrite bind_cons, length_app, IH. simpl. lia. Qed.

(** The bit sizes of [spins] under a [b]-bit encoding fit [usize]. *)
Definition packable (b : Z) (spins : list Z) : Prop := zlen spins * b + 7 < 2 ^ usize_bits.

(** Every solution made of allowed values packs, and unpacks to itself. *)
Lemma pack_unpack_roundtrip spec b spins :
  spec_typed spec -> bits_per_value spec = Ok b -> packable b spins ->
  Forall (in_s 32) spins -> Forall (allowed spec) spins ->
  exists packed, pack_solution spins spec = Ok packed /\ zlen packed = (zlen spins * b + 7) / 8 /\
    unpack_solution packed (zlen spins) spec = Ok spins.
Proof.
  intros Ht Hb Hpk Hs Ha. unfold packable in Hpk.
  pose proof (bits_per_value_Ok _ _ Ht Hb) as Hw. pose proof (zlen_nonneg spins).
  pose proof (packed_solution_byte_len_exact spec b (zlen spins) Hb ltac:(lia) ltac:(lia) Hpk) as Hlen.
  unfold pack_solution, unpack_solution. rewrite Hb; cbn [rbind]. rewrite Hlen; cbn [rbind].
  destruct Hw as [(-> & min & max & -> & Hle)|(Hb8 & _)].
  - rewrite Z.eqb_refl. replace ((zlen spins * 32 + 7) / 8) with (Z.of_nat (4 * length spins)).
    2: { unfold zlen in *. apply Z.div_unique with (r := 7); lia. }
    pose proof usize_bits_range as Hub.
    rewrite (pack_continuous_Ok 0) by (rewrite ?length_replicate; unfold zlen in *; lia).
    rewrite drop_ge by (rewrite length_replicate; lia). rewrite app_nil_r. simpl take. rewrite app_nil_l.
    eexists; split_and!; [done|unfold zlen; rewrite bind_words_length; lia|].
    unfold zlen at 1. rewrite bind_words_length.
    rewrite (proj2 (Z.eqb_eq _ _)) by lia. simpl negb. cbv iota.
    apply rmapM_seqZ. intros j v Hj. pose proof (lookup_lt_Some _ _ _ Hj).
    unfold decode_continuous_at, wrap_usize. rewrite wrap_u_small by (unfold in_u, zlen in *; lia).
    unfold zlen at 1. rewrite bind_words_length, (proj2 (Z.leb_le _ _)) by lia.
    replace (Z.to_nat (Z.of_nat j * 4)) with (j * 4)%nat by lia.
    rewrite (bind_words_lookup _ _ _ Hj), from_to_be_bytes, (wrap_u_small 32) by (apply wrap_u_range; lia).
    assert (in_s 32 v) by (by eapply Forall_lookup_1 in Hs).
    assert (min <= v <= max) by (by eapply Forall_lookup_1 in Ha; [|exact Hj]).
    simpl. rewrite wrap_s_wrap_u by (done || lia).
    by rewrite (proj2 (Z.ltb_ge v min)), (proj2 (Z.ltb_ge max v)) by lia.
  - rewrite (proj2 (Z.eqb_neq b 32)) by lia.
    set (n := Z.to_nat ((zlen spins * b + 7) / 8)).
    assert (zlen spins * b <= 8 * Z.of_nat n) as Hn.
    { unfold n. pose proof (Z.div_mod (zlen spins * b + 7) 8 ltac:(lia)).
      pose proof (Z.mod_pos_bound (zlen spins * b + 7) 8 ltac:(lia)).
      rewrite Z2Nat.id by (apply Z.div_pos; nia). lia. }
    destruct (pack_indexed_Ok spec b spins 0 (replicate n 0)) as (out & -> & Hl & Hr & _ & Hbits); try done; [|rewrite Z.add_0_l; lia|..].
    { unfold zlen at 2. rewrite length_replicate, Z.add_0_l. lia. }
    { by apply Forall_replicate. }
    { intros k _. unfold bit_at. destruct (replicate n 0 !! _) eqn:Hlk; [|apply Z.bits_0].
      apply lookup_replicate in Hlk as [-> _]. apply Z.bits_0. }
    rewrite length_replicate in Hl.
    assert (zlen out = (zlen spins * b + 7) / 8) as Hzl.
    { unfold zlen at 1. rewrite Hl. unfold n. rewrite Z2Nat.id by (apply Z.div_pos; nia). done. }
    eexists; split_and!; [done|done|]. rewrite Hzl, Z.eqb_refl. simpl negb. cbv iota.
    apply rmapM_seqZ. intros j v Hj. destruct (Hbits j v Hj) as (raw & Hdec & Hraw & Hbj).
    apply lookup_lt_Some in Hj. rewrite <- Hdec. unfold zlen in *.
    assert ((Z.of_nat j + 1) * b <= Z.of_nat (length spins) * b) by (apply Z.mul_le_mono_nonneg_r; lia).
    clearbody n. apply decode_indexed_at_bits; try done; unfold zlen; lia.
Qed.

(** ** Unpacking arbitrary payloads *)

#[local] Lemma decode_indexed_at_allowed packed b spec i v :
  spec_typed spec -> 1 <= spec_count spec -> 0 <= b ->
  decode_indexed_at packed b spec i = Ok v -> allowed spec v.
Proof.
  intros Ht Hc Hb Hd. unfold decode_indexed_at in Hd. rinv.
  eapply decode_value_allowed; [done..| |exact Hd].
  apply Z.land_nonneg. right. case_match; [lia|]. pose proof (pow2_pos b Hb). lia.
Qed.

#[local] Lemma from_be_bytes_nonneg l : Forall (in_u 8) l -> 0 <= from_be_bytes l.
Proof.
  intros Hl. unfold from_be_bytes.
  cut (forall acc, 0 <= acc -> 0 <= foldl (fun acc b => acc * 256 + b) acc l); [intros Hc; by apply Hc|].
  induction Hl as [|x l Hx Hl IH]; intros acc Hacc; simpl; [done|].
  apply IH. unfold in_u in Hx. lia.
Qed.

#[local] Lemma Forall2_seqZ_Forall (P : Z -> Prop) (R : Z -> Z -> Prop) l ys :
  Forall2 R l ys -> (forall x y, R x y -> P y) -> Forall P ys.
Proof. intros HF HR. induction HF; constructor; eauto. Qed.

(** Whatever unpacks has one allowed value per spin. *)
Lemma unpack_solution_Ok packed n spec spins :
  spec_typed spec -> 0 <= n -> Forall (in_u 8) packed ->
  unpack_solution packed n spec = Ok spins -> zlen spins = n /\ Forall (allowed spec) spins.
Proof.
  intros Ht Hn Hp H0. unfold unpack_solution in H0. rinv.
  pose proof (bits_per_value_Ok _ _ Ht Hm) as Hw.
  destruct (negb _); [done|]. case_match.
  - split; [apply rmapM_length in H0; rewrite length_seqZ in H0; unfold zlen; lia|].
    apply rmapM_Ok_inv in H0. eapply Forall2_seqZ_Forall; [exact H0|]. intros x y Hd; simpl in Hd.
    unfold decode_continuous_at in Hd. case_match; [|done].
    eapply decode_value_allowed; [done| | |exact Hd].
    + destruct Hw as [(_ & ? & ? & -> & ?)|(_ & ? & _)]; simpl; lia.
    + apply from_be_bytes_nonneg. by apply Forall_take, Forall_drop.
  - split; [apply rmapM_length in H0; rewrite length_seqZ in H0; unfold zlen; lia|].
    apply rmapM_Ok_inv in H0. eapply Forall2_seqZ_Forall; [exact H0|]. intros x y Hd; simpl in Hd.
    destruct Hw as [(-> & _)|(? & ? & _)]; [done|].
    eapply decode_indexed_at_allowed; [done|lia| |exact Hd]. lia.
Qed.

Lemma decode_value_no_panic spec raw : decode_value spec raw <> Panic.
Proof. destruct spec; simpl; repeat case_match; try done; unfold ok_or; by case_match. Qed.

Lemma bits_per_value_no_panic spec : bits_per_value spec <> Panic.
Proof.
  destruct spec; simpl; repeat case_match; try done;
    intros [Hp|(? & _ & Hp)]%rbind_Panic_inv; revert Hp; unfold check_indexed_bits; by repeat case_match.
Qed.

(** No payload makes the unpacker index out of range. *)
Lemma unpack_solution_no_panic packed n spec :
  spec_typed spec -> 0 <= n -> n * 32 + 7 < 2 ^ usize_bits ->
  unpack_solution packed n spec <> Panic.
Proof.
  intros Ht Hn Hus. unfold unpack_solution.
  destruct (bits_per_value spec) as [b|e|] eqn:Hb; simpl; [|done|by apply bits_per_value_no_panic in Hb].
  pose proof (bits_per_value_Ok _ _ Ht Hb) as Hw.
  rewrite (packed_solution_byte_len_exact _ b) by (done || lia || nia). simpl.
  destruct (zlen packed =? (n * b + 7) / 8) eqn:Hl; simpl; [|done]. bool_to_prop.
  destruct (b =? 32) eqn:Hb32; bool_to_prop; apply rmapM_no_panic; intros i Hi%elem_of_seqZ.
  - unfold decode_continuous_at. case_match; [apply decode_value_no_panic|done].
  - destruct Hw as [(-> & _)|(Hb8 & _)]; [done|].
    unfold decode_indexed_at, wrap_usize. rewrite wrap_u_small by (unfold in_u; nia).
    destruct (lookup_lt_is_Some_2 packed (Z.to_nat (i * b / 8))) as [b0 ->]; [|apply decode_value_no_panic].
    assert (i * b / 8 < (n * b + 7) / 8); [|unfold zlen in *; pose proof (Z.div_pos (i * b) 8 ltac:(nia)); lia].
    assert ((i + 1) * b <= n * b) by (apply Z.mul_le_mono_nonneg_r; lia).
    apply Z.lt_le_trans with ((i * b + 8) / 8); [|apply Z.div_le_mono; lia].
    replace (i * b + 8) with (i * b + 1 * 8) by lia. rewrite Z.div_add by lia. lia.
Qed.

(** ** Signs *)

Lemma spin_signs_Ok milli spins :
  spin_signs milli = Ok spins -> spins = Z.sgn <$> milli /\ Forall (fun s => s = 1 \/ s = -1) spins.
Proof.
  unfold spin_signs. generalize 0. revert spins.
  induction milli as [|v milli IH]; intros spins i; simpl; [by intros [= <-]|].
  case_match eqn:Hs; [done|]. bool_to_prop. intros H0. rinv.
  apply IH in Hm as [-> ?]. split; [done|]. constructor; [|done]. lia.
Qed.
End Packed.
