(* ===== verification/Float.v ===== *)
(** * [f64] arithmetic

    The binary64 operations the sources use, on the Standard Library's
    executable IEEE 754 specification ([SpecFloat]): round to nearest, ties to
    even; [as i64] truncates and saturates.  The [libm] crate is a parameter of
    the definitions that call it ([Libm]); the correctly rounded square root
    and rounding half away from zero are written out for concrete runs. *)

From S2P Require Import Prelude.
From Stdlib Require Import Floats.SpecFloat.

Module F64.

Definition prec : Z := 53.
Definition emax : Z := 1024.

Definition t : Type := spec_float.

Definition add : t -> t -> t := SFadd prec emax.
Definition sub : t -> t -> t := SFsub prec emax.
Definition mul : t -> t -> t := SFmul prec emax.
Definition div : t -> t -> t := SFdiv prec emax.
Definition sqrt : t -> t := SFsqrt prec emax.
Definition neg : t -> t := SFopp.

Definition ltb : t -> t -> bool := SFltb.
Definition leb : t -> t -> bool := SFleb.

Definition is_nan (x : t) : bool := match x with S754_nan => true | _ => false end.

(** [f64::min]: a NaN operand is ignored. *)
Definition min (x y : t) : t :=
  if is_nan x then y else if is_nan y then x else if ltb y x then y else x.

(** Integer conversion ([as f64], [f64::from]). *)
Definition of_Z (x : Z) : t := binary_normalize prec emax x 0 false.

(** A decimal literal [n / 10^k]: the nearest double. *)
Definition decimal (n d : Z) : t := div (of_Z n) (of_Z d).

(** The integer a finite double rounds to, halves away from zero. *)
Definition round_magnitude (m : positive) (e : Z) : Z :=
  if 0 <=? e then Z.pos m * 2 ^ e
  else (2 * Z.pos m + 2 ^ (- e)) / (2 * 2 ^ (- e)).

(** Rounding to an integer, halves away from zero. *)
Definition round (x : t) : t :=
  match x with
  | S754_finite s m e =>
      if 0 <=? e then x
      else binary_normalize prec emax (cond_Zopp s (round_magnitude m e)) 0 s
  | _ => x
  end.

(** [as i64]: truncation, saturating, NaN to zero. *)
Definition as_i64 (x : t) : Z :=
  match x with
  | S754_zero _ | S754_nan => 0
  | S754_infinity s => if s then - 2 ^ 63 else 2 ^ 63 - 1
  | S754_finite s m e =>
      sat_s 64 (cond_Zopp s (if 0 <=? e then Z.pos m * 2 ^ e else Z.pos m / 2 ^ (- e)))
  end.

Definition zero : t := of_Z 0.
Definition one : t := of_Z 1.

Lemma as_i64_range x : in_s 64 (as_i64 x).
Proof.
  destruct x; simpl; try (unfold in_s; lia).
  - case_match; unfold in_s; lia.
  - by apply sat_s_range.
Qed.

End F64.

(** What the sources call of the [libm] crate. *)
Class Libm := {
  libm_sqrt : F64.t -> F64.t;
  libm_round : F64.t -> F64.t;
  libm_log : F64.t -> F64.t;
  libm_pow : F64.t -> F64.t -> F64.t
}.

(** The exact functions, for runs that take no logarithm or power. *)
Definition exact_libm (log : F64.t -> F64.t) (pow : F64.t -> F64.t -> F64.t) : Libm :=
  {| libm_sqrt := F64.sqrt; libm_round := F64.round; libm_log := log; libm_pow := pow |}.
