(* ===== verification/Energy.v ===== *)
(** * Ising energy

    Models the energy half of [crates/quantum-validation/src/energy.rs]:
    [validate_shape_lengths], [energy_of_solution] and
    [energy_of_solution_indexed], refined against the textbook sum.
    Energies are [i64] with checked addition; each product is computed on
    [i64] from an [i32] and [i8] factors, where it is exact. *)

From S2P Require Import Prelude Validation.

Definition validate_shape_lengths (solution h : list Z) (edges : list (Z * Z)) (j : list Z)
    (node_count : Z) : vresult unit :=
  if node_count =? 0 then Err EmptyNodes
  else if negb (zlen solution =? node_count) then
    Err (SolutionLengthMismatch node_count (zlen solution))
  else if negb (zlen h =? node_count) then
    Err (FieldLengthMismatch node_count (zlen h))
  else if negb (zlen edges =? zlen j) then
    Err (EdgeWeightLengthMismatch (zlen edges) (zlen j))
  else Ok tt.

(** [energy.checked_add(term).ok_or(ArithmeticOverflow)] *)
Definition checked_add_energy (energy term : Z) : vresult Z :=
  ok_or (checked_s 64 (energy + term)) ArithmeticOverflow.

(** One iteration over the local fields. *)
Definition add_field (solution : list Z) (energy : Z) (entry : nat * Z) : vresult Z :=
  let '(position, field) := entry in
  s <-? or_panic (solution !! position);;
  checked_add_energy energy (field * s).

(** One iteration over the couplings. *)
Definition add_coupling (solution : list Z) (topology : TopologyIndex.t) (energy : Z)
    (entry : (Z * Z) * Z) : vresult Z :=
  let '((u, v), coupling) := entry in
  u_pos <-? ok_or (TopologyIndex.position topology u) (UnknownNodeInEdge u);;
  v_pos <-? ok_or (TopologyIndex.position topology v) (UnknownNodeInEdge v);;
  su <-? or_panic (solution !! u_pos);;
  sv <-? or_panic (solution !! v_pos);;
  checked_add_energy energy (coupling * su * sv).

Definition energy_of_solution_indexed (solution h : list Z) (edges : list (Z * Z)) (j : list Z)
    (topology : TopologyIndex.t) : vresult Z :=
  validate_shape_lengths solution h edges j (TopologyIndex.len topology);;?
  ensure_valid_spins solution;;?
  energy <-? rfold (add_field solution) 0 (imap pair h);;
  rfold (add_coupling solution topology) energy (zip edges j).

Definition energy_of_solution (solution h : list Z) (edges : list (Z * Z)) (j nodes : list Z)
    : vresult Z :=
  validate_shape_lengths solution h edges j (zlen nodes);;?
  topology <-? TopologyIndex.new nodes edges;;
  energy_of_solution_indexed solution h edges j topology.

(** ** Reference definition *)

(** The spin [solution] assigns to a node of [nodes] (0 for a foreign node). *)
Fixpoint spin_of (nodes solution : list Z) (node : Z) : Z :=
  match nodes, solution with
  | n :: nodes, s :: solution => if n =? node then s else spin_of nodes solution node
  | _, _ => 0
  end.

Definition field_energy (h solution : list Z) : Z := zsum (zip_with Z.mul h solution).

Definition coupling_energy (nodes solution : list Z) (edges : list (Z * Z)) (j : list Z) : Z :=
  zsum (zip_with (fun e c => c * spin_of nodes solution e.1 * spin_of nodes solution e.2) edges j).

(** [H(s) = sum_i h_i s_i + sum_(u,v) J_uv s_u s_v] *)
Definition ising_energy (nodes solution h : list Z) (edges : list (Z * Z)) (j : list Z) : Z :=
  field_energy h solution + coupling_energy nodes solution edges j.

(** The documented preconditions of [energy_of_solution]. *)
Record well_shaped (nodes solution h : list Z) (edges : list (Z * Z)) (j : list Z) : Prop := {
  ws_nonempty : nodes <> [];
  ws_solution : length solution = length nodes;
  ws_field : length h = length nodes;
  ws_edges : length edges = length j;
  ws_distinct : NoDup nodes;
  ws_known : TopologyIndex.edges_known nodes edges;
  ws_spins : Forall (fun s => s = 1 \/ s = -1) solution
}.

(** ** Lemmas *)

Lemma validate_shape_lengths_Ok solution h edges j n :
  validate_shape_lengths solution h edges j n = Ok tt <->
  n <> 0 /\ zlen solution = n /\ zlen h = n /\ zlen edges = zlen j.
Proof. unfold validate_shape_lengths. repeat case_match; bool_to_prop; naive_solver. Qed.

Lemma validate_shape_lengths_no_panic solution h edges j n :
  validate_shape_lengths solution h edges j n <> Panic.
Proof. unfold validate_shape_lengths. by repeat case_match. Qed.

(** The index built from the nodes makes both entry points agree on every
    input, errors and panics included. *)
Lemma energy_indexed_agrees solution h edges j nodes topology :
  TopologyIndex.new nodes edges = Ok topology ->
  energy_of_solution_indexed solution h edges j topology = energy_of_solution solution h edges j nodes.
Proof.
  intros Hnew. unfold energy_of_solution.
  pose proof (TopologyIndex.new_Ok _ _ _ Hnew) as [Hidx _].
  rewrite Hnew. simpl. unfold energy_of_solution_indexed. rewrite (TopologyIndex.indexes_len _ _ Hidx).
  by destruct (validate_shape_lengths solution h edges j (zlen nodes)).
Qed.

#[local] Lemma spin_of_position topology nodes solution node i s :
  TopologyIndex.indexes topology nodes -> length solution = length nodes ->
  TopologyIndex.position topology node = Some i -> solution !! i = Some s ->
  spin_of nodes solution node = s.
Proof.
  intros [Hnd Hpos] Hlen Hi%Hpos Hs. clear Hpos. revert solution i Hlen Hi Hs.
  induction Hnd as [|n nodes Hn Hnd IH]; intros [|x solution] i Hlen Hi Hs; simpl in *; try done.
  destruct i as [|i]; simplify_eq/=; [by rewrite Z.eqb_refl|].
  rewrite (proj2 (Z.eqb_neq n node)); [by eapply IH|].
  intros ->. apply Hn. by eapply list_elem_of_lookup_2.
Qed.

#[local] Lemma checked_add_energy_Ok e t e' :
  checked_add_energy e t = Ok e' <-> e' = e + t /\ in_s 64 (e + t).
Proof.
  unfold checked_add_energy, ok_or. rewrite <- (checked_s_Some 64). by case_match; naive_solver.
Qed.

#[local] Lemma fields_sum solution k h e e' :
  rfold (add_field solution) e (imap (fun i x => ((k + i)%nat, x)) h) = Ok e' ->
  e' = e + zsum (zip_with Z.mul h (drop k solution)).
Proof.
  revert k e. induction h as [|x h IH]; intros k e; simpl; [intros [= ->]; unfold zsum; simpl; lia|].
  intros (a & (s & Hs & Ha)%rbind_Ok_inv & Hr)%rbind_Ok_inv. rewrite Nat.add_0_r in Hs.
  unfold or_panic in Hs. destruct (solution !! k) eqn:Hk; simplify_eq.
  apply checked_add_energy_Ok in Ha as [-> _].
  rewrite (imap_ext _ (fun i x => ((S k + i)%nat, x))) in Hr by (intros; simpl; f_equal; lia).
  apply IH in Hr as ->. rewrite (drop_S _ _ _ Hk). unfold zsum. simpl. lia.
Qed.

#[local] Lemma couplings_sum topology nodes solution edges j e e' :
  TopologyIndex.indexes topology nodes -> length solution = length nodes ->
  rfold (add_coupling solution topology) e (zip edges j) = Ok e' ->
  e' = e + coupling_energy nodes solution edges j.
Proof.
  intros Hidx Hlen. unfold coupling_energy. revert j e.
  induction edges as [|[u v] edges IH]; intros [|c j] e; simpl;
    try (intros [= ->]; unfold zsum; simpl; lia).
  intros H. rinv. apply checked_add_energy_Ok in Hm as [-> _]. apply IH in H as ->.
  erewrite (spin_of_position topology nodes solution u) by eassumption.
  erewrite (spin_of_position topology nodes solution v) by eassumption.
  unfold zsum. simpl. lia.
Qed.

(** A returned energy is the reference energy of a well-shaped input. *)
Lemma energy_of_solution_sound solution h edges j nodes e :
  energy_of_solution solution h edges j nodes = Ok e ->
  well_shaped nodes solution h edges j /\ e = ising_energy nodes solution h edges j /\ in_s 64 e.
Proof.
  unfold energy_of_solution, energy_of_solution_indexed. intros H. rinv.
  destruct a, a1, a2. apply validate_shape_lengths_Ok in Hm as (Hn & H1 & H2 & H3).
  apply TopologyIndex.new_Ok in Hm0 as [Hidx Hknown]. apply ensure_valid_spins_Ok in Hm2.
  pose proof (fields_sum solution 0 h 0 _ Hm3) as Hf. rewrite drop_0 in Hf.
  assert (length solution = length nodes) as Hlen by (unfold zlen in *; lia).
  pose proof (couplings_sum _ _ _ _ _ _ _ Hidx Hlen H) as He.
  assert (in_s 64 a3 /\ in_s 64 e) as [_ Hin].
  { assert (in_s 64 0) by (unfold in_s; lia).
    assert (in_s 64 a3).
    { eapply (rfold_Ok_ind _ (in_s 64)); [|done|exact Hm3]. intros acc [p x] acc' _ _ Hs.
      unfold add_field in Hs. rinv. by apply checked_add_energy_Ok in Hs as [-> ?]. }
    split; [done|]. eapply (rfold_Ok_ind _ (in_s 64)); [|done|exact H].
    intros acc [[u v] c] acc' _ _ Hs. unfold add_coupling in Hs. rinv.
    by apply checked_add_energy_Ok in Hs as [-> ?]. }
  split; [|split; [|done]].
  - split; try done; [|unfold zlen in *; lia..|by destruct Hidx]. intros ->. by apply Hn.
  - unfold ising_energy, field_energy. lia.
Qed.

(** *** No overflow on bounded inputs *)

#[local] Lemma mul_spin_bound x s : in_s 32 x -> s = 1 \/ s = -1 -> - 2 ^ 31 <= x * s <= 2 ^ 31.
Proof. unfold in_s. intros Hx [-> | ->]; lia. Qed.

#[local] Lemma fields_complete solution k h e B :
  Forall (in_s 32) h -> Forall (fun s => s = 1 \/ s = -1) solution ->
  (k + length h <= length solution)%nat ->
  Z.abs e <= B -> B + zlen h * 2 ^ 31 < 2 ^ 63 ->
  exists e', rfold (add_field solution) e (imap (fun i x => ((k + i)%nat, x)) h) = Ok e' /\
    Z.abs e' <= B + zlen h * 2 ^ 31.
Proof.
  intros Hh Hs. revert k e B. induction Hh as [|x h Hx Hh IH]; intros k e B Hk He HB; simpl in *.
  { exists e. rewrite Z.mul_0_l, Z.add_0_r. done. }
  rewrite Nat.add_0_r. destruct (lookup_lt_is_Some_2 solution k) as [s Hsk]; [lia|]. rewrite Hsk. simpl.
  pose proof (mul_spin_bound x s Hx (Forall_lookup_1 _ _ _ _ Hs Hsk)) as Hb.
  rewrite zlen_cons in *. pose proof (zlen_nonneg h).
  unfold checked_add_energy, checked_s. rewrite decide_True by (unfold in_s; lia). simpl.
  rewrite (imap_ext _ (fun i x => ((S k + i)%nat, x))) by (intros; simpl; f_equal; lia).
  destruct (IH (S k) (e + x * s) (B + 2 ^ 31)) as (e' & Hr & He'); [lia..|].
  exists e'. split; [exact Hr|lia].
Qed.

#[local] Lemma couplings_complete topology nodes solution edges j e B :
  TopologyIndex.indexes topology nodes -> length solution = length nodes ->
  TopologyIndex.edges_known nodes edges -> Forall (in_s 32) j ->
  Forall (fun s => s = 1 \/ s = -1) solution -> length edges = length j ->
  Z.abs e <= B -> B + zlen j * 2 ^ 31 < 2 ^ 63 ->
  exists e', rfold (add_coupling solution topology) e (zip edges j) = Ok e'.
Proof.
  intros Hidx Hlen Hk Hj Hs. revert j Hj e B.
  induction Hk as [|[u v] edges [Hu Hv] Hk IH]; intros [|c j] Hj e B Hl He HB; simpl in *; try done; [eauto|].
  apply Forall_cons in Hj as [Hc Hj].
  destruct (TopologyIndex.indexes_known _ _ _ Hidx Hu) as [iu Hiu].
  destruct (TopologyIndex.indexes_known _ _ _ Hidx Hv) as [iv Hiv].
  rewrite Hiu, Hiv. simpl.
  destruct (lookup_lt_is_Some_2 solution iu) as [su Hsu]; [rewrite Hlen; by eapply TopologyIndex.indexes_lt|].
  destruct (lookup_lt_is_Some_2 solution iv) as [sv Hsv]; [rewrite Hlen; by eapply TopologyIndex.indexes_lt|].
  rewrite Hsu, Hsv. simpl.
  pose proof (Forall_lookup_1 _ _ _ _ Hs Hsu). pose proof (Forall_lookup_1 _ _ _ _ Hs Hsv).
  rewrite zlen_cons in HB. pose proof (zlen_nonneg j). unfold in_s in Hc.
  assert (- 2 ^ 31 <= c * su * sv <= 2 ^ 31) by (cbn beta in *; destruct_or!; simplify_eq; lia).
  unfold checked_add_energy, checked_s. rewrite decide_True by (unfold in_s; lia). simpl.
  apply (IH j Hj (e + c * su * sv) (B + 2 ^ 31)); lia.
Qed.

(** On a well-shaped problem of [i32] weights with fewer than [2^32] terms the
    computation succeeds: the [i64] accumulator cannot overflow. *)
Lemma energy_of_solution_complete solution h edges j nodes :
  well_shaped nodes solution h edges j -> Forall (in_s 32) h -> Forall (in_s 32) j ->
  zlen h + zlen j < 2 ^ 32 ->
  energy_of_solution solution h edges j nodes = Ok (ising_energy nodes solution h edges j).
Proof.
  intros [Hne Hls Hlh Hle Hnd Hk Hs] Hh Hj Hsz.
  destruct (TopologyIndex.new_complete nodes edges Hnd Hk) as [topology Hnew].
  pose proof (TopologyIndex.new_Ok _ _ _ Hnew) as [Hidx _].
  assert (validate_shape_lengths solution h edges j (zlen nodes) = Ok tt) as Hshape.
  { apply validate_shape_lengths_Ok. unfold zlen. rewrite Hls, Hlh, Hle. split_and!; try done.
    by destruct nodes. }
  pose proof (zlen_nonneg j). pose proof (zlen_nonneg h).
  destruct (fields_complete solution 0 h 0 0) as (e1 & He1 & Hb1); [done..|lia|done|lia|].
  destruct (couplings_complete topology nodes solution edges j e1 (zlen h * 2 ^ 31)) as [e He]; [done..|lia|lia|].
  assert (energy_of_solution solution h edges j nodes = Ok e) as Hok.
  { unfold energy_of_solution. rewrite Hshape, Hnew. simpl. unfold energy_of_solution_indexed.
    rewrite (TopologyIndex.indexes_len _ _ Hidx), Hshape. simpl.
    rewrite (proj2 (ensure_valid_spins_Ok solution)) by done. simpl.
    change (imap pair h) with (imap (fun i x => ((0 + i)%nat, x)) h). rewrite He1. exact He. }
  rewrite Hok. by apply energy_of_solution_sound in Hok as (_ & -> & _).
Qed.

(** No input panics: a length error is reported before any indexing. *)
Lemma energy_of_solution_no_panic solution h edges j nodes :
  energy_of_solution solution h edges j nodes <> Panic.
Proof.
  unfold energy_of_solution.
  destruct (validate_shape_lengths solution h edges j (zlen nodes)) as [[]| |] eqn:Hsh; simpl; [|done|by apply validate_shape_lengths_no_panic in Hsh].
  destruct (TopologyIndex.new nodes edges) as [topology| |] eqn:Hnew; simpl; [|done|by apply TopologyIndex.new_no_panic in Hnew].
  apply TopologyIndex.new_Ok in Hnew as [Hidx _].
  unfold energy_of_solution_indexed. rewrite (TopologyIndex.indexes_len _ _ Hidx), Hsh. simpl.
  destruct (ensure_valid_spins solution) as [[]| |] eqn:Hv; simpl; [|done|by apply ensure_valid_spins_no_panic in Hv].
  apply validate_shape_lengths_Ok in Hsh as (_ & Hls & Hlh & _).
  assert (forall e t, checked_add_energy e t <> Panic) as Hc.
  { intros e t. unfold checked_add_energy, ok_or. by case_match. }
  assert (forall k e, (k + length h <= length solution)%nat ->
    rfold (add_field solution) e (imap (fun i x => ((k + i)%nat, x)) h) <> Panic) as Hf.
  { clear Hlh. induction h as [|x h IH]; intros k e Hk; simpl in *; [done|].
    rewrite Nat.add_0_r. destruct (lookup_lt_is_Some_2 solution k) as [s ->]; [lia|]. simpl.
    rewrite (imap_ext _ (fun i x => ((S k + i)%nat, x))) by (intros; simpl; f_equal; lia).
    intros [Hp|(e' & _ & Hp)]%rbind_Panic_inv; [by apply Hc in Hp|]. eapply IH; [|exact Hp]. lia. }
  intros [Hp|(e & _ & Hp)]%rbind_Panic_inv.
  { apply (Hf 0%nat 0 ltac:(unfold zlen in *; lia)). exact Hp. }
  revert e Hp. generalize (zip edges j). intros l. induction l as [|[[u v] c] l IH]; intros e; simpl; [done|].
  intros [Hp|(e' & _ & Hp)]%rbind_Panic_inv; [|by eapply IH].
  destruct (TopologyIndex.position topology u) as [iu|] eqn:Hu; simpl in Hp; [|done].
  destruct (TopologyIndex.position topology v) as [iv|] eqn:Hv'; simpl in Hp; [|done].
  apply (TopologyIndex.indexes_lt _ _ _ _ Hidx) in Hu, Hv'.
  destruct (lookup_lt_is_Some_2 solution iu) as [su Hsu]; [unfold zlen in *; lia|].
  destruct (lookup_lt_is_Some_2 solution iv) as [sv Hsv]; [unfold zlen in *; lia|].
  rewrite Hsu, Hsv in Hp. simpl in Hp. by apply Hc in Hp.
Qed.

(** *** Spin-flip symmetry *)

Lemma spin_of_flip nodes solution node :
  spin_of nodes (Z.opp <$> solution) node = - spin_of nodes solution node.
Proof.
  revert solution; induction nodes as [|n nodes IH]; intros [|s solution]; simpl; try done.
  case_match; [done|]. apply IH.
Qed.

(** Couplings do not see a global flip; the fields change sign. *)
Lemma ising_energy_flip nodes solution h edges j :
  ising_energy nodes (Z.opp <$> solution) h edges j =
  coupling_energy nodes solution edges j - field_energy h solution.
Proof.
  unfold ising_energy. assert (field_energy h (Z.opp <$> solution) = - field_energy h solution) as ->.
  { unfold field_energy, zsum. revert solution. induction h as [|x h IH]; intros [|s solution]; simpl; try done.
    rewrite IH. lia. }
  assert (coupling_energy nodes (Z.opp <$> solution) edges j = coupling_energy nodes solution edges j) as ->; [|lia].
  unfold coupling_energy, zsum. revert j. induction edges as [|[u v] edges IH]; intros [|c j]; simpl; try done.
  rewrite IH, !spin_of_flip. lia.
Qed.
