(* ===== verification/Gse.v ===== *)
(** * Expected ground-state energy

    Models the estimation half of [crates/quantum-validation/src/energy.rs]:
    [discrete_mean_abs], [mean_abs_unit] and [expected_gse], on binary64. *)

From S2P Require Import Prelude Validation PuzzleSpec Float.

(** [const DEFAULT_H_ALPHA: f64 = 0.88] *)
Definition DEFAULT_H_ALPHA : F64.t := F64.decimal 88 100.

(** [k * (k + 1) / 2] on [i128]. *)
Definition triangle (k : Z) : Z := Z.quot (k * (k + 1)) 2.

Definition discrete_mean_abs (min max : Z) : vresult F64.t :=
  if max <? min then Err EmptyAllowedValues
  else if 0 <=? min then Ok (F64.div (F64.of_Z (min + max)) (F64.of_Z 2))
  else if max <=? 0 then Ok (F64.div (F64.neg (F64.of_Z (min + max))) (F64.of_Z 2))
  else
    let sum_abs := triangle (- min) + triangle max in
    let span := max - min + 1 in
    Ok (F64.div (F64.of_Z sum_abs) (F64.of_Z span)).

Definition mean_abs_unit (spec : AllowedValueSpec) : vresult F64.t :=
  match spec with
  | SetSpec values =>
      if bool_decide (values = []) then Err EmptyAllowedValues else
      let sum_abs_milli :=
        foldl (fun acc value => F64.add acc (F64.of_Z (Z.abs value))) F64.zero values in
      Ok (F64.div sum_abs_milli (F64.mul (F64.of_Z (zlen values)) (F64.of_Z MILLI_SCALE)))
  | IntegerRange min max => discrete_mean_abs min max
  | ContinuousRange min max =>
      x <-? discrete_mean_abs min max;;
      Ok (F64.div x (F64.of_Z MILLI_SCALE))
  end.

Definition expected_gse `{Libm} (num_nodes num_edges : Z) (c : F64.t)
    (allowed_h allowed_j : AllowedValueSpec) : vresult Z :=
  h_mean_abs <-? mean_abs_unit allowed_h;;
  j_mean_abs <-? mean_abs_unit allowed_j;;
  if (num_nodes =? 0) || (num_edges =? 0) then Ok 0 else
  let n := F64.of_Z num_nodes in
  let m := F64.of_Z num_edges in
  let avg_degree := F64.div (F64.mul (F64.of_Z 2) m) n in
  let sqrt_avg_degree := libm_sqrt avg_degree in
  let j_contribution :=
    F64.mul (F64.mul (F64.mul (F64.neg c) j_mean_abs) sqrt_avg_degree) n in
  let h_contribution :=
    F64.div (F64.mul (F64.mul (F64.mul (F64.neg c) DEFAULT_H_ALPHA) h_mean_abs) n) sqrt_avg_degree in
  Ok (F64.as_i64 (libm_round (F64.mul (F64.add j_contribution h_contribution) (F64.of_Z MILLI_SCALE)))).

(** The repository's reference values, evaluated. *)
Section References.
#[local] Instance reference_libm : Libm := exact_libm id (fun x _ => x).

Example gse_ternary :
  expected_gse 1024 2048 (F64.decimal 75 100) (SetSpec [-1000; 0; 1000]) (SetSpec [-1000; 1000])
  = Ok (-1761280).
Proof. vm_compute. reflexivity. Qed.

Example gse_zero_field :
  expected_gse 1024 2048 (F64.decimal 75 100) (SetSpec [0]) (SetSpec [-1000; 1000]) = Ok (-1536000).
Proof. vm_compute. reflexivity. Qed.

Example gse_integer_range_matches_set :
  expected_gse 1024 2048 (F64.decimal 75 100) (IntegerRange (-2) 2) (SetSpec [-1000; 1000]) =
  expected_gse 1024 2048 (F64.decimal 75 100) (SetSpec [-2000; -1000; 0; 1000; 2000]) (SetSpec [-1000; 1000]).
Proof. vm_compute. reflexivity. Qed.
End References.

Lemma mean_abs_unit_cases spec :
  (exists x, mean_abs_unit spec = Ok x) \/ mean_abs_unit spec = Err EmptyAllowedValues.
Proof.
  assert (forall min max, (exists x, discrete_mean_abs min max = Ok x) \/
    discrete_mean_abs min max = Err EmptyAllowedValues) as Hd.
  { intros min max. unfold discrete_mean_abs. repeat case_match; eauto. }
  destruct spec as [values|min max|min max]; simpl; [case_bool_decide; eauto|apply Hd|].
  destruct (Hd min max) as [[x ->]| ->]; simpl; eauto.
Qed.

(** A registered spec has a mean. *)
Lemma mean_abs_unit_registered spec b :
  bits_per_value spec = Ok b -> exists x, mean_abs_unit spec = Ok x.
Proof.
  assert (forall min max, (max <? min) = false -> exists x, discrete_mean_abs min max = Ok x) as Hd.
  { intros min max Hlt. unfold discrete_mean_abs. rewrite Hlt. repeat case_match; eauto. }
  destruct spec as [values|min max|min max]; simpl; [case_bool_decide; [done|eauto]|..];
    destruct (max <? min) eqn:Hlt; try done; destruct (Hd min max Hlt) as [x ->]; simpl; eauto.
Qed.

(** Registered specs always give an [i64] estimate. *)
Lemma expected_gse_registered `{Libm} n m c allowed_h allowed_j bh bj :
  bits_per_value allowed_h = Ok bh -> bits_per_value allowed_j = Ok bj ->
  exists e, expected_gse n m c allowed_h allowed_j = Ok e /\ in_s 64 e.
Proof.
  intros [x Hx]%mean_abs_unit_registered [y Hy]%mean_abs_unit_registered.
  unfold expected_gse. rewrite Hx, Hy. simpl. case_match.
  - exists 0. split; [done|]. unfold in_s. lia.
  - eexists; split; [done|]. apply F64.as_i64_range.
Qed.
