(* ===== verification/Diversity.v ===== *)
(** * Diversity of solution sets

    Models [crates/quantum-validation/src/diversity.rs]: the spin-flip
    symmetric Hamming distance, the average pairwise diversity and the greedy
    farthest-point selection.  Vectors that the code indexes are lists read
    with [or_panic], so an index out of range is a [Panic]. *)

From S2P Require Import Prelude Validation.

(** [vec[i] = v], panicking out of range. *)
Definition vec_set {E A} (l : list A) (i : nat) (v : A) : result E (list A) :=
  if (i <? length l)%nat then Ok (<[i := v]> l) else Panic.

(** The two [u32] counters of the loop over [a.iter().zip(b.iter())]; each
    counts modulo [2^32]. *)
Definition symmetric_hamming_validated (a b : list Z) : Z :=
  let '(direct, inverted) :=
    foldl (fun acc ab =>
      let '(direct, inverted) := acc in
      let '(lhs, rhs) := ab in
      (if lhs =? rhs then direct else wrap_u 32 (direct + 1),
       if lhs =? wrap_s 8 (- rhs) then inverted else wrap_u 32 (inverted + 1)))
      (0, 0) (zip a b) in
  Z.min direct inverted.

Definition symmetric_hamming (a b : list Z) : vresult Z :=
  if negb (zlen a =? zlen b) then Err (SolutionLengthMismatch (zlen a) (zlen b)) else
  ensure_valid_spins a;;?
  ensure_valid_spins b;;?
  Ok (symmetric_hamming_validated a b).

(** The reporting loop of [ensure_valid_solution_inputs]. *)
Fixpoint report_invalid_solution (expected_len : Z) (solutions : list (list Z)) : vresult unit :=
  match solutions with
  | [] => Ok tt
  | spins :: solutions =>
      if negb (zlen spins =? expected_len) then
        Err (SolutionLengthMismatch expected_len (zlen spins))
      else
        ensure_valid_spins spins;;?
        report_invalid_solution expected_len solutions
  end.

Definition ensure_valid_solution_inputs (solutions : list (list Z)) : vresult Z :=
  first <-? or_panic (solutions !! 0%nat);;
  let expected_len := zlen first in
  (if negb (validate_solution_set solutions expected_len)
   then report_invalid_solution expected_len solutions else Ok tt);;?
  Ok expected_len.

(** The distances the double loop [for i { for j in i + 1.. }] visits. *)
Fixpoint pair_distances (solutions : list (list Z)) : list Z :=
  match solutions with
  | [] => []
  | s :: rest => (symmetric_hamming_validated s <$> rest) ++ pair_distances rest
  end.

Definition calculate_diversity (solutions : list (list Z)) : vresult Z :=
  if zlen solutions <? 2 then Ok 0 else
  expected_len <-? ensure_valid_solution_inputs solutions;;
  let total_distance := wrap_u 64 (zsum (pair_distances solutions)) in
  let pair_count := wrap_u 64 (zlen (pair_distances solutions)) in
  numerator <-? ok_or (checked_u 64 (total_distance * MILLI_SCALE)) ArithmeticOverflow;;
  denominator <-? ok_or (checked_u 64 (pair_count * expected_len)) ArithmeticOverflow;;
  q <-? round_div_u64 numerator denominator;;
  Ok (wrap_u 32 q).

(** [distances[i][j] = d] *)
Definition matrix_set {E} (m : list (list Z)) (i j : nat) (d : Z) : result E (list (list Z)) :=
  row <-? or_panic (m !! i);;
  row <-? vec_set row j d;;
  vec_set m i row.

(** [distances[i][j]] *)
Definition matrix_get {E} (m : list (list Z)) (i j : nat) : result E Z :=
  row <-? or_panic (m !! i);;
  or_panic (row !! j).

(** The inner loop body of [pairwise_distances]. *)
Definition fill_entry {E} (solutions : list (list Z)) (i : nat) (distances : list (list Z)) (j : nat)
    : result E (list (list Z)) :=
  a <-? or_panic (solutions !! i);;
  b <-? or_panic (solutions !! j);;
  let distance := symmetric_hamming_validated a b in
  distances <-? matrix_set distances i j distance;;
  matrix_set distances j i distance.

Definition fill_row {E} (solutions : list (list Z)) (distances : list (list Z)) (i : nat)
    : result E (list (list Z)) :=
  rfold (fill_entry solutions i) distances (seq (i + 1) (length solutions - (i + 1))).

Definition pairwise_distances {E} (solutions : list (list Z)) : result E (list (list Z)) :=
  let n := length solutions in
  rfold (fill_row solutions) (replicate n (replicate n 0)) (seq 0 n).

(** [row.iter().enumerate().skip(i + 1)] with the running best pair. *)
Definition scan_row (i : nat) (best : nat * nat * Z) (row : list Z) : nat * nat * Z :=
  foldl (fun best jd =>
    let '(_, best_distance) := best in
    let '(j, distance) := jd in
    if best_distance <? distance then (i, j, distance) else best)
    best (drop (i + 1) (imap pair row)).

Definition most_distant_pair {E} (distances : list (list Z)) : result E (list nat) :=
  d01 <-? matrix_get distances 0 1;;
  let '(i, j, _) :=
    foldl (fun best entry => scan_row entry.1 best entry.2)
      (0%nat, 1%nat, d01) (imap pair distances) in
  Ok [i; j].

(** The inner scan of one greedy round. *)
Definition best_candidate {E} (n : nat) (is_selected : list bool) (min_distance : list Z)
    : result E (option nat * Z) :=
  rfold (fun best candidate =>
    let '(best_index, best_min_distance) := best in
    sel <-? or_panic (is_selected !! candidate);;
    if (sel : bool) then Ok best else
    d <-? or_panic (min_distance !! candidate);;
    if bool_decide (best_index = None) || (best_min_distance <? d)
    then Ok (Some candidate, d) else Ok best)
    (None, 0) (seq 0 n).

(** The update of [min_distance] after [index] was chosen. *)
Definition relax_distances {E} (n : nat) (distances : list (list Z)) (is_selected : list bool)
    (index : nat) (min_distance : list Z) : result E (list Z) :=
  rfold (fun min_distance candidate =>
    sel <-? or_panic (is_selected !! candidate);;
    if (sel : bool) then Ok min_distance else
    d <-? or_panic (min_distance !! candidate);;
    d' <-? matrix_get distances candidate index;;
    vec_set min_distance candidate (Z.min d d'))
    min_distance (seq 0 n).

(** [while selected.len() < target_count]: each iteration pushes one index or
    breaks, so [missing = target_count - selected.len()] bounds the loop. *)
Fixpoint select_loop {E} (missing n : nat) (distances : list (list Z)) (selected : list nat)
    (is_selected : list bool) (min_distance : list Z) : result E (list nat) :=
  match missing with
  | O => Ok selected
  | S missing =>
      best <-? best_candidate n is_selected min_distance;;
      match best.1 with
      | None => Ok selected
      | Some index =>
          is_selected <-? vec_set is_selected index true;;
          min_distance <-? relax_distances n distances is_selected index min_distance;;
          select_loop missing n distances (selected ++ [index]) is_selected min_distance
      end
  end.

Definition select_diverse (solutions : list (list Z)) (target_count : nat) : vresult (list nat) :=
  let n := length solutions in
  if bool_decide (solutions = []) || bool_decide (target_count = 0%nat) then Ok [] else
  ensure_valid_solution_inputs solutions;;?
  if (n <=? target_count)%nat then Ok (seq 0 n) else
  if bool_decide (target_count = 1%nat) then Ok [0%nat] else
  distances <-? pairwise_distances solutions;;
  selected <-? most_distant_pair distances;;
  s0 <-? or_panic (selected !! 0%nat);;
  s1 <-? or_panic (selected !! 1%nat);;
  is_selected <-? vec_set (replicate n false) s0 true;;
  is_selected <-? vec_set is_selected s1 true;;
  min_distance <-? rfold (fun min_distance candidate =>
      d0 <-? matrix_get distances candidate s0;;
      d1 <-? matrix_get distances candidate s1;;
      vec_set min_distance candidate (Z.min d0 d1))
    (replicate n (2 ^ 32 - 1)) (seq 0 n);;
  select_loop (target_count - length selected) n distances selected is_selected min_distance.

(** ** Distance *)

(** Number of positions where two configurations differ. *)
Fixpoint hamming (a b : list Z) : Z :=
  match a, b with
  | x :: a, y :: b => (if x =? y then 0 else 1) + hamming a b
  | _, _ => 0
  end.

Definition spins_valid (s : list Z) : Prop := Forall (fun x => x = 1 \/ x = -1) s.

Lemma hamming_range a b : 0 <= hamming a b <= zlen a.
Proof.
  revert b; induction a as [|x a IH]; intros [|y b]; simpl; rewrite ?zlen_cons;
    [unfold zlen; simpl; lia..|pose proof (zlen_nonneg a); lia|].
  specialize (IH b). case_match; lia.
Qed.

#[local] Lemma wrap_s_8_spin x : x = 1 \/ x = -1 -> wrap_s 8 (- x) = - x.
Proof. intros [-> | ->]; reflexivity. Qed.

#[local] Lemma hamming_fold a b d i :
  spins_valid b -> 0 <= d -> 0 <= i -> length a = length b ->
  d + zlen a < 2 ^ 32 -> i + zlen a < 2 ^ 32 ->
  foldl (fun acc ab =>
      let '(direct, inverted) := acc in
      let '(lhs, rhs) := ab in
      (if lhs =? rhs then direct else wrap_u 32 (direct + 1),
       if lhs =? wrap_s 8 (- rhs) then inverted else wrap_u 32 (inverted + 1)))
    (d, i) (zip a b) = (d + hamming a b, i + hamming a (Z.opp <$> b)).
Proof.
  revert b d i. induction a as [|x a IH]; intros [|y b] d i Hb Hd Hi Hl H1 H2; csimpl in *; try done.
  { by rewrite !Z.add_0_r. }
  apply Forall_cons in Hb as [Hy Hb]. rewrite zlen_cons in H1, H2.
  pose proof (zlen_nonneg a). rewrite wrap_s_8_spin by done.
  rewrite !(wrap_u_small 32) by (unfold in_u; lia).
  destruct (x =? y), (x =? - y); rewrite IH by (done || lia); f_equal; lia.
Qed.

(** The loop computes the smaller of the distances to [b] and to its flip. *)
Lemma symmetric_hamming_spec a b :
  spins_valid b -> length a = length b -> zlen a < 2 ^ 32 ->
  symmetric_hamming_validated a b = Z.min (hamming a b) (hamming a (Z.opp <$> b)).
Proof.
  intros Hb Hl Hlt. unfold symmetric_hamming_validated. by rewrite hamming_fold by (done || lia).
Qed.

#[local] Lemma hamming_complement a b :
  spins_valid a -> spins_valid b -> length a = length b ->
  hamming a b + hamming a (Z.opp <$> b) = zlen a.
Proof.
  intros Ha; revert b; induction Ha as [|x a Hx Ha IH]; intros [|y b] Hb Hl; csimpl in *; try done.
  apply Forall_cons in Hb as [Hy Hb]. rewrite zlen_cons. specialize (IH b Hb ltac:(lia)).
  cbn beta in *. destruct_or!; subst; simpl; lia.
Qed.

#[local] Lemma hamming_comm a b : hamming a b = hamming b a.
Proof.
  revert b; induction a as [|x a IH]; intros [|y b]; csimpl; try done. by rewrite IH, Z.eqb_sym.
Qed.

#[local] Lemma hamming_flip_both a b : hamming (Z.opp <$> a) (Z.opp <$> b) = hamming a b.
Proof.
  revert b; induction a as [|x a IH]; intros [|y b]; csimpl; try done. rewrite IH.
  destruct (x =? y) eqn:?, (- x =? - y) eqn:?; bool_to_prop; lia.
Qed.

#[local] Lemma flip_flip (a : list Z) : Z.opp <$> (Z.opp <$> a) = a.
Proof. induction a as [|x a IH]; [done|]. csimpl in *. rewrite IH. f_equal. lia. Qed.

#[local] Lemma spins_valid_flip a : spins_valid a -> spins_valid (Z.opp <$> a).
Proof. unfold spins_valid. rewrite Forall_fmap. intros Ha. eapply Forall_impl; [exact Ha|]. simpl. lia. Qed.

(** The distance is a symmetric function, blind to a global flip of either
    argument, and never exceeds half of the spins. *)
Lemma symmetric_hamming_props a b :
  spins_valid a -> spins_valid b -> length a = length b -> zlen a < 2 ^ 32 ->
  let d := symmetric_hamming_validated in
  d a b = d b a /\ d a (Z.opp <$> b) = d a b /\ d (Z.opp <$> a) b = d a b /\
  0 <= d a b /\ 2 * d a b <= zlen a /\ (d a b = 0 <-> a = b \/ a = Z.opp <$> b).
Proof.
  intros Ha Hb Hl Hlt d. unfold d.
  assert (zlen b < 2 ^ 32) by (unfold zlen in *; lia).
  assert (forall l : list Z, length (Z.opp <$> l) = length l) as Hfl by (intros; apply length_fmap).
  rewrite !symmetric_hamming_spec; rewrite ?Hfl; try done; try (by apply spins_valid_flip);
    try (unfold zlen; rewrite ?Hfl; unfold zlen in *; lia).
  rewrite flip_flip, hamming_flip_both, (hamming_comm b a), (hamming_comm b (Z.opp <$> a)).
  assert (hamming (Z.opp <$> a) b = hamming a (Z.opp <$> b)) as Hx.
  { by rewrite <- (hamming_flip_both (Z.opp <$> a)), flip_flip. }
  rewrite Hx. pose proof (hamming_complement a b Ha Hb Hl).
  pose proof (hamming_range a b). pose proof (hamming_range a (Z.opp <$> b)).
  assert (forall l, length a = length l -> hamming a l = 0 <-> a = l) as Hz.
  { clear. induction a as [|x a IH]; intros [|y l] Hl; csimpl in *; try done.
    specialize (IH l ltac:(lia)). pose proof (hamming_range a l).
    destruct (x =? y) eqn:?; bool_to_prop; [|split; [lia|naive_solver]].
    split; [intros; f_equal; [done|apply IH; lia]|intros [= _ ->]; apply IH; done]. }
  split_and!; try lia. rewrite <- (Hz b Hl), <- (Hz (Z.opp <$> b)) by (by rewrite Hfl). lia.
Qed.

(** ** Input checks *)

(** [solutions] are configurations of [n] valid spins. *)
Definition solution_set (n : Z) (solutions : list (list Z)) : Prop :=
  Forall (fun s => zlen s = n /\ spins_valid s) solutions.

Lemma validate_solution_set_iff solutions n :
  validate_solution_set solutions n = true <-> solution_set n solutions.
Proof.
  unfold validate_solution_set, solution_set. rewrite forallb_forall, Forall_forall.
  setoid_rewrite list_elem_of_In. setoid_rewrite andb_true_iff.
  setoid_rewrite Z.eqb_eq. by setoid_rewrite validate_spins_iff.
Qed.

Lemma ensure_valid_solution_inputs_valid n s solutions :
  solution_set n (s :: solutions) -> ensure_valid_solution_inputs (s :: solutions) = Ok n.
Proof.
  intros Hs. unfold ensure_valid_solution_inputs. cbn [lookup list_lookup or_panic rbind].
  assert (zlen s = n) as -> by (by apply Forall_cons in Hs as [[??] _]).
  by rewrite (proj2 (validate_solution_set_iff _ _) Hs).
Qed.

Lemma ensure_valid_solution_inputs_Ok solutions n :
  ensure_valid_solution_inputs solutions = Ok n -> solution_set n solutions.
Proof.
  unfold ensure_valid_solution_inputs. intros H. rinv.
  destruct (validate_solution_set solutions (zlen a)) eqn:Hv; simpl in *.
  { by apply validate_solution_set_iff. }
  clear Hv Ho. unfold solution_set. destruct a0. revert Hm0.
  induction solutions as [|s solutions IH]; simpl; [done|].
  destruct (zlen s =? zlen a) eqn:Hl; simpl; [|done]. intros H. rinv. bool_to_prop. destruct a0.
  constructor; [split; [done|by apply ensure_valid_spins_Ok]|by apply IH].
Qed.

(** ** Average diversity *)

#[local] Lemma pair_distances_bound n solutions :
  solution_set n solutions -> n < 2 ^ 32 ->
  Forall (fun d => 0 <= d /\ 2 * d <= n) (pair_distances solutions).
Proof.
  intros Hs Hn. induction Hs as [|s rest [Hl Hv] Hs IH]; simpl; [done|].
  apply Forall_app. split; [|done]. apply Forall_fmap. eapply Forall_impl; [exact Hs|].
  intros t [Hlt Hvt]. simpl.
  destruct (symmetric_hamming_props s t) as (_ & _ & _ & ? & ? & _); [done|done|unfold zlen in *; lia|lia|].
  lia.
Qed.

#[local] Lemma zsum_half n l : Forall (fun d => 0 <= d /\ 2 * d <= n) l -> 0 <= 2 * zsum l <= zlen l * n.
Proof.
  induction 1 as [|d l Hd Hl IH]; [done|]. rewrite zlen_cons. unfold zsum in *. simpl. lia.
Qed.

#[local] Lemma pair_distances_nonempty solutions : 2 <= zlen solutions -> 0 < zlen (pair_distances solutions).
Proof.
  by destruct solutions as [|s [|t rest]].
Qed.

(** On a valid set the score is the rounded mean of the normalised distances,
    in thousandths, and no set scores above 500. *)
Lemma calculate_diversity_value n solutions :
  solution_set n solutions -> 2 <= zlen solutions -> 0 < n < 2 ^ 32 ->
  zlen (pair_distances solutions) * n * MILLI_SCALE < 2 ^ 63 ->
  let total := zsum (pair_distances solutions) in
  let weight := zlen (pair_distances solutions) * n in
  calculate_diversity solutions = Ok ((total * MILLI_SCALE + weight / 2) / weight) /\
  0 <= (total * MILLI_SCALE + weight / 2) / weight <= 500.
Proof.
  intros Hs H2 Hn Hbound total weight. unfold calculate_diversity, MILLI_SCALE in *.
  rewrite (proj2 (Z.ltb_ge _ _)) by done.
  destruct solutions as [|s rest]; [done|].
  rewrite (ensure_valid_solution_inputs_valid n) by done. cbn [rbind].
  pose proof (zsum_half n _ (pair_distances_bound n (s :: rest) Hs ltac:(lia))) as Hhalf.
  pose proof (pair_distances_nonempty (s :: rest) H2) as Hp.
  fold total in Hhalf |- *. fold weight in Hhalf, Hbound.
  assert (0 < weight) by (unfold weight; nia).
  assert (zlen (pair_distances (s :: rest)) <= weight) by (unfold weight; nia).
  rewrite !(wrap_u_small 64) by (unfold in_u; lia).
  assert (checked_u 64 (total * 1000) = Some (total * 1000)) as ->.
  { apply checked_u_Some. split; [done|]. unfold in_u. lia. }
  fold weight. assert (checked_u 64 weight = Some weight) as ->.
  { apply checked_u_Some. split; [done|]. unfold in_u. lia. }
  simpl. rewrite round_div_u64_Ok by done. simpl.
  pose proof (Z.div_mod weight 2 ltac:(lia)). pose proof (Z.mod_pos_bound weight 2 ltac:(lia)).
  rewrite (wrap_u_small 64) by (unfold in_u; lia).
  assert (0 <= (total * 1000 + weight / 2) / weight <= 500) as Hr.
  { split; [apply Z.div_pos; lia|]. apply Z.lt_succ_r, Z.div_lt_upper_bound; lia. }
  rewrite wrap_u_small by (unfold in_u; lia). done.
Qed.

(** ** The distance matrix *)

Definition entry (m : list (list Z)) (i j : nat) : option Z := m !! i ≫= (.!! j).

Definition dims (n : nat) (m : list (list Z)) : Prop :=
  length m = n /\ Forall (fun row => length row = n) m.

(** The distance the matrix stores: the pair is compared in index order and
    the diagonal stays zero. *)
Definition dist (solutions : list (list Z)) (i j : nat) : Z :=
  match solutions !! i, solutions !! j with
  | Some a, Some b =>
      if (i <? j)%nat then symmetric_hamming_validated a b
      else if (j <? i)%nat then symmetric_hamming_validated b a else 0
  | _, _ => 0
  end.

#[local] Lemma vec_set_Ok {E A} (l : list A) i v :
  (i < length l)%nat -> @vec_set E A l i v = Ok (<[i := v]> l).
Proof. intros Hi. unfold vec_set. by rewrite (proj2 (Nat.ltb_lt _ _)). Qed.

#[local] Lemma matrix_set_Ok {E} n m i j d :
  dims n m -> (i < n)%nat -> (j < n)%nat ->
  exists m', @matrix_set E m i j d = Ok m' /\ dims n m' /\
    forall a b, entry m' a b = if decide (a = i /\ b = j) then Some d else entry m a b.
Proof.
  intros [Hl Hr] Hi Hj. unfold matrix_set.
  destruct (lookup_lt_is_Some_2 m i) as [row Hrow]; [lia|]. rewrite Hrow. simpl.
  assert (length row = n) by (by eapply Forall_lookup_1 in Hr).
  rewrite vec_set_Ok by lia. simpl. rewrite vec_set_Ok by lia. eexists; split_and!; [done|split|].
  - by rewrite length_insert.
  - apply Forall_insert; [done|]. by rewrite length_insert.
  - intros a b. unfold entry. destruct (decide (a = i)) as [->|Hne].
    + rewrite list_lookup_insert_eq by lia. simpl. destruct (decide (b = j)) as [->|Hne].
      * rewrite list_lookup_insert_eq by lia. by rewrite decide_True.
      * rewrite list_lookup_insert_ne by done. rewrite decide_False by naive_solver. by rewrite Hrow.
    + rewrite list_lookup_insert_ne by done. by rewrite decide_False by naive_solver.
Qed.

#[local] Lemma matrix_get_entry {E} m i j d : entry m i j = Some d -> @matrix_get E m i j = Ok d.
Proof.
  unfold entry, matrix_get. destruct (m !! i) as [row|]; simpl; [|done]. by intros ->.
Qed.

#[local] Lemma dims_zero n : dims n (replicate n (replicate n 0)).
Proof. split; [apply length_replicate|]. apply Forall_replicate, length_replicate. Qed.

Lemma pairwise_distances_Ok {E} solutions :
  let n := length solutions in
  exists m, @pairwise_distances E solutions = Ok m /\ dims n m /\
    forall a b, (a < n)%nat -> (b < n)%nat -> entry m a b = Some (dist solutions a b).
Proof.
  intros n. unfold pairwise_distances. fold n.
  set (done_upto := fun (i j : nat) (m : list (list Z)) => dims n m /\
    forall a b, (a < n)%nat -> (b < n)%nat ->
      entry m a b = Some (if decide (a <> b /\ (Nat.min a b < i \/ Nat.min a b = i /\ Nat.max a b < j))%nat
                          then dist solutions a b else 0)).
  destruct (rfold_seq_ind (@fill_row E solutions) (fun i => done_upto i (S i)) 0 n
    (replicate n (replicate n 0))) as (m & -> & Hd & Hm); [| |exists m; split_and!; [done|done|]].
  - intros i m Hi Hm.
    unfold fill_row. fold n.
    destruct (rfold_seq_ind (@fill_entry E solutions i) (fun j => done_upto i j) (i + 1) (n - (i + 1)) m)
      as (m' & -> & [Hd' Hm']).
    + intros j m1 Hj [Hd1 H1]. unfold fill_entry.
      destruct (lookup_lt_is_Some_2 solutions i) as [a Ha]; [lia|].
      destruct (lookup_lt_is_Some_2 solutions j) as [b Hb]; [lia|]. rewrite Ha, Hb. simpl.
      destruct (@matrix_set_Ok E n m1 i j (symmetric_hamming_validated a b)) as (m2 & -> & Hd2 & H2); [done|lia|lia|]. simpl.
      destruct (@matrix_set_Ok E n m2 j i (symmetric_hamming_validated a b)) as (m3 & -> & Hd3 & H3); [done|lia|lia|].
      exists m3. split; [done|]. split; [done|]. intros x y Hx Hy. rewrite H3, H2, H1 by done.
      destruct (decide (x = j /\ y = i)) as [[-> ->]|Hne1].
      { rewrite decide_True by lia. unfold dist. rewrite Ha, Hb.
        rewrite (proj2 (Nat.ltb_ge j i)), (proj2 (Nat.ltb_lt i j)) by lia. done. }
      destruct (decide (x = i /\ y = j)) as [[-> ->]|Hne2].
      { rewrite decide_True by lia. unfold dist. rewrite Ha, Hb.
        rewrite (proj2 (Nat.ltb_lt i j)) by lia. done. }
      f_equal. repeat case_decide; try done; lia.
    + destruct Hm as [Hd Hm]. split; [done|]. intros x y Hx Hy. rewrite Hm by done.
      f_equal. repeat case_decide; try done; lia.
    + exists m'. split; [done|]. split; [done|]. intros x y Hx Hy. rewrite Hm' by done.
      f_equal. repeat case_decide; try done; lia.
  - split; [apply dims_zero|]. intros a b Ha Hb. rewrite decide_False by lia. unfold entry.
    rewrite lookup_replicate_2 by done. simpl. by rewrite lookup_replicate_2.
  - intros a b Ha Hb. rewrite Hm by lia. f_equal. case_decide; [done|].
    assert (a = b) as <- by lia. unfold dist. destruct (solutions !! a); [|done].
    by rewrite Nat.ltb_irrefl.
Qed.

(** ** Greedy farthest-point selection *)

(** Distance from [c] to the nearest member of [sel]. *)
Definition min_dist (D : nat -> nat -> Z) (sel : list nat) (c : nat) : Z :=
  foldr (fun s acc => Z.min (D c s) acc) (2 ^ 32 - 1) sel.

(** The documented strategy: start from a most distant pair, then keep adding
    a candidate whose distance to the selected set is maximal. *)
Inductive greedy (D : nat -> nat -> Z) (n : nat) : list nat -> Prop :=
  | greedy_pair i j :
      (i < j < n)%nat -> (forall a b, (a < b < n)%nat -> D a b <= D i j) -> greedy D n [i; j]
  | greedy_add sel x :
      greedy D n sel -> (x < n)%nat -> x ∉ sel ->
      (forall c, (c < n)%nat -> c ∉ sel -> min_dist D sel c <= min_dist D sel x) ->
      greedy D n (sel ++ [x]).

Lemma greedy_NoDup D n sel : greedy D n sel -> NoDup sel /\ Forall (fun i => i < n)%nat sel.
Proof.
  induction 1 as [i j Hij _|sel x _ [Hnd Hlt] Hx Hfresh _].
  - split; [|repeat constructor; lia]. repeat constructor; set_solver by lia.
  - split; [|apply Forall_app; split; [done|by constructor]].
    apply NoDup_app. split_and!; [done|set_solver|apply NoDup_singleton].
Qed.

Lemma min_dist_snoc D sel x c : min_dist D (sel ++ [x]) c = Z.min (min_dist D sel c) (D c x).
Proof. unfold min_dist. induction sel as [|s sel IH]; simpl; lia. Qed.

#[local] Lemma elem_of_drop_imap (row : list Z) k j d :
  (j, d) ∈ drop k (imap pair row) <-> (k <= j)%nat /\ row !! j = Some d.
Proof.
  rewrite list_elem_of_lookup. setoid_rewrite lookup_drop. setoid_rewrite list_lookup_imap. split.
  - intros (i & Hi). destruct (row !! (k + i)%nat) as [d'|] eqn:Hr; simplify_eq/=. split; [lia|done].
  - intros [Hle Hr]. exists (j - k)%nat. replace (k + (j - k))%nat with j by lia. by rewrite Hr.
Qed.

(** The best pair so far: a real pair, whose distance dominates [seen]. *)
#[local] Definition best_pair (m : list (list Z)) (n : nat) (best : nat * nat * Z) : Prop :=
  let '(i, j, d) := best in (i < j < n)%nat /\ entry m i j = Some d.

#[local] Lemma scan_row_spec m n i row best :
  dims n m -> m !! i = Some row -> best_pair m n best ->
  best_pair m n (scan_row i best row) /\ best.2 <= (scan_row i best row).2 /\
  forall j d, (i < j)%nat -> row !! j = Some d -> d <= (scan_row i best row).2.
Proof.
  intros [Hlen Hrows] Hrow Hbest. unfold scan_row.
  set (l := drop (i + 1) (imap pair row)).
  set (f := fun (best : nat * nat * Z) (jd : nat * Z) => _).
  cut (best_pair m n (foldl f best l) /\ best.2 <= (foldl f best l).2 /\
       forall x, x ∈ l -> x.2 <= (foldl f best l).2).
  { intros (H1 & H2 & H3). split_and!; [done|done|]. intros j d Hj Hd.
    apply (H3 (j, d)). unfold l. apply elem_of_drop_imap. split; [lia|done]. }
  apply (foldl_prefix_ind f (fun pre b => best_pair m n b /\ best.2 <= b.2 /\ forall x, x ∈ pre -> x.2 <= b.2)).
  { split_and!; [done|lia|set_solver]. }
  intros pre [j d] [[bi bj] bd] Hin ((H1 & H1e) & H2 & H3). unfold f. simpl in *.
  apply elem_of_drop_imap in Hin as [Hj Hd].
  assert (length row = n) as Hln by (by eapply Forall_lookup_1 in Hrows).
  apply lookup_lt_Some in Hd as Hjn.
  destruct (bd <? d) eqn:Hcmp; bool_to_prop; simpl; split_and!; try done; try lia.
  - unfold entry. by rewrite Hrow.
  - intros x [Hx| ->%list_elem_of_singleton]%elem_of_app; [apply H3 in Hx; lia|simpl; lia].
  - intros x [Hx| ->%list_elem_of_singleton]%elem_of_app; [by apply H3 in Hx|simpl; lia].
Qed.

Lemma most_distant_pair_Ok {E} m n D :
  dims n m -> (2 <= n)%nat ->
  (forall a b, (a < n)%nat -> (b < n)%nat -> entry m a b = Some (D a b)) ->
  exists i j, @most_distant_pair E m = Ok [i; j] /\ greedy D n [i; j].
Proof.
  intros Hd Hn HD. unfold most_distant_pair.
  rewrite (matrix_get_entry _ _ _ _ (HD 0%nat 1%nat ltac:(lia) ltac:(lia))). cbn [rbind].
  set (f := fun (best : nat * nat * Z) (e : nat * list Z) => scan_row e.1 best e.2).
  pose proof (foldl_prefix_ind f (fun pre best => best_pair m n best /\
    forall i row j d, (i, row) ∈ pre -> (i < j)%nat -> row !! j = Some d -> d <= best.2)
    (imap pair m) (0%nat, 1%nat, D 0%nat 1%nat)) as Hfold.
  destruct (foldl f _ _) as [[i j] d] eqn:Hres.
  destruct Hfold as [[Hij He] Hmax].
  - split; [|set_solver]. split; [lia|]. apply HD; lia.
  - intros pre [k row] best Hin [H1 H2]. apply elem_of_lookup_imap in Hin as (k' & row' & Heq & Hrow).
    simplify_eq/=. destruct (scan_row_spec m n k' row' best Hd Hrow H1) as (H3 & H4 & H5).
    split; [done|]. intros a r b x [Ha|[= -> ->]%list_elem_of_singleton]%elem_of_app Hab Hx; [|by eapply H5].
    etrans; [by eapply H2|done].
  - exists i, j. split; [done|]. constructor; [lia|]. intros a b Hab.
    assert (entry m a b = Some (D a b)) as Hae by (apply HD; lia).
    rewrite HD in He by lia. simplify_eq. unfold entry in Hae.
    destruct (m !! a) as [row|] eqn:Hrow; simpl in Hae; [|done].
    eapply (Hmax a row b); [|lia|done]. apply elem_of_lookup_imap. eauto.
Qed.

(** The loop's bookkeeping agrees with the set selected so far. *)
Record select_inv (D : nat -> nat -> Z) (n : nat) (sel : list nat) (is_sel : list bool)
    (md : list Z) : Prop := {
  inv_greedy : greedy D n sel;
  inv_flags : length is_sel = n /\ forall i, (i < n)%nat -> is_sel !! i = Some (bool_decide (i ∈ sel));
  inv_md : length md = n /\ forall i, (i < n)%nat -> i ∉ sel -> md !! i = Some (min_dist D sel i)
}.

#[local] Lemma best_candidate_Ok {E} D n sel is_sel md :
  select_inv D n sel is_sel md ->
  exists b, @best_candidate E n is_sel md = Ok b /\
    match b.1 with
    | None => forall i, (i < n)%nat -> i ∈ sel
    | Some x => (x < n)%nat /\ x ∉ sel /\
        forall c, (c < n)%nat -> c ∉ sel -> min_dist D sel c <= min_dist D sel x
    end.
Proof.
  intros [_ [Hfl Hf] [Hml Hmd]]. unfold best_candidate.
  destruct (rfold_seq_ind (E := E) (fun (best : option nat * Z) candidate =>
    let '(best_index, best_min_distance) := best in
    sel <-? or_panic (is_sel !! candidate);;
    if (sel : bool) then Ok best else
    d <-? or_panic (md !! candidate);;
    if bool_decide (best_index = None) || (best_min_distance <? d)
    then Ok (Some candidate, d) else Ok best)
    (fun k b => match b.1 with
      | None => forall i, (i < k)%nat -> i ∈ sel
      | Some x => (x < k)%nat /\ x ∉ sel /\ b.2 = min_dist D sel x /\
          forall c, (c < k)%nat -> c ∉ sel -> min_dist D sel c <= b.2
      end) 0 n (None, 0)) as (b & Hb & HP).
  - intros c [bi bd] Hc HP. rewrite Hf by lia. simpl. case_bool_decide as Hsel.
    { exists (bi, bd). split; [done|]. destruct bi as [x|]; simpl in *.
      - destruct HP as (? & ? & ? & HP). split_and!; [lia|done|done|].
        intros i Hi Hni. apply HP; [|done]. destruct (decide (i = c)); [naive_solver|lia].
      - intros i Hi. destruct (decide (i = c)) as [->|]; [done|]. apply HP. lia. }
    rewrite Hmd by (done || lia). simpl.
    destruct (bool_decide (bi = None) || (bd <? min_dist D sel c)) eqn:Hcmp.
    + eexists; split; [done|]. simpl. split_and!; [lia|done|done|]. intros i Hi Hni.
      destruct (decide (i = c)) as [->|]; [lia|]. destruct bi as [x|]; simpl in *.
      * destruct HP as (? & ? & ? & HP). bool_to_prop. specialize (HP i ltac:(lia) Hni). lia.
      * exfalso. apply Hni, HP. lia.
    + eexists; split; [done|]. bool_to_prop. destruct bi as [x|]; [|done]. simpl in *.
      destruct HP as (? & ? & ? & HP). split_and!; [lia|done|done|].
      intros i Hi Hni. destruct (decide (i = c)) as [->|]; [lia|]. apply HP; [lia|done].
  - simpl. lia.
  - exists b. split; [exact Hb|]. destruct b as [[x|] bd]; simpl in *; [|done].
    destruct HP as (? & ? & -> & HP). split_and!; done.
Qed.

#[local] Lemma relax_distances_Ok {E} D n m sel is_sel x md :
  (forall a b, (a < n)%nat -> (b < n)%nat -> entry m a b = Some (D a b)) -> (x < n)%nat ->
  (forall i, (i < n)%nat -> is_sel !! i = Some (bool_decide (i ∈ sel ++ [x]))) ->
  length md = n -> (forall i, (i < n)%nat -> i ∉ sel -> md !! i = Some (min_dist D sel i)) ->
  exists md', @relax_distances E n m is_sel x md = Ok md' /\ length md' = n /\
    forall i, (i < n)%nat -> i ∉ sel ++ [x] -> md' !! i = Some (min_dist D (sel ++ [x]) i).
Proof.
  intros HD Hx Hf Hl Hmd. unfold relax_distances.
  destruct (rfold_seq_ind (E := E) (fun md candidate =>
    sel <-? or_panic (is_sel !! candidate);;
    if (sel : bool) then Ok md else
    d <-? or_panic (md !! candidate);;
    d' <-? matrix_get m candidate x;;
    vec_set md candidate (Z.min d d'))
    (fun k md' => length md' = n /\ forall i, (i < n)%nat -> i ∉ sel ++ [x] ->
       md' !! i = Some (min_dist D (if (i <? k)%nat then sel ++ [x] else sel) i)) 0 n md)
    as (md' & Hr & Hl' & HP).
  - intros c md1 Hc [Hl1 HP]. rewrite Hf by lia. simpl. case_bool_decide as Hsel.
    { exists md1. split; [done|]. split; [done|]. intros i Hi Hni. rewrite HP by done.
      assert (i <> c) by naive_solver.
      destruct (i <? c)%nat eqn:?, (i <? S c)%nat eqn:?; try done;
        rewrite ?Nat.ltb_lt, ?Nat.ltb_ge in *; lia. }
    rewrite HP, Nat.ltb_irrefl by (done || lia). simpl.
    rewrite (matrix_get_entry _ _ _ (D c x)) by (apply HD; lia). simpl.
    rewrite vec_set_Ok by lia. eexists; split; [done|]. rewrite length_insert. split; [done|].
    intros i Hi Hni. destruct (decide (i = c)) as [->|Hne].
    + rewrite list_lookup_insert_eq by lia. rewrite (proj2 (Nat.ltb_lt c (S c))) by lia.
      by rewrite min_dist_snoc.
    + rewrite list_lookup_insert_ne by done. rewrite HP by done.
      destruct (i <? c)%nat eqn:?, (i <? S c)%nat eqn:?; try done;
        rewrite ?Nat.ltb_lt, ?Nat.ltb_ge in *; lia.
  - split; [done|]. intros i Hi Hni. simpl. apply Hmd; [done|]. set_solver.
  - exists md'. split; [exact Hr|]. split; [done|]. intros i Hi Hni. rewrite HP by done.
    simpl. by rewrite (proj2 (Nat.ltb_lt i n)).
Qed.

#[local] Lemma covered_length n (sel : list nat) :
  NoDup sel -> (forall i, (i < n)%nat -> i ∈ sel) -> (n <= length sel)%nat.
Proof.
  intros Hnd Hall. rewrite <- (length_seq n 0). apply NoDup_incl_length.
  - apply NoDup_ListNoDup, NoDup_seq.
  - intros i Hi%list_elem_of_In%elem_of_seq. apply list_elem_of_In, Hall. lia.
Qed.

#[local] Lemma select_loop_Ok {E} D n m missing sel is_sel md :
  (forall a b, (a < n)%nat -> (b < n)%nat -> entry m a b = Some (D a b)) ->
  select_inv D n sel is_sel md -> (length sel + missing <= n)%nat ->
  exists sel', @select_loop E missing n m sel is_sel md = Ok sel' /\ greedy D n sel' /\
    length sel' = (length sel + missing)%nat.
Proof.
  intros HD. revert sel is_sel md. induction missing as [|k IH]; intros sel is_sel md Hinv Hle; simpl.
  { exists sel. split_and!; [done|by destruct Hinv|lia]. }
  destruct (@best_candidate_Ok E D n sel is_sel md Hinv) as (b & -> & Hb). simpl.
  pose proof (greedy_NoDup _ _ _ (inv_greedy _ _ _ _ _ Hinv)) as [Hnd _].
  destruct b.1 as [x|].
  2: { pose proof (covered_length n sel Hnd Hb). lia. }
  destruct Hb as (Hx & Hnx & Hmax). destruct Hinv as [Hg [Hfl Hf] [Hml Hmd]].
  rewrite vec_set_Ok by lia. simpl.
  assert (forall i, (i < n)%nat -> <[x := true]> is_sel !! i = Some (bool_decide (i ∈ sel ++ [x]))) as Hf'.
  { intros i Hi. destruct (decide (i = x)) as [->|Hne].
    - rewrite list_lookup_insert_eq by lia. rewrite bool_decide_true; [done|set_solver].
    - rewrite list_lookup_insert_ne by done. rewrite Hf by done. f_equal.
      apply bool_decide_ext. set_solver. }
  destruct (@relax_distances_Ok E D n m sel (<[x := true]> is_sel) x md) as (md' & -> & Hl' & Hmd'); [done..|]. simpl.
  destruct (IH (sel ++ [x]) (<[x := true]> is_sel) md') as (sel' & Hr & Hg' & Hl2).
  - split; [by constructor| |done]. split; [by rewrite length_insert|done].
  - rewrite length_app. simpl. lia.
  - exists sel'. split_and!; [done|done|]. rewrite Hl2, length_app. simpl. lia.
Qed.

#[local] Lemma symmetric_hamming_validated_range a b : in_u 32 (symmetric_hamming_validated a b).
Proof.
  unfold symmetric_hamming_validated.
  set (f := fun (acc : Z * Z) (ab : Z * Z) => _).
  assert (in_u 32 (foldl f (0, 0) (zip a b)).1 /\ in_u 32 (foldl f (0, 0) (zip a b)).2) as [H1 H2].
  { apply (foldl_prefix_ind f (fun _ acc => in_u 32 acc.1 /\ in_u 32 acc.2)); [by unfold in_u|].
    intros _ [x y] [d i] _ [Hd Hi]. unfold f. simpl in *.
    split; case_match; try done; apply wrap_u_range; lia. }
  destruct (foldl f _ _) as [d i]. simpl in *. unfold in_u in *. lia.
Qed.

#[local] Lemma dist_le solutions a b : dist solutions a b <= 2 ^ 32 - 1.
Proof.
  unfold dist. repeat case_match; try lia.
  all: match goal with |- symmetric_hamming_validated ?a ?b <= _ =>
    pose proof (symmetric_hamming_validated_range a b) as Hr end; unfold in_u in Hr; lia.
Qed.

(** For a valid set and a target between 2 and the set's size the routine
    neither fails nor panics, and follows the greedy strategy exactly. *)
Lemma select_diverse_greedy k solutions target :
  solution_set k solutions -> (2 <= target < length solutions)%nat ->
  exists sel, select_diverse solutions target = Ok sel /\ length sel = target /\
    greedy (dist solutions) (length solutions) sel.
Proof.
  intros Hs Ht. assert (solutions <> []) as Hne by (intros ->; simpl in Ht; lia).
  set (n := length solutions) in *. unfold select_diverse. fold n.
  rewrite (bool_decide_false (solutions = [])), (bool_decide_false (target = 0%nat)) by (done || lia). cbn [orb].
  destruct solutions as [|s rest]; [simpl in *; lia|].
  rewrite (ensure_valid_solution_inputs_valid k) by done. cbn [rbind].
  rewrite (proj2 (Nat.leb_gt n target)), bool_decide_false by lia.
  destruct (@pairwise_distances_Ok ValidationError (s :: rest)) as (m & -> & Hd & HD). cbn [rbind]. fold n in Hd, HD.
  destruct (@most_distant_pair_Ok ValidationError m n (dist (s :: rest))) as (i & j & -> & Hg); [done|lia|done|].
  assert ((i < n)%nat /\ (j < n)%nat /\ i <> j) as (Hi & Hj & Hij).
  { apply greedy_NoDup in Hg as [Hnd Hf]. rewrite !Forall_cons in Hf. apply NoDup_cons in Hnd. set_solver. }
  cbn [rbind lookup list_lookup or_panic].
  rewrite vec_set_Ok by (rewrite length_replicate; lia). cbn [rbind].
  rewrite vec_set_Ok by (rewrite length_insert, length_replicate; lia). cbn [rbind].
  destruct (rfold_seq_ind (E := ValidationError) (fun md candidate =>
      d0 <-? matrix_get m candidate i;; d1 <-? matrix_get m candidate j;;
      vec_set md candidate (Z.min d0 d1))
    (fun c md => length md = n /\ forall x, (x < c)%nat -> md !! x = Some (min_dist (dist (s :: rest)) [i; j] x))
    0 n (replicate n (2 ^ 32 - 1))) as (md & Hmd & Hml & HP).
  - intros c md Hc [Hl HP].
    rewrite (matrix_get_entry _ _ _ _ (HD c i ltac:(lia) Hi)), (matrix_get_entry _ _ _ _ (HD c j ltac:(lia) Hj)). simpl.
    rewrite vec_set_Ok by lia. eexists; split; [done|]. rewrite length_insert. split; [done|].
    intros x Hx. destruct (decide (x = c)) as [->|].
    + rewrite list_lookup_insert_eq by lia. f_equal. unfold min_dist. cbn [foldr].
      pose proof (dist_le (s :: rest) c j). lia.
    + rewrite list_lookup_insert_ne by done. apply HP. lia.
  - split; [apply length_replicate|lia].
  - rewrite Hmd. cbn [rbind].
    destruct (@select_loop_Ok ValidationError (dist (s :: rest)) n m (target - 2) [i; j]
      (<[j := true]> (<[i := true]> (replicate n false))) md HD) as (sel & Hsel & Hgs & Hlen).
    + split; [done| |split; [done|intros; by apply HP]].
      rewrite !length_insert, length_replicate. split; [done|]. intros x Hx.
      destruct (decide (x = j)) as [->|Hxj]; [|destruct (decide (x = i)) as [->|Hxi]].
      * rewrite list_lookup_insert_eq by (rewrite length_insert, length_replicate; lia).
        by rewrite bool_decide_true by set_solver.
      * rewrite list_lookup_insert_ne, list_lookup_insert_eq by (done || rewrite length_replicate; lia).
        by rewrite bool_decide_true by set_solver.
      * rewrite !list_lookup_insert_ne, lookup_replicate_2 by done.
        by rewrite bool_decide_false by set_solver.
    + simpl. lia.
    + exists sel. split_and!; [exact Hsel|simpl in Hlen; lia|done].
Qed.

(** On a valid set every target gives distinct, in-range indices: no error and
    no panic. *)
Lemma select_diverse_total k solutions target :
  solution_set k solutions ->
  exists sel, select_diverse solutions target = Ok sel /\ NoDup sel /\
    Forall (fun i => i < length solutions)%nat sel /\
    length sel = Nat.min target (length solutions).
Proof.
  intros Hs. destruct (decide (2 <= target < length solutions)%nat) as [Ht|Ht].
  { destruct (select_diverse_greedy k solutions target Hs Ht) as (sel & Hsel & Hl & Hg).
    apply greedy_NoDup in Hg as [? ?]. exists sel. split_and!; [done..|lia]. }
  unfold select_diverse. destruct solutions as [|s rest]; [exists []; rewrite Nat.min_0_r; split_and!; [done|constructor|done|done]|].
  rewrite (bool_decide_false (s :: rest = [])) by done. cbn [orb].
  case_bool_decide as Ht0; [subst; exists []; split_and!; [done|constructor|done|done]|].
  rewrite (ensure_valid_solution_inputs_valid k) by done. cbn [rbind].
  destruct (length (s :: rest) <=? target)%nat eqn:Hle.
  - apply Nat.leb_le in Hle. exists (seq 0 (length (s :: rest))).
    split_and!; [done|apply NoDup_seq| |rewrite length_seq; lia].
    apply Forall_forall. intros i Hi%elem_of_seq. lia.
  - apply Nat.leb_gt in Hle. rewrite bool_decide_true by lia. exists [0%nat].
    split_and!; [done|apply NoDup_singleton|apply Forall_singleton; simpl; lia|simpl in *; lia].
Qed.

#[local] Lemma pair_distances_length solutions :
  zlen (pair_distances solutions) <= zlen solutions * zlen solutions.
Proof.
  induction solutions as [|s rest IH]; [done|]. simpl. rewrite zlen_app, zlen_cons.
  unfold zlen at 1. rewrite length_fmap. fold (zlen rest). pose proof (zlen_nonneg rest). nia.
Qed.

(** A set of at least one spin never divides by zero. *)
Lemma calculate_diversity_no_panic n solutions :
  solution_set n solutions -> 0 < n -> zlen solutions < 2 ^ 31 ->
  calculate_diversity solutions <> Panic.
Proof.
  intros Hs Hn Hlen. unfold calculate_diversity. case_match eqn:Hlt; [done|]. bool_to_prop.
  destruct solutions as [|s rest]; [done|].
  rewrite (ensure_valid_solution_inputs_valid n) by done. cbn [rbind].
  pose proof (pair_distances_nonempty (s :: rest) Hlt) as Hp.
  pose proof (pair_distances_length (s :: rest)) as Hl.
  set (P := zlen (pair_distances (s :: rest))) in *. rewrite (wrap_u_small 64 P) by (unfold in_u; nia).
  unfold checked_u. case_decide; [|done]. cbn [ok_or rbind].
  case_decide; [|done]. cbn [ok_or rbind]. rewrite round_div_u64_Ok by nia. done.
Qed.
