(* ===== verification/Ising.v ===== *)
(** * Nonce-seeded Ising models

    Models [crates/quantum-validation/src/ising.rs].  BLAKE3 and ChaCha8 are
    other crates: the hash and the seeded generator are parameters.  A [U256]
    is a [Z]; its big-endian conversions are [from_be_bytes] and
    [to_be_bytes 32]. *)

From S2P Require Import Prelude Validation PuzzleSpec.

(** [blake3::Hasher] over the concatenated updates, and
    [ChaCha8Rng::from_seed]. *)
Class IsingPrims (R : Type) := {
  blake3 : list Z -> list Z;
  chacha_from_seed : list Z -> R;
  #[global] ising_rng :: RngCore R
}.

(** A digest is 32 bytes and the generator draws [u32]s. *)
Class IsingPrimsLaws (R : Type) `{IsingPrims R} := {
  blake3_length : forall msg, length (blake3 msg) = 32%nat;
  blake3_bytes : forall msg, Forall (in_u 8) (blake3 msg);
  #[global] ising_rng_laws :: RngCoreLaws R
}.

Section Ising.
Context {R : Type} `{IsingPrims R}.

Definition derive_nonce (last_proof_block_hash miner salt : list Z) : Z :=
  from_be_bytes (blake3 (last_proof_block_hash ++ miner ++ salt)).

(** [for _ in items { out.push(spec.sample(&mut rng)?); }] *)
Fixpoint sample_many (spec : AllowedValueSpec) (count : nat) (rng : R) : vresult (list Z * R) :=
  match count with
  | O => Ok ([], rng)
  | S count =>
      vr <-? sample spec rng;;
      rest <-? sample_many spec count vr.2;;
      Ok (vr.1 :: rest.1, rest.2)
  end.

Definition generate_ising_model_indexed (nonce : Z) (nodes : list Z) (edges : list (Z * Z))
    (allowed_h allowed_j : AllowedValueSpec) (topology : TopologyIndex.t)
    : vresult (list Z * list Z) :=
  if bool_decide (nodes = []) then Err EmptyNodes else
  rmap_err (fun err => match err with EmptyAllowedValues => EmptyFieldValues | other => other end)
    (bits_per_value allowed_h);;?
  bits_per_value allowed_j;;?
  if negb (TopologyIndex.len topology =? zlen nodes) then
    Err (FieldLengthMismatch (zlen nodes) (TopologyIndex.len topology))
  else
    let rng := chacha_from_seed (to_be_bytes 32 nonce) in
    h <-? sample_many allowed_h (length nodes) rng;;
    j <-? sample_many allowed_j (length edges) h.2;;
    Ok (h.1, j.1).

Definition generate_ising_model (nonce : Z) (nodes : list Z) (edges : list (Z * Z))
    (allowed_h allowed_j : AllowedValueSpec) : vresult (list Z * list Z) :=
  topology <-? TopologyIndex.new nodes edges;;
  generate_ising_model_indexed nonce nodes edges allowed_h allowed_j topology.

(** ** Lemmas *)

Context `{!IsingPrimsLaws R}.

Lemma sample_many_total spec b count rng :
  spec_typed spec -> bits_per_value spec = Ok b ->
  exists vs rng', sample_many spec count rng = Ok (vs, rng') /\ length vs = count /\
    Forall (allowed spec) vs.
Proof.
  intros Ht Hb. revert rng. induction count as [|count IH]; intros rng; simpl.
  { exists [], rng. done. }
  destruct (sample_total spec b rng Ht Hb) as (v & -> & Hv). simpl.
  destruct (IH (next_u32 rng).2) as (vs & rng' & -> & Hl & Hvs). simpl.
  exists (v :: vs), rng'. simpl. auto.
Qed.

(** A consistent topology with registered specs always yields a model: one
    allowed field per node, one allowed coupling per edge. *)
Lemma generate_ising_model_total nonce nodes edges allowed_h allowed_j bh bj :
  nodes <> [] -> NoDup nodes -> TopologyIndex.edges_known nodes edges ->
  spec_typed allowed_h -> bits_per_value allowed_h = Ok bh ->
  spec_typed allowed_j -> bits_per_value allowed_j = Ok bj ->
  exists h j, generate_ising_model nonce nodes edges allowed_h allowed_j = Ok (h, j) /\
    length h = length nodes /\ length j = length edges /\
    Forall (allowed allowed_h) h /\ Forall (allowed allowed_j) j.
Proof.
  intros Hne Hnd Hk Hth Hbh Htj Hbj. unfold generate_ising_model.
  destruct (TopologyIndex.new_complete nodes edges Hnd Hk) as [topology Hnew]. rewrite Hnew. simpl.
  apply TopologyIndex.new_Ok in Hnew as [Hidx _]. unfold generate_ising_model_indexed.
  rewrite bool_decide_false by done. rewrite Hbh, Hbj. cbn [rbind rmap_err].
  rewrite (TopologyIndex.indexes_len _ _ Hidx), Z.eqb_refl. cbn [negb].
  destruct (sample_many_total allowed_h bh (length nodes) (chacha_from_seed (to_be_bytes 32 nonce)) Hth Hbh)
    as (h & rng1 & -> & Hlh & Hh). simpl.
  destruct (sample_many_total allowed_j bj (length edges) rng1 Htj Hbj) as (j & rng2 & -> & Hlj & Hj). simpl.
  exists h, j. done.
Qed.

(** The index made by the caller does not change the model. *)
Lemma generate_ising_model_indexed_agrees nonce nodes edges allowed_h allowed_j topology :
  TopologyIndex.new nodes edges = Ok topology ->
  generate_ising_model_indexed nonce nodes edges allowed_h allowed_j topology =
  generate_ising_model nonce nodes edges allowed_h allowed_j.
Proof. intros Hnew. unfold generate_ising_model. by rewrite Hnew. Qed.

(** The nonce is a [U256]. *)
Lemma derive_nonce_range last miner salt : in_u 256 (derive_nonce last miner salt).
Proof.
  unfold derive_nonce. set (l := blake3 _).
  assert (length l = 32%nat) as Hl by apply blake3_length.
  assert (Forall (in_u 8) l) as Hb by apply blake3_bytes.
  replace 256 with (8 * Z.of_nat (length l)) by (rewrite Hl; lia). clear Hl. clearbody l.
  unfold from_be_bytes, in_u.
  cut (forall acc k, 0 <= k -> 0 <= acc < 2 ^ k ->
    0 <= foldl (fun acc b => acc * 256 + b) acc l < 2 ^ (k + 8 * Z.of_nat (length l))).
  { intros Hc. specialize (Hc 0 0 ltac:(lia) ltac:(lia)). by rewrite Z.add_0_l in Hc. }
  induction Hb as [|x l Hx Hb IH]; intros acc k Hk Hacc; cbn [foldl length].
  { by rewrite Z.add_0_r. }
  replace (k + 8 * Z.of_nat (S (length l))) with ((k + 8) + 8 * Z.of_nat (length l)) by lia.
  apply IH; [lia|]. rewrite Z.pow_add_r by lia. unfold in_u in Hx. lia.
Qed.
End Ising.
