(* ===== verification/SolutionReport.v ===== *)
(** * The solution report

    Models the reporting half of [crates/quantum-validation/src/validation.rs]:
    [validate_topology_consistency], [validate_solution] and the helpers that
    render their messages.  [format!] of an integer is stdpp's [pretty]. *)

From S2P Require Import Prelude Validation Energy.
From stdpp Require Import strings pretty.
#[local] Open Scope Z_scope.

Definition show (x : Z) : string := pretty x.

(** [{:02}] and [{:03}] of a non-negative integer. *)
Definition show2 (x : Z) : string := if x <? 10 then ("0" +:+ show x)%string else show x.
Definition show3 (x : Z) : string := if x <? 100 then ("0" +:+ show2 x)%string else show x.

Definition display_milli_value (value : Z) : string :=
  let abs := Z.abs value in
  let sign := if value <? 0 then "-"%string else ""%string in
  let whole := abs / 1000 in
  let frac := abs mod 1000 in
  if frac =? 0 then (sign +:+ show whole +:+ ".0")%string
  else if frac mod 100 =? 0 then (sign +:+ show whole +:+ "." +:+ show (frac / 100))%string
  else if frac mod 10 =? 0 then (sign +:+ show whole +:+ "." +:+ show2 (frac / 10))%string
  else (sign +:+ show whole +:+ "." +:+ show3 frac)%string.

(** [join(", ")] *)
Fixpoint join_comma (l : list string) : string :=
  match l with
  | [] => ""
  | [x] => x
  | x :: rest => (x +:+ ", " +:+ join_comma rest)%string
  end.

Definition display_milli_list (values : list Z) : string :=
  ("[" +:+ join_comma (display_milli_value <$> values) +:+ "]")%string.

(** [Vec::dedup] *)
Fixpoint dedup (l : list Z) : list Z :=
  match l with
  | x :: (y :: _) as rest => if x =? y then dedup rest else x :: dedup rest
  | _ => l
  end.

Definition display_i8_set (values : list Z) : string :=
  let unique := dedup (merge_sort Z.le values) in
  ("{" +:+ join_comma (show <$> unique) +:+ "}")%string.

Definition is_binary_j_set (values : list Z) : bool :=
  (zlen values =? 2) && bool_decide (-1000 ∈ values) && bool_decide (1000 ∈ values).

(** The first loop of [validate_topology_consistency]: the errors for repeated
    nodes and the set of known nodes. *)
Fixpoint collect_nodes (nodes : list Z) (known : gset Z) : list string * gset Z :=
  match nodes with
  | [] => ([], known)
  | node :: nodes =>
      let '(errors, known') := collect_nodes nodes ({[node]} ∪ known) in
      (if bool_decide (node ∈ known)
       then ("Duplicate node id: " +:+ show node)%string :: errors else errors, known')
  end.

Definition h_value_errors (nodes h allowed : list Z) : list string :=
  zip nodes h ≫= fun nv =>
    if bool_decide (nv.2 ∈ allowed) then []
    else [("Invalid h[" +:+ show nv.1 +:+ "] = " +:+ display_milli_value nv.2 +:+
           ", expected one of " +:+ display_milli_list allowed)%string].

(** The errors for the edge at [index]. *)
Definition edge_errors (known : gset Z) (j : list Z) (allowed_j_values : option (list Z))
    (index : nat) (edge : Z * Z) : list string :=
  let '(u, v) := edge in
  (if bool_decide (u ∈ known) && bool_decide (v ∈ known) then []
   else [("J parameter for invalid edge: (" +:+ show u +:+ ", " +:+ show v +:+ ")")%string]) ++
  match allowed_j_values, j !! index with
  | Some allowed, Some value =>
      if bool_decide (value ∈ allowed) then []
      else
        let expectation :=
          if is_binary_j_set allowed then "±1.0"%string
          else ("one of " +:+ display_milli_list allowed)%string in
        [("Invalid J value J[(" +:+ show u +:+ ", " +:+ show v +:+ ")] = " +:+
          display_milli_value value +:+ " (expected " +:+ expectation +:+ ")")%string]
  | _, _ => []
  end.

Definition validate_topology_consistency (nodes : list Z) (edges : list (Z * Z)) (h j : list Z)
    (allowed_h_values allowed_j_values : option (list Z)) : list string :=
  let '(duplicates, known_nodes) := collect_nodes nodes ∅ in
  duplicates ++
  (if zlen h =? zlen nodes then []
   else [("Wrong h parameter count: " +:+ show (zlen h) +:+ " != " +:+ show (zlen nodes))%string]) ++
  (if zlen j =? zlen edges then []
   else [("Wrong J parameter count: " +:+ show (zlen j) +:+ " != " +:+ show (zlen edges))%string]) ++
  match allowed_h_values with Some allowed => h_value_errors nodes h allowed | None => [] end ++
  concat (imap (edge_errors known_nodes j allowed_j_values) edges).

Record SolutionValidation := mkSolutionValidation {
  valid : bool;
  errors : list string;
  energy_milli : Z;
  satisfaction_rate_milli : Z
}.
#[export] Instance SolutionValidation_expansion : Expansion SolutionValidation :=
  fun r => mkSolutionValidation (valid r) (errors r) (energy_milli r) (satisfaction_rate_milli r).

(** [nodes.iter().position(|&node| node == u)] *)
Definition node_position (nodes : list Z) (u : Z) : option nat :=
  fst <$> list_find (fun node => node = u) nodes.

(** The loop that counts satisfied couplings. *)
Definition count_satisfied {E} (spins nodes : list Z) (edges : list (Z * Z)) (j : list Z)
    : result E Z :=
  rfold (fun satisfied entry =>
    let '((u, v), coupling) := entry in
    pos_i <-? or_panic (node_position nodes u);;
    pos_j <-? or_panic (node_position nodes v);;
    si <-? or_panic (spins !! pos_i);;
    sj <-? or_panic (spins !! pos_j);;
    if coupling * si * sj <? 0 then Ok (satisfied + 1) else Ok satisfied)
    0 (zip edges j).

Definition validate_solution (spins nodes : list Z) (edges : list (Z * Z)) (h j : list Z)
    (allowed_h_values allowed_j_values : option (list Z)) : vresult SolutionValidation :=
  let result := mkSolutionValidation true [] 0 0 in
  if negb (zlen spins =? zlen nodes) then
    Ok (result <| valid := false |>
          <| errors $= (.++ [("Wrong solution length: " +:+ show (zlen spins) +:+ " != " +:+
                              show (zlen nodes))%string]) |>)
  else
  let invalid_values := filter (fun s => is_spin s = false) spins in
  if negb (bool_decide (invalid_values = [])) then
    Ok (result <| valid := false |>
          <| errors $= (.++ [("Invalid spin values: " +:+ display_i8_set invalid_values +:+
                              " (must be -1 or +1)")%string]) |>)
  else
  let topology_errors :=
    validate_topology_consistency nodes edges h j allowed_h_values allowed_j_values in
  if negb (bool_decide (topology_errors = [])) then
    Ok (result <| valid := false |> <| errors := topology_errors |>)
  else
  energy <-? or_panic (rok (energy_of_solution spins h edges j nodes));;
  let result := result <| energy_milli := energy |> in
  satisfied_couplings <-? count_satisfied spins nodes edges j;;
  if bool_decide (j = []) then Ok result else
  rate <-? round_div_u64 (wrap_u 64 (satisfied_couplings * MILLI_SCALE)) (zlen j);;
  Ok (result <| satisfaction_rate_milli := wrap_u 32 rate |>).

(** The rendering agrees with the repository's tests. *)
Example display_half : display_milli_value (-500) = "-0.5"%string.
Proof. vm_compute. reflexivity. Qed.
Example display_milli : display_milli_value 1005 = "1.005"%string.
Proof. vm_compute. reflexivity. Qed.

(** ** Lemmas *)

#[local] Lemma collect_nodes_spec nodes known :
  (collect_nodes nodes known).2 = known ∪ list_to_set nodes /\
  ((collect_nodes nodes known).1 = [] <-> NoDup nodes /\ forall x, x ∈ nodes -> x ∉ known).
Proof.
  revert known; induction nodes as [|n nodes IH]; intros known; simpl.
  { split; [set_solver|]. split; [intros _; split; [constructor|set_solver]|done]. }
  destruct (IH ({[n]} ∪ known)) as [H1 H2]. destruct (collect_nodes nodes _) as [errs known']. simpl in *.
  split; [set_solver|]. rewrite NoDup_cons. case_bool_decide as Hn.
  - split; [done|]. intros [_ Hf]. exfalso. by apply (Hf n ltac:(set_solver)).
  - rewrite H2. set_solver.
Qed.

(** The weights are drawn from the allowed sets, when given. *)
Definition weights_allowed (nodes : list Z) (edges : list (Z * Z)) (h j : list Z)
    (allowed_h allowed_j : option (list Z)) : Prop :=
  (forall a, allowed_h = Some a -> Forall (.∈ a) h) /\
  (forall a, allowed_j = Some a -> Forall (.∈ a) j).

#[local] Lemma concat_imap_nil {A B} (f : nat -> A -> list B) l :
  concat (imap f l) = [] <-> forall i x, l !! i = Some x -> f i x = [].
Proof.
  revert f; induction l as [|x l IH]; intros f; simpl; [done|].
  rewrite app_nil, (IH (f ∘ S)). split.
  - intros [H0 HS] [|i] y Hy; simplify_eq/=; [done|]. by apply (HS i).
  - intros Hf. split; [by apply (Hf 0%nat)|]. intros i y Hy. by apply (Hf (S i)).
Qed.

#[local] Lemma h_value_errors_nil nodes h allowed :
  length h = length nodes -> h_value_errors nodes h allowed = [] <-> Forall (.∈ allowed) h.
Proof.
  unfold h_value_errors. revert h; induction nodes as [|n nodes IH]; intros [|x h] Hl; simplify_eq/=; [done|].
  rewrite Forall_cons, <- IH by done. case_bool_decide; simpl; [naive_solver|]. naive_solver.
Qed.

(** The consistency report is empty exactly for a consistent problem. *)
Lemma validate_topology_consistency_nil nodes edges h j allowed_h allowed_j :
  validate_topology_consistency nodes edges h j allowed_h allowed_j = [] <->
  NoDup nodes /\ length h = length nodes /\ length j = length edges /\
  TopologyIndex.edges_known nodes edges /\ weights_allowed nodes edges h j allowed_h allowed_j.
Proof.
  unfold validate_topology_consistency.
  destruct (collect_nodes_spec nodes ∅) as [Hk Hd]. destruct (collect_nodes nodes ∅) as [dups known].
  simpl in Hk, Hd. rewrite !app_nil, Hd, concat_imap_nil.
  assert (forall (a b : Z) (e : string), (if a =? b then [] else [e]) = [] <-> a = b) as Hif.
  { intros a b e. destruct (a =? b) eqn:?; bool_to_prop; naive_solver. }
  rewrite !Hif. unfold zlen. rewrite !Nat2Z.inj_iff.
  split.
  - intros ([Hnd _] & Hlh & Hlj & Hh & He). split_and!; [done..| |split].
    + apply Forall_lookup. intros i [u v] Hi. specialize (He i _ Hi). simpl in He.
      apply app_nil in He as [He _]. destruct (bool_decide (u ∈ known)) eqn:?, (bool_decide (v ∈ known)) eqn:?;
        simplify_eq/=. bool_to_prop. simpl. set_solver.
    + intros a ->. by apply (h_value_errors_nil nodes).
    + intros a ->. apply Forall_lookup. intros i x Hi.
      destruct (lookup_lt_is_Some_2 edges i) as [[u v] Hedge]; [rewrite <- Hlj; by eapply lookup_lt_Some|].
      specialize (He i _ Hedge). simpl in He. rewrite Hi in He. apply app_nil in He as [_ He].
      by case_bool_decide.
  - intros (Hnd & Hlh & Hlj & Hk' & Hh & Hj). split_and!; [done|set_solver|done|done| |].
    + destruct allowed_h as [a|]; [|done]. apply h_value_errors_nil; [done|]. by apply Hh.
    + intros i [u v] Hi. simpl. eapply Forall_lookup_1 in Hk' as [Hu Hv]; [|done]. simpl in *.
      rewrite !bool_decide_true by set_solver. simpl.
      destruct allowed_j as [a|]; [|done]. destruct (j !! i) as [x|] eqn:Hx; [|done].
      rewrite bool_decide_true; [done|]. specialize (Hj a eq_refl). by eapply Forall_lookup_1 in Hj.
Qed.

#[local] Lemma node_position_Some nodes u : u ∈ nodes -> exists i, node_position nodes u = Some i /\ nodes !! i = Some u.
Proof.
  intros Hu. unfold node_position.
  destruct (list_find (fun node => node = u) nodes) as [[i x]|] eqn:Hf.
  - apply list_find_Some in Hf as (Hi & -> & _). eauto.
  - apply list_find_None in Hf. eapply Forall_forall in Hf; [|exact Hu]. done.
Qed.

#[local] Lemma count_satisfied_Ok {E} spins nodes edges j :
  length spins = length nodes -> TopologyIndex.edges_known nodes edges ->
  exists k, @count_satisfied E spins nodes edges j = Ok k /\ 0 <= k <= zlen j.
Proof.
  intros Hl Hk. unfold count_satisfied.
  cut (forall acc, 0 <= acc -> exists k, rfold (fun satisfied entry =>
    let '((u, v), coupling) := entry in
    pos_i <-? or_panic (node_position nodes u);;
    pos_j <-? or_panic (node_position nodes v);;
    si <-? or_panic (spins !! pos_i);;
    sj <-? or_panic (spins !! pos_j);;
    if coupling * si * sj <? 0 then @Ok E Z (satisfied + 1) else Ok satisfied)
    acc (zip edges j) = Ok k /\ acc <= k <= acc + zlen j).
  { intros Hc. destruct (Hc 0 ltac:(lia)) as (k & -> & ?). exists k. split; [done|lia]. }
  revert j. induction Hk as [|[u v] edges [Hu Hv] Hk IH]; intros [|c j] acc Hacc; simpl;
    try (exists acc; split; [done|]; unfold zlen; simpl; lia).
  destruct (node_position_Some nodes u Hu) as (iu & -> & Hiu).
  destruct (node_position_Some nodes v Hv) as (iv & -> & Hiv). simpl.
  apply lookup_lt_Some in Hiu, Hiv.
  destruct (lookup_lt_is_Some_2 spins iu) as [su ->]; [lia|].
  destruct (lookup_lt_is_Some_2 spins iv) as [sv ->]; [lia|]. simpl. rewrite zlen_cons.
  destruct (c * su * sv <? 0); simpl.
  - destruct (IH j (acc + 1) ltac:(lia)) as (k & -> & ?). exists k. split; [done|lia].
  - destruct (IH j acc ltac:(lia)) as (k & -> & ?). exists k. split; [done|lia].
Qed.

#[local] Lemma invalid_values_nil spins :
  filter (fun s => is_spin s = false) spins = [] <-> Forall (fun s => s = 1 \/ s = -1) spins.
Proof.
  induction spins as [|s spins IH]; [done|]. rewrite filter_cons, Forall_cons, <- is_spin_iff, <- IH.
  destruct (is_spin s) eqn:Hs; case_decide; naive_solver.
Qed.

(** A problem with at least one node and fewer than [2^32] weights: the report
    is produced without a panic, it is valid exactly for a consistent problem
    and a correct configuration, and then carries the Ising energy and a rate
    in thousandths. *)
Lemma validate_solution_report spins nodes edges h j allowed_h allowed_j :
  nodes <> [] -> Forall (in_s 32) h -> Forall (in_s 32) j -> zlen h + zlen j < 2 ^ 32 ->
  exists r, validate_solution spins nodes edges h j allowed_h allowed_j = Ok r /\
    (valid r = true <-> well_shaped nodes spins h edges j /\
                        weights_allowed nodes edges h j allowed_h allowed_j) /\
    (valid r = true <-> errors r = []) /\
    (valid r = true -> energy_milli r = ising_energy nodes spins h edges j /\
                       0 <= satisfaction_rate_milli r <= 1000).
Proof.
  intros Hne Hh Hj Hsz. unfold validate_solution.
  destruct (zlen spins =? zlen nodes) eqn:Hls; cbn [negb]; bool_to_prop.
  2: { eexists; split; [done|]. simpl. split_and!; try done.
       split; [done|]. intros [[] _]. unfold zlen in Hls. lia. }
  case_bool_decide as Hinv; cbn [negb].
  2: { eexists; split; [done|]. simpl. split_and!; try done.
       split; [done|]. intros [[] _]. by rewrite invalid_values_nil in Hinv. }
  apply invalid_values_nil in Hinv.
  case_bool_decide as Htop; cbn [negb].
  2: { eexists; split; [done|]. simpl. split_and!; try done.
       split; [done|]. intros [[] ?]. rewrite validate_topology_consistency_nil in Htop. naive_solver. }
  apply validate_topology_consistency_nil in Htop as (Hnd & Hlh & Hlj & Hk & Hw).
  assert (well_shaped nodes spins h edges j) as Hws by (split; try done; unfold zlen in *; lia).
  rewrite energy_of_solution_complete by done. cbn [rok or_panic rbind].
  destruct (@count_satisfied_Ok ValidationError spins nodes edges j) as (k & -> & Hkr); [unfold zlen in *; lia|done|].
  cbn [rbind]. case_bool_decide as Hjn.
  { eexists; split; [done|]. simpl. split_and!; try done; lia. }
  assert (0 < zlen j) by (destruct j; [done|rewrite zlen_cons; pose proof (zlen_nonneg j); lia]).
  pose proof (zlen_nonneg h). unfold MILLI_SCALE.
  rewrite (wrap_u_small 64) by (unfold in_u; lia). rewrite round_div_u64_Ok by done. cbn [rbind].
  pose proof (Z.div_mod (zlen j) 2 ltac:(lia)). pose proof (Z.mod_pos_bound (zlen j) 2 ltac:(lia)).
  rewrite (wrap_u_small 64) by (unfold in_u; lia).
  assert (0 <= (k * 1000 + zlen j / 2) / zlen j <= 1000) as Hrate.
  { split; [apply Z.div_pos; lia|]. apply Z.lt_succ_r, Z.div_lt_upper_bound; lia. }
  rewrite (wrap_u_small 32) by (unfold in_u; lia).
  eexists; split; [done|]. simpl. split_and!; try done.
Qed.
