(* ===== verification/Difficulty.v ===== *)
(** * Proof-of-work difficulty

    Models [pallets/quantum-pow/src/difficulty.rs]: the calibrated energy
    curve, the hardening step after a win and the easing of an overdue round.
    The threshold [max_energy_milli] is an upper bound a winning energy must
    not exceed, so lower (more negative) is harder. *)

From S2P Require Import Prelude Validation PuzzleSpec Float Gse.

(** [struct DifficultyConfig] of [types.rs]. *)
Record DifficultyConfig := mkDifficultyConfig {
  min_solutions : Z;
  max_energy_milli : Z;
  min_diversity_milli : Z
}.
#[export] Instance DifficultyConfig_expansion : Expansion DifficultyConfig :=
  fun r => mkDifficultyConfig (min_solutions r) (max_energy_milli r) (min_diversity_milli r).
#[global] Instance DifficultyConfig_eq_dec : EqDecision DifficultyConfig.
Proof. solve_decision. Defined.

Definition difficulty_default : DifficultyConfig := mkDifficultyConfig 5 (-1200000) 200.

Record CurveC := mkCurveC { easy_milli : Z; knee_milli_c : Z; hard_milli : Z }.
#[global] Instance CurveC_eq_dec : EqDecision CurveC.
Proof. solve_decision. Defined.

Record EnergyCurve := mkEnergyCurve { min_milli : Z; knee_milli : Z; max_milli : Z }.

Definition FAST_PROOF_BLOCKS : Z := 60.
Definition MIN_ENERGY_DELTA_MILLI : Z := 1000.
Definition DECAY_RATE_MILLI : Z := 25.
Definition OVERDUE_EASE_RATE_MILLI : Z := 25.

(** [EnergyCurve::new] *)
Definition EnergyCurve_new `{Libm} (num_nodes num_edges : Z) (c : CurveC)
    (allowed_h allowed_j : AllowedValueSpec) : vresult EnergyCurve :=
  let gse c_milli :=
    expected_gse num_nodes num_edges (F64.div (F64.of_Z c_milli) (F64.of_Z 1000))
      allowed_h allowed_j in
  min_milli <-? gse (hard_milli c);;
  knee_milli <-? gse (knee_milli_c c);;
  max_milli <-? gse (easy_milli c);;
  Ok (mkEnergyCurve min_milli knee_milli max_milli).

(** What the arithmetic takes from other crates: [libm] and the BLAKE3 digest of
    the SCALE encoding of [(seed, mining_time_blocks)]. *)
Class DifficultyPrims := {
  difficulty_libm :: Libm;
  blake3_seed : list Z -> Z -> list Z
}.

(** A BLAKE3 digest is 32 bytes. *)
Class DifficultyPrimsLaws `{DifficultyPrims} := {
  blake3_seed_length : forall seed blocks, length (blake3_seed seed blocks) = 32%nat;
  blake3_seed_bytes : forall seed blocks, Forall (in_u 8) (blake3_seed seed blocks)
}.

(** [u32]/[u64] [saturating_sub]. *)
Definition sat_sub_u (x y : Z) : Z := Z.max 0 (x - y).

(** The rate band [(base, variance)] of [sample_adjustment_milli]. *)
Definition adjustment_band (mining_time_blocks target_proof_blocks : Z) : Z * Z :=
  let target := Z.max target_proof_blocks (FAST_PROOF_BLOCKS + 1) in
  if mining_time_blocks <? FAST_PROOF_BLOCKS then (350, 300)
  else if target <? mining_time_blocks then (50, 40)
  else
    let progress :=
      wrap_u 32 ((mining_time_blocks - FAST_PROOF_BLOCKS) * 1000 / (target - FAST_PROOF_BLOCKS)) in
    (350 - (350 - 50) * progress / 1000, 300 - (300 - 40) * progress / 1000).

Section Difficulty.
Context `{DifficultyPrims}.

Definition sample_adjustment_milli (mining_time_blocks : Z) (seed : list Z)
    (target_proof_blocks : Z) : Z :=
  let '(base, variance) := adjustment_band mining_time_blocks target_proof_blocks in
  let min_rate := Z.max (sat_sub_u base variance) 1 in
  let max_rate := base + variance in
  let digest := blake3_seed seed mining_time_blocks in
  let sample := from_be_bytes (take 8 digest) in
  let span := sat_sub_u max_rate min_rate in
  min_rate + sample mod (span + 1).

Definition ease_room (room blocks epoch_length : Z) (rate : F64.t) : Z :=
  if (room <=? 0) || (blocks =? 0) || (epoch_length =? 0) ||
     F64.leb rate F64.zero || F64.leb F64.one rate then 0 else
  let floor := F64.of_Z MIN_ENERGY_DELTA_MILLI in
  let room_f := F64.of_Z room in
  let epochs := F64.div (F64.of_Z blocks) (F64.of_Z epoch_length) in
  let crossover := F64.div floor rate in
  let geometric_epochs :=
    if F64.leb room_f crossover then F64.zero
    else F64.min (F64.div (libm_log (F64.div crossover room_f)) (libm_log (F64.sub F64.one rate)))
                 epochs in
  let room_after_geometric := F64.mul room_f (libm_pow (F64.sub F64.one rate) geometric_epochs) in
  let linear := F64.mul (F64.sub epochs geometric_epochs) floor in
  let eased := F64.as_i64 (libm_round (F64.add (F64.sub room_f room_after_geometric) linear)) in
  Z.min eased room.

#[global] Arguments ease_room : simpl never.

(** The per-epoch easing rate [1 - 0.975 * 0.975]. *)
Definition overdue_rate : F64.t :=
  let keep milli := F64.sub F64.one (F64.div (F64.of_Z milli) (F64.of_Z 1000)) in
  F64.sub F64.one (F64.mul (keep DECAY_RATE_MILLI) (keep OVERDUE_EASE_RATE_MILLI)).

Definition apply_decay (current : DifficultyConfig) (elapsed_blocks epoch_length : Z)
    (curve : EnergyCurve) (target_proof_blocks : Z) : DifficultyConfig :=
  let overdue := sat_sub_u elapsed_blocks target_proof_blocks in
  if (max_milli curve <=? min_milli curve) || (overdue =? 0) || (epoch_length =? 0) then current
  else
    let room := sat_s 64 (max_milli curve - max_energy_milli current) in
    let eased := ease_room room overdue epoch_length overdue_rate in
    current <| max_energy_milli := sat_s 64 (max_energy_milli current + eased) |>.

Definition max_hardening_delta (curve : EnergyCurve) : Z :=
  let span := Z.max (sat_s 64 (max_milli curve - min_milli curve)) 0 in
  Z.max
    (F64.as_i64 (libm_round
      (F64.div (F64.mul (F64.of_Z span) (F64.of_Z DECAY_RATE_MILLI)) (F64.of_Z 1000))))
    MIN_ENERGY_DELTA_MILLI.

Definition adjust_on_proof (active : DifficultyConfig) (winning_energy_milli mining_time_blocks : Z)
    (curve : EnergyCurve) (randomness_seed : list Z) (target_proof_blocks : Z) : DifficultyConfig :=
  let gap := sat_s 64 (max_energy_milli active - winning_energy_milli) in
  if gap <=? 0 then active else
  let rate_milli := sample_adjustment_milli mining_time_blocks randomness_seed target_proof_blocks in
  let geometric := F64.as_i64 (libm_round
    (F64.div (F64.mul (F64.of_Z gap) (F64.of_Z rate_milli)) (F64.of_Z 1000))) in
  let delta :=
    Z.min (Z.min (Z.max geometric MIN_ENERGY_DELTA_MILLI) (max_hardening_delta curve)) gap in
  active <| max_energy_milli := sat_s 64 (max_energy_milli active - delta) |>.

Definition current_difficulty (block_number : Z) (base_difficulty : DifficultyConfig)
    (last_proof_block epoch_length : Z) (curve : option EnergyCurve)
    (target_proof_blocks : Z) : DifficultyConfig :=
  if (last_proof_block =? 0) || (epoch_length =? 0) then base_difficulty else
  let elapsed := sat_sub_u block_number last_proof_block in
  if elapsed =? 0 then base_difficulty else
  match curve with
  | Some curve => apply_decay base_difficulty elapsed epoch_length curve target_proof_blocks
  | None => base_difficulty
  end.

(** ** Hardening *)

Lemma max_hardening_delta_floor curve : MIN_ENERGY_DELTA_MILLI <= max_hardening_delta curve.
Proof. unfold max_hardening_delta. lia. Qed.

(** The threshold moves towards the winner by at least one energy unit (or the
    whole gap), at most the curve cap, and never past the winner. *)
Lemma adjust_on_proof_step active winning blocks curve seed target :
  in_s 64 (max_energy_milli active) -> in_s 64 winning -> winning < max_energy_milli active ->
  let next := adjust_on_proof active winning blocks curve seed target in
  winning <= max_energy_milli next /\
  max_energy_milli active - max_energy_milli next <= max_hardening_delta curve /\
  Z.min MIN_ENERGY_DELTA_MILLI (max_energy_milli active - winning)
    <= max_energy_milli active - max_energy_milli next /\
  min_solutions next = min_solutions active /\
  min_diversity_milli next = min_diversity_milli active.
Proof.
  intros Ha Hw Hlt. unfold adjust_on_proof.
  set (gap := sat_s 64 _). assert (0 < gap <= max_energy_milli active - winning) as Hgap.
  { unfold gap, sat_s, in_s in *. lia. }
  rewrite (proj2 (Z.leb_gt gap 0)) by lia. simpl.
  pose proof (max_hardening_delta_floor curve) as Hcap.
  set (geo := F64.as_i64 _). set (cap := max_hardening_delta curve) in *.
  assert (Z.min MIN_ENERGY_DELTA_MILLI (max_energy_milli active - winning) <= gap).
  { unfold gap, sat_s, in_s, MIN_ENERGY_DELTA_MILLI in *. lia. }
  unfold MIN_ENERGY_DELTA_MILLI in *. clearbody gap geo cap.
  rewrite sat_s_small by (unfold in_s in *; lia). split_and!; try done; lia.
Qed.

(** A proof that does not beat the threshold leaves it alone. *)
Lemma adjust_on_proof_no_gap active winning blocks curve seed target :
  max_energy_milli active <= winning ->
  adjust_on_proof active winning blocks curve seed target = active.
Proof.
  intros Hle. unfold adjust_on_proof. rewrite (proj2 (Z.leb_le _ 0)); [done|].
  unfold sat_s. lia.
Qed.

(** ** The sampled rate *)

Lemma adjustment_band_range blocks target :
  0 <= blocks -> 0 <= target < 2 ^ 32 ->
  let '(base, variance) := adjustment_band blocks target in
  50 <= base <= 350 /\ 40 <= variance <= 300 /\ 9 <= base - variance /\
  (blocks < FAST_PROOF_BLOCKS -> base = 350 /\ variance = 300) /\
  (Z.max target (FAST_PROOF_BLOCKS + 1) < blocks -> base = 50 /\ variance = 40).
Proof.
  intros Hb Ht. unfold adjustment_band, FAST_PROOF_BLOCKS. repeat case_match; simplify_eq; bool_to_prop; [lia|lia|].
  set (T := Z.max target (60 + 1)) in *.
  assert (0 <= (blocks - 60) * 1000 / (T - 60) <= 1000) as Hp.
  { split; [apply Z.div_pos; lia|]. apply Z.div_le_upper_bound; lia. }
  rewrite wrap_u_small by (unfold in_u; lia).
  set (p := (blocks - 60) * 1000 / (T - 60)) in *. clearbody p T.
  pose proof (Z.div_mod ((350 - 50) * p) 1000 ltac:(lia)).
  pose proof (Z.mod_pos_bound ((350 - 50) * p) 1000 ltac:(lia)).
  pose proof (Z.div_mod ((300 - 40) * p) 1000 ltac:(lia)).
  pose proof (Z.mod_pos_bound ((300 - 40) * p) 1000 ltac:(lia)).
  split_and!; lia.
Qed.

(** Every rate lies in the documented band: 5% to 65% below the fast anchor,
    1% to 9% past the target, in between otherwise. *)
Lemma sample_adjustment_range blocks seed target :
  0 <= blocks -> 0 <= target < 2 ^ 32 ->
  let rate := sample_adjustment_milli blocks seed target in
  9 <= rate <= 650 /\
  (blocks < FAST_PROOF_BLOCKS -> 50 <= rate <= 650) /\
  (Z.max target (FAST_PROOF_BLOCKS + 1) < blocks -> 10 <= rate <= 90).
Proof.
  intros Hb Ht. pose proof (adjustment_band_range blocks target Hb Ht) as Hband.
  unfold sample_adjustment_milli. destruct (adjustment_band blocks target) as [base variance].
  destruct Hband as (H1 & H2 & H3 & H4 & H5). unfold sat_sub_u.
  set (x := from_be_bytes _). clearbody x.
  replace (Z.max (Z.max 0 (base - variance)) 1) with (base - variance) by lia.
  replace (Z.max 0 (base + variance - (base - variance))) with (2 * variance) by lia.
  pose proof (Z.mod_pos_bound x (2 * variance + 1) ltac:(lia)).
  set (r := x mod _) in *. clearbody r. split_and!; intros; lia.
Qed.

(** ** Easing *)

Lemma ease_room_le room blocks epoch rate :
  ease_room room blocks epoch rate <= Z.max room 0.
Proof. unfold ease_room. case_match; lia. Qed.

Lemma ease_room_closed room blocks epoch rate : room <= 0 -> ease_room room blocks epoch rate = 0.
Proof. intros Hr. unfold ease_room. by rewrite (proj2 (Z.leb_le room 0)). Qed.

(** Easing never passes the easy end of the curve, and keeps the other two
    fields. *)
Lemma apply_decay_bound current elapsed epoch curve target :
  in_s 64 (max_energy_milli current) -> in_s 64 (max_milli curve) ->
  let next := apply_decay current elapsed epoch curve target in
  max_energy_milli next <= Z.max (max_energy_milli current) (max_milli curve) /\
  min_solutions next = min_solutions current /\
  min_diversity_milli next = min_diversity_milli current.
Proof.
  intros Hc Hm. unfold apply_decay. case_match; simpl; [split_and!; lia|].
  split_and!; [|done|done]. set (room := sat_s 64 (max_milli curve - _)).
  destruct (decide (room <= 0)) as [Hr|Hr].
  - rewrite ease_room_closed, Z.add_0_r, sat_s_small by done. lia.
  - pose proof (ease_room_le room (sat_sub_u elapsed target) epoch overdue_rate).
    unfold room, sat_s, in_s in *. lia.
Qed.

(** The first [target] blocks of a round keep the stored threshold. *)
Lemma current_difficulty_on_time block base last epoch curve target :
  block - last <= target -> 0 <= target ->
  current_difficulty block base last epoch curve target = base.
Proof.
  intros Hle Ht. unfold current_difficulty. repeat case_match; try done.
  unfold apply_decay, sat_sub_u. rewrite (Z.max_l 0) by lia. by rewrite orb_true_r.
Qed.

Lemma current_difficulty_bound block base last epoch curve target :
  in_s 64 (max_energy_milli base) -> (forall c, curve = Some c -> in_s 64 (max_milli c)) ->
  let next := current_difficulty block base last epoch curve target in
  max_energy_milli next <= Z.max (max_energy_milli base) (from_option max_milli (- 2 ^ 63) curve) /\
  min_solutions next = min_solutions base /\ min_diversity_milli next = min_diversity_milli base.
Proof.
  intros Hb Hc. unfold current_difficulty. repeat case_match; simpl; try (split_and!; lia).
  apply apply_decay_bound; eauto.
Qed.
End Difficulty.
