(* ===== verification/Frame.v ===== *)
(** * The runtime framework, as an interface

    What the pallets take from FRAME: origins, dispatch errors, and the
    [ReservableCurrency] the runtime wires to its balances pallet.  FRAME is
    not part of this repository, so the currency is a type class over an
    abstract ledger, with the documented behaviour of the trait as laws.  A
    concrete ledger discharges the laws. *)

From S2P Require Import Prelude.

(** Accounts, 32-byte hashes, balances ([u128]) and block numbers ([u32]) are
    integers. *)
Abbreviation AccountId := Z (only parsing).
Abbreviation H256 := Z (only parsing).
Abbreviation Balance := Z (only parsing).
Abbreviation BlockNumber := Z (only parsing).

(** The bytes of an [H256]. *)
Definition h256_bytes (h : H256) : list Z := to_be_bytes 32 h.

(** [saturating_add] on [u32] block numbers, [u64] counters and [u128]
    balances. *)
Definition bn_add (x y : Z) : Z := sat_u 32 (x + y).
Definition u32_add (x y : Z) : Z := sat_u 32 (x + y).
Definition u64_add (x y : Z) : Z := sat_u 64 (x + y).
Definition u128_add (x y : Z) : Z := sat_u 128 (x + y).

(** The origin of a collective: a motion carried by [yes] of [seats] members,
    or a single member. *)
Inductive CollectiveOrigin :=
  | Members (yes seats : Z)
  | Member (who : AccountId).

Inductive Origin :=
  | Root
  | Signed (who : AccountId)
  | Unsigned
  | Collective (o : CollectiveOrigin).

(** The error of a dispatched call: a bad origin, an error of the currency,
    or one of the pallet's own errors. *)
Inductive DispatchError (E : Type) :=
  | BadOrigin
  | CurrencyError
  | Module (e : E).
Arguments BadOrigin {E}.
Arguments CurrencyError {E}.
Arguments Module {E} e.

#[global] Instance DispatchError_eq_dec {E} `{EqDecision E} : EqDecision (DispatchError E).
Proof. solve_decision. Defined.

Definition ensure_root {E} (o : Origin) : result (DispatchError E) unit :=
  match o with Root => Ok tt | _ => Err BadOrigin end.

Definition ensure_signed {E} (o : Origin) : result (DispatchError E) AccountId :=
  match o with Signed who => Ok who | _ => Err BadOrigin end.

Definition ensure_origin {E} (admitted : Origin -> bool) (o : Origin)
    : result (DispatchError E) unit :=
  if admitted o then Ok tt else Err BadOrigin.

(** [ensure!(b, Error::<T>::e)] and [.ok_or(Error::<T>::e)?] in a call. *)
Definition require {E} (b : bool) (e : E) : result (DispatchError E) unit :=
  if b then Ok tt else Err (Module e).
Definition some_or {E A} (o : option A) (e : E) : result (DispatchError E) A :=
  ok_or o (Module e).

Lemma require_Ok {E} b (e : E) u : require b e = Ok u -> b = true.
Proof. by destruct b. Qed.

Lemma some_or_Ok {E A} (o : option A) (e : E) a : some_or o e = Ok a -> o = Some a.
Proof. destruct o; simpl; congruence. Qed.

Lemma ensure_root_Ok {E} o u : @ensure_root E o = Ok u -> o = Root.
Proof. by destruct o. Qed.

Lemma ensure_signed_Ok {E} o who : @ensure_signed E o = Ok who -> o = Signed who.
Proof. destruct o; simpl; congruence. Qed.

Lemma ensure_origin_Ok {E} f o u : @ensure_origin E f o = Ok u -> f o = true.
Proof. unfold ensure_origin. by destruct (f o). Qed.

(** [hinv] opens a hypothesis that says a call succeeded: its guards become
    propositions and its result is substituted. *)
Ltac hinv_step :=
  match goal with
  | H : require _ _ = Ok _ |- _ => apply require_Ok in H
  | H : some_or _ _ = Ok _ |- _ => apply some_or_Ok in H
  | H : ensure_root _ = Ok _ |- _ => apply ensure_root_Ok in H
  | H : ensure_signed _ = Ok _ |- _ => apply ensure_signed_Ok in H
  | H : ensure_origin _ _ = Ok _ |- _ => apply ensure_origin_Ok in H
  | H : Ok tt = Ok ?u |- _ => clear H
  | _ => rinv_step
  end.
Ltac hinv := repeat hinv_step; subst; bool_to_prop.

(** ** [sp_arithmetic] *)

(** A [Perbill] is a number of billionths. *)
Definition BILLION : Z := 1000000000.

Class SpArithmetic := {
  (** [Perbill::mul_floor] *)
  mul_floor : Z -> Z -> Z;
  (** [Perbill::saturating_add] *)
  perbill_add : Z -> Z -> Z;
  (** [multiply_by_rational_with_rounding(a, b, c, Down)] *)
  mul_rational_down : Z -> Z -> Z -> option Z
}.

(** Their documented results: the product rounded down, the sum capped at one,
    and the quotient rounded down when it fits 128 bits. *)
Class SpArithmeticLaws `{SpArithmetic} := {
  mul_floor_spec : forall share x, 0 <= share <= BILLION -> 0 <= x -> mul_floor share x = share * x / BILLION;
  perbill_add_spec : forall a b, 0 <= a -> 0 <= b -> perbill_add a b = Z.min (a + b) BILLION;
  mul_rational_down_spec : forall a b c, 0 <= a -> 0 <= b -> 0 < c ->
    mul_rational_down a b c = checked_u 128 (a * b / c)
}.

(** [ReservableCurrency] over a ledger state [C]. *)
Class Currency (C : Type) := {
  free_balance : C -> AccountId -> Balance;
  reserved_balance : C -> AccountId -> Balance;
  (** [reserve(who, value)] *)
  reserve : C -> AccountId -> Balance -> option C;
  (** [unreserve(who, value)]: the amount that could not be unreserved *)
  unreserve : C -> AccountId -> Balance -> C * Balance;
  (** [transfer(from, to, value, AllowDeath)] *)
  transfer : C -> AccountId -> AccountId -> Balance -> option C
}.

Class CurrencyLaws (C : Type) `{Currency C} := {
  reserved_nonneg : forall c who, 0 <= reserved_balance c who;
  (** [reserve] moves exactly [value] from free to reserved. *)
  reserve_reserved : forall c c' who value, reserve c who value = Some c' ->
    forall x, reserved_balance c' x =
      if decide (x = who) then reserved_balance c x + value else reserved_balance c x;
  (** [unreserve] moves as much of [value] as is reserved, and reports the
      rest. *)
  unreserve_reserved : forall c who value, 0 <= value ->
    forall x, reserved_balance (unreserve c who value).1 x =
      if decide (x = who)
      then reserved_balance c x - Z.min value (reserved_balance c x) else reserved_balance c x;
  unreserve_rest : forall c who value, 0 <= value ->
    (unreserve c who value).2 = value - Z.min value (reserved_balance c who);
  unreserve_free : forall c who value, 0 <= value ->
    free_balance (unreserve c who value).1 who =
    free_balance c who + Z.min value (reserved_balance c who);
  unreserve_free_other : forall c who value x, x <> who ->
    free_balance (unreserve c who value).1 x = free_balance c x;
  (** [transfer] moves free balance only. *)
  transfer_reserved : forall c c' from to value, transfer c from to value = Some c' ->
    forall x, reserved_balance c' x = reserved_balance c x;
  transfer_credited : forall c c' from to value, transfer c from to value = Some c' ->
    from <> to -> free_balance c' to = free_balance c to + value;
  transfer_free_other : forall c c' from to value x, transfer c from to value = Some c' ->
    x <> from -> x <> to -> free_balance c' x = free_balance c x
}.

(** [trait MiningReward]: pays from a prefunded pot and returns what it paid. *)
Class MiningReward (W : Type) := pay : W -> AccountId -> Balance -> W * Balance.

(** What the proof-of-work pallet relies on from the wired reward payment: it
    never touches reserved balances and never pays more than asked. *)
Class MiningRewardLaws (W : Type) `{Currency W, MiningReward W} := {
  pay_reserved : forall (w : W) who amount x,
    reserved_balance (pay w who amount).1 x = reserved_balance w x;
  pay_bounded : forall (w : W) who amount, 0 <= amount -> 0 <= (pay w who amount).2 <= amount
}.

(** The rest of [Currency] that issuance needs. *)
Class Issuance (C : Type) := {
  total_issuance : C -> Balance;
  minimum_balance : Balance;
  (** [deposit_creating(who, value)]: the amount of the returned imbalance *)
  deposit_creating : C -> AccountId -> Balance -> C * Balance;
  (** [transfer(from, to, value, KeepAlive)] *)
  transfer_keep_alive : C -> AccountId -> AccountId -> Balance -> option C
}.

Class IssuanceLaws (C : Type) `{Currency C, Issuance C} := {
  (** a positive imbalance is new issuance, credited to [who] *)
  deposit_issuance : forall c who value, 0 <= value ->
    total_issuance (deposit_creating c who value).1 =
    total_issuance c + (deposit_creating c who value).2;
  deposit_free : forall c who value, 0 <= value ->
    forall x, free_balance (deposit_creating c who value).1 x =
      if decide (x = who) then free_balance c x + (deposit_creating c who value).2 else free_balance c x;
  keep_alive_issuance : forall c c' from to value, transfer_keep_alive c from to value = Some c' ->
    total_issuance c' = total_issuance c;
  keep_alive_reserved : forall c c' from to value, transfer_keep_alive c from to value = Some c' ->
    forall x, reserved_balance c' x = reserved_balance c x;
  keep_alive_free : forall c c' from to value, transfer_keep_alive c from to value = Some c' ->
    from <> to -> forall x, free_balance c' x =
      if decide (x = from) then free_balance c x - value
      else if decide (x = to) then free_balance c x + value else free_balance c x
}.

(** ** A concrete ledger *)

Module Ledger.

Record t := mk { free : gmap Z Z; held : gmap Z Z }.

Definition free_of (c : t) (who : Z) : Z := default 0 (free c !! who).
Definition held_of (c : t) (who : Z) : Z := Z.max 0 (default 0 (held c !! who)).

Definition do_reserve (c : t) (who value : Z) : option t :=
  if (0 <=? value) && (value <=? free_of c who) then
    Some (mk (<[who := free_of c who - value]> (free c)) (<[who := held_of c who + value]> (held c)))
  else None.

Definition do_unreserve (c : t) (who value : Z) : t * Z :=
  let actual := Z.min value (held_of c who) in
  (mk (<[who := free_of c who + actual]> (free c)) (<[who := held_of c who - actual]> (held c)),
   value - actual).

Definition do_transfer (c : t) (from to value : Z) : option t :=
  if (0 <=? value) && (value <=? free_of c from) then
    if decide (from = to) then Some c else
    Some (mk (<[to := free_of c to + value]> (<[from := free_of c from - value]> (free c))) (held c))
  else None.

#[export] Instance currency : Currency t := {
  free_balance := free_of;
  reserved_balance := held_of;
  reserve := do_reserve;
  unreserve := do_unreserve;
  transfer := do_transfer
}.

#[export] Instance currency_laws : CurrencyLaws t.
Proof.
  split; simpl.
  - intros c who. unfold held_of. lia.
  - intros c c' who value H x. unfold do_reserve in H. destruct (_ && _) eqn:Hb; [|done].
    bool_to_prop. injection H as <-. unfold held_of at 1. simpl. destruct (decide (x = who)) as [->|].
    + rewrite lookup_insert_eq. simpl. unfold held_of. lia.
    + by rewrite lookup_insert_ne by done.
  - intros c who value Hv x. unfold held_of at 1. simpl. destruct (decide (x = who)) as [->|].
    + rewrite lookup_insert_eq. simpl. unfold held_of. lia.
    + by rewrite lookup_insert_ne by done.
  - done.
  - intros c who value Hv. unfold free_of at 1. simpl. by rewrite lookup_insert_eq.
  - intros c who value x Hne. unfold free_of. simpl. by rewrite lookup_insert_ne.
  - intros c c' from to value H x. unfold do_transfer in H. repeat case_match; by simplify_eq/=.
  - intros c c' from to value H Hne. unfold do_transfer in H. repeat case_match; simplify_eq/=.
    unfold free_of at 1. simpl. by rewrite lookup_insert_eq.
  - intros c c' from to value x H Hf Ht. unfold do_transfer in H. repeat case_match; simplify_eq/=; [done|].
    unfold free_of. simpl. by rewrite !lookup_insert_ne.
Qed.

(** Issuance is everything on the books; the existential deposit is one. *)
Definition issued (c : t) : Z := msum id (free c) + msum id (held c).

Definition do_deposit (c : t) (who value : Z) : t * Z :=
  (mk (<[who := free_of c who + value]> (free c)) (held c), value).

Definition do_keep_alive (c : t) (from to value : Z) : option t :=
  if (0 <=? value) && (value + 1 <=? free_of c from) then do_transfer c from to value else None.

#[export] Instance issuance : Issuance t := {
  total_issuance := issued;
  minimum_balance := 1;
  deposit_creating := do_deposit;
  transfer_keep_alive := do_keep_alive
}.

Lemma msum_free m (who v : Z) : msum id (<[who := v]> m) = v - default 0 (m !! who) + msum id m.
Proof. rewrite msum_insert. by destruct (m !! who). Qed.

#[export] Instance issuance_laws : IssuanceLaws t.
Proof.
  split; simpl.
  - intros c who value _. unfold issued. simpl. rewrite msum_free. unfold free_of. lia.
  - intros c who value _ x. unfold free_of at 1. simpl. case_decide; [subst; by rewrite lookup_insert_eq|].
    by rewrite lookup_insert_ne.
  - intros c c' from to value H. unfold do_keep_alive, do_transfer in H. repeat case_match; simplify_eq/=; [done|].
    unfold issued. simpl. rewrite !msum_free, lookup_insert_ne by done. unfold free_of. lia.
  - intros c c' from to value H x. unfold do_keep_alive, do_transfer in H. repeat case_match; by simplify_eq/=.
  - intros c c' from to value H Hne x. unfold do_keep_alive, do_transfer in H. repeat case_match; simplify_eq/=.
    all: unfold free_of; simpl; repeat case_decide; subst; try done;
      rewrite ?lookup_insert_eq, ?lookup_insert_ne, ?lookup_insert_eq by done; done.
Qed.

End Ledger.
