(* ===== verification/BoundedHeap.v ===== *)
(** * Keeping the best [k] of a stream

    The part of [BinaryHeap] (standard library) that the election snapshot
    uses: [push], [pop] of a greatest element and [into_sorted_vec], and the
    loop that pushes and pops so as to keep the [k] least elements.  The loop
    is equivalent to sorting everything and taking the first [k], whatever the
    order of the stream. *)

From S2P Require Import Prelude.

Section Heap.
Context {A : Type} (R : relation A) `{!RelDecision R, !Transitive R, !Total R, !AntiSymm (=) R}.

Definition heap_push (x : A) (h : list A) : list A := x :: h.

(** [pop]: removes a greatest element. *)
Fixpoint heap_pop (h : list A) : option (A * list A) :=
  match h with
  | [] => None
  | x :: h =>
      match heap_pop h with
      | None => Some (x, [])
      | Some (m, h') => if decide (R x m) then Some (m, x :: h') else Some (x, h)
      end
  end.

Definition into_sorted_vec (h : list A) : list A := merge_sort R h.

(** [heap.push(x); if heap.len() > k { heap.pop(); }] *)
Definition push_bounded (k : nat) (h : list A) (x : A) : list A :=
  let h := heap_push x h in
  if decide (k < length h)%nat then default h (snd <$> heap_pop h) else h.

Lemma heap_pop_None h : heap_pop h = None <-> h = [].
Proof. destruct h as [|x h]; simpl; [done|]. repeat case_match; done. Qed.

Lemma heap_pop_Some h m h' :
  heap_pop h = Some (m, h') -> h ≡ₚ m :: h' /\ Forall (fun x => R x m) h'.
Proof.
  revert m h'; induction h as [|x h IH]; intros m h'; simpl; [done|].
  destruct (heap_pop h) as [[m1 h1]|] eqn:Hp.
  - destruct (IH m1 h1 eq_refl) as [Hperm Hmax]. case_decide as Hx; intros [= <- <-].
    + split; [rewrite Hperm; constructor|by constructor].
    + split; [done|]. destruct (total R x m1) as [|Hm]; [done|].
      rewrite Hperm. constructor; [done|]. eapply Forall_impl; [exact Hmax|]. intros y Hy. by trans m1.
  - apply heap_pop_None in Hp as ->. by intros [= <- <-].
Qed.

(** [h] holds [k] least elements of [l]. *)
Definition keeps_least (k : nat) (l h : list A) : Prop :=
  exists dropped, h ++ dropped ≡ₚ l /\ length h = Nat.min k (length l) /\
    forall x y, x ∈ h -> y ∈ dropped -> R x y.

Lemma push_bounded_keeps k l h x : keeps_least k l h -> keeps_least k (x :: l) (push_bounded k h x).
Proof.
  intros (d & Hp & Hlen & Hle). pose proof (Permutation_length Hp) as Hl. rewrite length_app in Hl.
  unfold push_bounded, heap_push. case_decide as Hk; simpl in Hk.
  - destruct (heap_pop (x :: h)) as [[m h']|] eqn:Hpop; [|by apply heap_pop_None in Hpop].
    simpl. apply heap_pop_Some in Hpop as [Hperm Hmax]. rewrite Forall_forall in Hmax.
    exists (m :: d). split_and!.
    + rewrite <- Permutation_middle, app_comm_cons, <- Hperm, <- Hp. done.
    + apply Permutation_length in Hperm. simpl in *. lia.
    + intros a y Ha [->|Hy]%elem_of_cons; [by apply Hmax|].
      assert (a ∈ x :: h) as [->|Hah]%elem_of_cons by (rewrite Hperm; set_solver); [|by apply Hle].
      assert (m ∈ x :: h) as [->|Hmh]%elem_of_cons by (rewrite Hperm; set_solver).
      * apply Permutation_cons_inv in Hperm. apply Hle; [by rewrite Hperm|done].
      * trans m; [by apply Hmax|by apply Hle].
  - destruct d as [|y d]; [|simpl in *; lia]. exists []. rewrite app_nil_r in *. split_and!.
    + by rewrite Hp.
    + simpl. lia.
    + intros ? ? _ ?%not_elem_of_nil. done.
Qed.

Lemma foldl_push_bounded_keeps k l l0 h :
  keeps_least k l0 h -> keeps_least k (reverse l ++ l0) (foldl (push_bounded k) h l).
Proof.
  revert l0 h; induction l as [|x l IH]; intros l0 h Hh; [done|].
  simpl. rewrite reverse_cons, <- app_assoc. apply IH. by apply push_bounded_keeps.
Qed.

(** The bounded scan is the sorted prefix. *)
Lemma keeps_least_sorted k l h : keeps_least k l h -> into_sorted_vec h = take k (merge_sort R l).
Proof.
  intros (d & Hp & Hlen & Hle). unfold into_sorted_vec.
  assert (merge_sort R l = merge_sort R h ++ merge_sort R d) as ->.
  { apply (StronglySorted_unique R); [by apply StronglySorted_merge_sort| |].
    - apply StronglySorted_app_2; [|by apply StronglySorted_merge_sort..].
      intros x y. rewrite !merge_sort_Permutation. apply Hle.
    - by rewrite !merge_sort_Permutation. }
  pose proof (Permutation_length (merge_sort_Permutation R h)) as Hs.
  apply Permutation_length in Hp. rewrite length_app in Hp.
  destruct (decide (length h = k)) as [<-|Hne].
  - by rewrite take_app_length' by done.
  - assert (d = []) as -> by (apply length_zero_iff_nil; lia).
    simpl. rewrite app_nil_r, take_ge by lia. done.
Qed.

Lemma bounded_scan_sorted k l :
  into_sorted_vec (foldl (push_bounded k) [] l) = take k (merge_sort R l).
Proof.
  apply keeps_least_sorted. destruct (foldl_push_bounded_keeps k l [] []) as (d & Hp & Hlen & Hle).
  { exists []. simpl. split_and!; [done|lia|]. intros ? ? ?%not_elem_of_nil. done. }
  exists d. rewrite app_nil_r in *. rewrite reverse_Permutation in Hp. rewrite length_reverse in Hlen. done.
Qed.

(** The order in which the elements arrive does not matter. *)
Lemma bounded_scan_order k l l' :
  l ≡ₚ l' -> into_sorted_vec (foldl (push_bounded k) [] l) = into_sorted_vec (foldl (push_bounded k) [] l').
Proof.
  intros Hp. rewrite !bounded_scan_sorted. f_equal.
  apply (StronglySorted_unique R); [by apply StronglySorted_merge_sort..|]. by rewrite !merge_sort_Permutation.
Qed.
End Heap.
