(* ===== verification/Weights.v ===== *)
(** * Weights

    Execution time and proof size in 64-bit arithmetic that saturates, the
    measured weights of [pallets/xqvm], [pallets/quantum-pow] and
    [pallets/quantum-compute-mempool] ([weights.rs], [benchmark_weights.rs])
    and the formulas composed from them.  The cost of a storage access is a
    parameter. *)

From S2P Require Import Prelude Frame.

(** ** [Weight] *)

Record Weight := from_parts { ref_time : Z; proof_size : Z }.

Definition weight_zero : Weight := from_parts 0 0.
Definition weight_add (a b : Weight) : Weight :=
  from_parts (sat_u 64 (ref_time a + ref_time b)) (sat_u 64 (proof_size a + proof_size b)).
Definition weight_sub (a b : Weight) : Weight :=
  from_parts (sat_u 64 (ref_time a - ref_time b)) (sat_u 64 (proof_size a - proof_size b)).
Definition weight_mul (a : Weight) (n : Z) : Weight :=
  from_parts (sat_u 64 (ref_time a * n)) (sat_u 64 (proof_size a * n)).
Definition weight_max (a b : Weight) : Weight :=
  from_parts (Z.max (ref_time a) (ref_time b)) (Z.max (proof_size a) (proof_size b)).
(** [all_lte] *)
Definition weight_le (a b : Weight) : Prop := ref_time a <= ref_time b /\ proof_size a <= proof_size b.

Declare Scope weight_scope.
Delimit Scope weight_scope with weight.
Bind Scope weight_scope with Weight.
Infix "+" := weight_add : weight_scope.
Infix "*" := weight_mul : weight_scope.
Infix "≤" := weight_le : weight_scope.

#[export] Instance weight_le_dec : RelDecision weight_le.
Proof. intros a b. unfold weight_le. apply _. Defined.

#[export] Instance weight_le_preorder : PreOrder weight_le.
Proof. split; [intros a; split; lia|]. intros a b c [? ?] [? ?]. split; lia. Qed.

(** Saturation keeps the order, so charges can be compared term by term. *)
Lemma sat_u_mono w x y : 0 <= w -> x <= y -> sat_u w x <= sat_u w y.
Proof. intros Hw Hxy. unfold sat_u. lia. Qed.

#[export] Instance weight_add_mono : Proper (weight_le ==> weight_le ==> weight_le) weight_add.
Proof. intros a a' [? ?] b b' [? ?]. split; apply sat_u_mono; lia. Qed.

#[export] Instance weight_max_mono : Proper (weight_le ==> weight_le ==> weight_le) weight_max.
Proof. intros a a' [? ?] b b' [? ?]. split; simpl; lia. Qed.

(** A weight of the Rust type. *)
Definition weight_ok (a : Weight) : Prop := in_u 64 (ref_time a) /\ in_u 64 (proof_size a).

Lemma weight_mul_mono a n m : weight_ok a -> 0 <= n <= m -> (a * n ≤ a * m)%weight.
Proof. intros [[? _] [? _]] [? ?]. split; apply sat_u_mono; try lia; by apply Z.mul_le_mono_nonneg_l. Qed.

Lemma weight_le_add_r a b : weight_ok a -> weight_ok b -> (a ≤ a + b)%weight.
Proof. intros [[] []] [[] []]. split; simpl; unfold sat_u; lia. Qed.

Lemma weight_add_ok a b : weight_ok (a + b)%weight.
Proof. split; apply sat_u_range; lia. Qed.

(** Saturating addition is associative and commutative, with zero. *)
Lemma weight_add_comm a b : (a + b = b + a)%weight.
Proof. unfold weight_add. f_equal; f_equal; lia. Qed.

Lemma weight_add_assoc a b c : weight_ok a -> weight_ok b -> weight_ok c -> (a + (b + c) = a + b + c)%weight.
Proof.
  unfold weight_ok, in_u. intros (Ha & Ha') (Hb & Hb') (Hc & Hc'). unfold weight_add. cbn [ref_time proof_size].
  unfold sat_u. f_equal; lia.
Qed.

Lemma weight_add_zero a : weight_ok a -> (a + from_parts 0 0 = a)%weight.
Proof.
  destruct a as [t p]. unfold weight_ok, in_u. cbn [ref_time proof_size]. intros (Ht & Hp). unfold weight_add. cbn [ref_time proof_size].
  rewrite !Z.add_0_r, !sat_u_small by done. done.
Qed.

Lemma weight_mul_ok a n : weight_ok (a * n)%weight.
Proof. split; apply sat_u_range; lia. Qed.

Lemma weight_max_ok a b : weight_ok a -> weight_ok b -> weight_ok (weight_max a b).
Proof. intros [[] []] [[] []]. split; simpl; unfold in_u; lia. Qed.

(** ** Storage accesses *)

(** [RuntimeDbWeight] *)
Class DbWeight := { db_read : Z; db_write : Z }.
Definition reads `{DbWeight} (n : Z) : Weight := from_parts (sat_u 64 (db_read * n)) 0.
Definition writes `{DbWeight} (n : Z) : Weight := from_parts (sat_u 64 (db_write * n)) 0.

(** [RocksDbWeight]: at most 25 and 100 microseconds. *)
Class DbWeightLaws `{DbWeight} := {
  db_read_bound : 0 <= db_read <= 25000000;
  db_write_bound : 0 <= db_write <= 100000000
}.

#[local] Open Scope weight_scope.

(** ** [pallets/xqvm/src/weights.rs] *)

Section Tables.
Context `{DbWeight}.

Definition store_program_weight (s b : Z) : Weight :=
  from_parts 75953000 69037 + from_parts 144012 0 * s + from_parts 5249929 0 * b + reads 2 + writes 4.
Definition execute_weight (s : Z) : Weight := from_parts 16348300 69037 + from_parts 14331 0 * s + reads 1.
Definition execute_step_weight (t : Z) : Weight := from_parts 17599105 69037 + from_parts 17929 0 * t + reads 1.
Definition remove_program_weight (s : Z) : Weight := from_parts 63034829 69037 + from_parts 504 0 * s + reads 4 + writes 4.
Definition evict_program_weight (s : Z) : Weight := from_parts 64119642 69037 + from_parts 491 0 * s + reads 4 + writes 4.

(** ** [pallets/quantum-pow]: [benchmark_weights.rs] and [weights.rs] *)

Definition register_miner_bench : Weight :=
  from_parts 32081000 3557 + reads 1 + writes 1.
Definition deregister_miner_bench : Weight :=
  from_parts 32241000 3557 + reads 1 + writes 1.
Definition register_topology_bench (n e a : Z) : Weight :=
  from_parts 495456000 423913 + from_parts 291942 0 * n + from_parts 106121 0 * e + reads 2 + writes 3.
Definition set_default_topology_bench : Weight :=
  from_parts 19046000 423913 + reads 2 + writes 1.
Definition set_difficulty_bench : Weight :=
  from_parts 16942000 423913 + reads 1 + writes 1.
Definition set_topology_curve_bench : Weight :=
  from_parts 19396000 423913 + reads 1 + writes 1.
Definition submit_proof_bench (n e s : Z) : Weight :=
  from_parts 4352766000 423913 + from_parts 1332441 0 * e + from_parts 1999116615 0 * s + reads 10 + writes 3.
Definition add_mineable_topology_bench : Weight :=
  from_parts 28124000 423913 + reads 5 + writes 1.
Definition remove_mineable_topology_bench : Weight :=
  from_parts 17393000 3513 + reads 2 + writes 1.

Definition SUBMIT_PROOF_K1_NODE : Z := 1200.
Definition SUBMIT_PROOF_K2_EDGE : Z := 2400.
Definition SUBMIT_PROOF_K3_SOLUTION_NODE : Z := 6000.
Definition SUBMIT_PROOF_K4_SOLUTION_EDGE : Z := 19100.
Definition SUBMIT_PROOF_K5_SOLUTION_SQ_NODE : Z := 1200.
Definition SUBMIT_PROOF_K6_NODE_EDGE : Z := 535.
Definition REGISTER_TOPOLOGY_ALLOWED_VALUE : Z := 1000000.

Definition submit_proof_dimension_weight (nodes edges solutions : Z) : Weight :=
  let node_cost := from_parts SUBMIT_PROOF_K1_NODE 0 * nodes in
  let edge_cost := from_parts SUBMIT_PROOF_K2_EDGE 0 * edges in
  let solution_node_cost := from_parts SUBMIT_PROOF_K3_SOLUTION_NODE 0 * solutions * nodes in
  let solution_edge_cost := from_parts SUBMIT_PROOF_K4_SOLUTION_EDGE 0 * solutions * edges in
  let solution_squared_cost := from_parts SUBMIT_PROOF_K5_SOLUTION_SQ_NODE 0 * solutions * solutions * nodes in
  let node_edge_cost := from_parts SUBMIT_PROOF_K6_NODE_EDGE 0 * nodes * edges in
  node_cost + edge_cost + solution_node_cost + solution_edge_cost + solution_squared_cost + node_edge_cost.

Definition register_topology_weight (n e a : Z) : Weight :=
  register_topology_bench n e a + from_parts REGISTER_TOPOLOGY_ALLOWED_VALUE 0 * a.
Definition submit_proof_weight (n e s : Z) : Weight :=
  submit_proof_bench 0 0 0 + submit_proof_dimension_weight n e s + reads 1.

(** ** [pallets/quantum-compute-mempool]: [benchmark_weights.rs] and [weights.rs] *)

Definition register_solver_bench : Weight :=
  from_parts 15619000 3574 + reads 1 + writes 1.
Definition deregister_solver_bench : Weight :=
  from_parts 15940000 3574 + reads 1 + writes 1.
Definition register_job_spec_bench : Weight :=
  from_parts 18986000 3762 + reads 1 + writes 1.
Definition propose_job_bench (n e b t : Z) : Weight :=
  from_parts 522415000 3770 + from_parts 255289 0 * n + from_parts 80308 0 * e + reads 3 + writes 6.
Definition submit_solution_bench (n e s : Z) : Weight :=
  from_parts 3951325000 644411 + from_parts 836262 0 * e + from_parts 2020892398 0 * s + reads 7 + writes 6.
Definition propose_job_with_payee_requirement_bench (n e b t : Z) : Weight :=
  from_parts 520171000 3770 + from_parts 260354 0 * n + from_parts 79328 0 * e + reads 3 + writes 7.
Definition submit_solution_with_payee_bench (n e s : Z) : Weight :=
  from_parts 3970020000 644411 + from_parts 837185 0 * e + from_parts 1997750983 0 * s + reads 7 + writes 7.
Definition submit_solution_replacement_bench (n e s : Z) : Weight :=
  from_parts 4109132000 644411 + from_parts 830117 0 * e + from_parts 2001483708 0 * s + reads 7 + writes 5.
Definition submit_solution_clear_payee_bench (n e s : Z) : Weight :=
  from_parts 4112488000 644411 + from_parts 829941 0 * e + from_parts 2008209676 0 * s + reads 7 + writes 5.
Definition claim_reward_bench : Weight :=
  from_parts 2403366000 644411 + reads 69 + writes 69.
Definition claim_reward_dust_bench : Weight :=
  from_parts 2416570000 644411 + reads 69 + writes 69.
Definition reclaim_order_bench : Weight :=
  from_parts 700537000 644411 + reads 2 + writes 3.
Definition purge_result_bench : Weight :=
  from_parts 19006000 5549 + reads 1 + writes 1.
Definition finalise_expired_orders_bench (k : Z) : Weight :=
  from_parts 3835379 3616 + from_parts 675233276 0 * k + reads 2 + reads (sat_u 64 (3 * k)) + writes 1 +
  writes (sat_u 64 (4 * k)) + from_parts 0 643421 * k.

Definition CLAIM_REWARD_PROOF_FLOOR : Z := 1024 * 1024.
Definition RECLAIM_ORDER_PROOF_FLOOR : Z := 1024 * 1024.
Definition PROPOSE_JOB_PROOF_FLOOR : Z := 1024 * 1024.
Definition SUBMIT_SOLUTION_PROOF_FLOOR : Z := 1024 * 1024.

Definition with_claim_reward_proof_floor (w : Weight) : Weight := weight_max w (from_parts 0 CLAIM_REWARD_PROOF_FLOOR).
Definition with_reclaim_order_proof_floor (w : Weight) : Weight := weight_max w (from_parts 0 RECLAIM_ORDER_PROOF_FLOOR).
Definition with_propose_job_proof_floor (w : Weight) : Weight := weight_max w (from_parts 0 PROPOSE_JOB_PROOF_FLOOR).
Definition with_submit_solution_proof_floor (w : Weight) : Weight := weight_max w (from_parts 0 SUBMIT_SOLUTION_PROOF_FLOOR).

Definition claim_reward_weight : Weight := with_claim_reward_proof_floor (weight_max claim_reward_bench claim_reward_dust_bench).
Definition submit_solution_weight (n e s : Z) : Weight :=
  with_submit_solution_proof_floor
    (weight_max (weight_max (weight_max (submit_solution_bench n e s) (submit_solution_with_payee_bench n e s))
       (submit_solution_replacement_bench n e s)) (submit_solution_clear_payee_bench n e s)).
Definition submit_solution_with_payee_weight (n e s : Z) : Weight := submit_solution_weight n e s.
Definition propose_job_weight (n e b t : Z) : Weight := with_propose_job_proof_floor (propose_job_bench n e b t).
Definition propose_job_with_payee_requirement_weight (n e b t : Z) : Weight :=
  with_propose_job_proof_floor (propose_job_with_payee_requirement_bench n e b t).
Definition reclaim_order_weight : Weight := with_reclaim_order_proof_floor reclaim_order_bench.

(** ** The other pallets' [weights.rs] *)

Definition do_something_weight : Weight := from_parts 8527000 0 + writes 1.
Definition cause_error_weight : Weight := from_parts 8646000 1489 + reads 1 + writes 1.

Definition accrue_weight (r : Z) : Weight :=
  from_parts 13890701 1742 + from_parts 31837790 0 * r + reads 4 + reads (sat_u 64 (2 * r)) + writes 1 +
  writes (sat_u 64 (2 * r)) + from_parts 0 2603 * r.
Definition reward_weight : Weight := from_parts 53211000 3593 + reads 1 + writes 1.

Definition mint_weight : Weight := from_parts 47560000 1517 + reads 4 + writes 1.
Definition set_authority_weight : Weight := from_parts 8537000 0 + writes 1.
Definition disable_weight : Weight := from_parts 14567000 1517 + reads 2 + writes 1.

Definition set_descriptor_weight : Weight := from_parts 100339000 12415 + reads 2 + writes 2.
Definition clear_descriptor_weight : Weight := from_parts 60103000 12415 + reads 2 + writes 3.
Definition participate_weight : Weight := from_parts 26600000 12415 + reads 4 + writes 3.

Definition discretionary_slash_weight : Weight := from_parts 627696000 85629 + reads 113 + writes 101.
Definition set_limits_weight : Weight := from_parts 8987000 0 + writes 3.

Definition approve_weight : Weight := from_parts 21361000 3535 + reads 2 + writes 1.
Definition remove_weight : Weight := from_parts 24216000 3535 + reads 3 + writes 1.
Definition advance_weight : Weight := from_parts 11853000 1486 + reads 1 + writes 1.
Definition dispatch_as_root_weight : Weight := from_parts 10359000 0.

(** ** Bounds *)

(** At most [t] of time and [p] of proof. *)
Definition fits (t p : Z) (w : Weight) : Prop := 0 <= ref_time w <= t /\ 0 <= proof_size w <= p.

Lemma fits_parts t p : 0 <= t -> 0 <= p -> fits t p (from_parts t p).
Proof. unfold fits. simpl. lia. Qed.
Lemma fits_add t p t' p' a b : fits t p a -> fits t' p' b -> fits (t + t') (p + p') (a + b).
Proof. unfold fits, weight_add. simpl. intros [] []. unfold sat_u. lia. Qed.
Lemma fits_mul t p a n m : fits t p a -> 0 <= n <= m -> fits (t * m) (p * m) (a * n).
Proof.
  unfold fits, weight_mul. simpl. intros [[] []] []. assert (0 <= ref_time a * n <= t * m) by nia.
  assert (0 <= proof_size a * n <= p * m) by nia. unfold sat_u. lia.
Qed.
Lemma fits_max t p t' p' a b : fits t p a -> fits t' p' b -> fits (Z.max t t') (Z.max p p') (weight_max a b).
Proof. unfold fits, weight_max. simpl. lia. Qed.
Lemma fits_reads `{!DbWeightLaws} n m : 0 <= n <= m -> fits (25000000 * m) 0 (reads n).
Proof. intros Hn. pose proof db_read_bound. unfold fits, reads. simpl. assert (0 <= db_read * n <= 25000000 * m) by nia. unfold sat_u. lia. Qed.
Lemma fits_writes `{!DbWeightLaws} n m : 0 <= n <= m -> fits (100000000 * m) 0 (writes n).
Proof. intros Hn. pose proof db_write_bound. unfold fits, writes. simpl. assert (0 <= db_write * n <= 100000000 * m) by nia. unfold sat_u. lia. Qed.
Lemma fits_le t p w w' : fits t p w -> t <= ref_time w' -> p <= proof_size w' -> (w ≤ w')%weight.
Proof. unfold fits, weight_le. lia. Qed.
End Tables.

Create HintDb weigh.
#[export] Hint Resolve fits_parts fits_add fits_mul fits_max fits_reads fits_writes : weigh.
#[export] Hint Extern 1 (0 <= _ <= _) => eassumption : weigh.
#[export] Hint Extern 3 (0 <= _ <= _) => split; [lia|apply Z.le_refl] : weigh.
#[export] Hint Extern 3 (0 <= _) => lia : weigh.
