(* ===== verification/TxCrypto.v ===== *)
(** * Transaction signatures: envelopes, account ids and secret URIs

    Models [crates/transaction-crypto-core/src/lib.rs] and
    [crates/transaction-crypto/src/lib.rs].  The signature suite, BLAKE2, the
    BIP39 word lists and the runtime's key pair type are other crates: they are
    the classes [Suite] and [PairScheme], with what the code relies on as laws.
    Bytes are integers, a [&str] is the list of its characters' code points. *)

From S2P Require Import Prelude.

Abbreviation bytes := (list Z) (only parsing).
Abbreviation str := (list Z) (only parsing).

(** ** Strings *)

(** [char::is_whitespace] *)
Definition is_whitespace (c : Z) : bool :=
  ((9 <=? c) && (c <=? 13)) || (c =? 32) || (c =? 133) || (c =? 160) || (c =? 5760) ||
  ((8192 <=? c) && (c <=? 8202)) || (c =? 8232) || (c =? 8233) || (c =? 8239) || (c =? 8287) || (c =? 12288).

Fixpoint trim_start (s : str) : str :=
  match s with
  | c :: s' => if is_whitespace c then trim_start s' else s
  | [] => []
  end.
Definition trim (s : str) : str := reverse (trim_start (reverse (trim_start s))).

(** [strip_prefix] *)
Fixpoint strip_prefix (prefix s : str) : option str :=
  match prefix, s with
  | [], _ => Some s
  | p :: prefix, c :: s => if p =? c then strip_prefix prefix s else None
  | _ :: _, [] => None
  end.

(** [split_once(pat)]: around the first occurrence *)
Fixpoint split_once (pat s : str) : option (str * str) :=
  match strip_prefix pat s with
  | Some rest => Some ([], rest)
  | None =>
      match s with
      | [] => None
      | c :: s => '(before, after) ← split_once pat s; Some (c :: before, after)
      end
  end.

(** [as_bytes]: UTF-8 *)
Definition utf8_char (c : Z) : bytes :=
  if c <? 128 then [c]
  else if c <? 2048 then [192 + c / 64; 128 + c mod 64]
  else if c <? 65536 then [224 + c / 4096; 128 + c / 64 mod 64; 128 + c mod 64]
  else [240 + c / 262144; 128 + c / 4096 mod 64; 128 + c / 64 mod 64; 128 + c mod 64].
Definition as_bytes (s : str) : bytes := s ≫= utf8_char.

Definition SLASH : Z := 47.
Definition ZERO : Z := 48.
Definition LOWER_X : Z := 120.
Definition UPPER_X : Z := 88.

(** ** The signature suite *)

Definition MASTER_SEED_LEN : nat := 32.
Definition CLASSICAL_SIGNATURE_LEN : nat := 64.
Definition DELTA_LEN : nat := 1.
Definition ACCOUNT_ID_LEN : nat := 32.
(** [b"quip-account-v1"] *)
Definition ACCOUNT_ID_DOMAIN : bytes := [113; 117; 105; 112; 45; 97; 99; 99; 111; 117; 110; 116; 45; 118; 49].
(** [b"quip/substrate-pair-signature/v1"] *)
Definition SUBSTRATE_PAIR_SIGNATURE_CONTEXT : bytes :=
  [113; 117; 105; 112; 47; 115; 117; 98; 115; 116; 114; 97; 116; 101; 45; 112; 97; 105; 114; 45;
   115; 105; 103; 110; 97; 116; 117; 114; 101; 47; 118; 49].

(** [SrFn512] with [composite_delta], BLAKE2b with 32 bytes of output, and
    BIP39. *)
Class Suite := {
  HYBRID_PUBLIC_LEN : nat;
  HYBRID_SIGNATURE_LEN : nat;
  HYBRID_SECRET_LEN : nat;
  MIN_FALCON512_SIG_LEN : nat;
  (** the secret and the public key of a seed *)
  keypair_from_seed : bytes -> option (bytes * bytes);
  (** [sign_deterministic(secret, msg, ctx, b"", out)]: the length written and
      the buffer afterwards *)
  sign_deterministic : bytes -> bytes -> bytes -> option (nat * bytes);
  composite_verify : bytes -> bytes -> bytes -> bytes -> bool;
  blake2b_32 : bytes -> bytes;
  (** the entropy of an English phrase *)
  mnemonic_entropy : str -> option bytes;
  seed_from_entropy : bytes -> str -> option bytes
}.

Definition MIN_HYBRID_SIGNATURE_LEN `{Suite} : nat :=
  CLASSICAL_SIGNATURE_LEN + DELTA_LEN + MIN_FALCON512_SIG_LEN.

(** Lengths of the suite's outputs, room in the signature buffer for every
    announced length, and that signing writes a signature of the announced
    length, zero padded, which verifies under the public key of the seed. *)
Class SuiteLaws `{Suite} := {
  signature_room : (MIN_HYBRID_SIGNATURE_LEN + 255 <= HYBRID_SIGNATURE_LEN)%nat;
  keypair_lengths : forall seed sk pk, keypair_from_seed seed = Some (sk, pk) ->
    length sk = HYBRID_SECRET_LEN /\ length pk = HYBRID_PUBLIC_LEN;
  blake2b_length : forall m, length (blake2b_32 m) = ACCOUNT_ID_LEN;
  big_seed_length : forall entropy pw seed, seed_from_entropy entropy pw = Some seed ->
    (MASTER_SEED_LEN <= length seed)%nat;
  sign_buffer : forall sk m ctx n out, sign_deterministic sk m ctx = Some (n, out) ->
    length out = HYBRID_SIGNATURE_LEN /\ Forall (fun b => 0 <= b < 256) out /\
    Forall (fun b => b = 0) (drop n out);
  sign_verifies : forall seed sk pk m ctx n out, keypair_from_seed seed = Some (sk, pk) ->
    sign_deterministic sk m ctx = Some (n, out) -> composite_verify pk m ctx (take n out) = true
}.

Inductive HybridTxCryptoError :=
  | InvalidLength (expected actual : nat)
  | InvalidPublicKey | InvalidSecretKey | InvalidSeed | SigningFailed | InvalidMnemonic | UnsupportedDerivationPath.
#[global] Instance HybridTxCryptoError_eq_dec : EqDecision HybridTxCryptoError.
Proof. solve_decision. Defined.

Abbreviation hresult := (result HybridTxCryptoError).

(** [[u8; N]::try_from] *)
Definition exact_array (n : nat) (b : bytes) : hresult bytes :=
  if decide (length b = n) then Ok b else Err (InvalidLength n (length b)).

(** ** Secret URIs *)

Definition hex_digit (ch : Z) : hresult Z :=
  if (48 <=? ch) && (ch <=? 57) then Ok (ch - 48)
  else if (97 <=? ch) && (ch <=? 102) then Ok (ch - 97 + 10)
  else if (65 <=? ch) && (ch <=? 70) then Ok (ch - 65 + 10)
  else Err InvalidSeed.

Definition decode_seed_hex (hex : str) : hresult bytes :=
  if negb (bool_decide (length (as_bytes hex) = (MASTER_SEED_LEN * 2)%nat)) then Err InvalidSeed else
  rmapM (fun index =>
    ch <-? or_panic (as_bytes hex !! (index * 2)%nat);;
    hi <-? hex_digit ch;;
    ch <-? or_panic (as_bytes hex !! (index * 2 + 1)%nat);;
    lo <-? hex_digit ch;;
    Ok (Z.lor (wrap_u 8 (Z.shiftl hi 4)) lo)) (seq 0 MASTER_SEED_LEN).

Section Core.
Context `{Suite}.

Definition master_seed_from_mnemonic (phrase : str) (password : option str) : hresult bytes :=
  entropy <-? ok_or (mnemonic_entropy phrase) InvalidMnemonic;;
  big_seed <-? ok_or (seed_from_entropy entropy (default [] password)) InvalidMnemonic;;
  if decide (MASTER_SEED_LEN <= length big_seed)%nat then Ok (take MASTER_SEED_LEN big_seed) else Panic.

(** The part of [master_seed_from_secret_uri] after the password is split
    off. *)
Definition master_seed_from_phrase (phrase : str) (password : option str) : hresult bytes :=
  let phrase := trim phrase in
  match (match strip_prefix [ZERO; LOWER_X] phrase with
         | Some hex => Some hex
         | None => strip_prefix [ZERO; UPPER_X] phrase
         end) with
  | Some hex => decode_seed_hex hex
  | None =>
      if bool_decide (SLASH ∈ phrase) then Err UnsupportedDerivationPath
      else master_seed_from_mnemonic phrase password
  end.

Definition master_seed_from_secret_uri (uri : str) : hresult bytes :=
  match split_once [SLASH; SLASH; SLASH] uri with
  | Some (phrase, password) => master_seed_from_phrase phrase (Some password)
  | None => master_seed_from_phrase uri None
  end.

(** ** The envelope *)

Record HybridTxSignatureBytes := mkEnvelope { public : bytes; signature : bytes }.

Definition signature_wire_len (sig : bytes) : hresult nat :=
  delta <-? or_panic (sig !! CLASSICAL_SIGNATURE_LEN);;
  Ok (MIN_HYBRID_SIGNATURE_LEN + Z.to_nat delta)%nat.

Definition validate_signature_padding (sig : bytes) : hresult nat :=
  wire_len <-? signature_wire_len sig;;
  if decide (length sig < wire_len)%nat then Panic else
  if existsb (fun byte => negb (byte =? 0)) (drop wire_len sig)
  then Err (InvalidLength wire_len HYBRID_SIGNATURE_LEN)
  else Ok wire_len.

Definition envelope_new (public signature : bytes) : hresult HybridTxSignatureBytes :=
  public <-? exact_array HYBRID_PUBLIC_LEN public;;
  signature <-? exact_array HYBRID_SIGNATURE_LEN signature;;
  validate_signature_padding signature;;?
  Ok (mkEnvelope public signature).

Definition account_id_from_public_bytes (public : bytes) : bytes := blake2b_32 (ACCOUNT_ID_DOMAIN ++ public).

Definition derived_account_id (e : HybridTxSignatureBytes) : bytes := account_id_from_public_bytes (public e).

Definition envelope_verify (e : HybridTxSignatureBytes) (message : bytes) : hresult bool :=
  match validate_signature_padding (signature e) with
  | Ok wire_len =>
      Ok (composite_verify (public e) message SUBSTRATE_PAIR_SIGNATURE_CONTEXT (take wire_len (signature e)))
  | Err _ => Ok false
  | Panic => Panic
  end.

(** SCALE of two fixed arrays: their bytes in order; decoding takes as many
    from the front and ignores what follows. *)
Definition encode_envelope (e : HybridTxSignatureBytes) : bytes := public e ++ signature e.

Definition decode_envelope (input : bytes) : hresult HybridTxSignatureBytes :=
  if decide (length input < HYBRID_PUBLIC_LEN + HYBRID_SIGNATURE_LEN)%nat
  then Err (InvalidLength (HYBRID_PUBLIC_LEN + HYBRID_SIGNATURE_LEN) (length input))
  else envelope_new (take HYBRID_PUBLIC_LEN input)
         (take HYBRID_SIGNATURE_LEN (drop HYBRID_PUBLIC_LEN input)).

Definition public_key_from_seed (seed : bytes) : hresult bytes :=
  seed <-? exact_array MASTER_SEED_LEN seed;;
  keys <-? ok_or (keypair_from_seed seed) InvalidSeed;;
  Ok keys.2.

Definition sign_payload_with_arrays (secret public payload : bytes) : hresult HybridTxSignatureBytes :=
  written <-? ok_or (sign_deterministic secret payload SUBSTRATE_PAIR_SIGNATURE_CONTEXT) SigningFailed;;
  let '(wire_len, signature) := written in
  announced <-? signature_wire_len signature;;
  if negb (bool_decide (wire_len = announced)) then Err SigningFailed
  else envelope_new public signature.

Definition sign_payload_from_seed (seed payload : bytes) : hresult HybridTxSignatureBytes :=
  seed <-? exact_array MASTER_SEED_LEN seed;;
  match keypair_from_seed seed with
  | None => Err InvalidSeed
  | Some (secret, public) => sign_payload_with_arrays secret public payload
  end.

Definition sign_payload_from_secret (secret public payload : bytes) : hresult HybridTxSignatureBytes :=
  secret <-? exact_array HYBRID_SECRET_LEN secret;;
  public <-? exact_array HYBRID_PUBLIC_LEN public;;
  sign_payload_with_arrays secret public payload.
End Core.

(** ** The runtime's signature *)

(** [sr25519_fndsa512]: keys, signatures and pairs of the runtime's crate. *)
Class PairScheme (Public Signature Pair : Type) := {
  public_ref : Public -> bytes;
  signature_ref : Signature -> bytes;
  decode_public : bytes -> option Public;
  decode_signature : bytes -> option Signature;
  pair_public : Pair -> Public;
  pair_sign : Pair -> bytes -> Signature;
  pair_verify : Signature -> bytes -> Public -> bool
}.

Section Runtime.
Context `{Suite} {Public Signature Pair : Type} `{PairScheme Public Signature Pair}.

Definition account_id_from_public (p : Public) : bytes := account_id_from_public_bytes (public_ref p).

(** [HybridTxPublic] and [IdentifyAccount::into_account] *)
Record HybridTxPublic := mkHybridTxPublic { inner : Public }.
Definition into_account (p : HybridTxPublic) : bytes := account_id_from_public (inner p).

Record HybridTxSignature := mkHybridTxSignature { tx_public : Public; tx_signature : Signature }.

Definition tx_derived_account_id (e : HybridTxSignature) : bytes := account_id_from_public (tx_public e).

Definition tx_sign (pair : Pair) (message : bytes) : hresult HybridTxSignature :=
  match envelope_new (public_ref (pair_public pair)) (signature_ref (pair_sign pair message)) with
  | Ok envelope =>
      p <-? or_panic (decode_public (public envelope));;
      s <-? or_panic (decode_signature (signature envelope));;
      Ok (mkHybridTxSignature p s)
  | _ => Panic
  end.

Definition tx_verify (e : HybridTxSignature) (msg : bytes) (signer : bytes) : bool :=
  if negb (bool_decide (tx_derived_account_id e = signer)) then false
  else pair_verify (tx_signature e) msg (tx_public e).
End Runtime.

(** ** Seeds in hexadecimal *)

Definition is_bytes (b : bytes) : Prop := Forall (in_u 8) b.

Definition hex_char (d : Z) : Z := if d <? 10 then 48 + d else 97 + (d - 10).
(** Two lower-case digits per byte. *)
Definition seed_hex (seed : bytes) : str := seed ≫= fun b => [hex_char (b / 16); hex_char (b mod 16)].

Lemma hex_digit_char d : 0 <= d < 16 -> hex_digit (hex_char d) = Ok d.
Proof.
  intros Hd. unfold hex_digit, hex_char. destruct (d <? 10) eqn:E; bool_to_prop.
  - rewrite !(proj2 (Z.leb_le _ _)) by lia. simpl. f_equal. lia.
  - rewrite (proj2 (Z.leb_gt (97 + _) 57)), andb_false_r by lia.
    rewrite (proj2 (Z.leb_le 97 _)), (proj2 (Z.leb_le _ 102)) by lia. simpl. f_equal. lia.
Qed.

Lemma hex_digit_Ok ch d : hex_digit ch = Ok d -> 0 <= d < 16.
Proof. unfold hex_digit. repeat case_match; intros [= <-]; bool_to_prop; lia. Qed.

Lemma hex_digit_no_panic ch : hex_digit ch <> Panic.
Proof. unfold hex_digit. by repeat case_match. Qed.

Lemma as_bytes_ascii s : Forall (fun c => c < 128) s -> as_bytes s = s.
Proof.
  induction 1 as [|c s Hc _ IH]; [done|]. unfold as_bytes in *. csimpl. rewrite IH. unfold utf8_char.
  by rewrite (proj2 (Z.ltb_lt c 128)).
Qed.

Lemma nibbles b : in_u 8 b -> 0 <= b / 16 < 16 /\ 0 <= b mod 16 < 16 /\ b / 16 * 16 + b mod 16 = b.
Proof. unfold in_u. intros Hb. pose proof (Z.div_mod b 16). pose proof (Z.mod_pos_bound b 16). lia. Qed.

Lemma seed_hex_length seed : length (seed_hex seed) = (length seed * 2)%nat.
Proof. unfold seed_hex. induction seed as [|b seed IH]; csimpl; [done|]. rewrite IH. lia. Qed.

Lemma seed_hex_lookup seed i b :
  seed !! i = Some b ->
  seed_hex seed !! (i * 2)%nat = Some (hex_char (b / 16)) /\
  seed_hex seed !! (i * 2 + 1)%nat = Some (hex_char (b mod 16)).
Proof.
  unfold seed_hex. revert i; induction seed as [|b0 seed IH]; intros [|i]; csimpl; try done.
  - by intros [= <-].
  - apply IH.
Qed.

Lemma seed_hex_ascii seed : is_bytes seed -> Forall (fun c => 48 <= c < 128) (seed_hex seed).
Proof.
  induction 1 as [|b seed Hb _ IH]; [constructor|]. unfold seed_hex in *. csimpl. apply nibbles in Hb.
  assert (forall d, 0 <= d < 16 -> 48 <= hex_char d < 128) as Hc by (intros d Hd; unfold hex_char; case_match; bool_to_prop; lia).
  constructor; [apply Hc; lia|]. constructor; [apply Hc; lia|done].
Qed.

(** [(hi << 4) | lo] of two nibbles *)
Lemma lor_nibbles hi lo : 0 <= hi < 16 -> 0 <= lo < 16 -> Z.lor (wrap_u 8 (Z.shiftl hi 4)) lo = hi * 16 + lo.
Proof.
  intros Hh Hl. rewrite Z.shiftl_mul_pow2, wrap_u_small by (unfold in_u; lia).
  assert (Z.land (hi * 2 ^ 4) lo = 0) as Hland.
  { apply Z.bits_inj'. intros n Hn. rewrite Z.land_spec, Z.bits_0. destruct (decide (n < 4)).
    - by rewrite Z.mul_pow2_bits_low by done.
    - rewrite <- (Z.mod_small lo (2 ^ 4)), Z.mod_pow2_bits_high, andb_false_r by lia. done. }
  rewrite <- Z.lxor_lor, <- Z.add_nocarry_lxor by done. lia.
Qed.

(** Reading back a seed's digits. *)
Lemma decode_seed_hex_roundtrip seed :
  is_bytes seed -> length seed = MASTER_SEED_LEN -> decode_seed_hex (seed_hex seed) = Ok seed.
Proof.
  intros Hb Hlen. unfold decode_seed_hex.
  rewrite as_bytes_ascii by (eapply Forall_impl; [by apply seed_hex_ascii|]; simpl; lia).
  rewrite seed_hex_length, Hlen, bool_decide_eq_true_2 by done. cbn [negb]. apply rmapM_Ok.
  apply Forall2_same_length_lookup. rewrite length_seq. split; [done|].
  intros i j b Hj Hi. apply lookup_seq in Hj as [-> _]. simpl.
  destruct (seed_hex_lookup seed i b Hi) as [-> ->]. simpl.
  assert (in_u 8 b) as Hr by (eapply Forall_lookup_1; [exact Hb|exact Hi]). apply nibbles in Hr.
  rewrite !hex_digit_char by lia. cbn [rbind]. f_equal.
  rewrite lor_nibbles by lia. lia.
Qed.

Lemma decode_seed_hex_no_panic hex : decode_seed_hex hex <> Panic.
Proof.
  unfold decode_seed_hex. case_bool_decide as Hl; [|done]. cbn [negb]. apply rmapM_no_panic.
  intros i Hi. apply elem_of_seq in Hi. unfold MASTER_SEED_LEN in *.
  destruct (lookup_lt_is_Some_2 (as_bytes hex) (i * 2)) as [c1 ->]; [lia|].
  destruct (lookup_lt_is_Some_2 (as_bytes hex) (i * 2 + 1)) as [c2 ->]; [lia|]. simpl.
  pose proof (hex_digit_no_panic c1). pose proof (hex_digit_no_panic c2).
  destruct (hex_digit c1), (hex_digit c2); simpl; done.
Qed.

Lemma decode_seed_hex_length hex seed : decode_seed_hex hex = Ok seed -> length seed = MASTER_SEED_LEN.
Proof.
  unfold decode_seed_hex. case_bool_decide; [|done]. cbn [negb]. intros Hm%rmapM_length. by rewrite length_seq in Hm.
Qed.

(** ** Strings *)

Lemma trim_start_whitespace ws s : Forall (fun c => is_whitespace c = true) ws -> trim_start (ws ++ s) = trim_start s.
Proof. induction 1 as [|c ws Hc _ IH]; simpl; [done|]. by rewrite Hc. Qed.

Lemma trim_start_id c s : is_whitespace c = false -> trim_start (c :: s) = c :: s.
Proof. intros Hc. simpl. by rewrite Hc. Qed.

(** [trim] removes the white space around a text without any at its ends. *)
Lemma trim_around ws ws' s c d :
  Forall (fun c => is_whitespace c = true) ws -> Forall (fun c => is_whitespace c = true) ws' ->
  is_whitespace c = false -> is_whitespace d = false ->
  trim (ws ++ (c :: s ++ [d]) ++ ws') = c :: s ++ [d].
Proof.
  intros Hw Hw' Hc Hd. unfold trim. rewrite trim_start_whitespace by done. cbn [app].
  rewrite trim_start_id by done. rewrite app_comm_cons, reverse_app, trim_start_whitespace by (by apply Forall_reverse).
  rewrite app_comm_cons, reverse_snoc, trim_start_id, <- reverse_snoc by done. by rewrite reverse_involutive.
Qed.

Lemma strip_prefix_Some p s r : strip_prefix p s = Some r <-> s = p ++ r.
Proof.
  revert s; induction p as [|x p IH]; intros s; simpl; [naive_solver|].
  destruct s as [|c s]; [naive_solver|]. destruct (x =? c) eqn:E; bool_to_prop; subst.
  - rewrite IH. naive_solver.
  - naive_solver.
Qed.

(** The first occurrence of the password separator in a text that has no slash
    before it. *)
Lemma split_once_slashes before after :
  SLASH ∉ before -> split_once [SLASH; SLASH; SLASH] (before ++ [SLASH; SLASH; SLASH] ++ after) = Some (before, after).
Proof.
  induction before as [|c before IH]; intros Hno; [done|].
  assert (c <> SLASH) by set_solver. rewrite <- app_comm_cons. cbn [split_once strip_prefix].
  rewrite (proj2 (Z.eqb_neq SLASH c)) by done. by rewrite IH by set_solver.
Qed.

Lemma split_once_none s : SLASH ∉ s -> split_once [SLASH; SLASH; SLASH] s = None.
Proof.
  induction s as [|c s IH]; intros Hno; [done|]. cbn [split_once strip_prefix].
  assert (c <> SLASH) by set_solver. rewrite (proj2 (Z.eqb_neq SLASH c)) by done. by rewrite IH by set_solver.
Qed.

Lemma trim_start_elem c s : c ∈ s -> is_whitespace c = false -> c ∈ trim_start s.
Proof.
  induction s as [|d s IH]; simpl; intros Hin Hc; [done|]. destruct (is_whitespace d) eqn:Hd; [|done].
  apply IH; [|done]. apply elem_of_cons in Hin as [->|]; [congruence|done].
Qed.

Lemma trim_start_subset c s : c ∈ trim_start s -> c ∈ s.
Proof. induction s as [|d s IH]; simpl; [done|]. destruct (is_whitespace d); [|done]. intros ?%IH. set_solver. Qed.

Lemma trim_slash s : SLASH ∈ trim s <-> SLASH ∈ s.
Proof.
  unfold trim. rewrite elem_of_reverse. split.
  - intros Hin%trim_start_subset. rewrite elem_of_reverse in Hin. by apply trim_start_subset in Hin.
  - intros Hin. apply trim_start_elem; [|done]. apply elem_of_reverse, trim_start_elem; done.
Qed.

(** The characters of a hex seed are not white space and no slash. *)
Lemma seed_hex_plain seed : is_bytes seed -> Forall (fun c => is_whitespace c = false /\ c <> SLASH) (seed_hex seed).
Proof.
  intros Hb. eapply Forall_impl; [by apply seed_hex_ascii|]. intros c Hc. simpl in Hc. unfold is_whitespace, SLASH.
  rewrite (proj2 (Z.leb_gt c 13)), (proj2 (Z.leb_gt 8192 c)) by lia. rewrite andb_false_r. simpl.
  rewrite !(proj2 (Z.eqb_neq _ _)) by lia. split; [done|lia].
Qed.

Lemma slash_not_whitespace ws : Forall (fun c => is_whitespace c = true) ws -> SLASH ∉ ws.
Proof. intros Hw Hin. rewrite Forall_forall in Hw. by specialize (Hw SLASH Hin). Qed.

(** A hex seed in white space has no slash and is read back, whatever the
    password. *)
Lemma hex_phrase_slash ws ws' seed :
  is_bytes seed -> Forall (fun c => is_whitespace c = true) ws -> Forall (fun c => is_whitespace c = true) ws' ->
  SLASH ∉ ws ++ ([ZERO; LOWER_X] ++ seed_hex seed) ++ ws'.
Proof.
  intros Hb Hw%slash_not_whitespace Hw'%slash_not_whitespace. pose proof (seed_hex_plain seed Hb) as Hp.
  rewrite Forall_forall in Hp. assert (SLASH ∉ seed_hex seed) by (by intros [_ []]%Hp).
  unfold SLASH, ZERO, LOWER_X in *. set_solver.
Qed.

(** ** Envelopes *)

Section Envelopes.
Context `{Suite, !SuiteLaws}.

(** The announced length of a signature and its zero padding. *)
Definition canonical (sig : bytes) (wire_len : nat) : Prop :=
  exists delta, sig !! CLASSICAL_SIGNATURE_LEN = Some delta /\
    wire_len = (MIN_HYBRID_SIGNATURE_LEN + Z.to_nat delta)%nat /\
    Forall (fun b => b = 0) (drop wire_len sig).

(** An envelope as its Rust type and constructor make it. *)
Definition well_formed (e : HybridTxSignatureBytes) : Prop :=
  length (public e) = HYBRID_PUBLIC_LEN /\ length (signature e) = HYBRID_SIGNATURE_LEN /\
  exists wire_len, canonical (signature e) wire_len.

Lemma existsb_nonzero l : existsb (fun byte => negb (byte =? 0)) l = false <-> Forall (fun b => b = 0) l.
Proof.
  induction l as [|b l IH]; simpl; [split; [constructor|done]|].
  rewrite orb_false_iff, negb_false_iff, Z.eqb_eq, IH, Forall_cons. done.
Qed.

Lemma padding_cases sig :
  is_bytes sig -> length sig = HYBRID_SIGNATURE_LEN ->
  exists delta, sig !! CLASSICAL_SIGNATURE_LEN = Some delta /\
    let n := (MIN_HYBRID_SIGNATURE_LEN + Z.to_nat delta)%nat in
    signature_wire_len sig = Ok n /\ (n <= length sig)%nat /\
    ((validate_signature_padding sig = Ok n /\ Forall (fun b => b = 0) (drop n sig)) \/
     (validate_signature_padding sig = Err (InvalidLength n HYBRID_SIGNATURE_LEN) /\
      ~ Forall (fun b => b = 0) (drop n sig))).
Proof.
  intros Hb Hl. pose proof signature_room as Hroom. unfold MIN_HYBRID_SIGNATURE_LEN, CLASSICAL_SIGNATURE_LEN in *.
  destruct (lookup_lt_is_Some_2 sig 64) as [d Hd]; [lia|].
  assert (in_u 8 d) as Hr by (eapply Forall_lookup_1; [exact Hb|exact Hd]). unfold in_u in Hr.
  exists d. split; [done|]. unfold validate_signature_padding, signature_wire_len, MIN_HYBRID_SIGNATURE_LEN, CLASSICAL_SIGNATURE_LEN.
  rewrite Hd. cbn [or_panic rbind]. split; [done|]. split; [lia|]. rewrite decide_False by lia.
  destruct (existsb _ _) eqn:Hx.
  - right. split; [done|]. rewrite <- existsb_nonzero. congruence.
  - left. split; [done|]. by apply existsb_nonzero.
Qed.

Lemma padding_Ok sig n :
  is_bytes sig -> length sig = HYBRID_SIGNATURE_LEN ->
  validate_signature_padding sig = Ok n <-> canonical sig n.
Proof.
  intros Hb Hl. destruct (padding_cases sig Hb Hl) as (d & Hd & _ & _ & [[Hok Hz]|[Herr Hz]]).
  - rewrite Hok. split; [intros [= <-]; by exists d|]. intros (d' & Hd' & -> & _). congruence.
  - rewrite Herr. split; [done|]. intros (d' & Hd' & -> & Hz'). rewrite Hd in Hd'. by injection Hd' as <-.
Qed.

(** The constructor accepts exactly the well-formed parts, and never panics. *)
Lemma envelope_new_spec p s e :
  is_bytes s -> envelope_new p s = Ok e <-> e = mkEnvelope p s /\ well_formed e.
Proof.
  intros Hb. unfold envelope_new, exact_array, well_formed. case_decide as Hp; cbn [rbind]; [|naive_solver].
  case_decide as Hs; cbn [rbind]; [|naive_solver]. split.
  - intros (n & Hn%padding_Ok & [= <-])%rbind_Ok_inv; [|done..]. simpl. eauto 6.
  - intros (-> & _ & _ & n & Hn). apply padding_Ok in Hn; [|done..]. simpl in Hn. by rewrite Hn.
Qed.

Lemma envelope_new_no_panic p s : is_bytes s -> envelope_new p s <> Panic.
Proof.
  intros Hb. unfold envelope_new, exact_array. case_decide; cbn [rbind]; [|done].
  case_decide as Hs; cbn [rbind]; [|done].
  destruct (padding_cases s Hb Hs) as (d & _ & _ & _ & [[-> _]|[-> _]]); done.
Qed.

(** Decoding reads an envelope off the front of the input. *)
Lemma decode_envelope_spec input e :
  is_bytes input -> decode_envelope input = Ok e <-> well_formed e /\ exists rest, input = encode_envelope e ++ rest.
Proof.
  intros Hb. unfold decode_envelope, encode_envelope. case_decide as Hlen.
  - split; [done|]. intros [(Hp & Hs & _) (rest & ->)]. rewrite !length_app in Hlen. lia.
  - assert (is_bytes (take HYBRID_SIGNATURE_LEN (drop HYBRID_PUBLIC_LEN input))) as Hb' by (by apply Forall_take, Forall_drop).
    rewrite envelope_new_spec by done. split.
    + intros [-> Hwf]. split; [done|]. exists (drop HYBRID_SIGNATURE_LEN (drop HYBRID_PUBLIC_LEN input)). simpl.
      by rewrite <- app_assoc, !take_drop.
    + intros [Hwf (rest & ->)]. split; [|done]. destruct Hwf as (Hp & Hs & _). destruct e as [p s]; simpl in *.
      rewrite <- app_assoc, take_app_length' by done. by rewrite drop_app_length', take_app_length' by done.
Qed.

Lemma decode_envelope_no_panic input : is_bytes input -> decode_envelope input <> Panic.
Proof.
  intros Hb. unfold decode_envelope. case_decide; [done|]. apply envelope_new_no_panic. by apply Forall_take, Forall_drop.
Qed.

(** Verification of a well-formed envelope is the suite's, on the announced
    bytes. *)
Lemma envelope_verify_spec e n m :
  is_bytes (signature e) -> length (signature e) = HYBRID_SIGNATURE_LEN -> canonical (signature e) n ->
  envelope_verify e m =
  Ok (composite_verify (public e) m SUBSTRATE_PAIR_SIGNATURE_CONTEXT (take n (signature e))).
Proof. intros Hb Hl Hc%padding_Ok; [|done..]. unfold envelope_verify. by rewrite Hc. Qed.

(** ** Signing *)

Lemma sign_payload_spec seed payload e :
  sign_payload_from_seed seed payload = Ok e ->
  well_formed e /\ is_bytes (signature e) /\ public_key_from_seed seed = Ok (public e) /\
  envelope_verify e payload = Ok true.
Proof.
  unfold sign_payload_from_seed, public_key_from_seed. intros (sd & Hsd & Hk)%rbind_Ok_inv. rewrite Hsd. cbn [rbind].
  destruct (keypair_from_seed sd) as [[sk pk]|] eqn:Hkp; [|done]. cbn [ok_or rbind snd].
  unfold sign_payload_with_arrays in Hk.
  destruct (sign_deterministic sk payload _) as [[n out]|] eqn:Hsign; [|done]. cbn [ok_or rbind] in Hk.
  apply rbind_Ok_inv in Hk as (announced & Ha & Hk). case_bool_decide as Hn; [|done]. subst announced. cbn [negb] in Hk.
  destruct (sign_buffer _ _ _ _ _ Hsign) as (Hlen & Hb & Hz).
  assert (is_bytes out) as Hb' by (eapply Forall_impl; [exact Hb|]; unfold in_u; simpl; lia).
  apply envelope_new_spec in Hk as [-> Hwf]; [|done]. simpl. split_and!; [done|done|done|].
  assert (canonical out n) as Hc.
  { destruct (padding_cases out Hb' Hlen) as (d & Hd & Hw & _). rewrite Ha in Hw. injection Hw as ->. by exists d. }
  rewrite (envelope_verify_spec _ n) by done. simpl. by rewrite (sign_verifies _ _ _ _ _ _ _ Hkp Hsign).
Qed.

(** *** Secret URIs *)

Lemma master_seed_from_phrase_length phrase password :
  master_seed_from_phrase phrase password <> Panic /\
  forall seed, master_seed_from_phrase phrase password = Ok seed -> length seed = MASTER_SEED_LEN.
Proof.
  unfold master_seed_from_phrase. cbn zeta.
  destruct (match strip_prefix _ _ with Some _ => _ | None => _ end) as [hex|].
  { split; [apply decode_seed_hex_no_panic|apply decode_seed_hex_length]. }
  case_bool_decide; [done|]. unfold master_seed_from_mnemonic.
  destruct (mnemonic_entropy _) as [ent|]; cbn [ok_or rbind]; [|done].
  destruct (seed_from_entropy _ _) as [big|] eqn:Hs; cbn [ok_or rbind]; [|done].
  apply big_seed_length in Hs. rewrite decide_True by done. split; [done|].
  intros seed [= <-]. rewrite length_take. lia.
Qed.

Lemma hex_phrase_read ws ws' seed password :
  is_bytes seed -> length seed = MASTER_SEED_LEN ->
  Forall (fun c => is_whitespace c = true) ws -> Forall (fun c => is_whitespace c = true) ws' ->
  master_seed_from_phrase (ws ++ ([ZERO; LOWER_X] ++ seed_hex seed) ++ ws') password = Ok seed.
Proof.
  intros Hb Hl Hw Hw'. unfold master_seed_from_phrase.
  assert (trim (ws ++ ([ZERO; LOWER_X] ++ seed_hex seed) ++ ws') = [ZERO; LOWER_X] ++ seed_hex seed) as ->.
  { pose proof (seed_hex_plain seed Hb) as Hp. destruct (seed_hex seed) as [|d h _] eqn:Hh using rev_ind.
    - apply (f_equal length) in Hh. rewrite seed_hex_length, Hl in Hh. discriminate Hh.
    - apply Forall_app in Hp as [_ Hp]. apply Forall_cons in Hp as [[Hd _] _].
      exact (trim_around ws ws' (LOWER_X :: h) ZERO d Hw Hw' eq_refl Hd). }
  cbn zeta. rewrite (proj2 (strip_prefix_Some [ZERO; LOWER_X] _ (seed_hex seed)) eq_refl).
  by apply decode_seed_hex_roundtrip.
Qed.
End Envelopes.

(** ** What a secret URI means

    A specification on its own: the URI is split at its first three slashes;
    a phrase that starts with 0x or 0X is 64 hex digits or invalid; any other
    phrase with a slash is a derivation path, and one without is a mnemonic. *)

Definition PASSWORD_MARK : str := [SLASH; SLASH; SLASH].

(** The text before the first password mark and the password after it, or the
    whole text when there is no mark. *)
Definition uri_parts (uri phrase : str) (password : option str) : Prop :=
  match password with
  | Some pw => uri = phrase ++ PASSWORD_MARK ++ pw /\
      forall before after, uri = before ++ PASSWORD_MARK ++ after -> (length phrase <= length before)%nat
  | None => phrase = uri /\ forall before after, uri <> before ++ PASSWORD_MARK ++ after
  end.

(** The value of a hex digit, in either case. *)
Definition hex_value (c v : Z) : Prop :=
  48 <= c <= 57 /\ v = c - 48 \/ 97 <= c <= 102 /\ v = c - 87 \/ 65 <= c <= 70 /\ v = c - 55.

(** The bytes [digits] are the 64 hex digits of [seed]. *)
Definition seed_digits (digits seed : bytes) : Prop :=
  length digits = (MASTER_SEED_LEN * 2)%nat /\ length seed = MASTER_SEED_LEN /\
  forall i b, seed !! i = Some b -> exists c d hi lo,
    digits !! (i * 2)%nat = Some c /\ digits !! (i * 2 + 1)%nat = Some d /\
    hex_value c hi /\ hex_value d lo /\ b = hi * 16 + lo.

Definition hex_prefixed (phrase body : str) : Prop :=
  phrase = [ZERO; LOWER_X] ++ body \/ phrase = [ZERO; UPPER_X] ++ body.

Inductive uri_means `{Suite} (uri : str) : hresult bytes -> Prop :=
  | means_seed phrase password body seed :
      uri_parts uri phrase password -> hex_prefixed (trim phrase) body -> seed_digits (as_bytes body) seed ->
      uri_means uri (Ok seed)
  | means_bad_hex phrase password body :
      uri_parts uri phrase password -> hex_prefixed (trim phrase) body ->
      (forall seed, ~ seed_digits (as_bytes body) seed) -> uri_means uri (Err InvalidSeed)
  | means_path phrase password :
      uri_parts uri phrase password -> (forall body, ~ hex_prefixed (trim phrase) body) -> SLASH ∈ phrase ->
      uri_means uri (Err UnsupportedDerivationPath)
  | means_mnemonic phrase password :
      uri_parts uri phrase password -> (forall body, ~ hex_prefixed (trim phrase) body) -> SLASH ∉ phrase ->
      uri_means uri (master_seed_from_mnemonic (trim phrase) password).

Lemma split_once_Some pat s a b :
  split_once pat s = Some (a, b) ->
  s = a ++ pat ++ b /\ forall x y, s = x ++ pat ++ y -> (length a <= length x)%nat.
Proof.
  revert a. induction s as [|c s IH]; intros a; cbn [split_once]; destruct (strip_prefix pat _) as [rest|] eqn:Hp; [|done| |].
  - intros [= <- <-]. apply strip_prefix_Some in Hp. split; [done|]. simpl. lia.
  - intros [= <- <-]. apply strip_prefix_Some in Hp. split; [done|]. simpl. lia.
  - intros ([before after] & Hs & [= <- <-])%bind_Some. destruct (IH _ Hs) as [-> Hmin]. split; [done|].
    intros [|c' x] y Heq; simpl in Heq.
    + exfalso. rewrite Heq in Hp. by rewrite (proj2 (strip_prefix_Some pat _ y) eq_refl) in Hp.
    + injection Heq as -> Heq. apply Hmin in Heq. simpl. lia.
Qed.

Lemma split_once_None pat s x y : split_once pat s = None -> s <> x ++ pat ++ y.
Proof.
  revert x. induction s as [|c s IH]; intros x; cbn [split_once]; destruct (strip_prefix pat _) as [rest|] eqn:Hp; try done.
  - intros _ Heq. symmetry in Heq. apply app_nil in Heq as [-> [-> ->]%app_nil]. done.
  - intros Hn Heq. apply bind_None in Hn as [Hs|([before after] & _ & [=])]. destruct x as [|c' x]; simpl in Heq.
    + rewrite Heq in Hp. by rewrite (proj2 (strip_prefix_Some pat _ y) eq_refl) in Hp.
    + injection Heq as -> Heq. by apply (IH x) in Hs.
Qed.

(** [split_once] finds exactly the parts. *)
Lemma uri_parts_iff uri phrase password :
  uri_parts uri phrase password <->
  match split_once PASSWORD_MARK uri with
  | Some (a, b) => phrase = a /\ password = Some b
  | None => phrase = uri /\ password = None
  end.
Proof.
  destruct (split_once PASSWORD_MARK uri) as [[a b]|] eqn:Hs.
  - apply split_once_Some in Hs as [Huri Hmin]. split; [|by intros [-> ->]].
    destruct password as [pw|]; simpl; [|by intros [_ []%(fun h => h a b)]].
    intros [Hu Hfirst]. pose proof (Hmin _ _ Hu). pose proof (Hfirst _ _ Huri).
    rewrite Hu in Huri. apply app_inj_1 in Huri as [-> Heq]; [|lia]. by injection Heq as ->.
  - split; [|intros [-> ->]; split; [done|]; intros x y; by apply split_once_None].
    destruct password as [pw|]; simpl; [|by intros [-> _]]. intros [Hu _].
    by destruct (split_once_None PASSWORD_MARK uri phrase pw Hs).
Qed.

Lemma hex_value_iff c v : hex_value c v <-> hex_digit c = Ok v.
Proof.
  unfold hex_value, hex_digit. split; [|repeat case_match; intros [= <-]; bool_to_prop; lia].
  intros Hv. repeat case_match; bool_to_prop; f_equal; lia.
Qed.

Lemma hex_prefixed_iff phrase body :
  hex_prefixed phrase body <->
  match strip_prefix [ZERO; LOWER_X] phrase with
  | Some hex => Some hex
  | None => strip_prefix [ZERO; UPPER_X] phrase
  end = Some body.
Proof.
  unfold hex_prefixed. rewrite <- !strip_prefix_Some.
  destruct (strip_prefix [ZERO; LOWER_X] phrase) as [h|] eqn:Hl; [|naive_solver]. split; [|by left].
  intros [?|Hu]; [done|]. apply strip_prefix_Some in Hl, Hu. rewrite Hl in Hu. discriminate Hu.
Qed.

(** Decoding succeeds exactly on the 64 digits of a seed, and has one error. *)
Lemma decode_seed_hex_iff hex seed : decode_seed_hex hex = Ok seed <-> seed_digits (as_bytes hex) seed.
Proof.
  unfold decode_seed_hex, seed_digits. case_bool_decide as Hl; cbn [negb]; [|split; [done|by intros [? _]]]. split.
  - intros Hm. pose proof (rmapM_length _ _ _ Hm) as Hlen. rewrite length_seq in Hlen. split_and!; [done|done|].
    intros i b Hi. apply rmapM_Ok_inv in Hm. destruct (Forall2_lookup_r _ _ _ _ _ Hm Hi) as (j & [-> _]%lookup_seq & Hj).
    simpl in Hj. destruct (as_bytes hex !! (i * 2)%nat) as [c|] eqn:Hc; [|done]. cbn [or_panic rbind] in Hj.
    apply rbind_Ok_inv in Hj as (hi & Hhi & Hj).
    destruct (as_bytes hex !! (i * 2 + 1)%nat) as [d|] eqn:Hd; [|done]. cbn [or_panic rbind] in Hj.
    apply rbind_Ok_inv in Hj as (lo & Hlo & [= <-]). exists c, d, hi, lo. rewrite !hex_value_iff.
    apply hex_digit_Ok in Hhi as Hh. apply hex_digit_Ok in Hlo as Hl'. by rewrite lor_nibbles.
  - intros (_ & Hlen & Hall). apply rmapM_Ok, Forall2_same_length_lookup. rewrite length_seq. split; [done|].
    intros i j b [-> _]%lookup_seq Hi. destruct (Hall i b Hi) as (c & d & hi & lo & Hc & Hd & Hh & Hl' & ->).
    rewrite hex_value_iff in Hh, Hl'. simpl. rewrite Hc. cbn [or_panic rbind]. rewrite Hh. cbn [rbind].
    rewrite Hd. cbn [or_panic rbind]. rewrite Hl'. cbn [rbind]. f_equal. apply lor_nibbles; by eapply hex_digit_Ok.
Qed.

Lemma decode_seed_hex_error hex e : decode_seed_hex hex = Err e -> e = InvalidSeed.
Proof.
  unfold decode_seed_hex. case_bool_decide; cbn [negb]; [|by intros [= <-]].
  intros (i & _ & Hi)%rmapM_Err_inv. assert (forall c e', hex_digit c = Err e' -> e' = InvalidSeed) as Hd.
  { intros c e'. unfold hex_digit. repeat case_match; congruence. }
  simpl in Hi. destruct (as_bytes hex !! (i * 2)%nat) as [c|]; [|done]. cbn [or_panic rbind] in Hi.
  destruct (hex_digit c) as [hi|e'|] eqn:Hc; cbn [rbind] in Hi; [|injection Hi as <-; by eapply Hd|done].
  destruct (as_bytes hex !! (i * 2 + 1)%nat) as [d|]; [|done]. cbn [or_panic rbind] in Hi.
  destruct (hex_digit d) as [lo|e'|] eqn:Hd'; cbn [rbind] in Hi; [done|injection Hi as <-; by eapply Hd|done].
Qed.

(** The code computes what the URI means. *)
Lemma secret_uri_meaning `{Suite} uri r : master_seed_from_secret_uri uri = r <-> uri_means uri r.
Proof.
  assert (forall phrase password, uri_parts uri phrase password ->
    master_seed_from_secret_uri uri = master_seed_from_phrase phrase password) as Hparts.
  { intros phrase password Hp%uri_parts_iff. unfold master_seed_from_secret_uri. change [SLASH; SLASH; SLASH] with PASSWORD_MARK.
    destruct (split_once PASSWORD_MARK uri) as [[a b]|]; destruct Hp as [-> ->]; done. }
  split.
  - intros <-.
    assert (exists phrase password, uri_parts uri phrase password) as (phrase & password & Hp).
    { setoid_rewrite uri_parts_iff. destruct (split_once PASSWORD_MARK uri) as [[a b]|]; eauto. }
    rewrite (Hparts _ _ Hp). unfold master_seed_from_phrase. cbn zeta.
    destruct (match strip_prefix _ _ with Some _ => _ | None => _ end) as [hex|] eqn:Hhex.
    + apply hex_prefixed_iff in Hhex. destruct (decode_seed_hex hex) as [seed|e|] eqn:Hd.
      * apply decode_seed_hex_iff in Hd. by eapply means_seed.
      * pose proof (decode_seed_hex_error _ _ Hd) as ->. eapply means_bad_hex; [done..|].
        intros seed Hs%decode_seed_hex_iff. congruence.
      * by apply decode_seed_hex_no_panic in Hd.
    + assert (forall body, ~ hex_prefixed (trim phrase) body) as Hno by (intros body Hb%hex_prefixed_iff; congruence).
      case_bool_decide as Hs; rewrite trim_slash in Hs; [by eapply means_path|by eapply means_mnemonic].
  - intros Hm. destruct Hm as [phrase password body seed Hp Hb Hs|phrase password body Hp Hb Hs|phrase password Hp Hb Hs|phrase password Hp Hb Hs];
      rewrite (Hparts _ _ Hp); unfold master_seed_from_phrase; cbn zeta.
    + apply hex_prefixed_iff in Hb as ->. by apply decode_seed_hex_iff.
    + apply hex_prefixed_iff in Hb as ->. destruct (decode_seed_hex body) as [seed|e|] eqn:Hd.
      * by apply decode_seed_hex_iff, Hs in Hd.
      * by rewrite (decode_seed_hex_error _ _ Hd).
      * by apply decode_seed_hex_no_panic in Hd.
    + destruct (match strip_prefix _ _ with Some _ => _ | None => _ end) as [hex|] eqn:Hhex;
        [by apply hex_prefixed_iff, Hb in Hhex|]. by rewrite bool_decide_true by (by apply trim_slash).
    + destruct (match strip_prefix _ _ with Some _ => _ | None => _ end) as [hex|] eqn:Hhex;
        [by apply hex_prefixed_iff, Hb in Hhex|]. by rewrite bool_decide_false by (by rewrite trim_slash).
Qed.
