(* ===== verification/Bindings.v ===== *)
(** * The Python and browser signers

    Models [crates/transaction-crypto-py/src/lib.rs] and
    [crates/transaction-crypto-wasm/src/lib.rs]: the bindings of the signing
    code for CPython, on bytes, and for the browser, on hex strings.  The [hex]
    crate is a parameter; error texts are kept as their parts. *)

From S2P Require Import Prelude TxCrypto.

Abbreviation bytes := (list Z) (only parsing).
Abbreviation str := (list Z) (only parsing).

(** [hex::encode] and [hex::decode]. *)
Class HexCrate := {
  hex_encode : bytes -> str;
  hex_decode : str -> option bytes
}.
Class HexCrateLaws `{HexCrate} := {
  hex_roundtrip : forall b, is_bytes b -> hex_decode (hex_encode b) = Some b;
  hex_decode_bytes : forall s b, hex_decode s = Some b -> is_bytes b
}.

(** Keys and digests consist of bytes. *)
Class SuiteBytes `{Suite} := {
  public_bytes : forall seed sk pk, keypair_from_seed seed = Some (sk, pk) -> is_bytes pk;
  digest_bytes : forall m, is_bytes (blake2b_32 m)
}.

(** ** The browser: hex strings *)

Inductive HexArgument := SeedArg | PublicArg | PayloadArg | EnvelopeArg | AccountIdArg.
Inductive JsError :=
  | MustBeHex (name : HexArgument)
  | InvalidSeedContext (e : HybridTxCryptoError)
  | InvalidMnemonicContext (e : HybridTxCryptoError)
  | SigningContext (e : HybridTxCryptoError)
  | InvalidEnvelopeContext (e : HybridTxCryptoError)
  | AccountIdMustBe32.
Abbreviation jsresult := (result JsError).

Section Wasm.
Context `{Suite, HexCrate}.

Definition strip_hex_prefix (value : str) : str :=
  match strip_prefix [ZERO; LOWER_X] value with
  | Some rest => rest
  | None => default value (strip_prefix [ZERO; UPPER_X] value)
  end.

Definition decode_hex (name : HexArgument) (value : str) : jsresult bytes :=
  ok_or (hex_decode (strip_hex_prefix value)) (MustBeHex name).

Definition encode_hex (b : bytes) : str := [ZERO; LOWER_X] ++ hex_encode b.

Definition public_from_seed_impl (seed_hex : str) : jsresult str :=
  seed <-? decode_hex SeedArg seed_hex;;
  public <-? rmap_err InvalidSeedContext (public_key_from_seed seed);;
  Ok (encode_hex public).

Definition account_id_from_public_impl (public_hex : str) : jsresult str :=
  public <-? decode_hex PublicArg public_hex;;
  Ok (encode_hex (account_id_from_public_bytes public)).

Definition seed_from_mnemonic_impl (secret_uri : str) : jsresult str :=
  seed <-? rmap_err InvalidMnemonicContext (master_seed_from_secret_uri secret_uri);;
  Ok (encode_hex seed).

Definition sign_payload_from_seed_impl (seed_hex payload_hex : str) : jsresult str :=
  seed <-? decode_hex SeedArg seed_hex;;
  payload <-? decode_hex PayloadArg payload_hex;;
  envelope <-? rmap_err SigningContext (sign_payload_from_seed seed payload);;
  Ok (encode_hex (encode_envelope envelope)).

(** [a == b && envelope.verify(..)]: verification only runs for the right
    account. *)
Definition account_and_verify (envelope : HybridTxSignatureBytes) (account_id payload : bytes) : hresult bool :=
  if bool_decide (derived_account_id envelope = account_id) then envelope_verify envelope payload else Ok false.

Definition verify_envelope_impl (payload_hex envelope_hex account_id_hex : str) : jsresult bool :=
  payload <-? decode_hex PayloadArg payload_hex;;
  envelope_bytes <-? decode_hex EnvelopeArg envelope_hex;;
  account_id <-? decode_hex AccountIdArg account_id_hex;;
  if negb (bool_decide (length account_id = ACCOUNT_ID_LEN)) then Err AccountIdMustBe32 else
  envelope <-? rmap_err InvalidEnvelopeContext (decode_envelope envelope_bytes);;
  rmap_err InvalidEnvelopeContext (account_and_verify envelope account_id payload).
End Wasm.

(** ** CPython: bytes *)

(** [QuipSignerError]: the core's errors, and the length check of its own. *)
Inductive QuipSignerError :=
  | Core (e : HybridTxCryptoError)
  | ExpectedPublicKey (actual : nat).
Abbreviation pyresult := (result QuipSignerError).

Section Python.
Context `{Suite}.

Definition py_public_from_seed (seed : bytes) : pyresult bytes := rmap_err Core (public_key_from_seed seed).

Definition py_account_id_from_public (public : bytes) : pyresult bytes :=
  if negb (bool_decide (length public = HYBRID_PUBLIC_LEN)) then Err (ExpectedPublicKey (length public))
  else Ok (account_id_from_public_bytes public).

Definition py_seed_from_mnemonic (secret_uri : str) : pyresult bytes := rmap_err Core (master_seed_from_secret_uri secret_uri).

Definition py_sign_payload_from_seed (seed payload : bytes) : pyresult bytes :=
  envelope <-? rmap_err Core (sign_payload_from_seed seed payload);;
  Ok (encode_envelope envelope).

Definition py_verify_envelope (payload envelope account_id : bytes) : pyresult bool :=
  envelope <-? rmap_err Core (decode_envelope envelope);;
  rmap_err Core (account_and_verify envelope account_id payload).

(** A signer bound to one seed; [from_seed] copies the seed into an array of 32
    bytes, which panics for another length. *)
Record HybridSigner := mkHybridSigner { signer_seed : bytes; signer_public : bytes }.

Definition from_seed (seed : bytes) : pyresult HybridSigner :=
  public <-? rmap_err Core (public_key_from_seed seed);;
  if negb (bool_decide (length seed = 32%nat)) then Panic else Ok (mkHybridSigner seed public).

Definition from_mnemonic (secret_uri : str) : pyresult HybridSigner :=
  seed <-? rmap_err Core (master_seed_from_secret_uri secret_uri);;
  from_seed seed.

Definition signer_account_id (s : HybridSigner) : bytes := account_id_from_public_bytes (signer_public s).

Definition signer_sign (s : HybridSigner) (payload : bytes) : pyresult bytes :=
  envelope <-? rmap_err Core (sign_payload_from_seed (signer_seed s) payload);;
  Ok (encode_envelope envelope).
End Python.

(** ** What they have in common *)

Section Laws.
Context `{Suite, !SuiteLaws, !SuiteBytes, HexCrate, !HexCrateLaws}.

Lemma decode_encode name b : is_bytes b -> decode_hex name (encode_hex b) = Ok b.
Proof.
  intros Hb. unfold decode_hex, encode_hex, strip_hex_prefix. rewrite (proj2 (strip_prefix_Some _ _ (hex_encode b)) eq_refl).
  by rewrite hex_roundtrip.
Qed.

Lemma decode_hex_total name value : decode_hex name value <> Panic.
Proof. unfold decode_hex. by destruct (hex_decode _). Qed.

Lemma decode_hex_Ok name value b : decode_hex name value = Ok b -> is_bytes b.
Proof. unfold decode_hex. destruct (hex_decode _) as [b'|] eqn:Hd; intros [= <-]. by eapply hex_decode_bytes. Qed.

(** A decoded envelope is verified without a panic. *)
Lemma account_and_verify_total input e account payload :
  is_bytes input -> decode_envelope input = Ok e -> account_and_verify e account payload <> Panic.
Proof.
  intros Hb (Hwf & rest & ->)%decode_envelope_spec; [|done]. unfold account_and_verify. case_bool_decide; [|done].
  destruct Hwf as (_ & Hs & n & Hc). rewrite (envelope_verify_spec e n); [done| |done|done].
  apply Forall_app in Hb as [Hb _]. by apply Forall_app in Hb as [_ Hb].
Qed.

Lemma public_key_total seed : public_key_from_seed seed <> Panic.
Proof. unfold public_key_from_seed, exact_array. case_decide; [|done]. cbn [rbind]. by destruct (keypair_from_seed _). Qed.

Lemma sign_total seed payload : sign_payload_from_seed seed payload <> Panic.
Proof.
  unfold sign_payload_from_seed, exact_array. case_decide; [|done]. cbn [rbind].
  destruct (keypair_from_seed seed) as [[sk pk]|]; [|done]. unfold sign_payload_with_arrays.
  destruct (sign_deterministic _ _ _) as [[n out]|] eqn:Hs; [|done]. cbn [ok_or rbind].
  destruct (sign_buffer _ _ _ _ _ Hs) as (Hl & Hb & _).
  assert (is_bytes out) as Hb' by (eapply Forall_impl; [exact Hb|]; unfold in_u; simpl; lia).
  destruct (padding_cases out Hb' Hl) as (d & _ & -> & _). cbn [rbind]. case_bool_decide; [|done]. by apply envelope_new_no_panic.
Qed.

(** What a seed signs is bytes. *)
Lemma signed_bytes seed payload e : sign_payload_from_seed seed payload = Ok e -> is_bytes (encode_envelope e).
Proof.
  intros Hs. pose proof Hs as (_ & Hb & Hp & _)%sign_payload_spec. apply Forall_app. split; [|exact Hb].
  unfold public_key_from_seed in Hp. apply rbind_Ok_inv in Hp as (sd & _ & Hp). apply rbind_Ok_inv in Hp as ([sk pk] & Hk & [= <-]).
  destruct (keypair_from_seed sd) as [k|] eqn:E; [|done]. injection Hk as ->. by eapply public_bytes.
Qed.

(** Signing and verifying with the account of the seed's key. *)
Lemma signed_verifies seed payload e :
  sign_payload_from_seed seed payload = Ok e ->
  decode_envelope (encode_envelope e) = Ok e /\ account_and_verify e (derived_account_id e) payload = Ok true.
Proof.
  intros Hs. pose proof (signed_bytes _ _ _ Hs) as Hb. apply sign_payload_spec in Hs as (Hwf & _ & _ & Hv). split.
  - apply decode_envelope_spec; [done|]. split; [done|]. exists []. by rewrite app_nil_r.
  - unfold account_and_verify. by rewrite bool_decide_true.
Qed.
End Laws.
