(* ===== verification/RuntimeParams.v ===== *)
(** * The runtime's constants

    The [parameter_types!] and constants of [runtime/src/lib.rs] and
    [runtime/src/configs] that the runtime's own code computes with, and the
    two networks' clocks ([network_params.rs] of [runtime] and
    [runtime-testnet], the only file in which the two runtimes differ apart
    from their version). *)

From S2P Require Import Prelude Frame.

(** ** The network's clock *)

Class NetworkParams := mkNetworkParams {
  EPOCH_DURATION_SLOTS : Z;
  MINIMUM_ELECTION_SLACK_BLOCKS : Z
}.

Definition mainnet_params : NetworkParams := mkNetworkParams 2400 1200.
Definition testnet_params : NetworkParams := mkNetworkParams 600 300.

Module Params.

(** *** Units and time *)

Definition MILLI_SECS_PER_BLOCK : Z := 6000.
Definition SLOT_DURATION : Z := MILLI_SECS_PER_BLOCK.
Definition MINUTES : Z := 60000 / MILLI_SECS_PER_BLOCK.
Definition HOURS : Z := MINUTES * 60.
Definition DAYS : Z := HOURS * 24.
Definition UNIT : Z := 1000000000000.
Definition MILLI_UNIT : Z := 1000000000.
Definition MICRO_UNIT : Z := 1000000.
Definition EXISTENTIAL_DEPOSIT : Z := MILLI_UNIT.
Definition EpochDuration `{NetworkParams} : Z := EPOCH_DURATION_SLOTS.

(** *** Staking and governance *)

Definition MaxAdmittedAuthorities : Z := 64.
Definition MaxValidatorSetCap : Z := 50.
Definition SessionsPerEra : Z := 6.
Definition BondingDuration : Z := 28.
Definition FoundationMotionDuration : Z := 24 * HOURS.

(** *** Elections *)

Definition Pages : Z := 1.
Definition PlanningSession : Z := 3.
Definition MinimumElectionSlack `{NetworkParams} : Z := MINIMUM_ELECTION_SLACK_BLOCKS.
Definition MaxNominators : Z := 1024.
Definition VoterSnapshotPerBlock : Z := 1100.
Definition TargetSnapshotPerBlock : Z := 64.
Definition MaxWinnersPerPage : Z := 50.
Definition MaxBackersPerWinner : Z := 64.
Definition MaxBackersPerWinnerFinal : Z := 64.
Definition SignedPhase : Z := 0.
Definition SignedValidationPhase : Z := 0.
Definition UnsignedPhase : Z := 300.
(** [MaxVotesPerVoter] of the election data *)
Definition MaxVotesPerVoter : Z := 16.

(** *** Slashing *)

Definition ReportLongevity `{NetworkParams} : Z := BondingDuration * SessionsPerEra * EpochDuration.
Definition SLASH_DEFER_ERAS : Z := 27.

(** The compile-time assertions of [slashing.rs] and [election.rs]: bonded
    funds outlast a deferred slash, and the voter snapshot has room for every
    admitted target next to the nominators of genesis. *)
Lemma slash_defer_within_bonding : SLASH_DEFER_ERAS < BondingDuration.
Proof. reflexivity. Qed.

Lemma snapshot_fits_admission :
  MaxAdmittedAuthorities <= TargetSnapshotPerBlock /\
  sat_u 32 (TargetSnapshotPerBlock + MaxNominators) <= VoterSnapshotPerBlock.
Proof. split; vm_compute; discriminate. Qed.

End Params.
