(* ===== verification/QuantumPow.v ===== *)
(** * The quantum proof-of-work pallet

    Models [pallets/quantum-pow/src/lib.rs], [types.rs] and [topology.rs]: the
    storage as one record, every call and hook as a function on it, and the
    proof validation pipeline.  A call returns the new state or an error; on an
    error FRAME rolls the storage back, so the caller keeps the old state.

    Outside this repository, hence parameters: the hash functions with the
    SCALE encodings fed to them, the pseudo random generator, [libm], the
    currency, and the wired [MiningReward]. *)

From S2P Require Import Prelude Validation PuzzleSpec Packed Float Energy Gse Diversity Ising SolutionReport Difficulty Frame.

(** ** Types *)

Record TopologyMeta := mkTopologyMeta {
  nodes : list Z;
  edges : list (Z * Z);
  allowed_h_values : AllowedValueSpec;
  allowed_j_values : AllowedValueSpec;
  allowed_spin_values : AllowedValueSpec;
  registered_at : BlockNumber
}.

Record QuantumProof := mkQuantumProof {
  proof_topology_hash : H256;
  nonce : Z;
  salt : list Z;
  solutions : list (list Z);
  proof_device_access_time_us : Z
}.

Record MinerInfo := mkMinerInfo {
  miner_registered_at : BlockNumber;
  deposit : Balance;
  proofs_submitted : Z;
  proofs_won : Z;
  rewards_earned : Balance
}.
#[export] Instance MinerInfo_expansion : Expansion MinerInfo := fun r =>
  mkMinerInfo (miner_registered_at r) (deposit r) (proofs_submitted r) (proofs_won r) (rewards_earned r).

Record ProofRecord := mkProofRecord {
  record_miner : AccountId;
  record_submitted_at : BlockNumber;
  record_energy_milli : Z;
  record_salt : list Z;
  record_topology_hash : H256;
  record_device_access_time_us : Z
}.

Record ProofValidation := mkProofValidation {
  best_energy_milli : Z;
  diversity_milli : Z;
  valid_solution_count : Z
}.

Record QBlock := mkQBlock {
  qb_miner : AccountId;
  qb_salt : list Z;
  qb_energy_milli : Z;
  qb_reward : Balance;
  qb_submitted_at : BlockNumber;
  qb_difficulty : DifficultyConfig;
  qb_last_proof_block_hash : H256;
  qb_topology_hash : H256;
  qb_device_access_time_us : Z
}.

Record MiningSnapshot := mkMiningSnapshot {
  snap_last_proof_block_hash : H256;
  snap_difficulty : DifficultyConfig;
  snap_topology_hash : H256;
  snap_nodes : list Z;
  snap_edges : list (Z * Z);
  snap_allowed_h_values : AllowedValueSpec;
  snap_allowed_j_values : AllowedValueSpec;
  snap_allowed_spin_values : AllowedValueSpec
}.

(** [enum Error] *)
Inductive PowError :=
  | MinerAlreadyRegistered | BlockRewardOutOfBounds | TargetProofBlocksOutOfBounds
  | MinerNotRegistered | TopologyAlreadyRegistered | TopologyNotRegistered | InvalidCurve
  | GraphTooSmall | InvalidTopology | ProofLimitReached | InvalidNonce | NoSolutionsSubmitted
  | InvalidSpinValues | PowSolutionLengthMismatch | InsufficientEnergy | InsufficientDiversity
  | InsufficientSolutions | PowArithmeticOverflow | PowEmptyAllowedValues | PowEncodingTooWide
  | PowPackedSolutionLengthMismatch | InvalidEncodedSpin | PackedSolutionTooLarge
  | TopologyNotMineable | TopologyIsDefault | MineableTopologyConflict | InvalidDiversityConfig.

(** [enum Event] *)
Inductive PowEvent :=
  | MinerRegistered (who : AccountId) (amount : Balance)
  | MinerDeregistered (who : AccountId)
  | TopologyRegistered (topology_hash : H256) (node_count edge_count : Z)
  | BlockRewardChanged (old new : Balance)
  | TargetProofBlocksChanged (old new : Z)
  | DifficultyUpdated (topology_hash : H256) (difficulty : DifficultyConfig)
  | DefaultTopologySet (topology_hash : H256)
  | TopologyCurveSet (topology_hash : H256)
  | TopologyMineableAdded (topology_hash : H256)
  | TopologyMineableRemoved (topology_hash : H256)
  | ProofAccepted (miner : AccountId) (energy diversity valid_count : Z)
  | BlockWinner (qblock_id : Z) (number : BlockNumber) (miner : AccountId) (reward : Balance)
      (energy : Z) (submitted_at : BlockNumber).

Abbreviation presult := (result (DispatchError PowError)).

(** [trait Config] *)
Record PowConfig := mkPowConfig {
  MaxNodes : Z;
  MaxAllowedValues : Z;
  MinNodes : Z;
  EpochLength : BlockNumber;
  MinerDeposit : Balance;
  BlockReward : Balance;
  MinBlockReward : Balance;
  MaxBlockReward : Balance;
  AdminOrigin : Origin -> bool;
  TargetProofBlocks : Z;
  MinTargetProofBlocks : Z;
  MaxTargetProofBlocks : Z;
  MaxProofsPerBlock : Z;
  CurveCEasyMilli : Z;
  CurveCKneeMilli : Z;
  CurveCHardMilli : Z
}.

(** Hashes of SCALE encodings: [blake2_256] of bytes and of an encoded account,
    the topology digest of [hash_topology], and the encoded
    [(parent_hash, miner, n)] that seeds the adjustment. *)
Class PowPrims := {
  blake2_256 : list Z -> list Z;
  account_digest : AccountId -> list Z;
  topology_digest : list Z -> list (Z * Z) -> list Z -> list Z -> list Z -> list Z;
  finalize_seed : list Z -> AccountId -> BlockNumber -> list Z
}.

(** ** [topology.rs] *)

Definition orient (e : Z * Z) : Z * Z := if e.1 <=? e.2 then e else (e.2, e.1).

(** The lexicographic order [sort_unstable] uses on pairs. *)
Definition pair_le (a b : Z * Z) : Prop := a.1 < b.1 \/ a.1 = b.1 /\ a.2 <= b.2.
#[global] Instance pair_le_dec : RelDecision pair_le.
Proof. intros a b. unfold pair_le. apply _. Defined.

Definition canonical_edges (edges : list (Z * Z)) : list (Z * Z) :=
  merge_sort pair_le (orient <$> edges).

Definition hash_topology `{PowPrims} (nodes : list Z) (edges : list (Z * Z))
    (allowed_h allowed_j allowed_spin : AllowedValueSpec) : H256 :=
  from_be_bytes (topology_digest (sort_values nodes) (canonical_edges edges)
    (canonical_bytes allowed_h) (canonical_bytes allowed_j) (canonical_bytes allowed_spin)).

Section Pow.
Context `{UsizeWidth, DifficultyPrims, PowPrims} {R : Type} `{IsingPrims R}.
Context {W : Type} `{Currency W, MiningReward W}.
Context (cfg : PowConfig).

(** ** Storage, with the frame-system values the pallet reads *)

Record PowState := mkPowState {
  RegisteredTopologies : gmap H256 TopologyMeta;
  DefaultTopology : option H256;
  Difficulties : gmap H256 DifficultyConfig;
  TopologyCurveC : gmap H256 CurveC;
  MineableTopologies : gset H256;
  Miners : gmap AccountId MinerInfo;
  BlockBestProof : option ProofRecord;
  LastProofBlock : BlockNumber;
  LastProofBlockHash : H256;
  BlockProofCount : Z;
  QBlocks : gmap BlockNumber QBlock;
  QBlockCount : Z;
  QBlockBlockById : gmap Z BlockNumber;
  QBlockIdByBlock : gmap BlockNumber Z;
  BlockRewardOverride : option Balance;
  TargetProofBlocksOverride : option Z;
  block_number : BlockNumber;
  parent_hash : list Z;
  world : W;
  events : list PowEvent
}.
#[export] Instance PowState_expansion : Expansion PowState := fun r =>
  mkPowState (RegisteredTopologies r) (DefaultTopology r) (Difficulties r) (TopologyCurveC r)
    (MineableTopologies r) (Miners r) (BlockBestProof r) (LastProofBlock r) (LastProofBlockHash r)
    (BlockProofCount r) (QBlocks r) (QBlockCount r) (QBlockBlockById r) (QBlockIdByBlock r)
    (BlockRewardOverride r) (TargetProofBlocksOverride r) (block_number r) (parent_hash r)
    (world r) (events r).

Implicit Types s : PowState.

Definition deposit_event (e : PowEvent) s : PowState := s <| events $= (.++ [e]) |>.

(** ** Getters *)

Definition block_reward s : Balance := default (BlockReward cfg) (BlockRewardOverride s).

Definition target_proof_blocks s : Z :=
  default (TargetProofBlocks cfg) (TargetProofBlocksOverride s).

Definition energy_curve_for (topology_hash : H256) s : option EnergyCurve :=
  topology ← RegisteredTopologies s !! topology_hash;
  let curve_c := default
    (mkCurveC (CurveCEasyMilli cfg) (CurveCKneeMilli cfg) (CurveCHardMilli cfg))
    (TopologyCurveC s !! topology_hash) in
  rok (EnergyCurve_new (zlen (nodes topology)) (zlen (edges topology)) curve_c
    (allowed_h_values topology) (allowed_j_values topology)).

Definition current_difficulty_for (topology_hash : H256) (number : BlockNumber) s
    : DifficultyConfig :=
  current_difficulty number
    (default difficulty_default (Difficulties s !! topology_hash))
    (LastProofBlock s) (EpochLength cfg) (energy_curve_for topology_hash s)
    (target_proof_blocks s).

Definition latest_qblock_id s : option Z :=
  if 0 <? QBlockCount s then Some (QBlockCount s) else None.

Definition default_topology_meta s : option (H256 * TopologyMeta) :=
  topology_hash ← DefaultTopology s;
  topology ← RegisteredTopologies s !! topology_hash;
  Some (topology_hash, topology).

Definition mining_snapshot (topology_hash : option H256) s : option MiningSnapshot :=
  ht ← match topology_hash with
       | Some hash => topology ← RegisteredTopologies s !! hash; Some (hash, topology)
       | None => default_topology_meta s
       end;
  let '(topology_hash, topology) := ht in
  Some (mkMiningSnapshot (LastProofBlockHash s)
    (current_difficulty_for topology_hash (block_number s) s) topology_hash
    (nodes topology) (edges topology)
    (allowed_h_values topology) (allowed_j_values topology) (allowed_spin_values topology)).

Definition difficulty_for_api (topology_hash : H256) s : option DifficultyConfig :=
  if bool_decide (is_Some (RegisteredTopologies s !! topology_hash))
  then Some (current_difficulty_for topology_hash (block_number s) s) else None.

Definition account_to_bytes (account : AccountId) : list Z := account_digest account.

(** [qblock_with_nonce]: the stored block and its re-derived nonce. *)
Definition qblock_with_nonce (number : BlockNumber) s : option (QBlock * Z) :=
  solution ← QBlocks s !! number;
  Some (solution, derive_nonce (h256_bytes (qb_last_proof_block_hash solution))
    (account_to_bytes (qb_miner solution)) (qb_salt solution)).

Definition qblock_with_nonce_by_id (qblock_id : Z) s : option (QBlock * Z) :=
  number ← QBlockBlockById s !! qblock_id;
  qblock_with_nonce number s.

Definition hash_to_bytes_32 (encoded : list Z) : list Z :=
  if (length encoded =? 32)%nat then encoded else blake2_256 encoded.

Definition next_qblock_id s : PowState * Z :=
  let count := u64_add (QBlockCount s) 1 in
  (s <| QBlockCount := count |>, count).

(** ** Hooks *)

(** [on_initialize(n)] *)
Definition on_initialize (n : BlockNumber) s : PowState :=
  let s := s <| BlockProofCount := 0 |> in
  if (n =? 1) || ((1 <? n) && (bn_add (LastProofBlock s) 1 =? n)) then
    s <| LastProofBlockHash := from_be_bytes (hash_to_bytes_32 (parent_hash s)) |>
  else s.

(** [on_finalize(n)] *)
Definition on_finalize (n : BlockNumber) s : PowState :=
  match BlockBestProof s with
  | None => s
  | Some record =>
      let s := s <| BlockBestProof := None |> in
      let '(w, reward) := pay (world s) (record_miner record) (block_reward s) in
      let s := s <| world := w |> in
      let s := match Miners s !! record_miner record with
        | Some miner =>
            let miner := miner <| proofs_won := u32_add (proofs_won miner) 1 |>
                               <| rewards_earned := u128_add (rewards_earned miner) reward |> in
            s <| Miners $= <[record_miner record := miner]> |>
        | None => s
        end in
      let previous_proof_block := LastProofBlock s in
      let last_proof_block_hash := LastProofBlockHash s in
      let mining_time_blocks :=
        if (previous_proof_block =? 0) || (n <=? previous_proof_block) then EpochLength cfg
        else n - previous_proof_block in
      let topology_hash := record_topology_hash record in
      let active := current_difficulty_for topology_hash n s in
      let next := match energy_curve_for topology_hash s with
        | Some curve =>
            adjust_on_proof active (record_energy_milli record) mining_time_blocks curve
              (finalize_seed (parent_hash s) (record_miner record) n) (target_proof_blocks s)
        | None => active
        end in
      let s := s <| Difficulties $= <[topology_hash := next]> |> in
      let s := s <| LastProofBlock := n |> in
      let '(s, qblock_id) := next_qblock_id s in
      let s := s <| QBlocks $= <[n := mkQBlock (record_miner record) (record_salt record)
        (record_energy_milli record) reward (record_submitted_at record) active
        last_proof_block_hash topology_hash (record_device_access_time_us record)]> |> in
      let s := s <| QBlockBlockById $= <[qblock_id := n]> |> in
      let s := s <| QBlockIdByBlock $= <[n := qblock_id]> |> in
      let s := deposit_event (DifficultyUpdated topology_hash next) s in
      deposit_event (BlockWinner qblock_id n (record_miner record) reward
        (record_energy_milli record) (record_submitted_at record)) s
  end.

(** ** Calls *)

Definition register_miner (origin : Origin) s : presult PowState :=
  who <-? ensure_signed origin;;
  require (bool_decide (Miners s !! who = None)) MinerAlreadyRegistered;;?
  let amount := MinerDeposit cfg in
  w <-? ok_or (reserve (world s) who amount) CurrencyError;;
  let s := s <| world := w |> in
  let s := s <| Miners $= <[who := mkMinerInfo (block_number s) amount 0 0 0]> |> in
  Ok (deposit_event (MinerRegistered who amount) s).

Definition deregister_miner (origin : Origin) s : presult PowState :=
  who <-? ensure_signed origin;;
  miner <-? some_or (Miners s !! who) MinerNotRegistered;;
  let s := s <| world := (unreserve (world s) who (deposit miner)).1 |> in
  let s := s <| Miners $= delete who |> in
  Ok (deposit_event (MinerDeregistered who) s).

Definition check_spec (spec : AllowedValueSpec) : presult unit :=
  match bits_per_value spec with
  | Ok _ => Ok tt
  | Err EmptyAllowedValues => Err (Module PowEmptyAllowedValues)
  | Err (EncodingTooWide _) => Err (Module PowEncodingTooWide)
  | Err _ => Err (Module InvalidTopology)
  | Panic => Panic
  end.

Definition canonicalize_spec (spec : AllowedValueSpec) : presult AllowedValueSpec :=
  match spec with
  | SetSpec values =>
      let sorted := sort_values values in
      if zlen sorted <=? MaxAllowedValues cfg then Ok (SetSpec sorted)
      else Err (Module InvalidTopology)
  | other => Ok other
  end.

Definition register_topology (origin : Origin) (ns : list Z) (es : list (Z * Z))
    (spec_h spec_j spec_spin : AllowedValueSpec) s : presult PowState :=
  ensure_root origin;;?
  require (MinNodes cfg <=? zlen ns) GraphTooSmall;;?
  check_spec spec_h;;?
  check_spec spec_j;;?
  check_spec spec_spin;;?
  spec_h <-? canonicalize_spec spec_h;;
  spec_j <-? canonicalize_spec spec_j;;
  spec_spin <-? canonicalize_spec spec_spin;;
  packed_bytes <-? rmap_err (fun _ => Module InvalidTopology)
    (packed_solution_byte_len (zlen ns) spec_spin);;
  require (packed_bytes <=? MaxNodes cfg) PackedSolutionTooLarge;;?
  require (bool_decide (validate_topology_consistency ns es
    (replicate (length ns) 0) (replicate (length es) 0) None None = [])) InvalidTopology;;?
  let topology_hash := hash_topology ns es spec_h spec_j spec_spin in
  require (bool_decide (RegisteredTopologies s !! topology_hash = None)) TopologyAlreadyRegistered;;?
  let meta := mkTopologyMeta ns es spec_h spec_j spec_spin (block_number s) in
  let s := s <| RegisteredTopologies $= <[topology_hash := meta]> |> in
  let s := match DefaultTopology s with
    | None => s <| DefaultTopology := Some topology_hash |>
                <| MineableTopologies $= ({[topology_hash]} ∪.) |>
    | Some _ => s
    end in
  Ok (deposit_event (TopologyRegistered topology_hash (zlen ns) (zlen es)) s).

Definition is_registered (topology_hash : H256) s : bool :=
  bool_decide (is_Some (RegisteredTopologies s !! topology_hash)).
Definition is_mineable (topology_hash : H256) s : bool :=
  bool_decide (topology_hash ∈ MineableTopologies s).

Definition set_default_topology (origin : Origin) (topology_hash : H256) s : presult PowState :=
  ensure_root origin;;?
  require (is_registered topology_hash s) TopologyNotRegistered;;?
  require (is_mineable topology_hash s) TopologyNotMineable;;?
  let s := s <| DefaultTopology := Some topology_hash |> in
  Ok (deposit_event (DefaultTopologySet topology_hash) s).

Definition set_difficulty (origin : Origin) (topology_hash : H256) (difficulty : DifficultyConfig) s
    : presult PowState :=
  ensure_root origin;;?
  require (is_registered topology_hash s) TopologyNotRegistered;;?
  require ((min_diversity_milli difficulty =? 0) || (2 <=? min_solutions difficulty))
    InvalidDiversityConfig;;?
  let s := s <| Difficulties $= <[topology_hash := difficulty]> |> in
  Ok (deposit_event (DifficultyUpdated topology_hash difficulty) s).

Definition set_topology_curve (origin : Origin) (topology_hash : H256) (curve_c : CurveC) s
    : presult PowState :=
  ensure_root origin;;?
  topology <-? some_or (RegisteredTopologies s !! topology_hash) TopologyNotRegistered;;
  require ((easy_milli curve_c <? knee_milli_c curve_c) && (knee_milli_c curve_c <? hard_milli curve_c))
    InvalidCurve;;?
  curve <-? rmap_err (fun _ => Module InvalidCurve)
    (EnergyCurve_new (zlen (nodes topology)) (zlen (edges topology)) curve_c
      (allowed_h_values topology) (allowed_j_values topology));;
  require ((min_milli curve <? knee_milli curve) && (knee_milli curve <? max_milli curve))
    InvalidCurve;;?
  let s := s <| TopologyCurveC $= <[topology_hash := curve_c]> |> in
  Ok (deposit_event (TopologyCurveSet topology_hash) s).

Definition set_block_reward (origin : Origin) (amount : Balance) s : presult PowState :=
  ensure_origin (AdminOrigin cfg) origin;;?
  require ((MinBlockReward cfg <=? amount) && (amount <=? MaxBlockReward cfg))
    BlockRewardOutOfBounds;;?
  let old := block_reward s in
  let s := s <| BlockRewardOverride := Some amount |> in
  Ok (deposit_event (BlockRewardChanged old amount) s).

Definition set_target_proof_blocks (origin : Origin) (blocks : Z) s : presult PowState :=
  ensure_origin (AdminOrigin cfg) origin;;?
  require ((MinTargetProofBlocks cfg <=? blocks) && (blocks <=? MaxTargetProofBlocks cfg))
    TargetProofBlocksOutOfBounds;;?
  let old := target_proof_blocks s in
  let s := s <| TargetProofBlocksOverride := Some blocks |> in
  Ok (deposit_event (TargetProofBlocksChanged old blocks) s).

Definition add_mineable_topology (origin : Origin) (topology_hash : H256) s : presult PowState :=
  ensure_root origin;;?
  require (is_registered topology_hash s) TopologyNotRegistered;;?
  if is_mineable topology_hash s then Ok s else
  let default := DefaultTopology s in
  let has_other_non_default :=
    bool_decide (set_Exists (fun h => Some h <> default) (MineableTopologies s)) in
  (if bool_decide (Some topology_hash <> default)
   then require (negb has_other_non_default) MineableTopologyConflict else Ok tt);;?
  let s := s <| MineableTopologies $= ({[topology_hash]} ∪.) |> in
  Ok (deposit_event (TopologyMineableAdded topology_hash) s).

Definition remove_mineable_topology (origin : Origin) (topology_hash : H256) s : presult PowState :=
  ensure_root origin;;?
  require (bool_decide (DefaultTopology s <> Some topology_hash)) TopologyIsDefault;;?
  if is_mineable topology_hash s then
    let s := s <| MineableTopologies $= (.∖ {[topology_hash]}) |> in
    Ok (deposit_event (TopologyMineableRemoved topology_hash) s)
  else Ok s.

(** ** Proof validation *)

Definition map_unpack_error (e : ValidationError) : DispatchError PowError :=
  match e with
  | PackedSolutionLengthMismatch _ _ => Module PowPackedSolutionLengthMismatch
  | InvalidEncodedValue _ => Module InvalidEncodedSpin
  | _ => Module InvalidTopology
  end.

Definition map_energy_error (e : ValidationError) : DispatchError PowError :=
  match e with
  | SolutionLengthMismatch _ _ => Module PowSolutionLengthMismatch
  | InvalidSpinValue _ _ => Module InvalidSpinValues
  | _ => Module InvalidTopology
  end.

(** [iter().min()] of a non-empty list. *)
Definition list_min (l : list Z) : option Z :=
  match l with [] => None | x :: l => Some (foldr Z.min x l) end.

(** Unpack one submitted payload and collapse it to signs. *)
Definition decode_solution (num_spins : Z) (spin_spec : AllowedValueSpec) (packed : list Z)
    : presult (list Z) :=
  milli <-? rmap_err map_unpack_error (unpack_solution packed num_spins spin_spec);;
  rmap_err (fun _ => Module InvalidSpinValues) (spin_signs milli).

Definition validate_proof (proof : QuantumProof) (topology : TopologyMeta)
    (topology_index : TopologyIndex.t) (h j : list Z) (difficulty : DifficultyConfig)
    : presult ProofValidation :=
  let spin_spec := allowed_spin_values topology in
  let num_spins := zlen (nodes topology) in
  decoded <-? rmapM (decode_solution num_spins spin_spec) (solutions proof);;
  energies <-? rmapM (fun spins => rmap_err map_energy_error
    (energy_of_solution_indexed spins h (edges topology) j topology_index)) decoded;;
  let energy_valid :=
    filter (fun se => se.2 < max_energy_milli difficulty) (zip decoded energies) in
  require (negb (bool_decide (energy_valid = []))) InsufficientEnergy;;?
  best <-? some_or (list_min (snd <$> energy_valid)) InsufficientEnergy;;
  let energy_valid_solutions := fst <$> energy_valid in
  let target_count :=
    Nat.min (length energy_valid_solutions) (Z.to_nat (Z.max (min_solutions difficulty) 1)) in
  selected_indices <-? rmap_err (fun _ => Module InvalidSpinValues)
    (select_diverse energy_valid_solutions target_count);;
  selected_solutions <-? rmapM (fun i => or_panic (energy_valid_solutions !! i)) selected_indices;;
  diversity <-? rmap_err (fun _ => Module InvalidSpinValues)
    (calculate_diversity selected_solutions);;
  Ok (mkProofValidation best diversity (zlen energy_valid_solutions)).

(** The part of [submit_proof] that reads storage: every check a proof has to
    pass, and its validation result. *)
Definition check_proof (who : AccountId) (proof : QuantumProof) s : presult ProofValidation :=
  require (bool_decide (is_Some (Miners s !! who))) MinerNotRegistered;;?
  require (BlockProofCount s <? MaxProofsPerBlock cfg) ProofLimitReached;;?
  require (negb (bool_decide (solutions proof = []))) NoSolutionsSubmitted;;?
  topology <-? some_or (RegisteredTopologies s !! proof_topology_hash proof) TopologyNotRegistered;;
  require (is_mineable (proof_topology_hash proof) s) TopologyNotMineable;;?
  require (MinNodes cfg <=? zlen (nodes topology)) GraphTooSmall;;?
  let expected_nonce := derive_nonce (h256_bytes (LastProofBlockHash s))
    (account_to_bytes who) (salt proof) in
  require (nonce proof =? expected_nonce) InvalidNonce;;?
  topology_index <-? rmap_err (fun _ => Module InvalidTopology)
    (TopologyIndex.new (nodes topology) (edges topology));;
  hj <-? rmap_err (fun _ => Module InvalidTopology)
    (generate_ising_model_indexed (nonce proof) (nodes topology) (edges topology)
      (allowed_h_values topology) (allowed_j_values topology) topology_index);;
  let current := current_difficulty_for (proof_topology_hash proof) (block_number s) s in
  validation <-? validate_proof proof topology topology_index hj.1 hj.2 current;;
  require (best_energy_milli validation <? max_energy_milli current) InsufficientEnergy;;?
  require (min_solutions current <=? valid_solution_count validation) InsufficientSolutions;;?
  require (min_diversity_milli current <=? diversity_milli validation) InsufficientDiversity;;?
  Ok validation.

(** The storage writes of an accepted proof. *)
Definition accept_proof (who : AccountId) (proof : QuantumProof) (validation : ProofValidation) s
    : presult PowState :=
  miner <-? some_or (Miners s !! who) MinerNotRegistered;;
  let miner := miner <| proofs_submitted := u32_add (proofs_submitted miner) 1 |> in
  let s := s <| Miners $= <[who := miner]> |> in
  let record := mkProofRecord who (block_number s) (best_energy_milli validation) (salt proof)
    (proof_topology_hash proof) (proof_device_access_time_us proof) in
  let should_replace := match BlockBestProof s with
    | Some existing => record_energy_milli record <? record_energy_milli existing
    | None => true
    end in
  let s := if should_replace then s <| BlockBestProof := Some record |> else s in
  let s := s <| BlockProofCount := u32_add (BlockProofCount s) 1 |> in
  Ok (deposit_event (ProofAccepted who (best_energy_milli validation) (diversity_milli validation)
    (valid_solution_count validation)) s).

Definition submit_proof (origin : Origin) (proof : QuantumProof) s : presult PowState :=
  who <-? ensure_signed origin;;
  validation <-? check_proof who proof s;;
  accept_proof who proof validation s.

End Pow.
