(* ===== verification/QuantumPowProps.v ===== *)
(** * Properties of the proof-of-work pallet

    Calls and hooks assembled into blocks, the pallet's invariants and their
    preservation. *)

From S2P Require Import Prelude Validation PuzzleSpec Packed Float Energy Gse Diversity Ising SolutionReport Difficulty Frame QuantumPow.

(** ** Canonical topology hash *)

Section Hash.
Context `{PowPrims}.

#[local] Instance pair_le_total : Total pair_le.
Proof. intros [a b] [c d]. unfold pair_le. simpl. lia. Qed.
#[local] Instance pair_le_trans : Transitive pair_le.
Proof. intros [a b] [c d] [e f]. unfold pair_le. simpl. lia. Qed.
#[local] Instance pair_le_antisymm : AntiSymm (=) pair_le.
Proof. intros [a b] [c d]. unfold pair_le. simpl. intros. f_equal; lia. Qed.

(** Edge lists that agree up to order and orientation. *)
Definition edges_equiv (es fs : list (Z * Z)) : Prop := orient <$> es ≡ₚ orient <$> fs.

Lemma canonical_edges_equiv es fs : edges_equiv es fs -> canonical_edges es = canonical_edges fs.
Proof.
  intros Heq. unfold canonical_edges. apply (StronglySorted_unique pair_le).
  1-2: apply Sorted_StronglySorted; [apply _|]; apply Sorted_merge_sort; apply _.
  by rewrite !merge_sort_Permutation.
Qed.

(** Reordering nodes, edges, edge endpoints or the members of a value set does
    not change a topology's hash. *)
Lemma hash_topology_canonical ns ms es fs h h' j j' sp sp' :
  ns ≡ₚ ms -> edges_equiv es fs ->
  spec_typed h -> spec_typed h' -> spec_equiv h h' ->
  spec_typed j -> spec_typed j' -> spec_equiv j j' ->
  spec_typed sp -> spec_typed sp' -> spec_equiv sp sp' ->
  hash_topology ns es h j sp = hash_topology ms fs h' j' sp'.
Proof.
  intros Hn He Hh Hh' Hhe Hj Hj' Hje Hs Hs' Hse. unfold hash_topology.
  rewrite (proj1 (sort_values_equiv ns ms) Hn), (canonical_edges_equiv es fs He).
  rewrite (proj2 (canonical_bytes_iff h h' Hh Hh') Hhe), (proj2 (canonical_bytes_iff j j' Hj Hj') Hje).
  by rewrite (proj2 (canonical_bytes_iff sp sp' Hs Hs') Hse).
Qed.
End Hash.

Section Props.
Context `{UsizeWidth, DifficultyPrims, PowPrims} {R : Type} `{IsingPrims R}.
Context {W : Type} `{Currency W, MiningReward W}.
Context (cfg : PowConfig).
#[local] Abbreviation state := (@PowState W).
Implicit Types s : state.

(** ** Calls as data *)

Inductive call :=
  | RegisterMiner
  | DeregisterMiner
  | RegisterTopology (ns : list Z) (es : list (Z * Z)) (h j spin : AllowedValueSpec)
  | SetDefaultTopology (hash : Z)
  | SetDifficulty (hash : Z) (difficulty : DifficultyConfig)
  | SetTopologyCurve (hash : Z) (curve : CurveC)
  | SetBlockReward (amount : Z)
  | SetTargetProofBlocks (blocks : Z)
  | SubmitProof (proof : QuantumProof)
  | AddMineableTopology (hash : Z)
  | RemoveMineableTopology (hash : Z).

Definition dispatch (o : Origin) (c : call) s : presult state :=
  match c with
  | RegisterMiner => register_miner cfg o s
  | DeregisterMiner => deregister_miner o s
  | RegisterTopology ns es h j spin => register_topology cfg o ns es h j spin s
  | SetDefaultTopology hash => set_default_topology o hash s
  | SetDifficulty hash difficulty => set_difficulty o hash difficulty s
  | SetTopologyCurve hash curve => set_topology_curve o hash curve s
  | SetBlockReward amount => set_block_reward cfg o amount s
  | SetTargetProofBlocks blocks => set_target_proof_blocks cfg o blocks s
  | SubmitProof proof => submit_proof cfg o proof s
  | AddMineableTopology hash => add_mineable_topology o hash s
  | RemoveMineableTopology hash => remove_mineable_topology o hash s
  end.

(** The values the Rust types of the arguments allow: 32-bit value sets, and
    node and solution lists of a bounded length. *)
Definition call_typed (c : call) : Prop :=
  match c with
  | RegisterTopology ns _ h j spin =>
      zlen ns * 32 + 7 < 2 ^ usize_bits /\ spec_typed h /\ spec_typed j /\ spec_typed spin
  | SubmitProof proof => zlen (solutions proof) < 2 ^ 31
  | _ => True
  end.

(** A failed call is rolled back. *)
Definition apply_call (o : Origin) (c : call) s : state :=
  match dispatch o c s with Ok s' => s' | _ => s end.

(** Unfold the handler a hypothesis is about, and open it. *)
Ltac open_call H :=
  unfold dispatch, register_miner, deregister_miner, register_topology, set_default_topology,
    set_difficulty, set_topology_curve, set_block_reward, set_target_proof_blocks, submit_proof,
    accept_proof, add_mineable_topology, remove_mineable_topology in H.

(** ** The topology whitelist *)

(** Every mineable topology is registered, the default is mineable, and at
    most one other topology is. *)
Record topology_inv s : Prop := {
  ti_mineable_registered : forall h, h ∈ MineableTopologies s -> is_Some (RegisteredTopologies s !! h);
  ti_default_mineable : forall h, DefaultTopology s = Some h -> h ∈ MineableTopologies s;
  ti_no_default : DefaultTopology s = None -> RegisteredTopologies s = ∅;
  ti_single_other : forall a b, a ∈ MineableTopologies s -> b ∈ MineableTopologies s ->
    Some a <> DefaultTopology s -> Some b <> DefaultTopology s -> a = b
}.

Lemma topology_inv_no_mineable s : topology_inv s -> DefaultTopology s = None -> MineableTopologies s = ∅.
Proof.
  intros [Hmr _ Hnd _] Hd. apply set_eq. intros h. split; [|set_solver]. intros [m Hm]%Hmr.
  by rewrite (Hnd Hd), lookup_empty in Hm.
Qed.

Lemma topology_inv_ext s s' :
  topology_inv s -> RegisteredTopologies s' = RegisteredTopologies s ->
  DefaultTopology s' = DefaultTopology s -> MineableTopologies s' = MineableTopologies s ->
  topology_inv s'.
Proof. intros [H1' H2' H3' H4'] Hr Hd Hm. split; rewrite ?Hr, ?Hd, ?Hm; done. Qed.

Lemma register_topology_inv o ns es h j sp s s' :
  topology_inv s -> register_topology cfg o ns es h j sp s = Ok s' -> topology_inv s'.
Proof.
  intros Hinv Hok. pose proof (topology_inv_no_mineable s Hinv) as Hnm.
  destruct Hinv as [Hmr Hdm Hnd Hso]. open_call Hok. hinv. set (th := hash_topology _ _ _ _ _) in *.
  destruct (DefaultTopology s) as [d|] eqn:Hd; split; simpl; rewrite ?Hd; try done.
  - intros x Hx. apply lookup_insert_is_Some'. right. by apply Hmr.
  - intros x Hx. apply lookup_insert_is_Some'. rewrite Hnm in Hx by done. left. set_solver.
  - intros x [= <-]. set_solver.
  - intros x y. rewrite Hnm by done. set_solver.
Qed.

Lemma add_mineable_inv o h s s' :
  topology_inv s -> add_mineable_topology o h s = Ok s' -> topology_inv s'.
Proof.
  intros Hinv Hok. pose proof Hinv as [Hmr Hdm Hnd Hso]. open_call Hok. hinv.
  unfold is_registered, is_mineable in *. case_bool_decide as Hmine; [by hinv|]. bool_to_prop.
  case_bool_decide as Hdef; hinv; split; simpl; try set_solver.
Qed.

Lemma set_default_inv o h s s' :
  topology_inv s -> set_default_topology o h s = Ok s' -> topology_inv s'.
Proof.
  intros [Hmr Hdm Hnd Hso] Hok. open_call Hok. hinv. unfold is_registered, is_mineable in *.
  bool_to_prop. split; simpl; try done.
  - by intros x [= <-].
  - intros x y Hx Hy Hxh Hyh.
    destruct (DefaultTopology s) as [d|] eqn:Hd; [|rewrite Hnd, lookup_empty in Hm0 by done; by destruct Hm0].
    destruct (decide (h = d)) as [->|Hhd]; [apply Hso; congruence|].
    assert (forall z, z ∈ MineableTopologies s -> Some z <> Some h -> z = d) as Hall; [|by rewrite (Hall x), (Hall y)].
    intros z Hz Hzh. destruct (decide (z = d)) as [|Hzd]; [done|]. exfalso.
    apply Hzh. f_equal. apply Hso; congruence.
Qed.

Lemma remove_mineable_inv o h s s' :
  topology_inv s -> remove_mineable_topology o h s = Ok s' -> topology_inv s'.
Proof.
  intros Hinv Hok. pose proof Hinv as [Hmr Hdm Hnd Hso]. open_call Hok. hinv.
  unfold is_mineable in *. case_bool_decide as Hmine; hinv; [|done]. split; simpl; try set_solver.
Qed.

(** The three whitelist fields do not change under the other calls. *)
Lemma dispatch_topology_inv o c s s' : topology_inv s -> dispatch o c s = Ok s' -> topology_inv s'.
Proof.
  intros Hinv Hok. destruct c;
    [ | |by eapply register_topology_inv|by eapply set_default_inv| | | | |
      |by eapply add_mineable_inv|by eapply remove_mineable_inv];
    open_call Hok; hinv; try (by eapply topology_inv_ext; [exact Hinv|..]).
  eapply topology_inv_ext; [exact Hinv|..]; simpl; by case_match.
Qed.

Lemma on_initialize_topology_inv n s : topology_inv s -> topology_inv (on_initialize n s).
Proof.
  intros Hinv. unfold on_initialize. case_match; (eapply topology_inv_ext; [exact Hinv|..]); done.
Qed.

Lemma on_finalize_topology_inv n s : topology_inv s -> topology_inv (on_finalize cfg n s).
Proof.
  intros Hinv. unfold on_finalize. destruct (BlockBestProof s) as [r|]; [|done].
  destruct (pay _ _ _) as [w reward]. unfold next_qblock_id.
  (eapply topology_inv_ext; [exact Hinv|..]); simpl; by case_match.
Qed.
(** ** Blocks *)

(** What a call never touches: the round's anchor and the qblock index. *)
Definition round_fields s :=
  (LastProofBlock s, LastProofBlockHash s, QBlocks s, QBlockCount s,
   QBlockBlockById s, QBlockIdByBlock s, block_number s, parent_hash s).

Lemma dispatch_round_fields o c s s' : dispatch o c s = Ok s' -> round_fields s' = round_fields s.
Proof.
  intros Hok. destruct c; open_call Hok; hinv; try done; unfold round_fields; simpl; repeat case_match; by hinv.
Qed.

(** The record of a proof that was validated. *)
Definition record_of (who : AccountId) (proof : QuantumProof) (v : ProofValidation) s : ProofRecord :=
  mkProofRecord who (block_number s) (best_energy_milli v) (salt proof) (proof_topology_hash proof)
    (proof_device_access_time_us proof).

(** The records a call adds to the block's accepted proofs. *)
Definition accepted_by (o : Origin) (c : call) s : list ProofRecord :=
  match c, o with
  | SubmitProof proof, Signed who =>
      match check_proof cfg who proof s with Ok v => [record_of who proof v s] | _ => [] end
  | _, _ => []
  end.

(** A chain: the pallet state, whether a block is being executed, the header
    hashes of the sealed blocks, and the proofs accepted in this block. *)
Record chain := mkChain {
  st : state;
  executing : bool;
  hashes : gmap Z (list Z);
  accepted : list ProofRecord
}.

(** What the pallet has reserved of an account. *)
Definition deposited (who : Z) s : Z := default 0 (deposit <$> Miners s !! who).

(** Blocks alternate: start (hooks of the new block, with the previous
    header's hash as parent), any number of calls, then [on_finalize].  In
    between, the rest of the runtime moves balances, leaving the miners'
    deposits reserved, and clears the log. *)
Inductive step : chain -> chain -> Prop :=
  | step_start s hs acc header :
      length header = 32%nat -> block_number s + 1 < 2 ^ 32 ->
      step (mkChain s false hs acc)
           (mkChain (on_initialize (block_number s + 1)
                       (s <| block_number := block_number s + 1 |> <| parent_hash := header |>))
                    true (<[block_number s := header]> hs) [])
  | step_call s hs acc o c :
      call_typed c ->
      step (mkChain s true hs acc) (mkChain (apply_call o c s) true hs (acc ++ accepted_by o c s))
  | step_finalize s hs acc :
      step (mkChain s true hs acc) (mkChain (on_finalize cfg (block_number s) s) false hs acc)
  | step_runtime s ex hs acc w evs :
      (forall who, deposited who s <= reserved_balance w who) ->
      step (mkChain s ex hs acc) (mkChain (s <| world := w |> <| events := evs |>) ex hs acc).

(** A genesis state: nothing mined yet. *)
Record genesis s : Prop := {
  gen_block : block_number s = 0;
  gen_last : LastProofBlock s = 0;
  gen_best : BlockBestProof s = None;
  gen_count : QBlockCount s = 0;
  gen_maps : QBlocks s = ∅ /\ QBlockBlockById s = ∅ /\ QBlockIdByBlock s = ∅
}.

Inductive reachable : chain -> Prop :=
  | reach_genesis s : genesis s -> reachable (mkChain s false ∅ [])
  | reach_step x y : reachable x -> step x y -> reachable y.

Lemma apply_call_round_fields o c s : round_fields (apply_call o c s) = round_fields s.
Proof.
  unfold apply_call. destruct (dispatch o c s) eqn:Hok; [|done|done]. by apply dispatch_round_fields in Hok.
Qed.

(** The calls of a block, in order. *)
Definition apply_calls (calls : list (Origin * call)) s : state :=
  foldl (fun s oc => apply_call oc.1 oc.2 s) s calls.

Lemma apply_calls_round_fields calls s : round_fields (apply_calls calls s) = round_fields s.
Proof.
  revert s. induction calls as [|[o c] calls IH]; intros s; [done|]. simpl. unfold apply_calls in *. simpl.
  by rewrite IH, apply_call_round_fields.
Qed.

Lemma on_finalize_block n s : block_number (on_finalize cfg n s) = block_number s.
Proof.
  unfold on_finalize. destruct (BlockBestProof s); [|done]. destruct (pay _ _ _) as [w rw].
  unfold next_qblock_id. simpl. by case_match.
Qed.

Lemma on_finalize_hash n s : LastProofBlockHash (on_finalize cfg n s) = LastProofBlockHash s.
Proof.
  unfold on_finalize. destruct (BlockBestProof s); [|done]. destruct (pay _ _ _) as [w rw].
  unfold next_qblock_id. simpl. by case_match.
Qed.

Lemma on_finalize_last n s :
  LastProofBlock (on_finalize cfg n s) =
  match BlockBestProof s with Some _ => n | None => LastProofBlock s end.
Proof.
  unfold on_finalize. destruct (BlockBestProof s); [|done]. destruct (pay _ _ _) as [w rw]. done.
Qed.

Lemma step_topology_inv x y : topology_inv (st x) -> step x y -> topology_inv (st y).
Proof.
  intros Hinv Hstep. destruct Hstep as [s hs acc header _ _|s hs acc o c _|s hs acc|s ex hs acc w evs Hrely]; simpl in *.
  - apply on_initialize_topology_inv. by (eapply topology_inv_ext; [exact Hinv|..]).
  - unfold apply_call. destruct (dispatch o c s) eqn:Hok; [|done|done]. by eapply dispatch_topology_inv.
  - by apply on_finalize_topology_inv.
  - by (eapply topology_inv_ext; [exact Hinv|..]).
Qed.

(** ** The nonce seed *)

(** While a block executes, the cached seed is the header hash of the last
    winning block (the genesis header before any win). *)
Definition seed_inv (x : chain) : Prop :=
  let s := st x in
  0 <= LastProofBlock s <= block_number s /\ block_number s < 2 ^ 32 /\
  (executing x = true -> LastProofBlock s < block_number s) /\
  (LastProofBlock s < block_number s ->
     exists header, hashes x !! LastProofBlock s = Some header /\
       LastProofBlockHash s = from_be_bytes header).

Lemma seed_inv_step x y : seed_inv x -> step x y -> seed_inv y.
Proof.
  intros Hinv Hstep. destruct Hstep as [s hs acc header Hlen Hmax|s hs acc o c Hty|s hs acc|s ex hs acc w evs Hrely];
    destruct Hinv as (Hlast & Hbn & Hex & Hseed); unfold seed_inv; cbn [st executing hashes] in *.
  - set (n := block_number s) in *. unfold on_initialize. simpl.
    assert (bn_add (LastProofBlock s) 1 = LastProofBlock s + 1) as Hadd.
    { unfold bn_add. rewrite sat_u_small; [done|]. unfold in_u. lia. }
    rewrite Hadd. unfold hash_to_bytes_32. rewrite Hlen. simpl.
    destruct ((n + 1 =? 1) || ((1 <? n + 1) && (LastProofBlock s + 1 =? n + 1))) eqn:Hc; simpl.
    + assert (LastProofBlock s = n) as Hln.
      { apply orb_true_iff in Hc as [Hc|Hc]; bool_to_prop; lia. }
      split_and!; try lia. intros _. exists header. rewrite Hln, lookup_insert_eq. done.
    + apply orb_false_iff in Hc as [Hc1 Hc]. apply andb_false_iff in Hc as [Hc|Hc]; bool_to_prop; [lia|].
      split_and!; try lia. intros _. destruct Hseed as (hd & Hhd & Heq); [lia|].
      exists hd. rewrite lookup_insert_ne by lia. done.
  - pose proof (apply_call_round_fields o c s) as Hrf. unfold round_fields in Hrf. simplify_eq.
    repeat match goal with Heq : _ (apply_call _ _ _) = _ |- _ => rewrite Heq; clear Heq end. done.
  - rewrite on_finalize_block, on_finalize_hash, on_finalize_last. specialize (Hex eq_refl).
    destruct (BlockBestProof s); split_and!; try lia; auto.
  - done.
Qed.

Lemma reachable_seed_inv x : reachable x -> seed_inv x.
Proof.
  induction 1 as [s Hg|x y _ IH Hstep]; [|by eapply seed_inv_step].
  destruct Hg as [Hb Hl _ _ _]. unfold seed_inv. simpl. rewrite Hb, Hl. split_and!; lia || done.
Qed.

(** ** The qblock index *)

(** The ids [1..QBlockCount] are assigned to the won blocks in block order,
    both maps are inverse to each other and cover exactly the stored qblocks. *)
Record index_inv s : Prop := {
  ii_count : 0 <= QBlockCount s <= LastProofBlock s;
  ii_ids : forall id, is_Some (QBlockBlockById s !! id) <-> 1 <= id <= QBlockCount s;
  ii_inverse : forall id n, QBlockBlockById s !! id = Some n <-> QBlockIdByBlock s !! n = Some id;
  ii_blocks : forall n, is_Some (QBlocks s !! n) <-> is_Some (QBlockIdByBlock s !! n);
  ii_past : forall n, is_Some (QBlockIdByBlock s !! n) -> n <= LastProofBlock s;
  ii_increasing : forall i j n m, QBlockBlockById s !! i = Some n -> QBlockBlockById s !! j = Some m ->
    i < j -> n < m
}.

Lemma index_inv_fields s s' :
  index_inv s -> LastProofBlock s' = LastProofBlock s -> QBlocks s' = QBlocks s ->
  QBlockCount s' = QBlockCount s -> QBlockBlockById s' = QBlockBlockById s ->
  QBlockIdByBlock s' = QBlockIdByBlock s -> index_inv s'.
Proof.
  intros [A1 A2 A3 A4 A5 A6] E1 E2 E3 E4 E5. split; rewrite ?E1, ?E2, ?E3, ?E4, ?E5; done.
Qed.

Lemma on_finalize_index_inv n s :
  index_inv s -> LastProofBlock s < n < 2 ^ 32 -> index_inv (on_finalize cfg n s).
Proof.
  intros Hinv Hn. unfold on_finalize. destruct (BlockBestProof s) as [r|]; [|done].
  destruct (pay _ _ _) as [w rw]. destruct Hinv as [Hc Hids Hinv Hbl Hpast Hmono].
  unfold next_qblock_id.
  match goal with |- index_inv (deposit_event _ (deposit_event _ ?s')) =>
    assert (QBlockCount s' = QBlockCount s + 1 /\ LastProofBlock s' = n /\
      (exists q, QBlocks s' = <[n := q]> (QBlocks s)) /\
      QBlockBlockById s' = <[QBlockCount s + 1 := n]> (QBlockBlockById s) /\
      QBlockIdByBlock s' = <[n := QBlockCount s + 1]> (QBlockIdByBlock s)) as (E1 & E2 & [q E3] & E4 & E5) end.
  { assert (u64_add (QBlockCount s) 1 = QBlockCount s + 1) as Hadd.
    { unfold u64_add. rewrite sat_u_small; [done|]. unfold in_u. lia. }
    destruct (Miners _ !! record_miner r); simpl; rewrite Hadd; split_and!; try done; eauto. }
  match goal with |- index_inv (deposit_event _ (deposit_event _ ?s')) => generalize dependent s' end.
  intros s' E1 E2 E3 E4 E5.
  assert (QBlockIdByBlock s !! n = None) as Hfresh.
  { apply eq_None_not_Some. intros Hsome%Hpast. lia. }
  assert (QBlockBlockById s !! (QBlockCount s + 1) = None) as Hfresh'.
  { apply eq_None_not_Some. intros Hsome%Hids. lia. }
  split; simpl; rewrite ?E1, ?E2, ?E3, ?E4, ?E5.
  - lia.
  - intros id. rewrite lookup_insert_is_Some'. rewrite Hids. lia.
  - intros id m. rewrite !lookup_insert_Some. rewrite Hinv.
    destruct (decide (id = QBlockCount s + 1)) as [->|], (decide (m = n)) as [->|]; naive_solver.
  - intros m. rewrite !lookup_insert_is_Some', Hbl. done.
  - intros m. rewrite lookup_insert_is_Some'. intros [->|Hm%Hpast]; lia.
  - intros i j a b. rewrite !lookup_insert_Some. intros [[<- <-]|[Hi Ha]] [[<- <-]|[Hj Hb]] Hij; [lia| | |by eapply Hmono].
    + assert (1 <= j <= QBlockCount s) by (apply Hids; eauto). lia.
    + apply Hinv in Ha. assert (a <= LastProofBlock s) by (apply Hpast; eauto). lia.
Qed.

Lemma reachable_index_inv x : reachable x -> index_inv (st x).
Proof.
  induction 1 as [s Hg|x y Hx IH Hstep].
  - destruct Hg as [Hb Hl _ Hc (E1 & E2 & E3)]. simpl. split; rewrite ?Hl, ?Hc, ?E1, ?E2, ?E3.
    + lia.
    + intros id. rewrite lookup_empty. split; [by intros [??]|lia].
    + intros id n. by rewrite !lookup_empty.
    + intros n. rewrite !lookup_empty. split; by intros [??].
    + intros n. rewrite lookup_empty. by intros [??].
    + intros i j n m. by rewrite lookup_empty.
  - pose proof (reachable_seed_inv x Hx) as (Hlast & Hbn & Hex & _).
    destruct Hstep as [s hs acc header Hlen Hmax|s hs acc o c Hty|s hs acc|s ex hs acc w evs Hrely]; cbn [st executing] in *.
    + unfold on_initialize. case_match; (eapply index_inv_fields; [exact IH|..]); done.
    + pose proof (apply_call_round_fields o c s) as Hrf. unfold round_fields in Hrf.
      (eapply index_inv_fields; [exact IH|..]); congruence.
    + apply on_finalize_index_inv; [done|]. specialize (Hex eq_refl). lia.
    + (eapply index_inv_fields; [exact IH|..]); done.
Qed.

(** ** What an accepted proof is *)

(** A payload decodes to the configuration [spins] of the topology, whose
    Ising energy under the fields [h] and couplings [j] is [e]. *)
Definition scores (topology : TopologyMeta) (h j : list Z) (packed : list Z) (se : list Z * Z) : Prop :=
  decode_solution (zlen (nodes topology)) (allowed_spin_values topology) packed = Ok se.1 /\
  well_shaped (nodes topology) se.1 h (edges topology) j /\
  se.2 = ising_energy (nodes topology) se.1 h (edges topology) j.

(** The configurations that beat a threshold. *)
Definition beating (d : DifficultyConfig) (scored : list (list Z * Z)) : list (list Z) :=
  (filter (fun se => se.2 < max_energy_milli d) scored).*1.

(** The verdict on a set of scored configurations: the least energy beats the
    threshold, the count is that of the configurations that do, and the
    diversity is that of a team of distinct ones among them. *)
Definition verdict (d : DifficultyConfig) (scored : list (list Z * Z)) (v : ProofValidation) : Prop :=
  best_energy_milli v ∈ scored.*2 /\ Forall (fun e => best_energy_milli v <= e) scored.*2 /\
  best_energy_milli v < max_energy_milli d /\
  valid_solution_count v = zlen (beating d scored) /\
  exists sel team, NoDup sel /\ Forall2 (fun i spins => beating d scored !! i = Some spins) sel team /\
    length team = Nat.min (length (beating d scored)) (Z.to_nat (Z.max (min_solutions d) 1)) /\
    calculate_diversity team = Ok (diversity_milli v).

#[local] Lemma list_min_Some l m : list_min l = Some m -> m ∈ l /\ Forall (fun x => m <= x) l.
Proof.
  destruct l as [|x l]; simpl; [done|]. intros [= <-]. revert x. induction l as [|y l IH]; intros x; simpl.
  { split; [set_solver|]. repeat constructor. lia. }
  destruct (IH x) as [Hin Hall]. apply Forall_cons in Hall as [Hx Hall].
  split; [destruct (Z.min_spec y (foldr Z.min x l)) as [[_ ->]|[_ ->]]; set_solver|].
  repeat constructor; [lia|lia|]. eapply Forall_impl; [exact Hall|]. simpl. lia.
Qed.

#[local] Lemma scored_pairs topology h j idx payloads decoded energies :
  TopologyIndex.new (nodes topology) (edges topology) = Ok idx ->
  Forall2 (fun packed spins => decode_solution (zlen (nodes topology)) (allowed_spin_values topology) packed = Ok spins)
    payloads decoded ->
  Forall2 (fun spins e => rmap_err map_energy_error
    (energy_of_solution_indexed spins h (edges topology) j idx) = Ok e) decoded energies ->
  Forall2 (scores topology h j) payloads (zip decoded energies).
Proof.
  intros Hidx Hm. revert energies. induction Hm as [|packed spins ps ds Hd _ IH]; intros es He;
    apply Forall2_cons_inv_l in He as (e & es' & He & Hes & ->) || apply Forall2_nil_inv_l in He as ->;
    constructor; [|by apply IH].
  rinv. rewrite (energy_indexed_agrees _ _ _ _ _ _ Hidx) in Hr.
  by apply energy_of_solution_sound in Hr as (? & -> & _).
Qed.

(** The configurations the diversity check looks at all have one spin per
    node. *)
#[local] Lemma beating_solution_set d topology h j payloads scored :
  Forall2 (scores topology h j) payloads scored -> solution_set (zlen (nodes topology)) (beating d scored).
Proof.
  intros Hs. apply Forall_fmap, Forall_forall. intros se [_ [i Hi]%list_elem_of_lookup]%list_elem_of_filter.
  eapply Forall2_lookup_r in Hs as (p & _ & _ & [] & _); [|exact Hi]. split; [unfold zlen; lia|done].
Qed.

#[local] Lemma rmapM_or_panic {E A} (l : list A) sel out :
  rmapM (fun i => @or_panic E A (l !! i)) sel = Ok out -> Forall2 (fun i x => l !! i = Some x) sel out.
Proof.
  intros Hm%rmapM_Ok_inv. eapply Forall2_impl; [exact Hm|]. intros i x Hx. cbn beta in Hx. destruct (l !! i); [|done]. by injection Hx as ->.
Qed.

Lemma validate_proof_Ok proof topology idx h j d v :
  TopologyIndex.new (nodes topology) (edges topology) = Ok idx ->
  validate_proof proof topology idx h j d = Ok v ->
  exists scored, Forall2 (scores topology h j) (solutions proof) scored /\ verdict d scored v.
Proof.
  intros Hidx Hok. unfold validate_proof in Hok. hinv.
  rename a into decoded, a0 into energies. apply rmapM_Ok_inv in Hm, Hm0.
  assert (length decoded = length energies) as Hl by (by eapply Forall2_length).
  pose proof (scored_pairs _ _ _ _ _ _ _ Hidx Hm Hm0) as Hs. exists (zip decoded energies). split; [done|].
  pose proof (beating_solution_set d _ _ _ _ _ Hs) as Hset.
  match goal with Hs : select_diverse _ _ = Ok _ |- _ => rename Hs into Hsel end.
  match goal with Hs : rmapM _ _ = Ok _ |- _ => apply rmapM_or_panic in Hs; rename Hs into Hteam end.
  fold (beating d (zip decoded energies)) in *.
  destruct (select_diverse_total _ _ (Nat.min (length (beating d (zip decoded energies)))
    (Z.to_nat (Z.max (min_solutions d) 1))) Hset) as (sel & Hsel' & Hnd & _ & Hlen).
  rewrite Hsel in Hsel'. injection Hsel' as <-. pose proof (Forall2_length _ _ _ Hteam).
  apply list_min_Some in Hm2 as [Hin Hall]. unfold verdict. cbn [best_energy_milli valid_solution_count diversity_milli].
  apply list_elem_of_fmap in Hin as (se & -> & [Hlt Hin]%list_elem_of_filter). split_and!; [by apply list_elem_of_fmap_2| |done|done|].
  - apply Forall_fmap, Forall_forall. intros se' Hin'. rewrite Forall_fmap, Forall_forall in Hall. simpl.
    destruct (decide (se'.2 < max_energy_milli d)); [|lia]. apply Hall, list_elem_of_filter. done.
  - do 2 eexists. split_and!; [done..|lia|done].
Qed.

(** Every check an accepted proof went through, against the state it was
    submitted to. *)
Lemma submit_proof_sound o proof s s' :
  submit_proof cfg o proof s = Ok s' ->
  exists who topology h j scored v,
    o = Signed who /\ is_Some (Miners s !! who) /\
    RegisteredTopologies s !! proof_topology_hash proof = Some topology /\
    proof_topology_hash proof ∈ MineableTopologies s /\
    nonce proof = derive_nonce (h256_bytes (LastProofBlockHash s)) (account_to_bytes who) (salt proof) /\
    generate_ising_model (nonce proof) (nodes topology) (edges topology)
      (allowed_h_values topology) (allowed_j_values topology) = Ok (h, j) /\
    Forall2 (scores topology h j) (solutions proof) scored /\
    let d := current_difficulty_for cfg (proof_topology_hash proof) (block_number s) s in
    verdict d scored v /\
    min_solutions d <= valid_solution_count v /\ min_diversity_milli d <= diversity_milli v /\
    accept_proof who proof v s = Ok s'.
Proof.
  unfold submit_proof, check_proof. intros Hok.
  apply rbind_Ok_inv in Hok as (who & Ho & Hok). apply rbind_Ok_inv in Hok as (v & Hc & Hacc).
  hinv. unfold is_mineable in *. bool_to_prop.
  match goal with Hv : validate_proof _ _ _ _ _ _ = Ok _, Hi : TopologyIndex.new _ _ = Ok _ |- _ =>
    destruct (validate_proof_Ok _ _ _ _ _ _ _ Hi Hv) as (scored & Hs & Hv') end.
  match goal with Hg : generate_ising_model_indexed _ _ _ _ _ _ = Ok ?p |- _ => destruct p as [h j] end.
  do 2 eexists. exists h, j, scored, v. split_and!; try done.
  by erewrite <- generate_ising_model_indexed_agrees.
Qed.

(** ** The best proof of a block *)

(** [r] has the least energy of the list, and comes before any other record
    with that energy. *)
Definition first_best (r : ProofRecord) (l : list ProofRecord) : Prop :=
  exists l1 l2, l = l1 ++ r :: l2 /\
    Forall (fun x => record_energy_milli r < record_energy_milli x) l1 /\
    Forall (fun x => record_energy_milli r <= record_energy_milli x) l2.

Lemma first_best_better r l n :
  first_best r l -> record_energy_milli n < record_energy_milli r -> first_best n (l ++ [n]).
Proof.
  intros (l1 & l2 & -> & H1' & H2') Hlt. exists (l1 ++ r :: l2), []. split_and!; [done| |constructor].
  rewrite Forall_app, Forall_cons. split_and!; [|done|].
  1,2: eapply Forall_impl; [eassumption|]; simpl; lia.
Qed.

Lemma first_best_worse r l n :
  first_best r l -> record_energy_milli r <= record_energy_milli n -> first_best r (l ++ [n]).
Proof.
  intros (l1 & l2 & -> & H1' & H2') Hle. exists l1, (l2 ++ [n]).
  split_and!; [by rewrite <- app_assoc|done|]. apply Forall_app. split; [done|]. by constructor.
Qed.

(** The record kept during a block is the first proof of minimal energy; it is
    gone when the block is sealed, and the counter equals the proofs accepted. *)
Definition best_inv (x : chain) : Prop :=
  if executing x then
    BlockProofCount (st x) = zlen (accepted x) /\ zlen (accepted x) <= Z.max 0 (MaxProofsPerBlock cfg) /\
    match BlockBestProof (st x) with
    | None => accepted x = []
    | Some r => first_best r (accepted x)
    end
  else BlockBestProof (st x) = None.

Lemma dispatch_other_best o c s s' :
  (forall proof, c <> SubmitProof proof) -> dispatch o c s = Ok s' ->
  BlockBestProof s' = BlockBestProof s /\ BlockProofCount s' = BlockProofCount s.
Proof.
  intros Hc Hok. destruct c; try (by destruct (Hc proof)); open_call Hok; hinv; try done;
    simpl; repeat case_match; by hinv.
Qed.

Lemma accept_proof_best who proof v s s' :
  accept_proof who proof v s = Ok s' ->
  BlockProofCount s' = u32_add (BlockProofCount s) 1 /\
  match BlockBestProof s with
  | Some r => if best_energy_milli v <? record_energy_milli r
              then BlockBestProof s' = Some (record_of who proof v s)
              else BlockBestProof s' = Some r
  | None => BlockBestProof s' = Some (record_of who proof v s)
  end.
Proof.
  unfold accept_proof. intros Hok. hinv. simpl.
  destruct (BlockBestProof s) as [r|] eqn:Hb; simpl; [|done].
  destruct (best_energy_milli v <? record_energy_milli r); done.
Qed.

(** A passed check is always followed by the writes. *)
Lemma check_accept who proof s v :
  check_proof cfg who proof s = Ok v -> exists s', accept_proof who proof v s = Ok s'.
Proof.
  intros Hc. unfold check_proof in Hc. hinv. unfold accept_proof.
  match goal with Hs : is_Some _ |- _ => destruct Hs as [m Hm'] end. rewrite Hm'. simpl. eauto.
Qed.

Lemma check_proof_limit who proof s v :
  check_proof cfg who proof s = Ok v -> BlockProofCount s < MaxProofsPerBlock cfg.
Proof. intros Hc. unfold check_proof in Hc. hinv. done. Qed.

#[local] Lemma best_inv_call s hs acc o c :
  MaxProofsPerBlock cfg < 2 ^ 32 ->
  best_inv (mkChain s true hs acc) ->
  best_inv (mkChain (apply_call o c s) true hs (acc ++ accepted_by o c s)).
Proof.
  intros Hmax Hinv. assert ((exists proof, c = SubmitProof proof) \/ forall proof, c <> SubmitProof proof)
    as [[proof ->]|Hother] by (destruct c; eauto).
  2: { assert (accepted_by o c s = []) as -> by (destruct c; try done; naive_solver).
       rewrite app_nil_r. unfold apply_call. destruct (dispatch o c s) eqn:Hok; [|done|done].
       apply dispatch_other_best in Hok as [E1 E2]; [|naive_solver].
       unfold best_inv in *. simpl in *. by rewrite E1, E2. }
  unfold apply_call. simpl. unfold submit_proof.
  destruct o as [|who| |]; simpl; rewrite ?app_nil_r; try done.
  destruct (check_proof cfg who proof s) as [v|e|] eqn:Hc; simpl; rewrite ?app_nil_r; try done.
  pose proof (check_proof_limit _ _ _ _ Hc) as Hlim.
  destruct (check_accept _ _ _ _ Hc) as [s' Ha]. rewrite Ha. apply accept_proof_best in Ha as [E1 E2].
  unfold best_inv in *. simpl in *. destruct Hinv as (Hcount & Hle & Hbest).
  rewrite E1, Hcount, zlen_app. pose proof (zlen_nonneg acc).
  split_and!; [unfold u32_add; rewrite sat_u_small by (unfold in_u; lia); done|unfold zlen at 2; simpl; lia|].
  destruct (BlockBestProof s) as [r|]; [|rewrite E2; subst acc; by exists [], []].
  destruct (best_energy_milli v <? record_energy_milli r) eqn:Hlt; rewrite E2; bool_to_prop;
    [by eapply first_best_better|by apply first_best_worse].
Qed.

Lemma on_finalize_best n s : BlockBestProof (on_finalize cfg n s) = None.
Proof.
  unfold on_finalize. destruct (BlockBestProof s) eqn:Hb; [|done]. destruct (pay _ _ _) as [w rw].
  unfold next_qblock_id. simpl. by case_match.
Qed.

Lemma reachable_best_inv x : MaxProofsPerBlock cfg < 2 ^ 32 -> reachable x -> best_inv x.
Proof.
  intros Hmax. induction 1 as [s Hg|x y Hx IH Hstep].
  { unfold best_inv. simpl. by destruct Hg. }
  destruct Hstep as [s hs acc header Hlen Hn|s hs acc o c Hty|s hs acc|s ex hs acc w evs Hrely].
  - unfold best_inv in *. simpl in *. unfold on_initialize. unfold zlen. simpl.
    case_match; simpl; rewrite IH; split_and!; done || lia.
  - by apply best_inv_call.
  - unfold best_inv. simpl. apply on_finalize_best.
  - exact IH.
Qed.

(** ** Settling a block *)

(** Settling touches only the winner's difficulty: that topology's threshold
    moves from the active one towards the winning energy without passing it,
    every other entry keeps its value, and the record becomes the block's
    qblock. *)
Lemma on_finalize_settles n s r :
  BlockBestProof s = Some r ->
  let h := record_topology_hash r in
  let active := current_difficulty_for cfg h n s in
  let s' := on_finalize cfg n s in
  (forall h', h' <> h -> Difficulties s' !! h' = Difficulties s !! h') /\
  (exists next, Difficulties s' !! h = Some next /\
     min_solutions next = min_solutions active /\
     min_diversity_milli next = min_diversity_milli active /\
     (in_s 64 (max_energy_milli active) -> in_s 64 (record_energy_milli r) ->
      record_energy_milli r < max_energy_milli active -> is_Some (energy_curve_for cfg h s) ->
      record_energy_milli r <= max_energy_milli next < max_energy_milli active)) /\
  LastProofBlock s' = n /\
  QBlocks s' !! n = Some (mkQBlock (record_miner r) (record_salt r) (record_energy_milli r)
    (pay (world s) (record_miner r) (block_reward cfg s)).2 (record_submitted_at r) active
    (LastProofBlockHash s) h (record_device_access_time_us r)) /\
  (forall m, m <> n -> QBlocks s' !! m = QBlocks s !! m).
Proof.
  intros Hb h active s'. unfold s', on_finalize. rewrite Hb. cbn [world BlockBestProof].
  assert (forall w, block_reward cfg (s <| BlockBestProof := None |> <| world := w |>) = block_reward cfg s) as Hbr by done.
  simpl. destruct (pay (world s) (record_miner r) (block_reward cfg s)) as [w rw] eqn:Hpay.
  change (block_reward cfg (s <| BlockBestProof := None |>)) with (block_reward cfg s). rewrite Hpay.
  set (s1 := match Miners _ !! record_miner r with Some _ => _ | None => _ end).
  assert (current_difficulty_for cfg h n s1 = active /\ energy_curve_for cfg h s1 = energy_curve_for cfg h s /\
    Difficulties s1 = Difficulties s /\ QBlocks s1 = QBlocks s /\ LastProofBlockHash s1 = LastProofBlockHash s)
    as (E1 & E2 & E3 & E4 & E5).
  { unfold s1, active. by destruct (Miners _ !! record_miner r). }
  unfold next_qblock_id. simpl. fold h. rewrite E1, E2, E3, E4, E5. split_and!.
  - intros h' Hne. by rewrite lookup_insert_ne.
  - rewrite lookup_insert_eq. eexists; split; [done|].
    destruct (energy_curve_for cfg h s) as [curve|] eqn:Hcurve.
    + assert (forall e bl seed tg, min_solutions (adjust_on_proof active e bl curve seed tg) = min_solutions active /\
        min_diversity_milli (adjust_on_proof active e bl curve seed tg) = min_diversity_milli active) as Hkeep.
      { intros. unfold adjust_on_proof. by case_match. }
      split; [apply Hkeep|]. split; [apply Hkeep|]. intros Ha Hw Hlt _.
      edestruct (adjust_on_proof_step active (record_energy_milli r)) as (A1 & _ & A3 & _); [done..|].
      split; [apply A1|]. unfold MIN_ENERGY_DELTA_MILLI in A3. lia.
    + split_and!; done.
  - done.
  - by rewrite lookup_insert_eq.
  - intros m Hne. by rewrite lookup_insert_ne.
Qed.

(** ** Re-deriving the winning nonce *)

(** A proof that is still the block's best after the remaining calls of the
    block and is settled with it can be looked up afterwards with the nonce it
    was mined with. *)
Lemma winning_nonce o proof s s1 calls r n :
  let s2 := apply_calls calls s1 in
  submit_proof cfg o proof s = Ok s1 -> BlockBestProof s2 = Some r ->
  o = Signed (record_miner r) -> record_salt r = salt proof ->
  exists q, qblock_with_nonce n (on_finalize cfg n s2) = Some (q, nonce proof) /\
    qb_salt q = salt proof /\ Signed (qb_miner q) = o.
Proof.
  intros s2 Hok Hbest Hwho Hsalt.
  pose proof (on_finalize_settles n s2 r Hbest) as (_ & _ & _ & Hq & _).
  pose proof (dispatch_round_fields o (SubmitProof proof) s s1 Hok) as Hrf.
  pose proof (apply_calls_round_fields calls s1) as Hrf2. fold s2 in Hrf2. unfold round_fields in *.
  apply submit_proof_sound in Hok as (who & topology & h & j & scored & v & -> & _ & _ & _ & Hnonce & _).
  unfold qblock_with_nonce. rewrite Hq. simpl.
  injection Hwho as ->. rewrite Hnonce, Hsalt.
  assert (LastProofBlockHash s2 = LastProofBlockHash s) as -> by congruence.
  eexists. split; [reflexivity|]. done.
Qed.
(** ** Registered topologies are well formed, and proofs never panic *)

Record topology_wf (t : TopologyMeta) : Prop := {
  wf_nodes : nodes t <> [] /\ NoDup (nodes t);
  wf_edges : TopologyIndex.edges_known (nodes t) (edges t);
  wf_size : zlen (nodes t) * 32 + 7 < 2 ^ usize_bits;
  wf_h : spec_typed (allowed_h_values t) /\ exists b, bits_per_value (allowed_h_values t) = Ok b;
  wf_j : spec_typed (allowed_j_values t) /\ exists b, bits_per_value (allowed_j_values t) = Ok b;
  wf_spin : spec_typed (allowed_spin_values t) /\ exists b, bits_per_value (allowed_spin_values t) = Ok b
}.

#[local] Lemma check_canonicalize spec spec' :
  spec_typed spec -> check_spec spec = Ok tt -> canonicalize_spec cfg spec = Ok spec' ->
  spec_typed spec' /\ exists b, bits_per_value spec' = Ok b.
Proof.
  intros Ht Hc Hcan. unfold check_spec in Hc.
  destruct (bits_per_value spec) as [b|[]|] eqn:Hb; try done. clear Hc.
  destruct spec as [values|min max|min max]; simpl in Hcan; hinv; [|eauto..].
  case_match; hinv. destruct Ht as [Hr Hl].
  assert (sort_values values ≡ₚ values) as Hp by apply merge_sort_Permutation.
  assert (zlen (sort_values values) = zlen values) as Hz by (unfold zlen; by rewrite Hp).
  split; [split; [by rewrite Hp|by rewrite Hz]|]. exists b. simpl in Hb |- *. rewrite Hz.
  case_bool_decide as Hne; [done|]. rewrite bool_decide_false; [done|].
  intros Hnil. rewrite Hnil in Hp. by apply Permutation_nil in Hp.
Qed.

(** What a successful registration checked and stored. *)
Lemma register_topology_effect o ns es h j sp s s' :
  register_topology cfg o ns es h j sp s = Ok s' ->
  exists h' j' sp',
    check_spec h = Ok tt /\ check_spec j = Ok tt /\ check_spec sp = Ok tt /\
    canonicalize_spec cfg h = Ok h' /\ canonicalize_spec cfg j = Ok j' /\
    canonicalize_spec cfg sp = Ok sp' /\
    MinNodes cfg <= zlen ns /\ NoDup ns /\ TopologyIndex.edges_known ns es /\
    let th := hash_topology ns es h' j' sp' in
    RegisteredTopologies s !! th = None /\
    RegisteredTopologies s' =
      <[th := mkTopologyMeta ns es h' j' sp' (block_number s)]> (RegisteredTopologies s).
Proof.
  intros Hok. unfold register_topology in Hok. hinv.
  repeat match goal with u : unit |- _ => destruct u end.
  match goal with Hv : validate_topology_consistency _ _ _ _ _ _ = [] |- _ =>
    apply validate_topology_consistency_nil in Hv as (Hnd & _ & _ & Hk & _) end.
  do 3 eexists. split_and!; try done. simpl. by case_match.
Qed.

(** Registration only stores well-formed topologies. *)
Lemma register_topology_wf o ns es h j sp s s' th t :
  1 <= MinNodes cfg -> zlen ns * 32 + 7 < 2 ^ usize_bits ->
  spec_typed h -> spec_typed j -> spec_typed sp ->
  register_topology cfg o ns es h j sp s = Ok s' ->
  RegisteredTopologies s' !! th = Some t ->
  RegisteredTopologies s !! th = Some t \/ topology_wf t.
Proof.
  intros Hmin Hsz Hh Hj Hsp Hok Ht.
  apply register_topology_effect in Hok
    as (h' & j' & sp' & C1 & C2 & C3 & K1 & K2 & K3 & Hn & Hnd & Hk & _ & E).
  rewrite E in Ht. apply lookup_insert_Some in Ht as [[_ <-]|[_ ?]]; [right|by left].
  split; simpl; try done.
  - split; [|done]. intros ->. unfold zlen in *. simpl in *. lia.
  - by eapply (check_canonicalize h).
  - by eapply (check_canonicalize j).
  - by eapply (check_canonicalize sp).
Qed.

#[local] Lemma decode_solution_no_panic n spec packed :
  spec_typed spec -> 0 <= n -> n * 32 + 7 < 2 ^ usize_bits -> decode_solution n spec packed <> Panic.
Proof.
  intros Ht Hn Hsz. unfold decode_solution.
  intros [Hp|(milli & _ & Hp)]%rbind_Panic_inv; revert Hp; apply rmap_err_no_panic.
  - by apply unpack_solution_no_panic.
  - unfold spin_signs. generalize 0. induction milli as [|v milli IH]; intros i; simpl; [done|].
    case_match; [done|]. intros [Hp|(? & _ & ?)]%rbind_Panic_inv; [by apply IH in Hp|done].
Qed.

(** Whatever a miner submits, validating it against a well-formed topology
    returns a verdict. *)
Lemma validate_proof_no_panic proof t idx h j d :
  topology_wf t -> zlen (solutions proof) < 2 ^ 31 ->
  TopologyIndex.new (nodes t) (edges t) = Ok idx ->
  validate_proof proof t idx h j d <> Panic.
Proof.
  intros [[Hne Hnd] Hk Hsz _ _ [Hsp _]] Hlen Hidx. unfold validate_proof.
  intros [Hp|(decoded & Hdec & Hp)]%rbind_Panic_inv.
  { revert Hp. apply rmapM_no_panic. intros. apply decode_solution_no_panic; auto with quip. }
  apply rbind_Panic_inv in Hp as [Hp|(energies & Hen & Hp)].
  { revert Hp. apply rmapM_no_panic. intros spins _. apply rmap_err_no_panic.
    rewrite (energy_indexed_agrees _ _ _ _ _ _ Hidx). apply energy_of_solution_no_panic. }
  set (valid := filter _ (zip decoded energies)) in *.
  assert (solution_set (zlen (nodes t)) (fst <$> valid)) as Hset.
  { apply rmapM_Ok_inv, Forall2_zip in Hen. apply Forall_fmap, Forall_forall. intros [spins e] Hin.
    apply list_elem_of_filter in Hin as [_ Hin]. eapply Forall_forall in Hen; [|exact Hin]. simpl in *.
    rinv. rewrite (energy_indexed_agrees _ _ _ _ _ _ Hidx) in Hr.
    apply energy_of_solution_sound in Hr as ([] & _). split; [unfold zlen; lia|done]. }
  assert (length valid <= length (solutions proof))%nat as Hvl.
  { apply rmapM_length in Hdec. unfold valid. rewrite length_filter, length_zip. lia. }
  assert (0 < zlen (nodes t)) as Hpos.
  { destruct (nodes t); [done|]. rewrite zlen_cons. pose proof (zlen_nonneg l). lia. }
  clearbody valid. clear Hdec Hen.
  apply rbind_Panic_inv in Hp as [Hp|(_ & _ & Hp)]; [by unfold require in Hp; case_match|].
  apply rbind_Panic_inv in Hp as [Hp|(best & _ & Hp)]; [by unfold some_or, ok_or in Hp; case_match|].
  match type of Hp with context [select_diverse _ ?t] =>
    destruct (select_diverse_total _ (fst <$> valid) t Hset) as (sel & Hsel & Hnds & Hr & Hls) end.
  rewrite Hsel in Hp. cbn [rmap_err rbind] in Hp.
  assert (Forall2 (fun i sol => @or_panic (DispatchError PowError) _ ((fst <$> valid) !! i) = Ok sol) sel
    (omap (fun i => (fst <$> valid) !! i) sel)) as HF.
  { clear -Hr. induction Hr as [|i sel Hi Hr IH]; [constructor|].
    destruct (lookup_lt_is_Some_2 (fst <$> valid) i Hi) as [x Hx]. csimpl. rewrite Hx. constructor; [by rewrite Hx|done]. }
  rewrite (rmapM_Ok _ _ _ HF) in Hp. cbn [rbind] in Hp.
  apply rbind_Panic_inv in Hp as [Hp|(? & _ & ?)]; [|done]. revert Hp. apply rmap_err_no_panic.
  apply (calculate_diversity_no_panic (zlen (nodes t))); [|done|].
  - apply Forall_forall. intros x (i & _ & Hi)%list_elem_of_omap. eapply Forall_lookup_1 in Hset; [|exact Hi]. done.
  - apply Forall2_length in HF. unfold zlen in *. rewrite length_fmap in Hls. lia.
Qed.

(** Every registered topology is well formed. *)
Definition topologies_wf s : Prop :=
  forall th t, RegisteredTopologies s !! th = Some t -> topology_wf t.

Lemma dispatch_topologies_wf o c s s' :
  1 <= MinNodes cfg -> call_typed c -> topologies_wf s -> dispatch o c s = Ok s' -> topologies_wf s'.
Proof.
  intros Hmin Hty Hwf Hok.
  assert (RegisteredTopologies s' = RegisteredTopologies s -> topologies_wf s') as Hframe
    by (intros E th t; rewrite E; apply Hwf).
  destruct c; [ | |destruct Hty as (? & ? & ? & ?); intros th t Ht;
    edestruct register_topology_wf as [?|?]; [..|exact Hok|exact Ht|by eapply Hwf|]; done| | | | | | | |];
    apply Hframe; open_call Hok; hinv; simpl; repeat case_match; by hinv.
Qed.

Lemma step_topologies_wf x y :
  1 <= MinNodes cfg -> topologies_wf (st x) -> step x y -> topologies_wf (st y).
Proof.
  intros Hmin Hwf Hstep. destruct Hstep as [s hs acc header _ _|s hs acc o c Hty|s hs acc|s ex hs acc w evs Hrely]; simpl in *.
  - intros th t. unfold on_initialize. case_match; apply Hwf.
  - unfold apply_call. destruct (dispatch o c s) eqn:Hok; [|done|done]. by eapply dispatch_topologies_wf.
  - intros th t. unfold on_finalize. destruct (BlockBestProof s); [|apply Hwf].
    destruct (pay _ _ _) as [w rw]. unfold next_qblock_id. simpl. case_match; apply Hwf.
  - exact Hwf.
Qed.

(** A submission against well-formed topologies never panics. *)
Lemma submit_proof_no_panic `{!IsingPrimsLaws R} o proof s :
  topologies_wf s -> zlen (solutions proof) < 2 ^ 31 -> submit_proof cfg o proof s <> Panic.
Proof.
  intros Hwf Hlen. unfold submit_proof, check_proof.
  assert (forall b (e : PowError), require b e <> Panic) as Hreq by (intros [] e; done).
  destruct o as [|who| |]; simpl; try done.
  intros [Hp|(v & _ & Hp)]%rbind_Panic_inv.
  2: { revert Hp. unfold accept_proof. intros [Hp|(? & _ & ?)]%rbind_Panic_inv; [|done].
       unfold some_or, ok_or in Hp. by case_match. }
  do 3 (apply rbind_Panic_inv in Hp as [Hp|(_ & _ & Hp)]; [by apply Hreq in Hp|]).
  destruct (RegisteredTopologies s !! proof_topology_hash proof) as [t|] eqn:Ht; [|done]. simpl in Hp.
  specialize (Hwf _ _ Ht).
  do 3 (apply rbind_Panic_inv in Hp as [Hp|(_ & _ & Hp)]; [by apply Hreq in Hp|]).
  destruct (TopologyIndex.new (nodes t) (edges t)) as [idx|e|] eqn:Hidx; [|done|by apply TopologyIndex.new_no_panic in Hidx].
  cbn [rmap_err rbind] in Hp.
  pose proof Hwf as [[Hne Hnd] Hk _ [Hth [bh Hbh]] [Htj [bj Hbj]] _].
  destruct (generate_ising_model_total (nonce proof) (nodes t) (edges t) _ _ bh bj Hne Hnd Hk Hth Hbh Htj Hbj)
    as (h & j & Hgen & _).
  rewrite (generate_ising_model_indexed_agrees _ _ _ _ _ _ Hidx), Hgen in Hp. cbn [rmap_err rbind] in Hp.
  apply rbind_Panic_inv in Hp as [Hp|(v & _ & Hp)]; [by eapply validate_proof_no_panic in Hp|].
  do 3 (apply rbind_Panic_inv in Hp as [Hp|(_ & _ & Hp)]; [by apply Hreq in Hp|]). done.
Qed.

(** ** Miner deposits *)

(** Every registered miner's deposit is still reserved. *)
Definition deposits_inv s : Prop :=
  forall who m, Miners s !! who = Some m ->
    0 <= deposit m <= reserved_balance (world s) who.

Lemma dispatch_deposits_inv `{!CurrencyLaws W} o c s s' :
  0 <= MinerDeposit cfg -> deposits_inv s -> dispatch o c s = Ok s' -> deposits_inv s'.
Proof.
  intros Hdep Hinv Hok.
  assert (forall x, world x = world s ->
    (forall who m, Miners x !! who = Some m -> exists m', Miners s !! who = Some m' /\ deposit m = deposit m') ->
    deposits_inv x) as Hframe.
  { intros x Hw Hm who m Hwho. destruct (Hm who m Hwho) as (m' & Hm' & ->). rewrite Hw. by apply Hinv. }
  destruct c; open_call Hok; hinv; try (by apply Hframe; [done|simpl; eauto]).
  - intros who m. simpl. rewrite lookup_insert_Some.
    match goal with Hr : reserve _ _ _ = Some _ |- _ => rewrite (reserve_reserved _ _ _ _ Hr) end.
    intros [[<- <-]|[Hne Hm']]; [rewrite decide_True by done|rewrite decide_False by done; by apply Hinv].
    simpl. match goal with |- context [reserved_balance ?w ?x] => pose proof (reserved_nonneg w x) end. lia.
  - intros who m. simpl. rewrite lookup_delete_Some. intros [Hne Hm'].
    rewrite unreserve_reserved by (by eapply Hinv). rewrite decide_False by done. by apply Hinv.
  - apply Hframe; simpl; case_match; simpl; eauto.
  - apply Hframe; simpl; repeat case_match; simpl; try done;
      intros who m; rewrite lookup_insert_Some; intros [[<- <-]|[_ Hm']]; eauto.
  - apply Hframe; repeat case_match; hinv; simpl; eauto.
  - apply Hframe; repeat case_match; hinv; simpl; eauto.
Qed.

(** Deregistering returns the whole deposit to the free balance. *)
Lemma deregister_returns_deposit `{!CurrencyLaws W} who m s s' :
  deposits_inv s -> Miners s !! who = Some m -> deregister_miner (Signed who) s = Ok s' ->
  free_balance (world s') who = free_balance (world s) who + deposit m /\ Miners s' !! who = None.
Proof.
  intros Hinv Hm Hok. unfold deregister_miner in Hok. simpl in Hok. rewrite Hm in Hok. simpl in Hok. hinv.
  destruct (Hinv who m Hm). simpl. rewrite lookup_delete_eq, unreserve_free by done. split; [lia|done].
Qed.

Lemma on_finalize_deposits_inv `{!MiningRewardLaws W} n s : deposits_inv s -> deposits_inv (on_finalize cfg n s).
Proof.
  intros Hinv. unfold on_finalize. destruct (BlockBestProof s) as [r|]; [|done].
  destruct (pay _ _ _) as [w rw] eqn:Hpay. unfold next_qblock_id. simpl.
  assert (forall x, reserved_balance w x = reserved_balance (world s) x) as Hw.
  { intros x. match type of Hpay with pay ?v ?a ?b = _ => pose proof (pay_reserved v a b x) as Hx end.
    by rewrite Hpay in Hx. }
  intros who m. simpl. destruct (Miners s !! record_miner r) as [m'|] eqn:Hm; simpl.
  - rewrite lookup_insert_Some. intros [[<- <-]|[_ Hm'']]; rewrite Hw; simpl; by apply Hinv.
  - intros Hm'. rewrite Hw. by apply Hinv.
Qed.

(** Calls and hooks move the reserves of an account exactly with its deposit. *)
Lemma dispatch_reserves `{!CurrencyLaws W} o c s s' :
  deposits_inv s -> dispatch o c s = Ok s' -> forall x,
  reserved_balance (world s') x - deposited x s' = reserved_balance (world s) x - deposited x s.
Proof.
  intros Hinv Hok x.
  assert (forall y, world y = world s -> deposited x y = deposited x s ->
    reserved_balance (world y) x - deposited x y = reserved_balance (world s) x - deposited x s) as Hframe by congruence.
  assert (forall y who m m', Miners s !! who = Some m -> Miners y = <[who := m']> (Miners s) -> deposit m' = deposit m ->
    deposited x y = deposited x s) as Hupd.
  { intros y who m m' Hm Hy Hd. unfold deposited. rewrite Hy. destruct (decide (who = x)) as [<-|Hne].
    - rewrite lookup_insert_eq, Hm. simpl. congruence.
    - by rewrite lookup_insert_ne. }
  destruct c; open_call Hok; hinv; try (by apply Hframe).
  - match goal with Hr : reserve _ _ _ = Some _ |- _ => simpl; rewrite (reserve_reserved _ _ _ _ Hr) end.
    unfold deposited. simpl. case_decide as Hx; [subst x; rewrite lookup_insert_eq|by rewrite lookup_insert_ne].
    match goal with Hn : Miners s !! _ = None |- _ => rewrite Hn end. simpl. lia.
  - match goal with Hm : Miners s !! ?w = Some ?m |- _ => destruct (Hinv _ _ Hm); simpl; rewrite unreserve_reserved by done;
      unfold deposited; simpl; case_decide as Hx; [subst x; rewrite lookup_delete_eq, Hm; simpl; lia|by rewrite lookup_delete_ne] end.
  - apply Hframe; simpl; case_match; done.
  - apply Hframe; simpl; repeat case_match; simpl; try done.
    all: try (eapply Hupd; [eassumption|reflexivity|done]).
  - apply Hframe; repeat case_match; hinv; simpl; done.
  - apply Hframe; repeat case_match; hinv; simpl; done.
Qed.

Lemma step_deposits_inv `{!CurrencyLaws W, !MiningRewardLaws W} x y :
  0 <= MinerDeposit cfg -> deposits_inv (st x) -> step x y -> deposits_inv (st y).
Proof.
  intros Hdep Hinv Hstep. destruct Hstep as [s hs acc header _ _|s hs acc o c _|s hs acc|s ex hs acc w evs Hrely]; simpl in *.
  - intros who m. unfold on_initialize. case_match; apply Hinv.
  - unfold apply_call. destruct (dispatch o c s) eqn:Hok; [|done|done]. by eapply dispatch_deposits_inv.
  - by apply on_finalize_deposits_inv.
  - intros who m Hm. simpl in Hm. specialize (Hrely who). unfold deposited in Hrely. rewrite Hm in Hrely. split; [by eapply Hinv|done].
Qed.
End Props.

(** Unfold the handler behind a dispatched call. *)
Ltac open_pow_call H :=
  unfold dispatch, register_miner, deregister_miner, register_topology, set_default_topology,
    set_difficulty, set_topology_curve, set_block_reward, set_target_proof_blocks, submit_proof,
    accept_proof, add_mineable_topology, remove_mineable_topology in H.
