(* ===== verification/PowMigration.v ===== *)
(** * Storage migrations of the proof-of-work pallet

    Models [on_runtime_upgrade] and [mod migration] of
    [pallets/quantum-pow/src/lib.rs].  A stored qblock is in one of three
    layouts, each a prefix of the next; reading decodes a prefix, so a value in
    a shorter layout than the one asked for does not decode, and [translate]
    leaves it alone. *)

From S2P Require Import Prelude Validation PuzzleSpec Packed Float Energy Gse Diversity Ising SolutionReport Difficulty Frame QuantumPow QuantumPowProps.

(** ** Layouts *)

Record PreTopologyQBlock := mkPreTopologyQBlock {
  pre_miner : AccountId;
  pre_salt : list Z;
  pre_energy_milli : Z;
  pre_reward : Balance;
  pre_submitted_at : BlockNumber;
  pre_difficulty : DifficultyConfig;
  pre_last_proof_block_hash : H256
}.

Record V4QBlock := mkV4QBlock {
  v4_miner : AccountId;
  v4_salt : list Z;
  v4_energy_milli : Z;
  v4_reward : Balance;
  v4_submitted_at : BlockNumber;
  v4_difficulty : DifficultyConfig;
  v4_last_proof_block_hash : H256;
  v4_topology_hash : H256
}.

(** The bytes of a stored qblock, by the layout they were written in. *)
Inductive StoredQBlock :=
  | StoredPre (q : PreTopologyQBlock)
  | StoredV4 (q : V4QBlock)
  | StoredV5 (q : QBlock).

Definition v4_of_v5 (q : QBlock) : V4QBlock :=
  mkV4QBlock (qb_miner q) (qb_salt q) (qb_energy_milli q) (qb_reward q) (qb_submitted_at q)
    (qb_difficulty q) (qb_last_proof_block_hash q) (qb_topology_hash q).
Definition pre_of_v4 (q : V4QBlock) : PreTopologyQBlock :=
  mkPreTopologyQBlock (v4_miner q) (v4_salt q) (v4_energy_milli q) (v4_reward q) (v4_submitted_at q)
    (v4_difficulty q) (v4_last_proof_block_hash q).

(** Decoding stored bytes at each of the three types. *)
Definition decode_v5 (x : StoredQBlock) : option QBlock :=
  match x with StoredV5 q => Some q | _ => None end.
Definition decode_v4 (x : StoredQBlock) : option V4QBlock :=
  match x with StoredV5 q => Some (v4_of_v5 q) | StoredV4 q => Some q | StoredPre _ => None end.
Definition decode_pre (x : StoredQBlock) : option PreTopologyQBlock :=
  match x with
  | StoredV5 q => Some (pre_of_v4 (v4_of_v5 q))
  | StoredV4 q => Some (pre_of_v4 q)
  | StoredPre q => Some q
  end.

(** [StorageMap::translate] *)
Definition translate {O} (decode : StoredQBlock -> option O) (f : O -> QBlock)
    (m : gmap BlockNumber StoredQBlock) : gmap BlockNumber StoredQBlock :=
  (fun x => match decode x with Some old => StoredV5 (f old) | None => x end) <$> m.

Section Migration.
Context {W : Type}.
#[local] Abbreviation state := (@PowState W).

(** The pallet's storage during an upgrade: the current storage items, the
    bytes behind [QBlocks], the retired global difficulty, and whether the
    retired [WinnerStreak] key is present. *)
Record Upgrading := mkUpgrading {
  items : state;
  raw_qblocks : gmap BlockNumber StoredQBlock;
  old_difficulty : option DifficultyConfig;
  winner_streak : bool
}.
#[export] Instance Upgrading_expansion : Expansion Upgrading := fun r =>
  mkUpgrading (items r) (raw_qblocks r) (old_difficulty r) (winner_streak r).
Implicit Types u : Upgrading.

(** What the runtime reads afterwards: undecodable entries read as absent. *)
Definition readable u : state := (items u) <| QBlocks := omap decode_v5 (raw_qblocks u) |>.

(** [v3::carry_forward] *)
Definition carry_forward u : Upgrading :=
  let old := default difficulty_default (old_difficulty u) in
  let s := items u in
  let s := match DefaultTopology s with
    | Some default_hash =>
        s <| Difficulties $= <[default_hash := old]> |> <| MineableTopologies $= ({[default_hash]} ∪.) |>
    | None => s
    end in
  let s := s <| BlockBestProof := None |> in
  u <| items := s |> <| old_difficulty := None |>.

(** [v3::wipe]: the whole pallet prefix is cleared. *)
Definition wipe u : Upgrading :=
  let s := items u in
  mkUpgrading
    (mkPowState ∅ None ∅ ∅ ∅ ∅ None 0 0 0 ∅ 0 ∅ ∅ None None (block_number s) (parent_hash s) (world s) (events s))
    ∅ None false.

(** [v5::kill_stale_best_proof] *)
Definition kill_stale_best_proof u : Upgrading := u <| items $= fun s => s <| BlockBestProof := None |> |>.

(** [v5::backfill_from_pre_topology] *)
Definition backfill_from_pre_topology u : Upgrading :=
  let backfill := default 0 (DefaultTopology (items u)) in
  let u := u <| raw_qblocks $= translate decode_pre (fun old =>
    mkQBlock (pre_miner old) (pre_salt old) (pre_energy_milli old) (pre_reward old) (pre_submitted_at old)
      (pre_difficulty old) (pre_last_proof_block_hash old) backfill 0) |> in
  kill_stale_best_proof u.

(** [v5::append_device_time] *)
Definition append_device_time u : Upgrading :=
  let u := u <| raw_qblocks $= translate decode_v4 (fun old =>
    mkQBlock (v4_miner old) (v4_salt old) (v4_energy_milli old) (v4_reward old) (v4_submitted_at old)
      (v4_difficulty old) (v4_last_proof_block_hash old) (v4_topology_hash old) 0) |> in
  kill_stale_best_proof u.

(** [v6::remove_winner_streak] *)
Definition remove_winner_streak u : Upgrading := u <| winner_streak := false |>.

(** [on_runtime_upgrade]: the on-chain version with the storage. *)
Definition POW_STORAGE_VERSION : Z := 6.
Definition pow_runtime_upgrade (on_chain : Z) u : Z * Upgrading :=
  if POW_STORAGE_VERSION <=? on_chain then (on_chain, u) else
  let u := if on_chain <? 3 then (if on_chain =? 2 then carry_forward u else wipe u) else u in
  let u := if on_chain <? 5
           then (if on_chain =? 4 then append_device_time u else backfill_from_pre_topology u) else u in
  (POW_STORAGE_VERSION, remove_winner_streak u).

(** ** What the upgrade preserves *)

(** A stored qblock is in the layout of the on-chain version. *)
Definition layout_of (on_chain : Z) (x : StoredQBlock) : Prop :=
  match x with
  | StoredPre _ => 2 <= on_chain < 4
  | StoredV4 _ => on_chain = 4
  | StoredV5 _ => 5 <= on_chain
  end.

(** The qblock a stored one stands for: topology and device time default to
    the default topology and zero. *)
Definition meaning (default_topology : H256) (x : StoredQBlock) : QBlock :=
  match x with
  | StoredPre q => mkQBlock (pre_miner q) (pre_salt q) (pre_energy_milli q) (pre_reward q) (pre_submitted_at q)
      (pre_difficulty q) (pre_last_proof_block_hash q) default_topology 0
  | StoredV4 q => mkQBlock (v4_miner q) (v4_salt q) (v4_energy_milli q) (v4_reward q) (v4_submitted_at q)
      (v4_difficulty q) (v4_last_proof_block_hash q) (v4_topology_hash q) 0
  | StoredV5 q => q
  end.

(** The reads of [translate] on entries that all decode. *)
#[local] Lemma translate_readable {O} (decode : StoredQBlock -> option O) f g m :
  (forall n x, m !! n = Some x -> exists old, decode x = Some old /\ f old = g x) ->
  omap decode_v5 (translate decode f m) = g <$> m.
Proof.
  intros Hd. apply map_eq. intros n. unfold translate. rewrite lookup_omap, !lookup_fmap.
  destruct (m !! n) as [x|] eqn:Hx; [|done]. simpl. destruct (Hd n x Hx) as (old & -> & <-). done.
Qed.

(** Nothing of the history is lost: every qblock of the old chain is read back
    with all its data, at the same block. *)
Lemma upgrade_keeps_history on_chain u :
  2 <= on_chain < POW_STORAGE_VERSION ->
  map_Forall (fun _ x => layout_of on_chain x) (raw_qblocks u) ->
  let s' := readable (pow_runtime_upgrade on_chain u).2 in
  QBlocks s' = meaning (default 0 (DefaultTopology (items u))) <$> raw_qblocks u /\
  QBlockCount s' = QBlockCount (items u) /\ QBlockBlockById s' = QBlockBlockById (items u) /\
  QBlockIdByBlock s' = QBlockIdByBlock (items u) /\ Miners s' = Miners (items u).
Proof.
  unfold POW_STORAGE_VERSION. intros Hv Hlay. assert (on_chain ∈ [2; 3; 4; 5]) as Hcases.
  { rewrite !elem_of_cons. lia. }
  rewrite !elem_of_cons in Hcases. destruct Hcases as [->|[->|[->|[->|[]%not_elem_of_nil]]]];
    unfold pow_runtime_upgrade, readable; simpl.
  - assert (DefaultTopology (match DefaultTopology (items u) with
      | Some h => (items u) <| Difficulties $= <[h := default difficulty_default (old_difficulty u)]> |>
          <| MineableTopologies $= ({[h]} ∪.) |>
      | None => items u end) = DefaultTopology (items u)) as E by (by destruct (DefaultTopology (items u)) eqn:?).
    rewrite E. split; [|by destruct (DefaultTopology (items u))]. apply translate_readable.
    intros n x Hx. specialize (Hlay n x Hx). destruct x; simpl in Hlay; [eauto|lia..].
  - split; [|done]. apply translate_readable. intros n x Hx. specialize (Hlay n x Hx).
    destruct x; simpl in Hlay; [eauto|lia..].
  - split; [|done]. apply translate_readable. intros n x Hx. specialize (Hlay n x Hx).
    destruct x; simpl in Hlay; [lia|eauto|lia].
  - split; [|done]. apply map_eq. intros n. rewrite lookup_omap, lookup_fmap.
    destruct (raw_qblocks u !! n) as [x|] eqn:Hx; [|done]. specialize (Hlay n x Hx).
    destruct x; simpl in *; [lia|lia|done].
Qed.

(** A version-2 chain has no whitelist: the upgrade whitelists the default
    topology with the difficulty it was mined at, and nothing else. *)
Lemma upgrade_whitelists_default u :
  (forall h, DefaultTopology (items u) = Some h -> is_Some (RegisteredTopologies (items u) !! h)) ->
  (DefaultTopology (items u) = None -> RegisteredTopologies (items u) = ∅) ->
  MineableTopologies (items u) = ∅ ->
  let s' := readable (pow_runtime_upgrade 2 u).2 in
  topology_inv s' /\
  (forall h, DefaultTopology (items u) = Some h ->
     Difficulties s' !! h = Some (default difficulty_default (old_difficulty u))).
Proof.
  intros Hreg Hnone Hm. unfold pow_runtime_upgrade, readable. simpl.
  destruct (DefaultTopology (items u)) as [d|] eqn:Hd; simpl.
  - split; [|intros h [= <-]; apply lookup_insert_eq]. split; simpl; rewrite ?Hm.
    + intros h Hh. assert (h = d) as -> by set_solver. by apply Hreg.
    + intros h Hh. rewrite Hd in Hh. injection Hh as <-. set_solver.
    + by rewrite Hd.
    + intros a b. rewrite Hd. set_solver.
  - split; [|done]. split; simpl; rewrite ?Hm; [set_solver| |auto|set_solver].
    intros h Hh. by rewrite Hd in Hh.
Qed.
End Migration.
