(* ===== verification/MempoolCore.v ===== *)
(** * Mempool building blocks

    Models the pure modules of [pallets/quantum-compute-mempool/src]:
    [types.rs], [delivery.rs], [lifecycle.rs], [rewards.rs] and
    [selection.rs]. *)

From S2P Require Import Prelude Validation Diversity Frame.

(** ** [types.rs] *)

Definition MAX_REWARD_WINNERS : Z := 32.
Definition MAX_FINALISED_ORDERS_PER_BLOCK : Z := 8.

Inductive Formulation := IsingFormulation.
Inductive MinerType := Cpu | Gpu | QpuDwave | QpuIbm | QpuIonq | QpuPasqal | Asic.
#[global] Instance MinerType_eq_dec : EqDecision MinerType.
Proof. solve_decision. Defined.

Inductive RewardResolution :=
  | SingleBest
  | TopNWeighted (n : Z)
  | TopNEqual (n : Z).

Inductive OrderStatus := Opened | Expired | Closed.
#[global] Instance OrderStatus_eq_dec : EqDecision OrderStatus.
Proof. solve_decision. Defined.

Inductive ResultDelivery :=
  | OnChainOnly
  | Callback (endpoint : list Z)
  | CallbackWithPoll (endpoint : list Z).

Record IsingParams := mkIsingParams {
  p_nodes : list Z;
  p_edges : list (Z * Z);
  p_h_values : list Z;
  p_j_values : list Z;
  p_max_energy_milli : option Z;
  p_min_diversity_milli : option Z;
  p_min_solutions : option Z
}.

Inductive JobMode :=
  | Open
  | Bid (miners : option (list AccountId)) (miner_types : option (list MinerType)).

Record JobSpec := mkJobSpec {
  builder : AccountId;
  spec_name : list Z;
  formulation : Formulation;
  validation_program : option H256;
  transform_program : option H256;
  spec_registered_at : BlockNumber;
  total_orders : Z;
  successful_orders : Z
}.
#[export] Instance JobSpec_expansion : Expansion JobSpec := fun r =>
  mkJobSpec (builder r) (spec_name r) (formulation r) (validation_program r) (transform_program r)
    (spec_registered_at r) (total_orders r) (successful_orders r).

Record OrderTiming := mkOrderTiming { deadline_blocks : BlockNumber; block_wait : BlockNumber }.

Record JobOrder := mkJobOrder {
  spec_id : H256;
  proposer : AccountId;
  ising_params : IsingParams;
  reward : Balance;
  mode : JobMode;
  resolution : RewardResolution;
  timing : OrderTiming;
  delivery : ResultDelivery;
  status : OrderStatus;
  created_at : BlockNumber;
  first_solution_at : option BlockNumber;
  solution_count : Z
}.
#[export] Instance JobOrder_expansion : Expansion JobOrder := fun r =>
  mkJobOrder (spec_id r) (proposer r) (ising_params r) (reward r) (mode r) (resolution r) (timing r)
    (delivery r) (status r) (created_at r) (first_solution_at r) (solution_count r).

Record JobSolution := mkJobSolution {
  sol_solver : AccountId;
  sol_solver_type : MinerType;
  sol_solutions : list (list Z);
  sol_best_energy_milli : Z;
  sol_diversity_milli : Z;
  num_valid : Z;
  sol_submitted_at : BlockNumber
}.

Record SolverInfo := mkSolverInfo {
  account : AccountId;
  solver_type : MinerType;
  solver_registered_at : BlockNumber;
  solutions_submitted : Z;
  solver_rewards_earned : Balance
}.
#[export] Instance SolverInfo_expansion : Expansion SolverInfo := fun r =>
  mkSolverInfo (account r) (solver_type r) (solver_registered_at r) (solutions_submitted r)
    (solver_rewards_earned r).

Record RankedSolver := mkRankedSolver { solver : AccountId; energy_milli : Z }.
Record FrontRunner := mkFrontRunner { fr_solver : AccountId; fr_energy_milli : Z }.
Record WinnerSummary := mkWinnerSummary {
  ws_solver : AccountId; ws_energy_milli : Z; ws_amount : Balance
}.
Record StoredResult := mkStoredResult {
  sr_endpoint : list Z;
  sr_resolution : RewardResolution;
  settled_at : BlockNumber;
  sr_winners : list WinnerSummary
}.

(** [WinnerPayee::V1 { chain_id, address }] *)
Record WinnerPayee := V1 { chain_id : Z; address : Z }.
#[global] Instance WinnerPayee_eq_dec : EqDecision WinnerPayee.
Proof. solve_decision. Defined.
Definition payee_is_valid (p : WinnerPayee) : bool := negb (chain_id p =? 0) && negb (address p =? 0).

(** ** [delivery.rs] *)

Definition validate_delivery_mode (delivery : ResultDelivery) (mode : JobMode) : bool :=
  match delivery, mode with
  | OnChainOnly, _ => true
  | Callback _, Open => true
  | Callback _, Bid None (Some _) => true
  | CallbackWithPoll _, Bid (Some _) None => true
  | _, _ => false
  end.

(** ** [lifecycle.rs] *)

Definition effective_expiry (created_at : BlockNumber) (first_solution_at : option BlockNumber)
    (timing : OrderTiming) : BlockNumber :=
  let hard_deadline := bn_add created_at (deadline_blocks timing) in
  match first_solution_at with
  | Some first => Z.min hard_deadline (bn_add first (block_wait timing))
  | None => hard_deadline
  end.

Definition is_expired (now created_at : BlockNumber) (first_solution_at : option BlockNumber)
    (timing : OrderTiming) : bool :=
  effective_expiry created_at first_solution_at timing <=? now.

(** ** [rewards.rs] *)

(** Insert after every entry of no greater energy. *)
Fixpoint insert_ranked (e : RankedSolver) (l : list RankedSolver) : list RankedSolver :=
  match l with
  | [] => [e]
  | x :: l => if energy_milli e <? energy_milli x then e :: x :: l else x :: insert_ranked e l
  end.

(** [sort_by_key(|entry| entry.energy_milli)], a stable sort. *)
Definition sort_ranked (l : list RankedSolver) : list RankedSolver :=
  foldl (fun acc e => insert_ranked e acc) [] l.

(** [iter_mut().find(..)], replacing the first entry of the same solver when the
    candidate is strictly better; [None] when there is no such entry. *)
Fixpoint replace_ranked (l : list RankedSolver) (candidate : RankedSolver)
    : option (list RankedSolver) :=
  match l with
  | [] => None
  | x :: l =>
      if solver x =? solver candidate then
        Some ((if energy_milli candidate <? energy_milli x then candidate else x) :: l)
      else (x ::.) <$> replace_ranked l candidate
  end.

Definition merge_candidate (current : list RankedSolver) (candidate : RankedSolver)
    : list RankedSolver :=
  match replace_ranked current candidate with
  | Some next => next
  | None => current ++ [candidate]
  end.

Definition update_ranked_solvers (current : list RankedSolver) (candidate : RankedSolver)
    (limit : nat) : list RankedSolver :=
  take limit (sort_ranked (merge_candidate current candidate)).

(** A payout: solver, amount, energy. *)
Abbreviation payout := (AccountId * Z * Z)%type.

Definition single_best_payouts (front_runner : FrontRunner) (reward : Z) : list payout :=
  [(fr_solver front_runner, reward, fr_energy_milli front_runner)].

Definition top_n_equal_payouts (ranked : list RankedSolver) (reward : Z) : list payout :=
  if bool_decide (ranked = []) then [] else
  let len := zlen ranked in
  let base := reward / len in
  let remainder := reward mod len in
  imap (fun index entry =>
    let extra := if (index =? 0)%nat then remainder else 0 in
    (solver entry, wrap_u 128 (base + extra), energy_milli entry)) ranked.

(** The loop of [top_n_weighted_payouts] from rank [index]. *)
Fixpoint weighted_loop (index count total_weight reward distributed : Z)
    (ranked : list RankedSolver) : list payout * Z :=
  match ranked with
  | [] => ([], distributed)
  | entry :: ranked =>
      let weight := Z.max 0 (count - index) in
      let amount :=
        u128_add (sat_u 128 (reward / total_weight * weight))
                 (sat_u 128 (reward mod total_weight * weight) / total_weight) in
      let '(rest, distributed) :=
        weighted_loop (index + 1) count total_weight reward (u128_add distributed amount) ranked in
      ((solver entry, amount, energy_milli entry) :: rest, distributed)
  end.

Definition top_n_weighted_payouts (ranked : list RankedSolver) (reward : Z) : list payout :=
  if bool_decide (ranked = []) then [] else
  let count := zlen ranked in
  let total_weight := sat_u 128 (count * u128_add count 1) / 2 in
  let '(payouts, distributed) := weighted_loop 0 count total_weight reward 0 ranked in
  let remainder := Z.max 0 (reward - distributed) in
  match payouts with
  | [] => []
  | (who, amount, energy) :: rest => (who, u128_add amount remainder, energy) :: rest
  end.

(** ** [selection.rs] *)

(** One scan over the candidates of a round: updated distances and the first
    farthest unchosen candidate. *)
Definition scan_candidates (solutions : list (list Z)) (last_solution : list Z) (chosen : list bool)
    (distances : list Z) : vresult (list Z * option nat) :=
  rfold (fun acc candidate =>
    let '(distances, next) := acc in
    sel <-? or_panic (chosen !! candidate);;
    if (sel : bool) then Ok acc else
    d <-? or_panic (distances !! candidate);;
    spins <-? or_panic (solutions !! candidate);;
    d' <-? symmetric_hamming spins last_solution;;
    distances <-? vec_set distances candidate (Z.min d d');;
    match next with
    | None => Ok (distances, Some candidate)
    | Some index =>
        dc <-? or_panic (distances !! candidate);;
        di <-? or_panic (distances !! index);;
        if di <? dc then Ok (distances, Some candidate) else Ok (distances, next)
    end) (distances, None) (seq 0 (length solutions)).

(** [while selected.len() < target]: every iteration pushes one index, so
    [missing] is the number of iterations left. *)
Fixpoint select_from_best_loop (missing : nat) (solutions : list (list Z)) (selected : list nat)
    (chosen : list bool) (distances : list Z) : vresult (list nat) :=
  match missing with
  | O => Ok selected
  | S missing =>
      last_index <-? or_panic (last selected);;
      last_solution <-? or_panic (solutions !! last_index);;
      scan <-? scan_candidates solutions last_solution chosen distances;;
      next <-? or_panic scan.2;;
      chosen <-? vec_set chosen next true;;
      select_from_best_loop missing solutions (selected ++ [next]) chosen scan.1
  end.

Definition select_from_best (solutions : list (list Z)) (best target : nat) : vresult (list nat) :=
  chosen <-? vec_set (replicate (length solutions) false) best true;;
  let distances := replicate (length solutions) (2 ^ 32 - 1) in
  select_from_best_loop (Nat.min (Nat.max target 1) (length solutions) - 1)
    solutions [best] chosen distances.

(** ** Payouts *)

Definition amounts (ps : list payout) : list Z := (fun p => p.1.2) <$> ps.

#[local] Lemma imap_pairs_sum f ranked k base rem :
  (forall i, f i = if (i =? 0)%nat then rem else 0) ->
  zsum ((fun i => base + f i) <$> seq k (length (ranked : list RankedSolver))) =
  zlen ranked * base + (if (k =? 0)%nat then (if bool_decide (ranked = []) then 0 else rem) else 0).
Proof.
  intros Hf. revert k. induction ranked as [|e ranked IH]; intros k; csimpl.
  { by destruct (k =? 0)%nat. }
  unfold zsum in *. simpl. rewrite IH, zlen_cons, Hf. destruct k as [|k]; simpl; lia.
Qed.

(** Equal split: nothing is lost, every rank but the first gets exactly the
    equal share, and the leader's remainder is smaller than the number of
    winners. *)
Lemma top_n_equal_sum ranked reward :
  ranked <> [] -> 0 <= reward < 2 ^ 128 ->
  zsum (amounts (top_n_equal_payouts ranked reward)) = reward /\
  Forall (fun a => reward / zlen ranked <= a <= reward / zlen ranked + reward mod zlen ranked)
    (amounts (top_n_equal_payouts ranked reward)) /\
  (forall i a, (0 < i)%nat -> amounts (top_n_equal_payouts ranked reward) !! i = Some a -> a = reward / zlen ranked) /\
  (fun p => p.1.1) <$> top_n_equal_payouts ranked reward = solver <$> ranked.
Proof.
  intros Hne Hr. unfold top_n_equal_payouts. rewrite bool_decide_false by done.
  assert (0 < zlen ranked) as Hl.
  { destruct ranked; [done|]. rewrite zlen_cons. pose proof (zlen_nonneg ranked). lia. }
  pose proof (Z.div_mod reward (zlen ranked) ltac:(lia)) as Hdm.
  pose proof (Z.mod_pos_bound reward (zlen ranked) Hl) as Hmod.
  pose proof (Z.div_pos reward (zlen ranked) ltac:(lia) Hl).
  set (base := reward / zlen ranked) in *. set (rem := reward mod zlen ranked) in *.
  set (f := fun i : nat => if (i =? 0)%nat then rem else 0).
  assert (forall i, wrap_u 128 (base + f i) = base + f i) as Hwrap.
  { intros i. apply wrap_u_small. unfold in_u, f. case_match; nia. }
  assert (amounts (imap (fun index entry => (solver entry, wrap_u 128 (base + f index), energy_milli entry)) ranked)
    = (fun i => base + f i) <$> seq 0 (length ranked)) as Ham.
  { unfold amounts. rewrite fmap_imap. apply list_eq. intros i. rewrite list_lookup_imap, list_lookup_fmap.
    destruct (ranked !! i) as [e|] eqn:Hi; simpl.
    - rewrite lookup_seq_lt by (by eapply lookup_lt_Some). simpl. by rewrite Hwrap.
    - rewrite lookup_seq_ge by (by apply lookup_ge_None). done. }
  change (imap _ ranked) with (imap (fun index entry =>
    (solver entry, wrap_u 128 (base + f index), energy_milli entry)) ranked). split_and!.
  - rewrite Ham. rewrite (imap_pairs_sum f ranked 0 base rem) by done. simpl.
    rewrite bool_decide_false by done. lia.
  - rewrite Ham. apply Forall_fmap, Forall_forall. intros i _. simpl. unfold f. case_match; lia.
  - intros i a Hi. rewrite Ham. intros (j & -> & [-> _]%lookup_seq)%list_lookup_fmap_Some. unfold f.
    rewrite (proj2 (Nat.eqb_neq _ _)) by lia. unfold base. lia.
  - rewrite fmap_imap. apply list_eq. intros i. rewrite list_lookup_imap, list_lookup_fmap.
    by destruct (ranked !! i).
Qed.

(** The weight of rank [i] of [k]. *)
Definition share (reward total weight : Z) : Z :=
  reward / total * weight + reward mod total * weight / total.

(** The two-part computation is the plain proportional share. *)
#[local] Lemma share_div reward total weight :
  0 < total -> share reward total weight = reward * weight / total.
Proof.
  intros Ht. unfold share. rewrite (Z.div_mod reward total) at 3 by lia.
  replace ((total * (reward / total) + reward mod total) * weight)
    with (reward / total * weight * total + reward mod total * weight) by ring.
  by rewrite Z.div_add_l by lia.
Qed.

#[local] Lemma share_bound reward total weight :
  0 <= reward < 2 ^ 128 -> 0 < total < 2 ^ 64 -> 0 <= weight <= total ->
  u128_add (sat_u 128 (reward / total * weight)) (sat_u 128 (reward mod total * weight) / total)
  = share reward total weight /\ 0 <= share reward total weight <= reward /\
  share reward total weight * total <= reward * weight.
Proof.
  intros Hr Ht Hw. pose proof (Z.div_mod reward total ltac:(lia)) as Hdm.
  pose proof (Z.mod_pos_bound reward total ltac:(lia)) as Hmod.
  pose proof (Z.div_pos reward total ltac:(lia) ltac:(lia)) as Hq.
  set (q := reward / total) in *. set (r := reward mod total) in *.
  assert (0 <= q * weight <= q * total) by nia.
  assert (0 <= r * weight <= r * total) by nia.
  assert (r * total < 2 ^ 64 * 2 ^ 64) by nia.
  pose proof (Z.div_pos (r * weight) total ltac:(lia) ltac:(lia)).
  pose proof (Z.mul_div_le (r * weight) total ltac:(lia)).
  assert (r * weight / total <= r) by (apply Z.div_le_upper_bound; nia).
  unfold share, u128_add. fold q r.
  rewrite (sat_u_small 128 (q * weight)), (sat_u_small 128 (r * weight)) by (unfold in_u; nia).
  rewrite sat_u_small by (unfold in_u; nia). split_and!; try done; nia.
Qed.

(** Sum of the weights [w, w - 1, ..., 1]. *)
#[local] Lemma weighted_loop_spec ranked index count total reward distributed :
  0 <= reward < 2 ^ 128 -> 0 < total < 2 ^ 64 -> count - index = zlen ranked -> count <= total ->
  0 <= index -> 0 <= distributed ->
  distributed * total + reward * (zlen ranked * (zlen ranked + 1) / 2) <= reward * total ->
  exists ps d, weighted_loop index count total reward distributed ranked = (ps, d) /\
    amounts ps = imap (fun i _ => share reward total (zlen ranked - Z.of_nat i)) ranked /\
    (fun p => p.1.1) <$> ps = solver <$> ranked /\
    d = distributed + zsum (amounts ps) /\ d <= reward.
Proof.
  intros Hr Ht. revert index distributed.
  induction ranked as [|e ranked IH]; intros index distributed Hci Hct Hi Hd Hb; csimpl.
  { exists [], distributed. split_and!; try done; [unfold zsum; simpl; lia|].
    change (zlen (@nil RankedSolver) * (zlen (@nil RankedSolver) + 1) / 2) with 0 in Hb.
    rewrite Z.mul_0_r, Z.add_0_r in Hb. apply (Z.mul_le_mono_pos_r _ _ total); lia. }
  rewrite zlen_cons in *. pose proof (zlen_nonneg ranked).
  replace (Z.max 0 (count - index)) with (zlen ranked + 1) by lia.
  destruct (share_bound reward total (zlen ranked + 1)) as (-> & Hs1 & Hs2); [done|done|lia|].
  set (sh := share reward total (zlen ranked + 1)) in *.
  assert ((zlen ranked + 1) * (zlen ranked + 1 + 1) / 2 = zlen ranked * (zlen ranked + 1) / 2 + (zlen ranked + 1)) as Htri.
  { replace ((zlen ranked + 1) * (zlen ranked + 1 + 1)) with (zlen ranked * (zlen ranked + 1) + (zlen ranked + 1) * 2) by lia.
    by rewrite Z.div_add by lia. }
  rewrite Htri in Hb.
  pose proof (Z.div_pos (zlen ranked * (zlen ranked + 1)) 2 ltac:(nia) ltac:(lia)) as Htp.
  set (tri := zlen ranked * (zlen ranked + 1) / 2) in *.
  assert (distributed + sh <= reward) as Hle by nia.
  assert (u128_add distributed sh = distributed + sh) as Hadd.
  { unfold u128_add. rewrite sat_u_small; [done|]. unfold in_u. lia. }
  rewrite Hadd. destruct (IH (index + 1) (distributed + sh)) as (ps & d & -> & Ham & Hsol & Hd' & Hdr); try lia.
  exists ((solver e, sh, energy_milli e) :: ps), d. split_and!; try done.
  - csimpl. rewrite Ham. f_equal; [unfold sh; f_equal; lia|].
    apply imap_ext. intros i x _. simpl. f_equal. lia.
  - csimpl. by rewrite Hsol.
  - rewrite Hd'. unfold zsum, amounts. csimpl. lia.
Qed.

#[local] Lemma total_weight_exact k :
  0 < k < 2 ^ 32 -> sat_u 128 (k * u128_add k 1) / 2 = k * (k + 1) / 2 /\
  k <= k * (k + 1) / 2 < 2 ^ 64 /\ 0 < k * (k + 1) / 2.
Proof.
  intros Hk. unfold u128_add. rewrite (sat_u_small 128 (k + 1)) by (unfold in_u; lia).
  rewrite sat_u_small by (unfold in_u; nia). split; [done|].
  assert (k <= k * (k + 1) / 2) by (apply Z.div_le_lower_bound; nia).
  assert (k * (k + 1) / 2 < 2 ^ 64) by (apply Z.div_lt_upper_bound; nia). lia.
Qed.

(** Rank-weighted split: the whole reward is paid out, a better rank never
    earns less than a worse one, every rank but the first earns exactly its
    proportional share, and every ranked solver is listed in order. *)
Lemma top_n_weighted_sum ranked reward :
  ranked <> [] -> zlen ranked < 2 ^ 32 -> 0 <= reward < 2 ^ 128 ->
  let am := amounts (top_n_weighted_payouts ranked reward) in
  zsum am = reward /\ Forall (fun a => 0 <= a) am /\
  (forall i j a b, (i < j)%nat -> am !! i = Some a -> am !! j = Some b -> b <= a) /\
  (forall i a, (0 < i)%nat -> am !! i = Some a ->
     a = reward * (zlen ranked - Z.of_nat i) / (zlen ranked * (zlen ranked + 1) / 2)) /\
  (fun p => p.1.1) <$> top_n_weighted_payouts ranked reward = solver <$> ranked.
Proof.
  intros Hne Hlen Hr am. unfold am, top_n_weighted_payouts. clear am.
  rewrite bool_decide_false by done.
  assert (0 < zlen ranked) as Hl.
  { destruct ranked; [done|]. rewrite zlen_cons. pose proof (zlen_nonneg ranked). lia. }
  destruct (total_weight_exact (zlen ranked) ltac:(lia)) as (-> & Ht1 & Ht2).
  set (total := zlen ranked * (zlen ranked + 1) / 2) in *.
  destruct (weighted_loop_spec ranked 0 (zlen ranked) total reward 0) as (ps & d & -> & Ham & Hsol & Hd & Hdr); try lia.
  assert (forall w, 0 <= w <= total -> 0 <= share reward total w <= reward) as Hsh.
  { intros w Hw. destruct (share_bound reward total w) as (_ & Hb & _); [done|lia|lia|exact Hb]. }
  destruct ranked as [|e rest]; [done|].
  destruct ps as [|[[who a] en] ps]; [done|].
  assert (a = share reward total (zlen (e :: rest))) as Ha.
  { apply (f_equal head) in Ham. simpl in Ham. by simplify_eq. }
  rewrite Z.max_r by lia.
  assert (u128_add a (reward - d) = a + (reward - d)) as Hadd.
  { unfold u128_add. apply sat_u_small. unfold in_u. pose proof (Hsh (zlen (e :: rest)) ltac:(lia)).
    assert (0 <= zsum (amounts ps)); [|unfold zsum, amounts in *; csimpl in *; lia].
    apply zsum_nonneg. apply (f_equal tail) in Ham. unfold amounts in Ham at 1. csimpl in Ham.
    unfold amounts. rewrite Ham. apply Forall_lookup. intros i x Hx. rewrite list_lookup_imap in Hx.
    destruct (rest !! i) eqn:Hi; simplify_eq/=. apply lookup_lt_Some in Hi.
    apply Hsh. unfold zlen in *. simpl in *. lia. }
  rewrite Hadd. unfold amounts in *. csimpl in *.
  assert (forall i x, ((fun p : payout => p.1.2) <$> ps) !! i = Some x ->
    x = share reward total (zlen (e :: rest) - Z.of_nat (S i)) /\ (S i < length (e :: rest))%nat) as Hrest.
  { intros i x Hx. apply (f_equal tail) in Ham. csimpl in Ham. rewrite Ham, list_lookup_imap in Hx.
    destruct (rest !! i) eqn:Hi; simplify_eq/=. split; [done|]. apply lookup_lt_Some in Hi. lia. }
  assert (forall v w, 0 <= v <= w -> w <= total -> share reward total v <= share reward total w) as Hmono.
  { intros v w Hv Hw. unfold share. pose proof (Z.mod_pos_bound reward total Ht2).
    pose proof (Z.div_pos reward total ltac:(lia) Ht2).
    assert (reward mod total * v / total <= reward mod total * w / total) by (apply Z.div_le_mono; nia). nia. }
  split_and!.
  - unfold zsum in *. simpl in *. lia.
  - constructor; [pose proof (Hsh (zlen (e :: rest)) ltac:(lia)); lia|].
    apply Forall_lookup. intros i x Hx. apply Hrest in Hx as [-> Hi]. apply Hsh. unfold zlen in *. lia.
  - intros i j x y Hij Hx Hy. destruct j as [|j]; [lia|]. simpl in Hy. apply Hrest in Hy as [-> Hj].
    destruct i as [|i]; simpl in Hx.
    + simplify_eq. assert (share reward total (zlen (e :: rest) - Z.of_nat (S j)) <= share reward total (zlen (e :: rest)));
        [apply Hmono; unfold zlen in *; lia|lia].
    + apply Hrest in Hx as [-> Hi]. apply Hmono; unfold zlen in *; lia.
  - intros [|i] x Hi Hx; [lia|]. simpl in Hx. apply Hrest in Hx as [-> _]. by apply share_div.
  - done.
Qed.

(** ** Ranking *)

Definition energy_le (a b : RankedSolver) : Prop := energy_milli a <= energy_milli b.

#[local] Lemma insert_ranked_perm e l : insert_ranked e l ≡ₚ e :: l.
Proof.
  induction l as [|x l IH]; simpl; [done|]. case_match; [done|]. rewrite IH. apply Permutation_swap.
Qed.

#[local] Lemma insert_ranked_sorted e l :
  StronglySorted energy_le l -> StronglySorted energy_le (insert_ranked e l).
Proof.
  induction 1 as [|x l Hs IH Hx]; simpl; [repeat constructor|]. case_match eqn:Hlt; bool_to_prop.
  - constructor; [by constructor|]. constructor; [unfold energy_le; lia|].
    eapply Forall_impl; [exact Hx|]. unfold energy_le. intros; lia.
  - constructor; [done|]. rewrite insert_ranked_perm. by constructor.
Qed.

Lemma sort_ranked_spec l : sort_ranked l ≡ₚ l /\ StronglySorted energy_le (sort_ranked l).
Proof.
  unfold sort_ranked.
  apply (foldl_prefix_ind (fun acc e => insert_ranked e acc)
    (fun pre acc => acc ≡ₚ pre /\ StronglySorted energy_le acc)); [split; [done|constructor]|].
  intros pre x acc _ [Hp Hs]. split; [|by apply insert_ranked_sorted].
  rewrite insert_ranked_perm, Hp. apply Permutation_cons_append.
Qed.

#[local] Lemma replace_ranked_None l c :
  replace_ranked l c = None -> solver c ∉ (solver <$> l).
Proof.
  induction l as [|x l IH]; csimpl; [set_solver|]. case_match eqn:Hx; [done|]. bool_to_prop.
  intros Hn%fmap_None. apply IH in Hn. set_solver.
Qed.

#[local] Lemma replace_ranked_Some l c next :
  replace_ranked l c = Some next ->
  exists l1 x l2, l = l1 ++ x :: l2 /\ solver x = solver c /\
    next = l1 ++ (if energy_milli c <? energy_milli x then c else x) :: l2.
Proof.
  revert next; induction l as [|x l IH]; intros next; simpl; [done|]. case_match eqn:Hx; bool_to_prop.
  - intros [= <-]. by exists [], x, l.
  - intros (n' & Hn & ->)%fmap_Some. apply IH in Hn as (l1 & y & l2 & -> & ? & ->). by exists (x :: l1), y, l2.
Qed.

(** [ranked] is the top [n] of the best energies [best]: sorted, one entry per
    solver, with that solver's best energy; a solver is left out only when [n]
    others are at least as good. *)
Record ranks (n : nat) (best : gmap Z Z) (ranked : list RankedSolver) : Prop := {
  rk_sorted : StronglySorted energy_le ranked;
  rk_distinct : NoDup (solver <$> ranked);
  rk_best : Forall (fun r => best !! solver r = Some (energy_milli r)) ranked;
  rk_bound : (length ranked <= n)%nat;
  rk_top : forall who e, best !! who = Some e ->
    who ∈ (solver <$> ranked) \/
    (length ranked = n /\ Forall (fun r => energy_milli r <= e) ranked)
}.

(** A ranking has as many entries as it can: [n], or every solver there is. *)
Lemma ranks_count n best ranked : ranks n best ranked -> length ranked = Nat.min n (size best).
Proof.
  intros [_ Hd Hb Hl Ht].
  assert (list_to_set (solver <$> ranked) ⊆ dom best) as Hsub.
  { intros w. rewrite elem_of_list_to_set. intros (r & -> & Hr)%list_elem_of_fmap.
    apply elem_of_dom. rewrite Forall_forall in Hb. eexists. by apply Hb. }
  assert (length ranked <= size best)%nat as Hle.
  { apply subseteq_size in Hsub. by rewrite size_list_to_set, size_dom, length_fmap in Hsub. }
  destruct (decide (length ranked = n)) as [Hn|Hne]; [lia|].
  assert (dom best ⊆ list_to_set (solver <$> ranked)) as Hsup.
  { intros w [e He]%elem_of_dom. apply elem_of_list_to_set. destruct (Ht w e He) as [?|[? _]]; done. }
  apply subseteq_size in Hsup. rewrite size_list_to_set, size_dom, length_fmap in Hsup by done. lia.
Qed.

Lemma ranks_nil n : ranks n ∅ [].
Proof.
  split; [constructor|constructor|constructor|simpl; lia|]. intros who e. by rewrite lookup_empty.
Qed.

#[local] Lemma sorted_take_drop n (l : list RankedSolver) x y :
  StronglySorted energy_le l -> x ∈ take n l -> y ∈ drop n l -> energy_milli x <= energy_milli y.
Proof.
  intros Hs. revert n. induction Hs as [|z l Hs IH Hz]; intros n Hx Hy.
  { destruct n; simpl in *; set_solver. }
  destruct n as [|n]; simpl in *; [set_solver|].
  apply elem_of_cons in Hx as [->|Hx]; [|by eapply IH].
  rewrite Forall_forall in Hz. apply Hz. rewrite <- (take_drop n l). set_solver.
Qed.

#[local] Lemma sorted_take n (l : list RankedSolver) :
  StronglySorted energy_le l -> StronglySorted energy_le (take n l).
Proof.
  intros Hs. revert n. induction Hs as [|z l Hs IH Hz]; intros [|n]; simpl; [constructor..|].
  constructor; [apply IH|]. by apply Forall_take.
Qed.

(** The best energies after [who] improved to [e]. *)
#[local] Lemma rk_best_insert (best : gmap Z Z) l who e :
  who ∉ (solver <$> l) -> Forall (fun r => best !! solver r = Some (energy_milli r)) l ->
  Forall (fun r => <[who := e]> best !! solver r = Some (energy_milli r)) l.
Proof.
  intros Hn Hf. rewrite Forall_forall in Hf |- *. intros r Hr. rewrite lookup_insert_ne; [by apply Hf|].
  intros ->. apply Hn. apply list_elem_of_fmap. eauto.
Qed.

(** An improvement of a solver already ranked. *)
#[local] Lemma update_ranked_present n best l1 x l2 who e :
  ranks n best (l1 ++ x :: l2) -> solver x = who -> e < energy_milli x ->
  ranks n (<[who := e]> best) (take n (sort_ranked (l1 ++ mkRankedSolver who e :: l2))).
Proof.
  intros [Hs Hd Hb Hn Ht] Hx He. set (c := mkRankedSolver who e).
  destruct (sort_ranked_spec (l1 ++ c :: l2)) as [Hp Hsort].
  assert (length (sort_ranked (l1 ++ c :: l2)) = length (l1 ++ x :: l2)) as Hl.
  { by rewrite Hp, !length_app. }
  rewrite take_ge by lia. rewrite <- Permutation_middle in Hd, Hb.
  rewrite fmap_cons, NoDup_cons in Hd. destruct Hd as [Hnin Hd]. rewrite Hx in Hnin.
  apply Forall_cons in Hb as [_ Hb].
  assert (sort_ranked (l1 ++ c :: l2) ≡ₚ c :: l1 ++ l2) as Hp'.
  { by rewrite Hp, <- Permutation_middle. }
  split; [done| | |by rewrite Hl|].
  - rewrite Hp', fmap_cons, NoDup_cons. done.
  - rewrite Hp'. constructor; [by rewrite lookup_insert_eq|]. by apply rk_best_insert.
  - intros w ew Hw. rewrite Hl. setoid_rewrite Hp'. rewrite fmap_cons.
    destruct (decide (w = who)) as [->|Hne]; [left; set_solver|].
    rewrite lookup_insert_ne in Hw by done. destruct (Ht w ew Hw) as [Hin|[Hfull Hall]].
    + left. rewrite <- Permutation_middle, fmap_cons, Hx in Hin. set_solver.
    + right. split; [done|]. rewrite <- Permutation_middle in Hall. apply Forall_cons in Hall as [Hxe Hall].
      constructor; [simpl; lia|done].
Qed.

(** A solver entering the ranking. *)
#[local] Lemma update_ranked_fresh n best ranked who e :
  (0 < n)%nat -> ranks n best ranked -> who ∉ (solver <$> ranked) ->
  ranks n (<[who := e]> best) (take n (sort_ranked (ranked ++ [mkRankedSolver who e]))).
Proof.
  intros Hn0 [Hs Hd Hb Hn Ht] Hnin. set (c := mkRankedSolver who e).
  destruct (sort_ranked_spec (ranked ++ [c])) as [Hp Hsort]. set (F := sort_ranked (ranked ++ [c])) in *.
  assert (F ≡ₚ c :: ranked) as HF by (rewrite Hp; symmetry; apply Permutation_cons_append).
  assert (NoDup (solver <$> F)) as HdF by (rewrite HF, fmap_cons, NoDup_cons; done).
  assert (Forall (fun r => <[who := e]> best !! solver r = Some (energy_milli r)) F) as HbF.
  { rewrite HF. constructor; [by rewrite lookup_insert_eq|]. by apply rk_best_insert. }
  assert (length F = S (length ranked)) as HlF by (by rewrite HF).
  split; [by apply sorted_take| |by apply Forall_take|rewrite length_take; lia|].
  { rewrite <- (take_drop n F), fmap_app in HdF. by apply NoDup_app in HdF as [? _]. }
  intros w ew Hw. rewrite length_take, HlF.
  destruct (decide (w ∈ (solver <$> take n F))) as [|Hout]; [by left|right].
  assert (w ∈ (solver <$> F) -> length ranked = n /\ Forall (fun r => energy_milli r <= ew) (take n F)) as HinF.
  { intros Hin. rewrite <- (take_drop n F), fmap_app in Hin. apply elem_of_app in Hin as [?|Hin]; [done|].
    apply list_elem_of_fmap in Hin as (y & -> & Hy).
    split; [assert (n < length F)%nat; [|lia]|].
    { apply list_elem_of_lookup in Hy as [i Hy]. apply lookup_lt_Some in Hy. rewrite length_drop in Hy. lia. }
    apply Forall_forall. intros r Hr. assert (y ∈ F) as HyF by (rewrite <- (take_drop n F); set_solver).
    rewrite Forall_forall in HbF. rewrite (HbF y HyF) in Hw. simplify_eq. by eapply sorted_take_drop. }
  destruct (decide (w = who)) as [->|Hne].
  { destruct HinF as [-> ?]; [rewrite HF, fmap_cons; set_solver|]. split; [lia|done]. }
  rewrite lookup_insert_ne in Hw by done. destruct (Ht w ew Hw) as [Hin|[Hfull Hall]].
  { destruct HinF as [-> ?]; [rewrite HF, fmap_cons; set_solver|]. split; [lia|done]. }
  split; [lia|]. clear HinF. apply Forall_forall. intros r Hr.
  assert (r ∈ c :: ranked) as [->|Hrr]%elem_of_cons; [rewrite <- HF, <- (take_drop n F); set_solver| |].
  2: { rewrite Forall_forall in Hall. by apply Hall. }
  assert (exists z, z ∈ drop n F) as [z Hz].
  { destruct (drop n F) as [|z ?] eqn:Hdrop; [|set_solver]. apply (f_equal length) in Hdrop.
    rewrite length_drop in Hdrop. simpl in Hdrop. lia. }
  pose proof (sorted_take_drop n F c z Hsort Hr Hz) as Hcz.
  assert (z ∈ c :: ranked) as [->|Hzr]%elem_of_cons; [rewrite <- HF, <- (take_drop n F); set_solver| |].
  - exfalso. rewrite <- (take_drop n F), fmap_app in HdF. apply NoDup_app in HdF as (_ & Hdis & _).
    apply (Hdis who); apply list_elem_of_fmap; exists c; done.
  - rewrite Forall_forall in Hall. specialize (Hall z Hzr). lia.
Qed.

(** Updating the ranking with a solver's first or strictly better energy gives
    the top [n] of the updated energies. *)
Lemma update_ranked_solvers_ranks n best ranked who e :
  (0 < n)%nat -> ranks n best ranked -> (forall old, best !! who = Some old -> e < old) ->
  ranks n (<[who := e]> best) (update_ranked_solvers ranked (mkRankedSolver who e) n).
Proof.
  intros Hn Hr Himp. unfold update_ranked_solvers, merge_candidate.
  destruct (replace_ranked ranked (mkRankedSolver who e)) as [next|] eqn:Hrep.
  - apply replace_ranked_Some in Hrep as (l1 & x & l2 & -> & Hx & ->). simpl in *.
    assert (e < energy_milli x) as Hlt.
    { apply Himp. destruct Hr as [_ _ Hb _ _]. rewrite Forall_forall in Hb.
      rewrite <- Hx. apply Hb. set_solver. }
    rewrite (proj2 (Z.ltb_lt _ _)) by done. by eapply update_ranked_present.
  - apply replace_ranked_None in Hrep. by apply update_ranked_fresh.
Qed.

(** ** Best-anchored selection *)

(** Selection that starts from [best] and keeps adding a farthest candidate. *)
Inductive greedy_from (D : nat -> nat -> Z) (n best : nat) : list nat -> Prop :=
  | greedy_from_best : (best < n)%nat -> greedy_from D n best [best]
  | greedy_from_add sel x :
      greedy_from D n best sel -> (x < n)%nat -> x ∉ sel ->
      (forall c, (c < n)%nat -> c ∉ sel -> min_dist D sel c <= min_dist D sel x) ->
      greedy_from D n best (sel ++ [x]).

Lemma greedy_from_NoDup D n best sel :
  greedy_from D n best sel -> NoDup sel /\ Forall (fun i => i < n)%nat sel /\ head sel = Some best.
Proof.
  induction 1 as [Hb|sel x _ (Hnd & Hlt & Hh) Hx Hfresh _].
  - split_and!; [apply NoDup_singleton|by apply Forall_singleton|done].
  - split_and!; [|apply Forall_app; split; [done|by constructor]|by destruct sel].
    apply NoDup_app. split_and!; [done|set_solver|apply NoDup_singleton].
Qed.

(** Distance of two members of the list, in argument order. *)
Definition sol_dist (solutions : list (list Z)) (i j : nat) : Z :=
  symmetric_hamming_validated (solutions !!! i) (solutions !!! j).

#[local] Lemma symmetric_hamming_valid k solutions i j a b :
  solution_set k solutions -> solutions !! i = Some a -> solutions !! j = Some b ->
  symmetric_hamming a b = Ok (sol_dist solutions i j).
Proof.
  intros Hs Hi Hj. unfold sol_dist. rewrite (list_lookup_total_correct _ _ _ Hi), (list_lookup_total_correct _ _ _ Hj).
  destruct (Forall_lookup_1 _ _ _ _ Hs Hi) as [Hla Hva]. destruct (Forall_lookup_1 _ _ _ _ Hs Hj) as [Hlb Hvb].
  unfold symmetric_hamming. rewrite Hla, Hlb, Z.eqb_refl. simpl.
  by rewrite (proj2 (ensure_valid_spins_Ok a) Hva), (proj2 (ensure_valid_spins_Ok b) Hvb).
Qed.

#[local] Lemma vec_set_lt {E A} (l : list A) i v :
  (i < length l)%nat -> @vec_set E A l i v = Ok (<[i := v]> l).
Proof. intros Hi. unfold vec_set. by rewrite (proj2 (Nat.ltb_lt _ _)). Qed.

#[local] Definition scan_inv (D : nat -> nat -> Z) (n : nat) (pre : list nat) (l k : nat)
    (acc : list Z * option nat) : Prop :=
  length acc.1 = n /\
  (forall i, (i < n)%nat -> i ∉ pre ++ [l] ->
     acc.1 !! i = Some (min_dist D (if (i <? k)%nat then pre ++ [l] else pre) i)) /\
  match acc.2 with
  | None => forall i, (i < k)%nat -> i ∈ pre ++ [l]
  | Some x => (x < k)%nat /\ x ∉ pre ++ [l] /\
      forall c, (c < k)%nat -> c ∉ pre ++ [l] -> min_dist D (pre ++ [l]) c <= min_dist D (pre ++ [l]) x
  end.

#[local] Lemma scan_step k solutions pre l c (chosen : list bool) distances next ls :
  solution_set k solutions -> solutions !! l = Some ls -> (c < length solutions)%nat ->
  c ∉ pre ++ [l] -> chosen !! c = Some false ->
  scan_inv (sol_dist solutions) (length solutions) pre l c (distances, next) ->
  exists d spins, distances !! c = Some d /\ solutions !! c = Some spins /\
    symmetric_hamming spins ls = Ok (sol_dist solutions c l) /\
    d = min_dist (sol_dist solutions) pre c /\
    let distances' := <[c := min_dist (sol_dist solutions) (pre ++ [l]) c]> distances in
    length distances' = length solutions /\
    (forall i, (i < length solutions)%nat -> i ∉ pre ++ [l] ->
       distances' !! i = Some (min_dist (sol_dist solutions) (if (i <? S c)%nat then pre ++ [l] else pre) i)).
Proof.
  intros Hs Hl Hc Hni Hch (Hlen & Hd & _). simpl in *. specialize (Hd c Hc Hni) as Hdc.
  rewrite Nat.ltb_irrefl in Hdc. destruct (lookup_lt_is_Some_2 solutions c Hc) as [spins Hsp].
  eexists _, spins. split_and!; [exact Hdc|done|by eapply symmetric_hamming_valid|done|by rewrite length_insert|].
  intros i Hi Hii. destruct (decide (i = c)) as [->|Hne].
  - rewrite list_lookup_insert_eq by lia. by rewrite (proj2 (Nat.ltb_lt c (S c))) by lia.
  - rewrite list_lookup_insert_ne by done. rewrite Hd by done.
    destruct (i <? c)%nat eqn:?, (i <? S c)%nat eqn:?; try done; rewrite ?Nat.ltb_lt, ?Nat.ltb_ge in *; lia.
Qed.

#[local] Lemma scan_candidates_Ok k solutions pre l ls chosen distances :
  let n := length solutions in
  let D := sol_dist solutions in
  solution_set k solutions -> solutions !! l = Some ls ->
  length chosen = n -> (forall i, (i < n)%nat -> chosen !! i = Some (bool_decide (i ∈ pre ++ [l]))) ->
  length distances = n -> (forall i, (i < n)%nat -> i ∉ pre ++ [l] -> distances !! i = Some (min_dist D pre i)) ->
  exists acc, scan_candidates solutions ls chosen distances = Ok acc /\ scan_inv D n pre l n acc.
Proof.
  intros n D Hs Hl Hcl Hch Hdl Hd. unfold scan_candidates.
  match goal with |- context [rfold ?f _ _] =>
    destruct (rfold_seq_ind f (scan_inv D n pre l) 0 n (distances, None)) as (acc & Hr & HP) end; [| |eauto].
  - intros c [ds next] Hc Hinv. rewrite Hch by lia. simpl. case_bool_decide as Hsel.
    { exists (ds, next). split; [done|]. destruct Hinv as (H1 & H2 & H3). simpl in *. split_and!; [done| |].
      - intros i Hi Hii. rewrite H2 by done. assert (i <> c) by naive_solver.
        destruct (i <? c)%nat eqn:?, (i <? S c)%nat eqn:?; try done; rewrite ?Nat.ltb_lt, ?Nat.ltb_ge in *; lia.
      - destruct next as [x|]; simpl in *.
        + destruct H3 as (? & ? & H3). split_and!; [lia|done|]. intros i Hi Hii. apply H3; [|done].
          destruct (decide (i = c)); [naive_solver|lia].
        + intros i Hi. destruct (decide (i = c)) as [->|]; [done|]. apply H3. lia. }
    destruct (scan_step k solutions pre l c chosen ds next ls) as (d & spins & Hdc & Hsp & Hsh & -> & Hl' & Hd');
      [done|done|lia|done|by rewrite Hch, bool_decide_false by (done || lia)|done|].
    rewrite Hdc, Hsp. simpl. rewrite Hsh. simpl. destruct Hinv as (H1 & _ & H3). simpl in H1, H3.
    rewrite vec_set_lt by (rewrite H1; lia). simpl. fold D. rewrite <- min_dist_snoc.
    set (ds' := <[c := _]> ds) in *. destruct next as [x|].
    + destruct H3 as (Hxc & Hxn & H3). rewrite Hd', (Hd' x) by (done || lia).
      rewrite (proj2 (Nat.ltb_lt c (S c))), (proj2 (Nat.ltb_lt x (S c))) by lia. simpl.
      destruct (min_dist (sol_dist solutions) (pre ++ [l]) x <? min_dist (sol_dist solutions) (pre ++ [l]) c) eqn:Hcmp;
        bool_to_prop; eexists; (split; [done|]); (split_and!; [done|done|]); simpl; (split_and!; [lia|done|]);
        intros i Hi Hii; (destruct (decide (i = c)) as [->|]; [unfold D in *; lia|]);
        specialize (H3 i ltac:(lia) Hii); unfold D in *; lia.
    + eexists; split; [done|]. split_and!; [done|done|]. simpl. split_and!; [lia|done|].
      intros i Hi Hii. destruct (decide (i = c)) as [->|]; [lia|]. exfalso. apply Hii, H3. lia.
  - split_and!; [done|intros i Hi Hii; by apply Hd|simpl; lia].
Qed.

#[local] Lemma select_from_best_loop_Ok k solutions best missing pre l chosen distances :
  let n := length solutions in
  let D := sol_dist solutions in
  solution_set k solutions -> greedy_from D n best (pre ++ [l]) ->
  (length (pre ++ [l]) + missing <= n)%nat ->
  length chosen = n -> (forall i, (i < n)%nat -> chosen !! i = Some (bool_decide (i ∈ pre ++ [l]))) ->
  length distances = n -> (forall i, (i < n)%nat -> i ∉ pre ++ [l] -> distances !! i = Some (min_dist D pre i)) ->
  exists sel, select_from_best_loop missing solutions (pre ++ [l]) chosen distances = Ok sel /\
    greedy_from D n best sel /\ length sel = (length (pre ++ [l]) + missing)%nat.
Proof.
  intros n D Hs. revert pre l chosen distances.
  induction missing as [|missing IH]; intros pre l chosen distances Hg Hle Hcl Hch Hdl Hd; simpl.
  { exists (pre ++ [l]). split_and!; [done|done|lia]. }
  destruct (greedy_from_NoDup _ _ _ _ Hg) as (Hnd & Hlt & _).
  rewrite last_snoc. simpl. apply Forall_app in Hlt as [_ Hl]. rewrite Forall_singleton in Hl.
  destruct (lookup_lt_is_Some_2 solutions l Hl) as [ls Hls]. rewrite Hls. simpl.
  destruct (scan_candidates_Ok k solutions pre l ls chosen distances) as ([ds next] & -> & Hl1 & Hd1 & Hn1); [done..|].
  simpl in *. destruct next as [x|]; simpl.
  2: { exfalso. assert (n <= length (pre ++ [l]))%nat; [|lia].
       rewrite <- (length_seq n 0). apply NoDup_incl_length; [apply NoDup_ListNoDup, NoDup_seq|].
       intros i Hi%list_elem_of_In%elem_of_seq. apply list_elem_of_In, Hn1. lia. }
  destruct Hn1 as (Hx & Hxn & Hmax). rewrite vec_set_lt by lia. simpl.
  destruct (IH (pre ++ [l]) x (<[x := true]> chosen) ds) as (sel & Hsel & Hgs & Hls').
  - by constructor.
  - rewrite (length_app (pre ++ [l])). simpl. lia.
  - by rewrite length_insert.
  - intros i Hi. destruct (decide (i = x)) as [->|Hne].
    + rewrite list_lookup_insert_eq by lia. rewrite bool_decide_true; [done|set_solver].
    + rewrite list_lookup_insert_ne by done. rewrite Hch by done. f_equal. apply bool_decide_ext. set_solver.
  - done.
  - intros i Hi Hii. rewrite Hd1 by (done || set_solver). by rewrite (proj2 (Nat.ltb_lt i _)).
  - exists sel. split_and!; [exact Hsel|done|]. rewrite Hls', length_app. simpl. lia.
Qed.

(** On a valid set the selection keeps the best solution, adds farthest
    candidates greedily, and returns [max(target, 1)] of them (or all). *)
Lemma select_from_best_total k solutions best target :
  solution_set k solutions -> (best < length solutions)%nat ->
  exists sel, select_from_best solutions best target = Ok sel /\
    greedy_from (sol_dist solutions) (length solutions) best sel /\
    length sel = Nat.min (Nat.max target 1) (length solutions).
Proof.
  intros Hs Hb. unfold select_from_best. rewrite vec_set_lt by (rewrite length_replicate; done). simpl.
  destruct (select_from_best_loop_Ok k solutions best (Nat.min (Nat.max target 1) (length solutions) - 1) [] best
    (<[best := true]> (replicate (length solutions) false)) (replicate (length solutions) (2 ^ 32 - 1)))
    as (sel & Hsel & Hg & Hl); try done.
  - by constructor.
  - simpl. lia.
  - by rewrite length_insert, length_replicate.
  - intros i Hi. destruct (decide (i = best)) as [->|Hne].
    + rewrite list_lookup_insert_eq by (rewrite length_replicate; lia). rewrite bool_decide_true; [done|set_solver].
    + rewrite list_lookup_insert_ne, lookup_replicate_2 by done. rewrite bool_decide_false; [done|set_solver].
  - apply length_replicate.
  - intros i Hi _. by rewrite lookup_replicate_2.
  - exists sel. split_and!; [exact Hsel|done|]. simpl in Hl. lia.
Qed.
