(* ===== verification/Mempool.v ===== *)
(** * The quantum compute mempool pallet

    Models [pallets/quantum-compute-mempool/src/lib.rs]: storage as one record,
    every call and hook as a function on it.  The wired [QuantumVm], the
    currency, the hash of a job spec and the iteration order of a storage
    prefix come from outside the pallet and are parameters.  Dispatch weights
    are not modelled. *)

From S2P Require Import Prelude Validation Energy Diversity SolutionReport Frame MempoolCore.

(** [enum Error] *)
Inductive MempoolError :=
  | SolverAlreadyRegistered | SolverNotRegistered | JobSpecAlreadyExists | JobSpecNotFound
  | OrderNotFound | OrderNotOpen | NotEligibleSolver | InvalidSpinValues | MpSolutionLengthMismatch
  | InsufficientEnergy | InsufficientDiversity | InsufficientSolutions | NoSolutionsSubmitted
  | RewardTooLow | TooManySolutions | OrderLimitReached | InvalidDeliveryMode | InvalidTopology
  | InvalidRewardResolution | EmptyBidCriteria | DeadlineTooLong | BlockWaitTooLong
  | OrderNotExpired | NotProposer | NotWinner | AlreadyClaimed | NoSolutionsAccepted
  | ResultNotFound | ResultTtlNotElapsed | InvalidDiversityConfig | SolutionNotImproved
  | RewardReserveMissing | InvalidPayeeChain | PayeeRequired | InvalidPayee | PayeeChainMismatch
  | VmProgramNotFound | VmBadBytecode | VmVerificationFailed | VmOutputType | VmOutputLength
  | VmOutputSpin | VmExecutionFailed | VmStepLimitExceeded | VmMemoryLimitExceeded.

#[global] Instance MempoolError_eq_dec : EqDecision MempoolError.
Proof. solve_decision. Defined.

(** [enum Event] *)
Inductive MempoolEvent :=
  | SolverRegistered (who : AccountId) (ty : MinerType)
  | SolverDeregistered (who : AccountId)
  | JobSpecRegistered (id : H256) (who : AccountId)
  | JobProposed (order_id : Z) (id : H256) (who : AccountId) (amount : Balance)
      (deadline wait : BlockNumber)
  | SolutionAccepted (order_id : Z) (who : AccountId) (energy diversity : Z)
  | FirstSolutionReceived (order_id : Z) (who : AccountId) (expiry : BlockNumber)
  | BlockWaitStarted (order_id : Z) (first closes_at : BlockNumber)
  | FrontRunnerChanged (order_id : Z) (who : AccountId) (energy : Z)
  | OrderExpired (order_id : Z)
  | RewardClaimed (order_id : Z) (who : AccountId) (amount : Balance)
  | RewardReclaimed (order_id : Z) (who : AccountId) (amount : Balance)
  | OrderClosed (order_id : Z) (successful : bool)
  | ResultPurged (order_id : Z)
  | ResultReady (order_id : Z) (endpoint : list Z) (winners : list WinnerSummary)
  | PayeeRequirementSet (order_id : Z) (chain : Z)
  | SolutionPayeeSet (order_id : Z) (who : AccountId) (payee : option WinnerPayee).

Abbreviation mresult := (result (DispatchError MempoolError)).

(** [trait Config] *)
Record MempoolConfig := mkMempoolConfig {
  MaxNodes : Z;
  MaxSolutions : Z;
  MaxOrdersPerProposer : Z;
  MaxDeadlineBlocks : BlockNumber;
  MaxBlockWait : BlockNumber;
  MinReward : Balance;
  ResultTtlBlocks : BlockNumber;
  DefaultJobSpecBuilder : AccountId;
  default_ising_spec_name : list Z
}.

(** [trait QuantumVm]: program validation, the per-submission transform (with
    the steps it used) and the settlement hook. *)
Class QuantumVm := {
  vm_validate_programs : option H256 -> option H256 -> mresult unit;
  vm_transform_solutions : H256 -> option H256 -> option H256 -> AccountId -> list (list Z) ->
    mresult (list (list Z)) * Z;
  vm_validate_result : H256 -> option H256 -> option H256 -> list WinnerSummary -> mresult unit
}.

(** The spec hash, and the order in which a storage prefix is iterated. *)
Class MempoolPrims := {
  spec_hash : list Z -> Formulation -> option H256 -> option H256 -> H256;
  bucket_order : gset Z -> list Z
}.

(** Iteration visits every key once. *)
Class MempoolPrimsLaws `{MempoolPrims} :=
  bucket_order_perm : forall X, bucket_order X ≡ₚ elements X.

Section Mempool.
Context `{QuantumVm, MempoolPrims} {W : Type} `{Currency W}.
Context (cfg : MempoolConfig).

Record MempoolState := mkMempoolState {
  JobSpecs : gmap H256 JobSpec;
  JobOrders : gmap Z JobOrder;
  NextOrderId : Z;
  OpenOrders : gset Z;
  OrdersExpiringAt : gmap BlockNumber (gset Z);
  NextExpiryBucket : BlockNumber;
  OrderSolutions : gmap (Z * AccountId) JobSolution;
  OrderPayeeRequirements : gmap Z Z;
  OrderPayees : gmap (Z * AccountId) WinnerPayee;
  OrderFrontRunner : gmap Z FrontRunner;
  OrderTopSolvers : gmap Z (list RankedSolver);
  Solvers : gmap AccountId SolverInfo;
  ProposerOrders : gmap AccountId (list Z);
  OrderResults : gmap Z StoredResult;
  block_number : BlockNumber;
  world : W;
  events : list MempoolEvent
}.
#[export] Instance MempoolState_expansion : Expansion MempoolState := fun r =>
  mkMempoolState (JobSpecs r) (JobOrders r) (NextOrderId r) (OpenOrders r) (OrdersExpiringAt r)
    (NextExpiryBucket r) (OrderSolutions r) (OrderPayeeRequirements r) (OrderPayees r)
    (OrderFrontRunner r) (OrderTopSolvers r) (Solvers r) (ProposerOrders r) (OrderResults r)
    (block_number r) (world r) (events r).

Implicit Types s : MempoolState.

Definition deposit_event (e : MempoolEvent) s : MempoolState := s <| events $= (.++ [e]) |>.

(** ** Helpers *)

Definition top_solvers (order_id : Z) s : list RankedSolver :=
  default [] (OrderTopSolvers s !! order_id).

Definition proposer_orders (who : AccountId) s : list Z := default [] (ProposerOrders s !! who).

Definition orders_at (bucket : BlockNumber) s : gset Z := default ∅ (OrdersExpiringAt s !! bucket).

Definition insert_expiry (bucket : BlockNumber) (order_id : Z) s : MempoolState :=
  s <| OrdersExpiringAt $= <[bucket := {[order_id]} ∪ orders_at bucket s]> |>.
Definition remove_expiry (bucket : BlockNumber) (order_id : Z) s : MempoolState :=
  s <| OrdersExpiringAt $= <[bucket := orders_at bucket s ∖ {[order_id]}]> |>.

Definition expiry_bucket (expiry : BlockNumber) s : BlockNumber :=
  Z.max expiry (bn_add (block_number s) 1).

Definition schedule_expiry (order_id : Z) (expiry : BlockNumber) s : MempoolState :=
  insert_expiry (expiry_bucket expiry s) order_id s.

Definition job_spec_id : list Z -> Formulation -> option H256 -> option H256 -> H256 := spec_hash.

Definition insert_job_spec (who : AccountId) (name : list Z) (f : Formulation)
    (validation transform : option H256) (at_block : BlockNumber) (emit_event : bool) s
    : mresult (MempoolState * H256) :=
  let id := job_spec_id name f validation transform in
  require (bool_decide (JobSpecs s !! id = None)) JobSpecAlreadyExists;;?
  vm_validate_programs validation transform;;?
  let s := s <| JobSpecs $= <[id := mkJobSpec who name f validation transform at_block 0 0]> |> in
  let s := if emit_event then deposit_event (JobSpecRegistered id who) s else s in
  Ok (s, id).

Definition insert_default_ising_spec (who : AccountId) (emit_event : bool) s
    : mresult (MempoolState * H256) :=
  insert_job_spec who (default_ising_spec_name cfg) IsingFormulation None None (block_number s)
    emit_event s.

Definition release_proposer_slot (who : AccountId) (order_id : Z) s : MempoolState :=
  match ProposerOrders s !! who with
  | None => s
  | Some ids =>
      let ids := filter (fun id => id <> order_id) ids in
      if bool_decide (ids = []) then s <| ProposerOrders $= delete who |>
      else s <| ProposerOrders $= <[who := ids]> |>
  end.

Definition ensure_valid_mode (m : JobMode) : mresult unit :=
  match m with
  | Open => Ok tt
  | Bid miners miner_types =>
      require (bool_decide (is_Some miners) || bool_decide (is_Some miner_types)) EmptyBidCriteria
  end.

Definition ensure_valid_resolution (r : RewardResolution) : mresult unit :=
  match r with
  | SingleBest => Ok tt
  | TopNWeighted n | TopNEqual n =>
      require ((0 <? n) && (n <=? MAX_REWARD_WINNERS)) InvalidRewardResolution
  end.

Definition solver_is_eligible (who : AccountId) (ty : MinerType) (m : JobMode) : bool :=
  match m with
  | Open => true
  | Bid miners miner_types =>
      let account_match := match miners with
        | Some allowed => bool_decide (who ∈ allowed) | None => false end in
      let type_match := match miner_types with
        | Some allowed => bool_decide (ty ∈ allowed) | None => false end in
      account_match || type_match
  end.

Definition map_validation_error (e : ValidationError) : DispatchError MempoolError :=
  match e with
  | InvalidSpinValue _ _ => Module InvalidSpinValues
  | SolutionLengthMismatch _ _ => Module MpSolutionLengthMismatch
  | _ => Module InvalidTopology
  end.

Definition update_ranking (order_id : Z) (r : RewardResolution) (who : AccountId) (best_energy : Z) s
    : mresult MempoolState :=
  match r with
  | SingleBest =>
      let should_replace := match OrderFrontRunner s !! order_id with
        | Some entry => best_energy <? fr_energy_milli entry | None => true end in
      if should_replace then
        let s := s <| OrderFrontRunner $= <[order_id := mkFrontRunner who best_energy]> |> in
        Ok (deposit_event (FrontRunnerChanged order_id who best_energy) s)
      else Ok s
  | TopNWeighted n | TopNEqual n =>
      let current := top_solvers order_id s in
      let front l := (fun e => (solver e, energy_milli e)) <$> head l in
      let updated := update_ranked_solvers current (mkRankedSolver who best_energy) (Z.to_nat n) in
      require (zlen updated <=? MAX_REWARD_WINNERS) InvalidRewardResolution;;?
      let s := s <| OrderTopSolvers $= <[order_id := updated]> |> in
      if bool_decide (front current = front updated) then Ok s
      else match front updated with
           | Some (leader, energy) => Ok (deposit_event (FrontRunnerChanged order_id leader energy) s)
           | None => Ok s
           end
  end.

Definition compute_payouts (order_id : Z) (order : JobOrder) s : mresult (list payout) :=
  match resolution order with
  | SingleBest =>
      front <-? some_or (OrderFrontRunner s !! order_id) NoSolutionsAccepted;;
      Ok (single_best_payouts front (reward order))
  | TopNEqual _ =>
      let ranked := top_solvers order_id s in
      require (negb (bool_decide (ranked = []))) NoSolutionsAccepted;;?
      Ok (top_n_equal_payouts ranked (reward order))
  | TopNWeighted _ =>
      let ranked := top_solvers order_id s in
      require (negb (bool_decide (ranked = []))) NoSolutionsAccepted;;?
      Ok (top_n_weighted_payouts ranked (reward order))
  end.

(** [try_into().expect(..)] panics above the winner bound. *)
Definition winner_summaries_from_payouts (payouts : list payout) : mresult (list WinnerSummary) :=
  if zlen payouts <=? MAX_REWARD_WINNERS then
    Ok ((fun p => mkWinnerSummary p.1.1 p.2 p.1.2) <$> payouts)
  else Panic.

Definition emit_result_ready (order_id : Z) (d : ResultDelivery) (winners : list WinnerSummary) s
    : MempoolState :=
  match d with
  | OnChainOnly => s
  | Callback endpoint | CallbackWithPoll endpoint =>
      deposit_event (ResultReady order_id endpoint winners) s
  end.

Definition persist_result_if_needed (order_id : Z) (order : JobOrder) (winners : list WinnerSummary) s
    : MempoolState :=
  match delivery order with
  | CallbackWithPoll endpoint =>
      s <| OrderResults $= <[order_id :=
             mkStoredResult endpoint (resolution order) (block_number s) winners]> |>
  | OnChainOnly | Callback _ => s
  end.

(** ** Hooks *)

Definition finalise_order (order_id : Z) s : mresult MempoolState :=
  match JobOrders s !! order_id with
  | None => Ok s
  | Some order =>
      if negb (bool_decide (status order = Opened)) then Ok s else
      let order := order <| status := Expired |> in
      let s := s <| JobOrders $= <[order_id := order]> |> in
      let s := s <| OpenOrders $= (.∖ {[order_id]}) |> in
      let s := deposit_event (OrderExpired order_id) s in
      if solution_count order =? 0 then Ok s else
      match compute_payouts order_id order s with
      | Ok payouts =>
          winners <-? winner_summaries_from_payouts payouts;;
          let s := persist_result_if_needed order_id order winners s in
          Ok (emit_result_ready order_id (delivery order) winners s)
      | Err _ => Ok s
      | Panic => Panic
      end
  end.

(** The [while] loop of [finalise_expired_orders]; [bucket_budget] decreases in
    every iteration, so the recursion is on it. *)
Fixpoint finalise_loop (bucket_budget : nat) (now order_budget : Z) (bucket : BlockNumber)
    (finalised buckets_visited : Z) s : mresult (MempoolState * BlockNumber * Z * Z) :=
  match bucket_budget with
  | O => Ok (s, bucket, finalised, buckets_visited)
  | S bucket_budget =>
      if (bucket <=? now) && (0 <? order_budget) then
        let order_ids := take (Z.to_nat order_budget) (bucket_order (orders_at bucket s)) in
        let taken := zlen order_ids in
        s <-? rfold (fun s order_id =>
            let s := remove_expiry bucket order_id s in
            finalise_order order_id s) s order_ids;;
        let finalised := u32_add finalised taken in
        let buckets_visited := u64_add buckets_visited 1 in
        if taken =? order_budget then Ok (s, bucket, finalised, buckets_visited)
        else finalise_loop bucket_budget now (Z.max 0 (order_budget - taken)) (bn_add bucket 1)
               finalised buckets_visited s
      else Ok (s, bucket, finalised, buckets_visited)
  end.

Definition finalise_expired_orders (now : BlockNumber) s : mresult (MempoolState * Z * Z) :=
  r <-? finalise_loop (Z.to_nat MAX_FINALISED_ORDERS_PER_BLOCK) now
          MAX_FINALISED_ORDERS_PER_BLOCK (NextExpiryBucket s) 0 0 s;;
  let '(s, bucket, finalised, buckets_visited) := r in
  Ok (s <| NextExpiryBucket := bucket |>, finalised, buckets_visited).

Definition on_initialize (now : BlockNumber) s : mresult MempoolState :=
  r <-? finalise_expired_orders now s;;
  Ok r.1.1.

(** [index_open_orders_for_expiry], the v2 to v3 migration step. *)
Definition index_open_orders_for_expiry s : MempoolState :=
  let s' := foldl (fun s order_id =>
    match JobOrders s !! order_id with
    | None => s
    | Some order =>
        if negb (bool_decide (status order = Opened)) then s
        else schedule_expiry order_id
               (effective_expiry (created_at order) (first_solution_at order) (timing order)) s
    end) s (bucket_order (OpenOrders s)) in
  s' <| NextExpiryBucket := bn_add (block_number s) 1 |>.

(** [GenesisConfig::build]; [None] keeps genesis empty. *)
Definition genesis_build (default_ising_spec_builder : option AccountId) s : mresult MempoolState :=
  match default_ising_spec_builder with
  | None => Ok s
  | Some who => match insert_default_ising_spec who false s with Ok r => Ok r.1 | _ => Panic end
  end.

(** Clearing the pallet's storage prefix. *)
Definition clear_prefix s : MempoolState :=
  mkMempoolState ∅ ∅ 0 ∅ ∅ 0 ∅ ∅ ∅ ∅ ∅ ∅ ∅ ∅ (block_number s) (world s) (events s).

(** [on_runtime_upgrade]: the on-chain storage version with the state.  A
    failed reseed is only logged. *)
Definition STORAGE_VERSION : Z := 4.
Definition on_runtime_upgrade (on_chain : Z) s : Z * MempoolState :=
  if STORAGE_VERSION <=? on_chain then (on_chain, s) else
  let s :=
    if on_chain <? 2 then
      let s := clear_prefix s in
      match insert_default_ising_spec (DefaultJobSpecBuilder cfg) false s with Ok r => r.1 | _ => s end
    else s in
  let s := if on_chain <? 3 then index_open_orders_for_expiry s else s in
  (STORAGE_VERSION, s).

(** ** Calls *)

Definition register_solver (origin : Origin) (ty : MinerType) s : mresult MempoolState :=
  who <-? ensure_signed origin;;
  require (bool_decide (Solvers s !! who = None)) SolverAlreadyRegistered;;?
  let s := s <| Solvers $= <[who := mkSolverInfo who ty (block_number s) 0 0]> |> in
  Ok (deposit_event (SolverRegistered who ty) s).

Definition deregister_solver (origin : Origin) s : mresult MempoolState :=
  who <-? ensure_signed origin;;
  require (bool_decide (is_Some (Solvers s !! who))) SolverNotRegistered;;?
  let s := s <| Solvers $= delete who |> in
  Ok (deposit_event (SolverDeregistered who) s).

Definition register_job_spec (origin : Origin) (who : AccountId) (name : list Z) (f : Formulation)
    (validation transform : option H256) s : mresult MempoolState :=
  ensure_root origin;;?
  r <-? insert_job_spec who name f validation transform (block_number s) true s;;
  Ok r.1.

Definition do_propose_job (who : AccountId) (id : H256) (params : IsingParams) (amount : Balance)
    (m : JobMode) (r : RewardResolution) (deadline wait : BlockNumber) (d : ResultDelivery) s
    : mresult (MempoolState * Z) :=
  require (MinReward cfg <=? amount) RewardTooLow;;?
  require (deadline <=? MaxDeadlineBlocks cfg) DeadlineTooLong;;?
  require (wait <=? MaxBlockWait cfg) BlockWaitTooLong;;?
  require (bool_decide (is_Some (JobSpecs s !! id))) JobSpecNotFound;;?
  match p_min_solutions params with
  | Some n => require (n <=? MaxSolutions cfg) TooManySolutions
  | None => Ok tt
  end;;?
  (if 0 <? default 0 (p_min_diversity_milli params)
   then require (match p_min_solutions params with Some n => 2 <=? n | None => true end)
          InvalidDiversityConfig
   else Ok tt);;?
  require (bool_decide (validate_topology_consistency (p_nodes params) (p_edges params)
    (p_h_values params) (p_j_values params) None None = [])) InvalidTopology;;?
  require (validate_delivery_mode d m) InvalidDeliveryMode;;?
  ensure_valid_mode m;;?
  ensure_valid_resolution r;;?
  let ids := proposer_orders who s in
  require (zlen ids <? MaxOrdersPerProposer cfg) OrderLimitReached;;?
  let ids := ids ++ [NextOrderId s] in
  w <-? ok_or (reserve (world s) who amount) CurrencyError;;
  let s := s <| world := w |> in
  let order_id := NextOrderId s in
  let s := s <| NextOrderId := u64_add order_id 1 |> in
  let now := block_number s in
  let s := s <| JobOrders $= <[order_id := mkJobOrder id who params amount m r
    (mkOrderTiming deadline wait) d Opened now None 0]> |> in
  let s := s <| OpenOrders $= ({[order_id]} ∪.) |> in
  let s := schedule_expiry order_id (bn_add now deadline) s in
  let s := s <| ProposerOrders $= <[who := ids]> |> in
  let s := match JobSpecs s !! id with
    | Some spec => s <| JobSpecs $= <[id := spec <| total_orders $= (fun n => u64_add n 1) |>]> |>
    | None => s
    end in
  Ok (deposit_event (JobProposed order_id id who amount deadline wait) s, order_id).

Definition propose_job (origin : Origin) (id : H256) (params : IsingParams) (amount : Balance)
    (m : JobMode) (r : RewardResolution) (deadline wait : BlockNumber) (d : ResultDelivery) s
    : mresult MempoolState :=
  who <-? ensure_signed origin;;
  res <-? do_propose_job who id params amount m r deadline wait d s;;
  Ok res.1.

Definition propose_job_with_payee_requirement (origin : Origin) (id : H256) (params : IsingParams)
    (amount : Balance) (m : JobMode) (r : RewardResolution) (deadline wait : BlockNumber)
    (d : ResultDelivery) (required_chain_id : Z) s : mresult MempoolState :=
  who <-? ensure_signed origin;;
  require (negb (required_chain_id =? 0)) InvalidPayeeChain;;?
  res <-? do_propose_job who id params amount m r deadline wait d s;;
  let '(s, order_id) := res in
  let s := s <| OrderPayeeRequirements $= <[order_id := required_chain_id]> |> in
  Ok (deposit_event (PayeeRequirementSet order_id required_chain_id) s).

(** One iteration of the scoring loop: valid solutions, best energy and its
    index so far. *)
Definition score_solution (params : IsingParams) (topology : TopologyIndex.t)
    (acc : list (list Z) * Z * nat) (solution : list Z) : mresult (list (list Z) * Z * nat) :=
  let '(valid, best_energy, best_index) := acc in
  energy <-? rmap_err map_validation_error
    (energy_of_solution_indexed solution (p_h_values params) (p_edges params) (p_j_values params) topology);;
  if match p_max_energy_milli params with Some m => m <? energy | None => false end then Ok acc
  else if energy <? best_energy then Ok (valid ++ [solution], energy, length valid)
  else Ok (valid ++ [solution], best_energy, best_index).

(** The payee checks of [submit_solution_inner]. *)
Definition check_payee (order_id : Z) (payee : option WinnerPayee) s : mresult unit :=
  match payee with
  | Some destination => require (payee_is_valid destination) InvalidPayee
  | None => Ok tt
  end;;?
  match OrderPayeeRequirements s !! order_id with
  | Some chain =>
      destination <-? some_or payee PayeeRequired;;
      require (chain_id destination =? chain) PayeeChainMismatch
  | None => Ok tt
  end.

(** Scoring and selection: the selected solutions, the best energy and the
    diversity of an acceptable submission. *)
Definition evaluate_submission (order_id : Z) (order : JobOrder) (who : AccountId)
    (transformed : list (list Z)) s : mresult (list (list Z) * Z * Z) :=
  let params := ising_params order in
  topology <-? rmap_err map_validation_error (TopologyIndex.new (p_nodes params) (p_edges params));;
  require (negb (bool_decide (transformed = []))) NoSolutionsSubmitted;;?
  require (zlen transformed <=? MaxSolutions cfg) TooManySolutions;;?
  scored <-? rfold (score_solution params topology) ([], 2 ^ 63 - 1, 0%nat) transformed;;
  let '(valid, best_energy, best_index) := scored in
  require (negb (bool_decide (valid = []))) InsufficientEnergy;;?
  require (match OrderSolutions s !! (order_id, who) with
           | Some accepted => best_energy <? sol_best_energy_milli accepted
           | None => true end) SolutionNotImproved;;?
  let target_count :=
    Z.to_nat (Z.min (Z.max (default (zlen valid) (p_min_solutions params)) 1) (zlen valid)) in
  require (Nat.max target_count 1 <=? length valid)%nat InsufficientSolutions;;?
  selected_indices <-? rmap_err map_validation_error (select_from_best valid best_index target_count);;
  selected <-? rmapM (fun i => or_panic (valid !! i)) selected_indices;;
  match p_min_solutions params with
  | Some n => require (n <=? zlen selected) InsufficientSolutions
  | None => Ok tt
  end;;?
  diversity <-? rmap_err map_validation_error (calculate_diversity selected);;
  match p_min_diversity_milli params with
  | Some n => require (n <=? diversity) InsufficientDiversity
  | None => Ok tt
  end;;?
  Ok (selected, best_energy, diversity).

(** The writes of an accepted submission. *)
Definition record_submission (order_id : Z) (order : JobOrder) (who : AccountId) (info : SolverInfo)
    (payee : option WinnerPayee) (selected : list (list Z)) (best_energy diversity : Z) s
    : mresult MempoolState :=
  let now := block_number s in
  (if forallb (fun sol => zlen sol <=? MaxNodes cfg) selected && (zlen selected <=? MaxSolutions cfg)
   then Ok tt else Panic);;?
  let is_new_solver := bool_decide (OrderSolutions s !! (order_id, who) = None) in
  let s := s <| OrderSolutions $= <[(order_id, who) := mkJobSolution who (solver_type info) selected
    best_energy diversity (zlen selected) now]> |> in
  let order := if is_new_solver then order <| solution_count $= (fun n => u32_add n 1) |> else order in
  let '(order, s) :=
    match first_solution_at order with
    | Some _ => (order, s)
    | None =>
        let order := order <| first_solution_at := Some now |> in
        let closes_at := effective_expiry (created_at order) (first_solution_at order) (timing order) in
        let hard_deadline := bn_add (created_at order) (deadline_blocks (timing order)) in
        let s := if closes_at <? hard_deadline
          then schedule_expiry order_id closes_at (remove_expiry hard_deadline order_id s) else s in
        let s := deposit_event (FirstSolutionReceived order_id who closes_at) s in
        (order, deposit_event (BlockWaitStarted order_id now closes_at) s)
    end in
  s <-? update_ranking order_id (resolution order) who best_energy s;;
  let s := if bool_decide (OrderPayees s !! (order_id, who) = payee) then s else
    let s := match payee with
      | Some destination => s <| OrderPayees $= <[(order_id, who) := destination]> |>
      | None => s <| OrderPayees $= delete (order_id, who) |>
      end in
    deposit_event (SolutionPayeeSet order_id who payee) s in
  let info := info <| solutions_submitted $= (fun n => u64_add n 1) |> in
  let s := s <| Solvers $= <[who := info]> |> in
  let s := s <| JobOrders $= <[order_id := order]> |> in
  Ok (deposit_event (SolutionAccepted order_id who best_energy diversity) s).

Definition submit_solution_inner (who : AccountId) (order_id : Z) (solutions : list (list Z))
    (payee : option WinnerPayee) s : mresult MempoolState :=
  info <-? some_or (Solvers s !! who) SolverNotRegistered;;
  require (negb (bool_decide (solutions = []))) NoSolutionsSubmitted;;?
  order <-? some_or (JobOrders s !! order_id) OrderNotFound;;
  spec <-? some_or (JobSpecs s !! spec_id order) JobSpecNotFound;;
  require (bool_decide (status order = Opened) &&
    negb (is_expired (block_number s) (created_at order) (first_solution_at order) (timing order)))
    OrderNotOpen;;?
  check_payee order_id payee s;;?
  require (solver_is_eligible who (solver_type info) (mode order)) NotEligibleSolver;;?
  rmap_err map_validation_error
    (TopologyIndex.new (p_nodes (ising_params order)) (p_edges (ising_params order)));;?
  transformed <-? (vm_transform_solutions (spec_id order) (validation_program spec)
    (transform_program spec) who solutions).1;;
  e <-? evaluate_submission order_id order who transformed s;;
  let '(selected, best_energy, diversity) := e in
  record_submission order_id order who info payee selected best_energy diversity s.

Definition submit_solution (origin : Origin) (order_id : Z) (solutions : list (list Z)) s
    : mresult MempoolState :=
  who <-? ensure_signed origin;;
  submit_solution_inner who order_id solutions None s.

Definition submit_solution_with_payee (origin : Origin) (order_id : Z) (solutions : list (list Z))
    (payee : WinnerPayee) s : mresult MempoolState :=
  who <-? ensure_signed origin;;
  submit_solution_inner who order_id solutions (Some payee) s.

(** One iteration of the payment loop of [claim_reward]. *)
Definition pay_winner (order_id : Z) (order : JobOrder) s (p : payout) : mresult MempoolState :=
  let '(winner, amount, _) := p in
  if amount =? 0 then Ok s else
  w <-? ok_or (transfer (world s) (proposer order) winner amount) CurrencyError;;
  let s := s <| world := w |> in
  let s := match Solvers s !! winner with
    | Some info =>
        s <| Solvers $= <[winner := info <| solver_rewards_earned $= (fun n => u128_add n amount) |>]> |>
    | None => s
    end in
  Ok (deposit_event (RewardClaimed order_id winner amount) s).

Definition claim_reward (origin : Origin) (order_id : Z) s : mresult MempoolState :=
  _caller <-? ensure_signed origin;;
  order <-? some_or (JobOrders s !! order_id) OrderNotFound;;
  spec <-? some_or (JobSpecs s !! spec_id order) JobSpecNotFound;;
  require (negb (bool_decide (status order = Closed))) AlreadyClaimed;;?
  require (bool_decide (status order = Expired)) OrderNotExpired;;?
  require (0 <? solution_count order) NoSolutionsAccepted;;?
  payouts <-? compute_payouts order_id order s;;
  winners <-? winner_summaries_from_payouts payouts;;
  vm_validate_result (spec_id order) (validation_program spec) (transform_program spec) winners;;?
  let '(w, rest) := unreserve (world s) (proposer order) (reward order) in
  require (rest =? 0) RewardReserveMissing;;?
  let s := s <| world := w |> in
  s <-? rfold (pay_winner order_id order) s payouts;;
  let s := s <| JobOrders $= <[order_id := order <| status := Closed |>]> |> in
  let s := s <| OpenOrders $= (.∖ {[order_id]}) |> in
  let s := release_proposer_slot (proposer order) order_id s in
  let s := match JobSpecs s !! spec_id order with
    | Some spec =>
        s <| JobSpecs $= <[spec_id order := spec <| successful_orders $= (fun n => u64_add n 1) |>]> |>
    | None => s
    end in
  Ok (deposit_event (OrderClosed order_id true) s).

Definition reclaim_order (origin : Origin) (order_id : Z) s : mresult MempoolState :=
  caller <-? ensure_signed origin;;
  order <-? some_or (JobOrders s !! order_id) OrderNotFound;;
  require (proposer order =? caller) NotProposer;;?
  require (negb (bool_decide (status order = Closed))) AlreadyClaimed;;?
  require (bool_decide (status order = Expired)) OrderNotExpired;;?
  require (solution_count order =? 0) NoSolutionsAccepted;;?
  let '(w, rest) := unreserve (world s) caller (reward order) in
  require (rest =? 0) RewardReserveMissing;;?
  let s := s <| world := w |> in
  let s := s <| JobOrders $= <[order_id := order <| status := Closed |>]> |> in
  let s := s <| OpenOrders $= (.∖ {[order_id]}) |> in
  let s := release_proposer_slot (proposer order) order_id s in
  let s := deposit_event (RewardReclaimed order_id caller (reward order)) s in
  Ok (deposit_event (OrderClosed order_id false) s).

Definition purge_result (origin : Origin) (order_id : Z) s : mresult MempoolState :=
  _caller <-? ensure_signed origin;;
  stored <-? some_or (OrderResults s !! order_id) ResultNotFound;;
  let purge_at := bn_add (settled_at stored) (ResultTtlBlocks cfg) in
  require (purge_at <=? block_number s) ResultTtlNotElapsed;;?
  let s := s <| OrderResults $= delete order_id |> in
  Ok (deposit_event (ResultPurged order_id) s).

(** ** Getters *)

Definition open_order_ids (start_after : option Z) (limit : Z) s : list Z :=
  let limit := Z.to_nat (Z.min limit 1000) in
  let ids := filter (fun order_id =>
      (match start_after with Some cursor => cursor <? order_id | None => true end) &&
      match JobOrders s !! order_id with
      | None => false
      | Some order =>
          bool_decide (status order = Opened) &&
          negb (is_expired (block_number s) (created_at order) (first_solution_at order) (timing order))
      end = true) (elements (OpenOrders s)) in
  take limit (merge_sort Z.le ids).

End Mempool.
