(* ===== verification/MempoolProps.v ===== *)
(** * Properties of the compute mempool

    Scheduling and expiry, order life cycle, ranking, settlement and the
    solvency of the reserved rewards. *)

From S2P Require Import Prelude Validation Energy Diversity SolutionReport Frame MempoolCore Mempool.

Section Props.
Context `{QuantumVm, MempoolPrims} {W : Type} `{Currency W}.
Context (cfg : MempoolConfig).
#[local] Abbreviation state := (@MempoolState W).
Implicit Types s : state.

(** ** Calls as data *)

Inductive call :=
  | RegisterSolver (ty : MinerType)
  | DeregisterSolver
  | RegisterJobSpec (who : Z) (name : list Z) (f : Formulation) (validation transform : option Z)
  | ProposeJob (id : Z) (params : IsingParams) (amount : Z) (m : JobMode) (r : RewardResolution)
      (deadline wait : Z) (d : ResultDelivery) (required_chain : option Z)
  | SubmitSolution (order_id : Z) (solutions : list (list Z)) (payee : option WinnerPayee)
  | ClaimReward (order_id : Z)
  | ReclaimOrder (order_id : Z)
  | PurgeResult (order_id : Z).

Definition dispatch (o : Origin) (c : call) s : mresult state :=
  match c with
  | RegisterSolver ty => register_solver o ty s
  | DeregisterSolver => deregister_solver o s
  | RegisterJobSpec who name f v t => register_job_spec o who name f v t s
  | ProposeJob id p a m r dl w d None => propose_job cfg o id p a m r dl w d s
  | ProposeJob id p a m r dl w d (Some chain) =>
      propose_job_with_payee_requirement cfg o id p a m r dl w d chain s
  | SubmitSolution order_id sols None => submit_solution cfg o order_id sols s
  | SubmitSolution order_id sols (Some payee) => submit_solution_with_payee cfg o order_id sols payee s
  | ClaimReward order_id => claim_reward o order_id s
  | ReclaimOrder order_id => reclaim_order o order_id s
  | PurgeResult order_id => purge_result cfg o order_id s
  end.

(** ** Scheduling *)

(** The block at which an order stops accepting solutions. *)
Definition order_expiry (order : JobOrder) : Z :=
  effective_expiry (created_at order) (first_solution_at order) (timing order).

(** The order waits in a bucket the cursor has not passed, no earlier than its
    expiry. *)
Definition scheduled s (cursor : Z) (id : Z) (order : JobOrder) : Prop :=
  exists b, id ∈ orders_at b s /\ cursor <= b /\ order_expiry order <= b.

(** An open order sits in a bucket no earlier than its expiry, and no later
    than that unless the bucket was past already at block [top]. *)
Definition placed (top : Z) (order : JobOrder) (b : Z) : Prop :=
  status order = Opened -> order_expiry order <= b <= Z.max (order_expiry order) top.

(** Every open order is scheduled, the set of open orders is exact, ids are
    fresh, and every bucket holds orders at their own expiry. *)
Record sched_inv s : Prop := {
  si_cursor : 0 <= NextExpiryBucket s <= block_number s + 1;
  si_open : forall id order, JobOrders s !! id = Some order -> status order = Opened ->
    scheduled s (NextExpiryBucket s) id order;
  si_set : forall id, id ∈ OpenOrders s <->
    exists order, JobOrders s !! id = Some order /\ status order = Opened;
  si_fresh : forall id, is_Some (JobOrders s !! id) -> id < NextOrderId s;
  si_bucket : forall b id, id ∈ orders_at b s ->
    exists order, JobOrders s !! id = Some order /\ placed (block_number s + 1) order b
}.

(** The part of the state scheduling depends on. *)
Definition sched_fields s :=
  (JobOrders s, OpenOrders s, OrdersExpiringAt s, NextExpiryBucket s, NextOrderId s, block_number s).

Lemma sched_inv_frame s s' : sched_inv s -> sched_fields s' = sched_fields s -> sched_inv s'.
Proof.
  unfold sched_fields. intros [A1 A2 A3 A4 A5] Heq. simplify_eq.
  split; unfold scheduled, orders_at in *; repeat match goal with E : _ s' = _ |- _ => rewrite E; clear E end; done.
Qed.

Lemma orders_at_insert b id s b' :
  orders_at b' (insert_expiry b id s) = if decide (b' = b) then {[id]} ∪ orders_at b s else orders_at b' s.
Proof.
  unfold insert_expiry, orders_at. simpl. case_decide; [subst; by rewrite lookup_insert_eq|].
  by rewrite lookup_insert_ne.
Qed.

Lemma orders_at_remove b id s b' :
  orders_at b' (remove_expiry b id s) = if decide (b' = b) then orders_at b s ∖ {[id]} else orders_at b' s.
Proof.
  unfold remove_expiry, orders_at. simpl. case_decide; [subst; by rewrite lookup_insert_eq|].
  by rewrite lookup_insert_ne.
Qed.

(** What a successful proposal checked and wrote. *)
Lemma do_propose_job_effect who id p a m r dl w d s s' order_id :
  do_propose_job cfg who id p a m r dl w d s = Ok (s', order_id) ->
  let order := mkJobOrder id who p a m r (mkOrderTiming dl w) d Opened (block_number s) None 0 in
  order_id = NextOrderId s /\ MinReward cfg <= a /\
  ensure_valid_resolution r = Ok tt /\
  validate_topology_consistency (p_nodes p) (p_edges p) (p_h_values p) (p_j_values p) None None = [] /\
  (exists c, reserve (world s) who a = Some c /\ world s' = c) /\
  JobOrders s' = <[order_id := order]> (JobOrders s) /\
  OpenOrders s' = {[order_id]} ∪ OpenOrders s /\
  OrdersExpiringAt s' = OrdersExpiringAt
    (schedule_expiry order_id (bn_add (block_number s) dl) s) /\
  NextOrderId s' = u64_add (NextOrderId s) 1 /\
  (NextExpiryBucket s', block_number s', OrderSolutions s', OrderFrontRunner s', OrderTopSolvers s',
   Solvers s') =
  (NextExpiryBucket s, block_number s, OrderSolutions s, OrderFrontRunner s, OrderTopSolvers s,
   Solvers s).
Proof.
  intros Hok. unfold do_propose_job in Hok. hinv.
  repeat match goal with u : unit |- _ => destruct u end.
  repeat case_match; split_and!; try done; eauto.
Qed.

(** A proposal names a registered specification and removes none. *)
Lemma do_propose_job_spec who id p a m r dl w d s s' order_id :
  do_propose_job cfg who id p a m r dl w d s = Ok (s', order_id) ->
  is_Some (JobSpecs s !! id) /\ forall k, is_Some (JobSpecs s !! k) -> is_Some (JobSpecs s' !! k).
Proof.
  intros Hok. unfold do_propose_job in Hok. hinv. split; [done|]. intros k Hk. simpl.
  repeat (case_match; simpl); rewrite ?lookup_insert_is_Some'; auto.
Qed.

(** A new order is scheduled at its hard deadline. *)
Lemma do_propose_job_sched who id p a m r dl w d s s' order_id :
  sched_inv s -> 0 <= block_number s -> block_number s + 1 < 2 ^ 32 ->
  0 <= NextOrderId s -> NextOrderId s + 1 < 2 ^ 64 ->
  do_propose_job cfg who id p a m r dl w d s = Ok (s', order_id) -> sched_inv s'.
Proof.
  intros [Hcur Hopen Hset Hfresh Hbkt] Hb0 Hb Hn0 Hn Hok.
  apply do_propose_job_effect in Hok as (-> & _ & _ & _ & _ & EJ & EO & EX & EN & Heq). simplify_eq.
  set (order := mkJobOrder _ _ _ _ _ _ _ _ _ _ _ _) in *.
  assert (JobOrders s !! NextOrderId s = None) as Hnew.
  { apply eq_None_not_Some. intros Hs%Hfresh. lia. }
  assert (bn_add (block_number s) 1 = block_number s + 1) as Hadd.
  { unfold bn_add. rewrite sat_u_small; [done|]. unfold in_u. lia. }
  assert (u64_add (NextOrderId s) 1 = NextOrderId s + 1) as Hadd'.
  { unfold u64_add. rewrite sat_u_small; [done|]. unfold in_u. lia. }
  assert (forall b, orders_at b s' = orders_at b (schedule_expiry (NextOrderId s) (bn_add (block_number s) dl) s)) as Hat.
  { intros b. unfold orders_at. by rewrite EX. }
  split.
  - congruence.
  - intros i o. rewrite EJ, lookup_insert_Some. unfold scheduled. setoid_rewrite Hat.
    unfold schedule_expiry. setoid_rewrite orders_at_insert. intros [[<- <-]|[Hne Hi]] Ho.
    + exists (expiry_bucket (bn_add (block_number s) dl) s). rewrite decide_True by done.
      unfold expiry_bucket, order_expiry. simpl. rewrite Hadd. split_and!; [set_solver|lia|lia].
    + destruct (Hopen i o Hi Ho) as (b & Hin & Hc & He). exists b. split_and!; [|lia|done].
      case_decide; subst; set_solver.
  - intros i. rewrite EJ, EO. setoid_rewrite lookup_insert_Some.
    rewrite elem_of_union, elem_of_singleton, Hset. split.
    + intros [->|(o & Hi & Ho)]; [exists order; naive_solver|]. exists o. split; [|done]. right. split; [|done]. congruence.
    + intros (o & [[<- <-]|[Hne Hi]] & Ho); [by left|right; eauto].
  - intros i. rewrite EJ, EN, Hadd', lookup_insert_is_Some'. intros [<-|Hi%Hfresh]; lia.
  - intros b i. rewrite Hat, EJ. unfold schedule_expiry. rewrite orders_at_insert. setoid_rewrite lookup_insert_Some.
    assert (i ∈ orders_at b s -> exists o, (NextOrderId s = i /\ order = o \/
      NextOrderId s <> i /\ JobOrders s !! i = Some o) /\ placed (block_number s + 1) o b) as Hold.
    { intros (o & Hi & He)%Hbkt. exists o. split; [right; split; [congruence|done]|done]. }
    replace (block_number s') with (block_number s) by congruence.
    case_decide as Hb'; [|done]. rewrite elem_of_union, elem_of_singleton. subst b. intros [->|Hin]; [|by apply Hold].
    exists order. split; [by left|]. intros _. unfold expiry_bucket, order_expiry. simpl. rewrite Hadd. lia.
Qed.
(** ** Submissions *)

(** Everything a ranking update leaves alone. *)
Definition unranked_fields s :=
  (JobSpecs s, JobOrders s, NextOrderId s, OpenOrders s, OrdersExpiringAt s, NextExpiryBucket s,
   OrderSolutions s, OrderPayeeRequirements s, OrderPayees s, Solvers s, ProposerOrders s,
   OrderResults s, block_number s, world s).

Lemma update_ranking_frame id r who e s s' :
  update_ranking id r who e s = Ok s' -> unranked_fields s' = unranked_fields s.
Proof.
  intros Hok. unfold update_ranking in Hok. repeat case_match; hinv; try done; repeat case_match; hinv; done.
Qed.

(** The checks that precede the scoring of a submission. *)
Lemma submit_solution_inner_Ok who id sols payee s s' :
  submit_solution_inner cfg who id sols payee s = Ok s' ->
  exists info order spec transformed selected best diversity,
    Solvers s !! who = Some info /\ JobOrders s !! id = Some order /\
    JobSpecs s !! spec_id order = Some spec /\ status order = Opened /\
    block_number s < order_expiry order /\
    solver_is_eligible who (solver_type info) (mode order) = true /\
    check_payee id payee s = Ok tt /\
    (vm_transform_solutions (spec_id order) (validation_program spec) (transform_program spec) who sols).1
      = Ok transformed /\
    evaluate_submission cfg id order who transformed s = Ok (selected, best, diversity) /\
    record_submission cfg id order who info payee selected best diversity s = Ok s'.
Proof.
  intros Hok. unfold submit_solution_inner in Hok. hinv.
  repeat match goal with u : unit |- _ => destruct u end.
  match goal with He : evaluate_submission _ _ _ _ _ _ = Ok ?r |- _ => destruct r as [[selected best] diversity] end.
  unfold is_expired in *. bool_to_prop. do 7 eexists. split_and!; done.
Qed.

(** The order written back by an accepted submission. *)
Definition order_after (order : JobOrder) (now : Z) (is_new : bool) : JobOrder :=
  order <| solution_count $= (fun n => if is_new then u32_add n 1 else n) |>
        <| first_solution_at $= (fun f => Some (default now f)) |>.

Definition bucket_after (id : Z) (order : JobOrder) s (b : Z) : gset Z :=
  let now := block_number s in
  let hard := bn_add (created_at order) (deadline_blocks (timing order)) in
  let closes := effective_expiry (created_at order) (Some now) (timing order) in
  match first_solution_at order with
  | Some _ => orders_at b s
  | None => if closes <? hard
            then orders_at b (schedule_expiry id closes (remove_expiry hard id s)) else orders_at b s
  end.

Lemma record_submission_effect id order who info payee selected best diversity s s' :
  record_submission cfg id order who info payee selected best diversity s = Ok s' ->
  let is_new := bool_decide (OrderSolutions s !! (id, who) = None) in
  JobOrders s' = <[id := order_after order (block_number s) is_new]> (JobOrders s) /\
  OrderSolutions s' = <[(id, who) := mkJobSolution who (solver_type info) selected best diversity
    (zlen selected) (block_number s)]> (OrderSolutions s) /\
  (forall b, orders_at b s' = bucket_after id order s b) /\
  (OpenOrders s', NextExpiryBucket s', NextOrderId s', block_number s', world s', JobSpecs s') =
  (OpenOrders s, NextExpiryBucket s, NextOrderId s, block_number s, world s, JobSpecs s) /\
  exists s1 s2, update_ranking id (resolution order) who best s1 = Ok s2 /\
    (OrderFrontRunner s1, OrderTopSolvers s1) = (OrderFrontRunner s, OrderTopSolvers s) /\
    (OrderFrontRunner s', OrderTopSolvers s') = (OrderFrontRunner s2, OrderTopSolvers s2).
Proof.
  intros Hok. unfold record_submission in Hok. hinv. clear Hm. cbv zeta.
  set (is_new := bool_decide _) in *.
  match type of Hok with context [let '(_, _) := ?m in _] => destruct m as [order' s1] eqn:Hfirst end.
  apply rbind_Ok_inv in Hok as (s2 & Hrank & Hok). hinv.
  assert (order' = order_after order (block_number s) is_new) as ->.
  { clear -Hfirst. destruct order as [? ? ? ? ? ? ? ? ? ? f ?], is_new; simpl in Hfirst;
      destruct f; simplify_eq/=; done. }
  assert (resolution (order_after order (block_number s) is_new) = resolution order) as Hres by (by destruct order).
  pose proof (update_ranking_frame _ _ _ _ _ _ Hrank) as Hfr. unfold unranked_fields in Hfr. simplify_eq.
  assert (JobOrders s1 = JobOrders s /\
    OrderSolutions s1 = <[(id, who) := mkJobSolution who (solver_type info) selected best diversity (zlen selected) (block_number s)]> (OrderSolutions s) /\
    (forall b, orders_at b s1 = bucket_after id order s b) /\
    (OpenOrders s1, NextExpiryBucket s1, NextOrderId s1, block_number s1, world s1, JobSpecs s1) =
    (OpenOrders s, NextExpiryBucket s, NextOrderId s, block_number s, world s, JobSpecs s) /\
    (OrderFrontRunner s1, OrderTopSolvers s1) = (OrderFrontRunner s, OrderTopSolvers s)) as (E1 & E2 & E3 & E4 & E5).
  { unfold bucket_after. clear -Hfirst. destruct is_new; simpl in Hfirst;
      destruct (first_solution_at order) eqn:Hf; simplify_eq/=; (repeat case_match; split_and!; done). }
  simplify_eq. split_and!.
  - simpl. repeat case_match; simpl; congruence.
  - simpl. repeat case_match; simpl; congruence.
  - intros b. rewrite <- E3. unfold orders_at. simpl. repeat case_match; simpl; congruence.
  - simpl. repeat case_match; simpl; congruence.
  - exists s1, s2. rewrite <- Hres. split_and!; [done|congruence|]. simpl. by repeat case_match.
Qed.
#[local] Lemma bn_next s : 0 <= block_number s -> block_number s + 1 < 2 ^ 32 ->
  bn_add (block_number s) 1 = block_number s + 1.
Proof. intros. unfold bn_add. apply sat_u_small. unfold in_u. lia. Qed.

#[local] Lemma bucket_after_other id order s b i :
  id <> i -> i ∈ orders_at b s -> i ∈ bucket_after id order s b.
Proof.
  intros Hne Hin. unfold bucket_after. destruct (first_solution_at order); [done|].
  case_match; [|done]. unfold schedule_expiry. rewrite orders_at_insert.
  case_decide as Hb.
  - subst b. apply elem_of_union_r. rewrite orders_at_remove. case_decide as Hb; [|done].
    rewrite <- Hb. apply elem_of_difference. split; [done|]. apply not_elem_of_singleton. done.
  - rewrite orders_at_remove. case_decide as Hb'; [|done]. rewrite <- Hb'.
    apply elem_of_difference. split; [done|]. apply not_elem_of_singleton. done.
Qed.

#[local] Lemma bucket_after_inv id order s b i :
  let hard := bn_add (created_at order) (deadline_blocks (timing order)) in
  let closes := effective_expiry (created_at order) (Some (block_number s)) (timing order) in
  i ∈ bucket_after id order s b ->
  i ∈ orders_at b s /\ (i = id -> first_solution_at order = None -> closes < hard -> b <> hard) \/
  i = id /\ first_solution_at order = None /\ closes < hard /\ b = expiry_bucket closes s.
Proof.
  unfold bucket_after. destruct (first_solution_at order); [by left|]. case_match eqn:Hlt; bool_to_prop; [|left; split; [done|lia]].
  unfold schedule_expiry. rewrite orders_at_insert, !orders_at_remove. case_decide as Hb.
  - rewrite elem_of_union, elem_of_singleton. intros [->|Hin]; [by right|].
    subst b. case_decide as Hb'.
    + apply elem_of_difference in Hin as [Hin Hni%not_elem_of_singleton]. left. rewrite Hb'. split; [done|]. by intros ->.
    + left. split; [done|]. by intros _ _ _.
  - case_decide as Hb'; [|left; split; [done|by intros _ _ _]].
    intros [Hin Hni%not_elem_of_singleton]%elem_of_difference. left. subst b. split; [done|]. by intros ->.
Qed.

(** A submission keeps every open order scheduled, the submitted one included:
    it moves to its earlier closing block. *)
Lemma submit_solution_sched who id sols payee s s' :
  sched_inv s -> 0 <= block_number s -> block_number s + 1 < 2 ^ 32 ->
  submit_solution_inner cfg who id sols payee s = Ok s' -> sched_inv s'.
Proof.
  intros [Hcur Hopen Hset Hfresh Hbkt] Hb0 Hb Hok.
  apply submit_solution_inner_Ok in Hok as (info & order & _ & _ & selected & best & diversity & _ & Hord & _ & Hst & Hlive & _ & _ & _ & _ & Hrec).
  apply record_submission_effect in Hrec as (EJ & _ & EX & Heq & _). simplify_eq.
  set (order' := order_after order (block_number s) _) in *.
  assert (status order' = Opened /\ created_at order' = created_at order /\ timing order' = timing order /\
    first_solution_at order' = Some (default (block_number s) (first_solution_at order))) as (Hst' & Hca & Hti & Hfs)
    by (destruct order; done).
  pose proof (bn_next s Hb0 Hb) as Hadd.
  split; [congruence| | | |].
  - intros i o. rewrite EJ, lookup_insert_Some. unfold scheduled. setoid_rewrite EX. unfold bucket_after.
    replace (NextExpiryBucket s') with (NextExpiryBucket s) by congruence.
    intros [[<- <-]|[Hne Hi]] Ho.
    + destruct (Hopen id order Hord Hst) as (b & Hin & Hc & He). unfold order_expiry in *.
      rewrite Hca, Hti, Hfs. destruct (first_solution_at order) as [f|] eqn:Hf; [by exists b|].
      cbn [default from_option]. set (closes := effective_expiry (created_at order) (Some (block_number s)) (timing order)) in *.
      destruct (closes <? _) eqn:Hlt; bool_to_prop.
      * exists (expiry_bucket closes s). unfold schedule_expiry. rewrite orders_at_insert.
        change (expiry_bucket closes (remove_expiry _ id s)) with (expiry_bucket closes s). rewrite decide_True by done.
        split; [set_solver|]. unfold expiry_bucket. rewrite Hadd. clearbody closes. lia.
      * exists b. split_and!; [done|done|]. unfold closes, effective_expiry in *. lia.
    + destruct (Hopen i o Hi Ho) as (b & Hin & Hc & He). exists b. fold (bucket_after id order s b). split_and!; [|done|done].
      apply bucket_after_other; done.
  - intros i. replace (OpenOrders s') with (OpenOrders s) by congruence. rewrite Hset, EJ.
    setoid_rewrite lookup_insert_Some. split.
    + intros (o & Hi & Ho). destruct (decide (id = i)) as [<-|Hne]; [exists order'; naive_solver|eauto 10].
    + intros (o & [[<- <-]|[Hne Hi]] & Ho); eauto.
  - intros i. replace (NextOrderId s') with (NextOrderId s) by congruence.
    rewrite EJ, lookup_insert_is_Some'. intros [<-|Hi]; apply Hfresh; eauto.
  - intros b i. rewrite EX, EJ. intros Hin. setoid_rewrite lookup_insert_Some.
    replace (block_number s') with (block_number s) by congruence.
    apply bucket_after_inv in Hin as [[Hin Hmoved]|(-> & Hf & Hlt & ->)].
    + destruct (Hbkt b i Hin) as (o & Hi & He). destruct (decide (id = i)) as [<-|Hne]; [|eauto 10].
      simplify_eq. exists order'. split; [by left|]. intros _. specialize (He Hst). unfold order_expiry in *.
      rewrite Hca, Hti, Hfs. destruct (first_solution_at order); simpl in *; [done|].
      specialize (Hmoved eq_refl eq_refl). unfold effective_expiry in *. lia.
    + exists order'. split; [by left|]. intros _. unfold order_expiry. rewrite Hca, Hti, Hfs, Hf. simpl.
      unfold expiry_bucket. rewrite Hadd. simpl. lia.
Qed.

(** Closing an expired order. *)
Lemma close_order_sched id order s s' :
  sched_inv s -> JobOrders s !! id = Some order -> status order = Expired ->
  JobOrders s' = <[id := order <| status := Closed |>]> (JobOrders s) ->
  OpenOrders s' = OpenOrders s ∖ {[id]} ->
  (OrdersExpiringAt s', NextExpiryBucket s', NextOrderId s', block_number s') =
  (OrdersExpiringAt s, NextExpiryBucket s, NextOrderId s, block_number s) ->
  sched_inv s'.
Proof.
  intros [Hcur Hopen Hset Hfresh Hbkt] Hord Hst EJ EO Heq. simplify_eq. split; [congruence| | | |].
  - intros i o. rewrite EJ, lookup_insert_Some. intros [[<- <-]|[Hne Hi]] Ho; [done|].
    destruct (Hopen i o Hi Ho) as (b & Hin & Hc & He). exists b. split_and!; [|congruence|done].
    unfold orders_at in *. congruence.
  - intros i. rewrite EO, EJ. setoid_rewrite lookup_insert_Some.
    rewrite elem_of_difference, elem_of_singleton, Hset. split.
    + intros [(o & Hi & Ho) Hne]. eauto 10.
    + intros (o & [[<- <-]|[Hne Hi]] & Ho); [done|]. split; [eauto|done].
  - intros i. replace (NextOrderId s') with (NextOrderId s) by congruence.
    rewrite EJ, lookup_insert_is_Some'. intros [<-|Hi]; apply Hfresh; eauto.
  - intros b i Hin. assert (i ∈ orders_at b s) as (o & Hi & He)%Hbkt by (unfold orders_at in *; congruence).
    replace (block_number s') with (block_number s) by congruence. rewrite EJ. setoid_rewrite lookup_insert_Some. destruct (decide (id = i)) as [<-|Hne]; [|eauto 10].
    eexists. split; [by left|done].
Qed.

(** The payment loop only moves money and counts rewards. *)
Definition unpaid_fields s :=
  (JobSpecs s, JobOrders s, NextOrderId s, OpenOrders s, OrdersExpiringAt s, NextExpiryBucket s,
   OrderSolutions s, OrderPayeeRequirements s, OrderPayees s, OrderFrontRunner s, OrderTopSolvers s,
   ProposerOrders s, OrderResults s, block_number s).

Lemma pay_loop_frame id order ps s s' :
  rfold (pay_winner id order) s ps = Ok s' -> unpaid_fields s' = unpaid_fields s.
Proof.
  intros Hok. eapply (rfold_Ok_ind _ (fun x => unpaid_fields x = unpaid_fields s)); [|done|exact Hok].
  intros acc [[winner amount] en] acc' _ Hacc Hp. unfold pay_winner in Hp. case_match; hinv; [done|].
  rewrite <- Hacc. by case_match.
Qed.

(** What a successful settlement checked and wrote. *)
Lemma claim_reward_effect o id s s' :
  claim_reward o id s = Ok s' ->
  exists order ps w s1,
    JobOrders s !! id = Some order /\ status order = Expired /\ 0 < solution_count order /\
    compute_payouts id order s = Ok ps /\
    unreserve (world s) (proposer order) (reward order) = (w, 0) /\
    rfold (pay_winner id order) (s <| world := w |>) ps = Ok s1 /\
    world s' = world s1 /\ Solvers s' = Solvers s1 /\
    JobOrders s' = <[id := order <| status := Closed |>]> (JobOrders s) /\
    OpenOrders s' = OpenOrders s ∖ {[id]} /\
    (OrdersExpiringAt s', NextExpiryBucket s', NextOrderId s', block_number s', OrderSolutions s',
     OrderFrontRunner s', OrderTopSolvers s') =
    (OrdersExpiringAt s, NextExpiryBucket s, NextOrderId s, block_number s, OrderSolutions s,
     OrderFrontRunner s, OrderTopSolvers s).
Proof.
  intros Hok. unfold claim_reward in Hok. hinv.
  destruct (unreserve (world s) _ _) as [w rest] eqn:Hun. hinv.
  match goal with Hf : rfold _ _ _ = Ok ?x |- _ => pose proof (pay_loop_frame _ _ _ _ _ Hf) as Hfr; rename Hf into Hfold end.
  unfold unpaid_fields in Hfr. simpl in Hfr. simplify_eq.
  do 4 eexists. split_and!; try done; simpl; unfold release_proposer_slot; simpl; repeat case_match; simpl; congruence.
Qed.

Lemma reclaim_order_effect o id s s' :
  reclaim_order o id s = Ok s' ->
  exists order w,
    JobOrders s !! id = Some order /\ status order = Expired /\ solution_count order = 0 /\
    o = Signed (proposer order) /\
    unreserve (world s) (proposer order) (reward order) = (w, 0) /\ world s' = w /\
    JobOrders s' = <[id := order <| status := Closed |>]> (JobOrders s) /\
    OpenOrders s' = OpenOrders s ∖ {[id]} /\
    (OrdersExpiringAt s', NextExpiryBucket s', NextOrderId s', block_number s', OrderSolutions s',
     OrderFrontRunner s', OrderTopSolvers s') =
    (OrdersExpiringAt s, NextExpiryBucket s, NextOrderId s, block_number s, OrderSolutions s,
     OrderFrontRunner s, OrderTopSolvers s).
Proof.
  intros Hok. unfold reclaim_order in Hok. hinv.
  destruct (unreserve (world s) _ _) as [w rest] eqn:Hun. hinv.
  do 2 eexists. split_and!; try done; simpl; unfold release_proposer_slot; simpl; repeat case_match; simpl; congruence.
Qed.

(** ** Expiry *)

(** Everything the expiry of an order leaves alone. *)
Definition unexpired_fields s :=
  (JobSpecs s, NextOrderId s, NextExpiryBucket s, OrderSolutions s, OrderPayeeRequirements s,
   OrderPayees s, OrderFrontRunner s, OrderTopSolvers s, Solvers s, ProposerOrders s,
   block_number s, world s).

(** The order book and the set of open orders after the expiry of one order. *)
Definition expire (id : Z) (m : gmap Z JobOrder) : gmap Z JobOrder :=
  match m !! id with
  | Some order => if bool_decide (status order = Opened) then <[id := order <| status := Expired |>]> m else m
  | None => m
  end.
Definition expire_open (id : Z) (m : gmap Z JobOrder) (X : gset Z) : gset Z :=
  match m !! id with
  | Some order => if bool_decide (status order = Opened) then X ∖ {[id]} else X
  | None => X
  end.

Lemma finalise_order_effect id s s' :
  finalise_order id s = Ok s' ->
  JobOrders s' = expire id (JobOrders s) /\
  OpenOrders s' = expire_open id (JobOrders s) (OpenOrders s) /\
  OrdersExpiringAt s' = OrdersExpiringAt s /\ unexpired_fields s' = unexpired_fields s.
Proof.
  unfold finalise_order, expire, expire_open. destruct (JobOrders s !! id) as [order|] eqn:Hord; [|by intros [= <-]].
  case_bool_decide as Hst; simpl; [|by intros [= <-]].
  intros Hok. case_match; [by hinv|]. case_match; [|by hinv|done]. hinv.
  unfold emit_result_ready, persist_result_if_needed. by repeat case_match.
Qed.

Lemma expire_lookup id m i o' :
  expire id m !! i = Some o' ->
  exists o, m !! i = Some o /\
    (o' = o /\ (i = id -> status o <> Opened) \/ i = id /\ status o = Opened /\ o' = o <| status := Expired |>).
Proof.
  unfold expire. destruct (m !! id) as [order|] eqn:Hord.
  - case_bool_decide as Hst.
    + rewrite lookup_insert_Some. intros [[<- <-]|[Hne Hi]]; [eauto 10|]. exists o'. split; [done|left; split; congruence].
    + intros Hi. exists o'. split; [done|]. left. split; [done|]. intros ->. congruence.
  - intros Hi. exists o'. split; [done|]. left. split; [done|]. intros ->. congruence.
Qed.

Lemma expire_is_Some id m i : is_Some (m !! i) -> is_Some (expire id m !! i).
Proof. unfold expire. repeat case_match; try done. rewrite lookup_insert_is_Some'. by right. Qed.

(** The scheduling invariant while the cursor stands at [cursor], which the
    loop has not written back yet. *)
Record sched_at (cursor top : Z) s : Prop := {
  sa_open : forall id order, JobOrders s !! id = Some order -> status order = Opened ->
    scheduled s cursor id order;
  sa_set : forall id, id ∈ OpenOrders s <->
    exists order, JobOrders s !! id = Some order /\ status order = Opened;
  sa_fresh : forall id, is_Some (JobOrders s !! id) -> id < NextOrderId s;
  sa_bucket : forall b id, id ∈ orders_at b s ->
    exists order, JobOrders s !! id = Some order /\ placed top order b
}.

(** What happens to the orders in one block: an order is untouched, or it was
    open and due, and is expired. *)
Definition expires_due (now : Z) s s' : Prop :=
  forall id, match JobOrders s !! id, JobOrders s' !! id with
    | Some o, Some o' => o' = o \/ status o = Opened /\ order_expiry o <= now /\ o' = o <| status := Expired |>
    | None, None => True
    | _, _ => False
    end.

Lemma finalise_step_sched cursor top bucket id s s' :
  sched_at cursor top s -> id ∈ orders_at bucket s ->
  finalise_order id (remove_expiry bucket id s) = Ok s' ->
  sched_at cursor top s' /\ expires_due bucket s s' /\ unexpired_fields s' = unexpired_fields s /\
  (forall b, orders_at b s' = if decide (b = bucket) then orders_at b s ∖ {[id]} else orders_at b s).
Proof.
  intros [Hopen Hset Hfresh Hbkt] Hin Hok.
  apply finalise_order_effect in Hok as (EJ & EO & EX & Heq). simpl in EJ, EO.
  assert (forall b, orders_at b s' = if decide (b = bucket) then orders_at b s ∖ {[id]} else orders_at b s) as Hat.
  { intros b. transitivity (orders_at b (remove_expiry bucket id s)); [unfold orders_at; by rewrite EX|].
    rewrite orders_at_remove. case_decide; congruence. }
  change (unexpired_fields (remove_expiry bucket id s)) with (unexpired_fields s) in Heq.
  destruct (Hbkt bucket id Hin) as (order & Hord & Hdue).
  split_and!; [split| |done|done].
  - intros i o. rewrite EJ. intros (o0 & Hi & [[-> Hne]|(-> & _ & ->)])%expire_lookup Ho; [|done].
    destruct (Hopen i o0 Hi Ho) as (b & Hb & Hc & He). exists b. split_and!; [|done|done].
    rewrite Hat. case_decide; [|done]. apply elem_of_difference. split; [done|]. rewrite elem_of_singleton. naive_solver.
  - intros i. rewrite EO, EJ. unfold expire_open, expire. rewrite Hord. case_bool_decide as Hst; [|apply Hset].
    setoid_rewrite lookup_insert_Some. rewrite elem_of_difference, elem_of_singleton, Hset. split.
    + intros [(o & Hi & Ho) Hne]. eauto 10.
    + intros (o & [[<- <-]|[Hne Hi]] & Ho); [done|]. split; [eauto|done].
  - intros i Hi. unfold unexpired_fields in Heq. replace (NextOrderId s') with (NextOrderId s) by congruence.
    apply Hfresh. rewrite EJ in Hi. destruct Hi as [o (o0 & Hi & _)%expire_lookup]. eauto.
  - intros b i. rewrite Hat. intros Hi. assert (i ∈ orders_at b s) as (o & Ho & He)%Hbkt.
    { case_decide; [|done]. by apply elem_of_difference in Hi as [? _]. }
    rewrite EJ. destruct (expire_is_Some id (JobOrders s) i) as [o' Ho']; [eauto|]. exists o'. split; [done|].
    apply expire_lookup in Ho' as (o0 & Ho0 & [[-> _]|(_ & _ & ->)]); [|done]. simplify_eq. done.
  - intros i. rewrite EJ. unfold expire. rewrite Hord. case_bool_decide as Hst.
    + destruct (decide (id = i)) as [<-|Hne].
      * rewrite lookup_insert_eq, Hord. right. split_and!; [done|by apply Hdue|done].
      * rewrite lookup_insert_ne by done. case_match; auto.
    + case_match; auto.
Qed.

Lemma expires_due_refl now s s' : JobOrders s' = JobOrders s -> expires_due now s s'.
Proof. intros E i. rewrite E. case_match; auto. Qed.

Lemma expires_due_trans b1 b2 now s1 s2 s3 :
  b1 <= now -> b2 <= now -> expires_due b1 s1 s2 -> expires_due b2 s2 s3 -> expires_due now s1 s3.
Proof.
  intros Hb1 Hb2 H12 H23 i. specialize (H12 i). specialize (H23 i).
  destruct (JobOrders s1 !! i) as [o1|], (JobOrders s2 !! i) as [o2|], (JobOrders s3 !! i) as [o3|]; try done.
  destruct H12 as [->|(? & ? & ->)], H23 as [->|(Hst & ? & ->)]; auto; [right; split_and!; (done || lia)..|done].
Qed.

(** Emptying a part of one bucket. *)
Lemma finalise_bucket_sched cursor top bucket l s s' :
  NoDup l -> (forall id, id ∈ l -> id ∈ orders_at bucket s) -> sched_at cursor top s ->
  rfold (fun s id => finalise_order id (remove_expiry bucket id s)) s l = Ok s' ->
  sched_at cursor top s' /\ expires_due bucket s s' /\ unexpired_fields s' = unexpired_fields s /\
  (forall b, orders_at b s' = if decide (b = bucket) then orders_at b s ∖ list_to_set l else orders_at b s).
Proof.
  revert s. induction l as [|id l IH]; intros s Hnd Hsub Hinv Hok; simpl in Hok.
  { injection Hok as <-. split_and!; [done|by apply expires_due_refl|done|].
    intros b. case_decide; [|done]. simpl. by rewrite (difference_empty_L (orders_at b s)). }
  apply NoDup_cons in Hnd as [Hni Hnd]. apply rbind_Ok_inv in Hok as (s1 & Hstep & Hok).
  apply finalise_step_sched with (cursor := cursor) (top := top) in Hstep as (Hinv1 & Hdue1 & Hf1 & Hat1); [|done|apply Hsub; set_solver].
  apply IH in Hok as (Hinv' & Hdue' & Hf' & Hat'); [|done| |done].
  - split_and!; [done|by eapply expires_due_trans|congruence|]. intros b. rewrite Hat', Hat1. case_decide; [|done].
    apply set_eq. intros x. rewrite !elem_of_difference. simpl. rewrite elem_of_union. tauto.
  - intros x Hx. rewrite Hat1, decide_True by done. apply elem_of_difference. split; [apply Hsub; set_solver|].
    rewrite elem_of_singleton. intros ->. done.
Qed.

(** Moving the cursor past an empty bucket. *)
Lemma sched_at_advance bucket top s :
  sched_at bucket top s -> orders_at bucket s = ∅ -> sched_at (bucket + 1) top s.
Proof.
  intros [Hopen Hset Hfresh Hbkt] He. split; [|done..]. intros i o Hi Ho.
  destruct (Hopen i o Hi Ho) as (b & Hb & Hc & Hx). exists b. split_and!; [done| |done].
  destruct (decide (b = bucket)) as [->|]; [set_solver|lia].
Qed.

Lemma finalise_loop_sched `{!MempoolPrimsLaws} top n now budget bucket fin vis s s' bucket' fin' vis' :
  0 <= bucket <= now + 1 -> now + 1 < 2 ^ 32 -> 0 <= budget -> 0 <= fin -> fin + budget < 2 ^ 32 ->
  0 <= vis -> vis + Z.of_nat n < 2 ^ 64 ->
  sched_at bucket top s -> finalise_loop n now budget bucket fin vis s = Ok (s', bucket', fin', vis') ->
  sched_at bucket' top s' /\ expires_due now s s' /\ unexpired_fields s' = unexpired_fields s /\
  bucket <= bucket' <= now + 1 /\ fin' <= fin + budget /\ vis' <= vis + Z.of_nat n /\
  (bucket' = now + 1 \/ fin' = fin + budget \/ vis' = vis + Z.of_nat n).
Proof.
  revert budget bucket fin vis s.
  induction n as [|n IH]; intros budget bucket fin vis s Hbk Hnow Hbu Hf Hfb Hv Hvn Hinv Hok; simpl in Hok.
  { simplify_eq. split_and!; try lia; [done|by apply expires_due_refl|done]. }
  destruct (_ && _) eqn:Hgo.
  2: { simplify_eq. apply andb_false_iff in Hgo. assert (now < bucket' \/ budget <= 0) by (destruct Hgo; bool_to_prop; lia).
       split_and!; try (done || lia || by apply expires_due_refl). }
  bool_to_prop. apply rbind_Ok_inv in Hok as (s1 & Hfold & Hok).
  set (l := take (Z.to_nat budget) (bucket_order (orders_at bucket s))) in *.
  pose proof (bucket_order_perm (orders_at bucket s)) as Hperm.
  assert (forall id, id ∈ bucket_order (orders_at bucket s) <-> id ∈ orders_at bucket s) as Hel.
  { intros id. by rewrite Hperm, elem_of_elements. }
  apply finalise_bucket_sched with (cursor := bucket) (top := top) in Hfold as (Hinv1 & Hdue1 & Hf1 & Hat1); [| | |done].
  2: { pose proof (NoDup_elements (orders_at bucket s)) as Hnd. rewrite <- Hperm in Hnd.
       rewrite <- (take_drop (Z.to_nat budget) (bucket_order (orders_at bucket s))) in Hnd.
       by apply NoDup_app in Hnd as [? _]. }
  2: { intros id Hid. apply Hel. rewrite <- (take_drop (Z.to_nat budget)). apply elem_of_app. by left. }
  assert (0 <= zlen l <= budget) as Hlen by (unfold zlen, l; rewrite length_take; lia).
  assert (u32_add fin (zlen l) = fin + zlen l) as Hfin' by (unfold u32_add; apply sat_u_small; unfold in_u; lia).
  assert (u64_add vis 1 = vis + 1) as Hvis' by (unfold u64_add; apply sat_u_small; unfold in_u; lia).
  rewrite Hfin', Hvis' in Hok. destruct (zlen l =? budget) eqn:Hfull; bool_to_prop.
  { injection Hok as <- <- <- <-. split_and!; try lia; [done| |done]. eapply (expires_due_trans bucket now); [lia|lia|done|by apply expires_due_refl]. }
  assert (bn_add bucket 1 = bucket + 1) as Hadd by (unfold bn_add; apply sat_u_small; unfold in_u; lia).
  rewrite Hadd in Hok. apply IH in Hok as (G1 & G2 & G3 & G4 & G5 & G6 & G7); try lia.
  - split_and!; try lia; [done| |congruence]. eapply (expires_due_trans bucket now); [lia|lia|done|done].
  - apply sched_at_advance; [done|]. rewrite Hat1, decide_True by done. unfold l.
    rewrite take_ge; [|unfold zlen, l in *; rewrite length_take in *; lia].
    apply set_eq. intros id. rewrite elem_of_difference, elem_of_list_to_set, Hel. set_solver.
Qed.

(** No open order is due at [now]. *)
Definition none_due (now : Z) s : Prop :=
  forall id order, JobOrders s !! id = Some order -> status order = Opened -> now < order_expiry order.

(** Once the cursor has passed a block, every order due by then is expired. *)
Lemma sched_at_none_due now s : sched_at (now + 1) now s -> none_due now s.
Proof.
  intros [Hopen _ _ Hbkt] id order Hid Ho. destruct (Hopen id order Hid Ho) as (b & Hb & Hc & _).
  destruct (Hbkt b id Hb) as (o & Hid' & Hp). simplify_eq. specialize (Hp Ho). lia.
Qed.

(** A block's expiry work: bounded, never early, and it keeps every open order
    scheduled.  Unless a budget is exhausted the cursor passes the block and
    nothing due is left. *)
Lemma finalise_expired_orders_sched `{!MempoolPrimsLaws} now s s' fin vis :
  sched_inv (s <| block_number := now - 1 |>) -> now + 1 < 2 ^ 32 -> 0 <= now -> block_number s = now ->
  finalise_expired_orders now s = Ok (s', fin, vis) ->
  sched_inv s' /\ expires_due now s s' /\
  (JobSpecs s', NextOrderId s', OrderSolutions s', OrderFrontRunner s', OrderTopSolvers s', block_number s', world s') =
  (JobSpecs s, NextOrderId s, OrderSolutions s, OrderFrontRunner s, OrderTopSolvers s, block_number s, world s) /\
  NextExpiryBucket s <= NextExpiryBucket s' /\
  fin <= MAX_FINALISED_ORDERS_PER_BLOCK /\ vis <= MAX_FINALISED_ORDERS_PER_BLOCK /\
  (NextExpiryBucket s' = now + 1 /\ none_due now s' \/
   fin = MAX_FINALISED_ORDERS_PER_BLOCK \/ vis = MAX_FINALISED_ORDERS_PER_BLOCK).
Proof.
  intros [Hcur Hopen Hset Hfresh Hbkt] Hnow Hnow0 Hbn Hok. simpl in *. unfold finalise_expired_orders in Hok.
  apply rbind_Ok_inv in Hok as ([[[s1 bucket] fin1] vis1] & Hloop & [= <- <- <-]).
  apply (finalise_loop_sched now) in Hloop as (Hs1 & Hdue & Hf & Hb & Hfin & Hvis & Hend); try (done || lia).
  2: { split; [done..|]. intros b id (o & Ho & Hp)%Hbkt. exists o. split; [done|]. by replace (now - 1 + 1) with now in Hp by lia. }
  assert (bucket = now + 1 -> none_due now s1) as Hnone by (intros ->; by apply sched_at_none_due).
  destruct Hs1 as [Hopen1 Hset1 Hfresh1 Hbkt1].
  unfold unexpired_fields in Hf. simplify_eq. simpl in *.
  split_and!; try (done || congruence || lia).
  - replace (block_number s1) with (block_number s) by congruence. split; simpl; [lia|done..|].
    intros b id (o & Ho & Hp)%Hbkt1. exists o. split; [done|]. intros Hop. specialize (Hp Hop). lia.
  - destruct Hend as [Hend|[Hend|Hend]]; [left; split; [done|by apply Hnone]|right; unfold MAX_FINALISED_ORDERS_PER_BLOCK in *; simpl in *; lia..].
Qed.

Lemma on_initialize_sched `{!MempoolPrimsLaws} s s' :
  let now := block_number s + 1 in
  sched_inv s -> 0 <= block_number s -> now + 1 < 2 ^ 32 ->
  on_initialize now (s <| block_number := now |>) = Ok s' ->
  sched_inv s' /\ expires_due now s s' /\ NextExpiryBucket s <= NextExpiryBucket s' /\
  (JobSpecs s', NextOrderId s', OrderSolutions s', OrderFrontRunner s', OrderTopSolvers s', block_number s', world s') =
  (JobSpecs s, NextOrderId s, OrderSolutions s, OrderFrontRunner s, OrderTopSolvers s, now, world s).
Proof.
  intros now Hinv Hb Hnow Hok. unfold on_initialize in Hok.
  apply rbind_Ok_inv in Hok as ([[s1 fin] vis] & Hok & [= <-]).
  apply finalise_expired_orders_sched in Hok as (Hs & Hdue & Heq & Hc & _); try (done || lia).
  eapply sched_inv_frame; [exact Hinv|]. unfold sched_fields. simpl. do 2 f_equal. unfold now. lia.
Qed.

(** Every call keeps the scheduling invariant. *)
Lemma dispatch_sched o c s s' :
  sched_inv s -> 0 <= block_number s -> block_number s + 1 < 2 ^ 32 ->
  0 <= NextOrderId s -> NextOrderId s + 1 < 2 ^ 64 ->
  dispatch o c s = Ok s' -> sched_inv s'.
Proof.
  intros Hinv Hb0 Hb Hn0 Hn Hok. destruct c; simpl in Hok.
  - unfold register_solver in Hok. hinv. by eapply sched_inv_frame.
  - unfold deregister_solver in Hok. hinv. by eapply sched_inv_frame.
  - unfold register_job_spec, insert_job_spec in Hok. hinv. by eapply sched_inv_frame.
  - destruct required_chain.
    + unfold propose_job_with_payee_requirement in Hok. hinv.
      match goal with Hp : do_propose_job _ _ _ _ _ _ _ _ _ _ _ = Ok ?r |- _ => destruct r as [s1 oid] end. hinv.
      eapply sched_inv_frame; [by eapply do_propose_job_sched|done].
    + unfold propose_job in Hok. hinv.
      match goal with Hp : do_propose_job _ _ _ _ _ _ _ _ _ _ _ = Ok ?r |- _ => destruct r as [s1 oid] end.
      by eapply do_propose_job_sched.
  - destruct payee; [unfold submit_solution_with_payee in Hok|unfold submit_solution in Hok]; hinv;
      by eapply submit_solution_sched.
  - apply claim_reward_effect in Hok as (order & ps & w & s1 & Hord & Hst & _ & _ & _ & _ & _ & _ & EJ & EO & Heq).
    eapply close_order_sched; [done..|congruence].
  - apply reclaim_order_effect in Hok as (order & w & Hord & Hst & _ & _ & _ & _ & EJ & EO & Heq).
    eapply close_order_sched; [done..|congruence].
  - unfold purge_result in Hok. hinv. by eapply sched_inv_frame.
Qed.

(** ** The migration to the expiry index *)

#[local] Abbreviation index_step := (fun (s : state) order_id =>
  match JobOrders s !! order_id with
  | None => s
  | Some order =>
      if negb (bool_decide (status order = Opened)) then s
      else schedule_expiry order_id
             (effective_expiry (created_at order) (first_solution_at order) (timing order)) s
  end).

Lemma index_loop l s :
  let s' := foldl index_step s l in
  JobSpecs s' = JobSpecs s /\ JobOrders s' = JobOrders s /\ OpenOrders s' = OpenOrders s /\
  NextOrderId s' = NextOrderId s /\ block_number s' = block_number s /\
  forall b id, id ∈ orders_at b s' <-> id ∈ orders_at b s \/
    id ∈ l /\ exists order, JobOrders s !! id = Some order /\ status order = Opened /\
      b = expiry_bucket (order_expiry order) s.
Proof.
  revert s. induction l as [|i l IH]; intros s; cbn [foldl]; [cbv zeta; split_and!; set_solver|].
  specialize (IH (index_step s i)). cbv zeta beta in IH |- *. destruct IH as (E0 & E1 & E2 & E3 & E4 & E5).
  rewrite E0, E1, E2, E3, E4. clear E0 E1 E2 E3 E4.
  destruct (JobOrders s !! i) as [order|] eqn:Hi; [case_bool_decide as Hst|]; cbn [negb] in *;
    split_and!; try done; intros b id; rewrite E5; clear E5.
  - unfold schedule_expiry. rewrite orders_at_insert. fold (order_expiry order).
    change (expiry_bucket (order_expiry ?o) (insert_expiry _ _ s)) with (expiry_bucket (order_expiry o) s).
    change (JobOrders (insert_expiry _ _ s)) with (JobOrders s). rewrite elem_of_cons.
    case_decide as Hb; [rewrite elem_of_union, elem_of_singleton|]; naive_solver.
  - rewrite elem_of_cons. naive_solver.
  - rewrite elem_of_cons. naive_solver.
Qed.

(** On a chain without the index, the migration establishes the scheduling
    invariant: every open order is scheduled for the upgrade block or later. *)
Lemma on_runtime_upgrade_sched `{!MempoolPrimsLaws} s :
  0 <= block_number s -> block_number s + 1 < 2 ^ 32 -> OrdersExpiringAt s = ∅ ->
  (forall id, id ∈ OpenOrders s <-> exists order, JobOrders s !! id = Some order /\ status order = Opened) ->
  (forall id, is_Some (JobOrders s !! id) -> id < NextOrderId s) ->
  sched_inv (on_runtime_upgrade cfg 2 s).2.
Proof.
  intros Hb0 Hb Hempty Hset Hfresh. unfold on_runtime_upgrade. simpl. unfold index_open_orders_for_expiry.
  destruct (index_loop (bucket_order (OpenOrders s)) s) as (_ & E1 & E2 & E3 & E4 & E5).
  set (s1 := foldl _ _ _) in *. rewrite bn_next by done.
  assert (forall b, orders_at b s = ∅) as Hnone by (intros b; unfold orders_at; by rewrite Hempty).
  assert (forall b (x : Z), orders_at b (s1 <| NextExpiryBucket := x |>) = orders_at b s1) as Hat by done.
  split; simpl; rewrite ?E1, ?E2, ?E3, ?E4; try done.
  - lia.
  - intros id order Hid Ho. exists (expiry_bucket (order_expiry order) s). rewrite Hat, E5.
    unfold expiry_bucket. rewrite bn_next by done. split_and!; [|lia|lia]. right.
    rewrite bucket_order_perm, elem_of_elements, Hset. eauto 10.
  - intros b id. rewrite Hat, E5, Hnone. intros [?%not_elem_of_empty|(_ & order & Hid & _ & ->)]; [done|].
    exists order. split; [done|]. intros _. unfold expiry_bucket. rewrite bn_next by done. lia.
Qed.
End Props.
