(* ===== verification/MempoolSettlement.v ===== *)
(** * Submissions, ranking and settlement of the compute mempool

    What an accepted submission guarantees, the ranking kept for every order,
    the life cycle of orders, and the settlement of the reserved rewards. *)

From S2P Require Import Prelude Validation Energy Diversity SolutionReport Frame MempoolCore Mempool MempoolProps.

Section Settlement.
Context `{QuantumVm, MempoolPrims} {W : Type} `{Currency W}.
Context (cfg : MempoolConfig).
#[local] Abbreviation state := (@MempoolState W).
Implicit Types s : state.

(** ** Scoring *)

(** The solution has this energy for the order's Ising problem, and the order
    admits it. *)
Definition admitted (p : IsingParams) (solution : list Z) (energy : Z) : Prop :=
  well_shaped (p_nodes p) solution (p_h_values p) (p_edges p) (p_j_values p) /\
  energy = ising_energy (p_nodes p) solution (p_h_values p) (p_edges p) (p_j_values p) /\
  in_s 64 energy /\
  (forall limit, p_max_energy_milli p = Some limit -> energy <= limit).

(** What the scoring loop has established. *)
Definition scored (p : IsingParams) (seen : list (list Z)) (acc : list (list Z) * Z * nat) : Prop :=
  let '(valid, best, index) := acc in
  (forall x, x ∈ valid -> x ∈ seen) /\ (forall x e, x ∈ seen -> admitted p x e -> x ∈ valid) /\ (length valid <= length seen)%nat /\
  Forall (fun x => exists e, admitted p x e /\ best <= e) valid /\
  match valid with
  | [] => best = 2 ^ 63 - 1 /\ index = 0%nat
  | _ => exists x, valid !! index = Some x /\ admitted p x best
  end.

Lemma score_solution_scored p topology seen acc x acc' :
  TopologyIndex.new (p_nodes p) (p_edges p) = Ok topology ->
  scored p seen acc -> score_solution p topology acc x = Ok acc' -> scored p (seen ++ [x]) acc'.
Proof.
  intros Htop. destruct acc as [[valid best] index]. intros (Hin & Hkept & Hlen & Hall & Hbest) Hok.
  unfold score_solution in Hok. apply rbind_Ok_inv in Hok as (e & He & Hok).
  rewrite (energy_indexed_agrees _ _ _ _ _ _ Htop) in He. rinv.
  match goal with Hr : energy_of_solution _ _ _ _ _ = Ok _ |- _ =>
    pose proof (energy_of_solution_sound _ _ _ _ _ _ Hr) as (Hws & Heq & Hrange) end.
  destruct (match p_max_energy_milli p with Some m => m <? e | None => false end) eqn:Hlim.
  { injection Hok as <-. unfold scored. split_and!; [set_solver| |rewrite length_app; lia|done|done].
    intros y ey [Hy|Hy%list_elem_of_singleton]%elem_of_app Ha; [by eapply Hkept|]. subst y. exfalso.
    destruct (p_max_energy_milli p) as [m|] eqn:Hm; [|done]. bool_to_prop.
    destruct Ha as (_ & -> & _ & Ha). specialize (Ha m Hm). subst e. lia. }
  assert (admitted p x e) as Hadm.
  { split_and!; try done. intros limit Hl. rewrite Hl in Hlim. bool_to_prop. done. }
  assert (forall y, y ∈ valid ++ [x] -> y ∈ seen ++ [x]) as Hin' by set_solver.
  assert (forall y ey, y ∈ seen ++ [x] -> admitted p y ey -> y ∈ valid ++ [x]) as Hkept'.
  { intros y ey [Hy|Hy]%elem_of_app Ha; apply elem_of_app; [left; by eapply Hkept|by right]. }
  destruct (e <? best) eqn:Hlt; injection Hok as <-; bool_to_prop; unfold scored;
    (split_and!; [done|done|rewrite !length_app; simpl; lia| |]).
  - apply Forall_app. split; [|apply Forall_singleton; exists e; split; [done|lia]].
    eapply Forall_impl; [exact Hall|]. intros y (ey & ? & ?). exists ey. split; [done|lia].
  - destruct (valid ++ [x]) eqn:Hv; [by destruct valid|]. rewrite <- Hv. exists x.
    split; [|done]. by apply list_lookup_middle.
  - apply Forall_app. split; [done|]. apply Forall_singleton. eauto.
  - destruct valid as [|v valid]; simpl.
    + destruct Hbest as [-> ->]. exists x. split; [done|].
      assert (e = 2 ^ 63 - 1) as <-; [|done]. unfold in_s in Hrange. lia.
    + destruct Hbest as (y & Hy & Ha). exists y. split; [|done]. by apply (lookup_app_l_Some (v :: valid)).
Qed.

Lemma score_loop_scored p topology l acc :
  TopologyIndex.new (p_nodes p) (p_edges p) = Ok topology ->
  rfold (score_solution p topology) ([], 2 ^ 63 - 1, 0%nat) l = Ok acc -> scored p l acc.
Proof.
  intros Htop. cut (forall seen l acc0, scored p seen acc0 ->
    rfold (score_solution p topology) acc0 l = Ok acc -> scored p (seen ++ l) acc).
  { intros Hc Hok. apply (Hc [] l _) in Hok; [done|]. unfold scored. split_and!; [done|by intros ? ? ?%not_elem_of_nil|simpl; lia|by apply Forall_nil|done|done]. }
  clear l. intros seen l. revert seen. induction l as [|x l IH]; intros seen acc0 Hs Hok; simpl in Hok.
  { injection Hok as <-. by rewrite app_nil_r. }
  apply rbind_Ok_inv in Hok as (acc1 & Hstep & Hok). rewrite cons_middle, app_assoc.
  eapply IH; [|done]. by eapply score_solution_scored.
Qed.

Lemma admitted_solution_set p l best :
  Forall (fun x => exists e, admitted p x e /\ best <= e) l -> solution_set (zlen (p_nodes p)) l.
Proof.
  intros Hl. eapply Forall_impl; [exact Hl|]. intros x (e & (Hws & _) & _). split; [|apply Hws].
  unfold zlen. by rewrite (ws_solution _ _ _ _ _ Hws).
Qed.

(** A submission that passes evaluation: every kept solution is a valid,
    admitted solution of the order; the best one is kept first and its energy
    is the recorded one; the count and diversity thresholds hold; and it
    strictly improves on the solver's previous submission. *)
Lemma evaluate_submission_sound id order who transformed s selected best diversity :
  evaluate_submission cfg id order who transformed s = Ok (selected, best, diversity) ->
  let p := ising_params order in
  (exists x, head selected = Some x /\ admitted p x best) /\
  Forall (fun x => x ∈ transformed /\ exists e, admitted p x e /\ best <= e) selected /\
  (forall x e, x ∈ transformed -> admitted p x e -> best <= e) /\
  zlen selected <= MaxSolutions cfg /\
  (forall n, p_min_solutions p = Some n -> n <= zlen selected) /\
  calculate_diversity selected = Ok diversity /\
  (forall n, p_min_diversity_milli p = Some n -> n <= diversity) /\
  (forall old, OrderSolutions s !! (id, who) = Some old -> best < sol_best_energy_milli old).
Proof.
  intros Hok p. unfold evaluate_submission in Hok.
  apply rbind_Ok_inv in Hok as (topology & Htop & Hok). fold p in Htop, Hok.
  assert (TopologyIndex.new (p_nodes p) (p_edges p) = Ok topology) as Htop'.
  { destruct (TopologyIndex.new _ _); simpl in Htop; congruence. }
  hinv. match goal with Hf : rfold _ _ _ = Ok ?r |- _ => destruct r as [[valid best'] index]; rename Hf into Hfold end.
  apply score_loop_scored in Hfold as (Hin & Hkept & Hlen & Hall & Hbest); [|done]. hinv.
  destruct valid as [|v valid]; [done|]. set (V := v :: valid) in *.
  destruct Hbest as (x & Hx & Hax).
  pose proof (admitted_solution_set _ _ _ Hall) as Hset.
  match goal with Hsel : select_from_best V index ?t = Ok ?sel |- _ =>
    destruct (select_from_best_total _ V index t Hset) as (sel' & Hs1 & Hg & Hl) end; [by eapply lookup_lt_Some|].
  match goal with Hsel : select_from_best V index _ = Ok ?sel |- _ => assert (sel = sel') as -> by congruence end.
  match goal with Hm : rmapM _ _ = Ok _ |- _ => pose proof Hm as Hmap end.
  apply greedy_from_NoDup in Hg as (_ & _ & Hhead). apply rmapM_Ok_inv in Hmap as Hf2.
  assert (Forall2 (fun i y => V !! i = Some y) sel' selected) as Hpick.
  { eapply Forall2_impl; [exact Hf2|]. intros i y Hy. simpl in Hy. by destruct (V !! i); simplify_eq/=. }
  assert (zlen selected <= zlen transformed) as Hsl.
  { apply rmapM_length in Hmap. unfold zlen in *. lia. }
  assert (Forall (fun y => y ∈ V) selected) as HselV.
  { clear -Hpick. induction Hpick; constructor; [by eapply list_elem_of_lookup_2|done]. }
  split_and!.
  - destruct Hpick as [|i y sel selected Hi _]; simplify_eq/=. eauto.
  - eapply Forall_impl; [exact HselV|]. intros y Hy. split; [by apply Hin|]. rewrite Forall_forall in Hall. by apply Hall.
  - intros y e Hy Ha. pose proof (Hkept y e Hy Ha) as HyV. rewrite Forall_forall in Hall.
    destruct (Hall y HyV) as (e' & (_ & -> & _) & Hle). destruct Ha as (_ & -> & _). done.
  - lia.
  - intros n Hn. rewrite Hn in *. hinv. done.
  - done.
  - intros n Hn. rewrite Hn in *. hinv. done.
  - intros old Ho. rewrite Ho in *. bool_to_prop. done.
Qed.

(** ** What a call does to the order book *)

Definition book s :=
  (JobOrders s, OrderSolutions s, OrderFrontRunner s, OrderTopSolvers s, NextOrderId s, block_number s, world s).

Inductive book_step s s' : Prop :=
  | book_same : book s' = book s -> book_step s s'
  | book_propose who id p a m r dl w d s1 order_id :
      do_propose_job cfg who id p a m r dl w d s = Ok (s1, order_id) -> book s' = book s1 -> book_step s s'
  | book_submit who id sols payee :
      submit_solution_inner cfg who id sols payee s = Ok s' -> book_step s s'
  | book_claim o id : claim_reward o id s = Ok s' -> book_step s s'
  | book_reclaim o id : reclaim_order o id s = Ok s' -> book_step s s'.

Lemma dispatch_book o c s s' : dispatch cfg o c s = Ok s' -> book_step s s'.
Proof.
  intros Hok. destruct c; simpl in Hok.
  - unfold register_solver in Hok. hinv. by apply book_same.
  - unfold deregister_solver in Hok. hinv. by apply book_same.
  - unfold register_job_spec, insert_job_spec in Hok. hinv. by apply book_same.
  - destruct required_chain; [unfold propose_job_with_payee_requirement in Hok|unfold propose_job in Hok]; hinv;
      match goal with Hp : do_propose_job _ _ _ _ _ _ _ _ _ _ _ = Ok ?r |- _ => destruct r as [s1 oid] end; hinv;
      by eapply book_propose.
  - destruct payee; [unfold submit_solution_with_payee in Hok|unfold submit_solution in Hok]; hinv; by eapply book_submit.
  - by eapply book_claim.
  - by eapply book_reclaim.
  - unfold purge_result in Hok. hinv. by apply book_same.
Qed.

(** ** Life cycle *)

Definition status_rank (st : OrderStatus) : Z :=
  match st with Opened => 0 | Expired => 1 | Closed => 2 end.

(** What never changes about an order. *)
Definition terms (o : JobOrder) :=
  (spec_id o, proposer o, ising_params o, reward o, mode o, resolution o, timing o, delivery o, created_at o).

(** [o'] is a later stage of [o]: the terms are the same, the status only moves
    forward, and once the order is no longer open it takes no solutions. *)
Record later (o o' : JobOrder) : Prop := {
  later_terms : terms o' = terms o;
  later_status : status_rank (status o) <= status_rank (status o');
  later_count : status o <> Opened -> solution_count o' = solution_count o /\ first_solution_at o' = first_solution_at o;
  later_close : status o = Opened -> status o' <> Closed
}.

Lemma later_refl o : later o o.
Proof. split; [done|lia|done|congruence]. Qed.

Lemma later_closed o : status o = Expired -> later o (o <| status := Closed |>).
Proof. intros Hs. destruct o; simpl in *; subst. split; done. Qed.

Lemma later_expired o : status o = Opened -> later o (o <| status := Expired |>).
Proof. intros Hs. destruct o; simpl in *; subst. split; done. Qed.

Lemma later_submitted o now b : status o = Opened -> later o (order_after o now b).
Proof. intros Hs. destruct o; simpl in *; subst. split; simpl; done. Qed.

(** Every order of [s] is still there in [s'], at the same or a later stage. *)
Definition orders_later s s' : Prop :=
  forall id o, JobOrders s !! id = Some o -> exists o', JobOrders s' !! id = Some o' /\ later o o'.

#[local] Lemma orders_later_update id o o' s s' :
  JobOrders s !! id = Some o -> JobOrders s' = <[id := o']> (JobOrders s) -> later o o' -> orders_later s s'.
Proof.
  intros Hid EJ Hl i oi Hi. rewrite EJ. destruct (decide (id = i)) as [<-|Hne].
  - rewrite lookup_insert_eq. simplify_eq. eauto.
  - rewrite lookup_insert_ne by done. eauto using later_refl.
Qed.

Lemma dispatch_later o c s s' :
  sched_inv s -> dispatch cfg o c s = Ok s' -> orders_later s s'.
Proof.
  intros Hinv Hok. apply dispatch_book in Hok
    as [Hsame|who id p a m r dl w d s1 oid Hp Hsame|who id sols payee Hs|o' id Hc|o' id Hc].
  - intros i oi Hi. unfold book in Hsame. simplify_eq. exists oi. split; [congruence|apply later_refl].
  - apply do_propose_job_effect in Hp as (-> & _ & _ & _ & _ & EJ & _). unfold book in Hsame.
    assert (JobOrders s' = JobOrders s1) as EJ' by congruence.
    intros i oi Hi. rewrite EJ', EJ, lookup_insert_ne; [eauto using later_refl|].
    intros <-. pose proof (si_fresh _ Hinv (NextOrderId s) ltac:(eauto)). lia.
  - apply submit_solution_inner_Ok in Hs as (info & order & _ & _ & selected & best & diversity & _ & Hord & _ & Hst & _ & _ & _ & _ & _ & Hrec).
    apply record_submission_effect in Hrec as (EJ & _). eapply orders_later_update; [done..|by apply later_submitted].
  - apply claim_reward_effect in Hc as (order & ps & w & s1 & Hord & Hst & _ & _ & _ & _ & _ & _ & EJ & _).
    eapply orders_later_update; [done..|by apply later_closed].
  - apply reclaim_order_effect in Hc as (order & w & Hord & Hst & _ & _ & _ & _ & EJ & _).
    eapply orders_later_update; [done..|by apply later_closed].
Qed.

Lemma expires_due_later now s s' : expires_due now s s' -> orders_later s s'.
Proof.
  intros Hd i o Hi. specialize (Hd i). rewrite Hi in Hd. destruct (JobOrders s' !! i) as [o'|]; [|done].
  exists o'. split; [done|]. destruct Hd as [->|(Hst & _ & ->)]; [apply later_refl|by apply later_expired].
Qed.

(** ** Ranking *)

(** The best energy of every solver that has a solution for an order. *)
Definition best_energies (id : Z) s : gmap Z Z :=
  sol_best_energy_milli <$> default ∅ (map_curry (M1 := gmap Z) (M2 := gmap Z) (OrderSolutions s) !! id).

Lemma best_energies_lookup id who s :
  best_energies id s !! who = sol_best_energy_milli <$> OrderSolutions s !! (id, who).
Proof.
  unfold best_energies. rewrite lookup_fmap. f_equal.
  rewrite <- (lookup_map_curry (M1 := gmap Z) (M2 := gmap Z) (OrderSolutions s) id who).
  by destruct (map_curry _ !! id).
Qed.

(** The ranking state of an order agrees with its best energies. *)
Definition rank_ok (r : RewardResolution) (best : gmap Z Z) (front : option FrontRunner)
    (top : list RankedSolver) : Prop :=
  match r with
  | SingleBest =>
      match front with
      | None => best = ∅
      | Some f => best !! fr_solver f = Some (fr_energy_milli f) /\
          forall who e, best !! who = Some e -> fr_energy_milli f <= e
      end
  | TopNWeighted n | TopNEqual n => 0 < n <= MAX_REWARD_WINNERS /\ ranks (Z.to_nat n) best top
  end.

Record rank_inv s : Prop := {
  ri_order : forall id o, JobOrders s !! id = Some o ->
    rank_ok (resolution o) (best_energies id s) (OrderFrontRunner s !! id) (top_solvers id s) /\
    0 <= solution_count o /\ (solution_count o = 0 <-> best_energies id s = ∅);
  ri_fresh : forall id, JobOrders s !! id = None ->
    best_energies id s = ∅ /\ OrderFrontRunner s !! id = None /\ top_solvers id s = []
}.

(** A ranking update with a first or strictly better energy. *)
Lemma update_ranking_ok id r who e best s s' :
  rank_ok r best (OrderFrontRunner s !! id) (top_solvers id s) ->
  (forall old, best !! who = Some old -> e < old) ->
  update_ranking id r who e s = Ok s' ->
  rank_ok r (<[who := e]> best) (OrderFrontRunner s' !! id) (top_solvers id s') /\
  (forall i, i <> id -> OrderFrontRunner s' !! i = OrderFrontRunner s !! i /\ top_solvers i s' = top_solvers i s).
Proof.
  intros Hr Himp Hok. unfold update_ranking in Hok. destruct r as [|n|n]; simpl in Hr |- *.
  - destruct (match OrderFrontRunner s !! id with Some f => e <? fr_energy_milli f | None => true end) eqn:Hb;
      injection Hok as <-; simpl.
    + rewrite lookup_insert_eq. simpl. split_and!; [by rewrite lookup_insert_eq| |].
      * intros w ew. rewrite lookup_insert_Some. intros [[<- <-]|[Hne Hw]]; [lia|].
        destruct (OrderFrontRunner s !! id) as [f|]; [|subst best; by rewrite lookup_empty in Hw].
        destruct Hr as [_ Hr]. specialize (Hr w ew Hw). bool_to_prop. lia.
      * intros i Hi. by rewrite lookup_insert_ne by done.
    + split; [|done]. destruct (OrderFrontRunner s !! id) as [f|]; [|done]. bool_to_prop. destruct Hr as [Hf Hr].
      assert (fr_solver f <> who) as Hne by (intros <-; specialize (Himp _ Hf); lia).
      split; [by rewrite lookup_insert_ne|]. intros w ew. rewrite lookup_insert_Some.
      intros [[<- <-]|[_ Hw]]; [lia|eauto].
  - apply rbind_Ok_inv in Hok as ([] & _ & Hok).
    assert (OrderTopSolvers s' = <[id := update_ranked_solvers (top_solvers id s) (mkRankedSolver who e) (Z.to_nat n)]> (OrderTopSolvers s)
      /\ OrderFrontRunner s' = OrderFrontRunner s) as [E1 E2] by (repeat case_match; by simplify_eq).
    unfold top_solvers in *. rewrite E1, E2, lookup_insert_eq. simpl. destruct Hr as [Hn Hr].
    split_and!; [lia|lia|by apply update_ranked_solvers_ranks; [lia|..]|]. intros i Hi. by rewrite lookup_insert_ne.
  - apply rbind_Ok_inv in Hok as ([] & _ & Hok).
    assert (OrderTopSolvers s' = <[id := update_ranked_solvers (top_solvers id s) (mkRankedSolver who e) (Z.to_nat n)]> (OrderTopSolvers s)
      /\ OrderFrontRunner s' = OrderFrontRunner s) as [E1 E2] by (repeat case_match; by simplify_eq).
    unfold top_solvers in *. rewrite E1, E2, lookup_insert_eq. simpl. destruct Hr as [Hn Hr].
    split_and!; [lia|lia|by apply update_ranked_solvers_ranks; [lia|..]|]. intros i Hi. by rewrite lookup_insert_ne.
Qed.

Definition ranking s := (OrderSolutions s, OrderFrontRunner s, OrderTopSolvers s).

(** A change of the order book that adds no order and keeps resolutions and
    solution counts keeps the ranking invariant. *)
Lemma rank_inv_frame s s' :
  rank_inv s -> ranking s' = ranking s ->
  (forall id, match JobOrders s !! id, JobOrders s' !! id with
    | Some o, Some o' => resolution o' = resolution o /\ solution_count o' = solution_count o
    | None, None => True | _, _ => False end) ->
  rank_inv s'.
Proof.
  unfold ranking. intros [Ho Hf] Heq Hb.
  assert (forall id, best_energies id s' = best_energies id s /\ OrderFrontRunner s' !! id = OrderFrontRunner s !! id
    /\ top_solvers id s' = top_solvers id s) as Hsame.
  { intros id. unfold best_energies, top_solvers. split_and!; congruence. }
  split; intros id; specialize (Hb id); destruct (Hsame id) as (-> & -> & ->).
  - intros o' Ho'. rewrite Ho' in Hb. destruct (JobOrders s !! id) as [o|] eqn:Hid; [|done].
    destruct Hb as [-> ->]. by apply Ho.
  - intros Hn. rewrite Hn in Hb. destruct (JobOrders s !! id) eqn:Hid; [done|]. by apply Hf.
Qed.

Lemma close_order_rank id o s s' :
  rank_inv s -> JobOrders s !! id = Some o -> ranking s' = ranking s ->
  JobOrders s' = <[id := o <| status := Closed |>]> (JobOrders s) -> rank_inv s'.
Proof.
  intros Hinv Ho Hr EJ. eapply rank_inv_frame; [done|done|]. intros i. rewrite EJ.
  destruct (decide (id = i)) as [<-|Hne]; [by rewrite Ho, lookup_insert_eq|].
  rewrite lookup_insert_ne by done. by case_match.
Qed.

Lemma record_submission_rank id order who info payee selected best diversity s s' :
  rank_inv s -> JobOrders s !! id = Some order ->
  (forall old, OrderSolutions s !! (id, who) = Some old -> best < sol_best_energy_milli old) ->
  record_submission cfg id order who info payee selected best diversity s = Ok s' -> rank_inv s'.
Proof.
  intros [Hin Hfr] Hord Himp Hrec.
  apply record_submission_effect in Hrec as (EJ & ES & _ & _ & s1 & s2 & Hup & Hs1 & Hs2). simplify_eq.
  destruct (Hin id order Hord) as (Hok & Hc0 & Hc).
  assert (forall i, top_solvers i s1 = top_solvers i s /\ top_solvers i s' = top_solvers i s2) as Htop.
  { intros i. unfold top_solvers. split; congruence. }
  assert (best_energies id s' = <[who := best]> (best_energies id s)) as HB.
  { apply map_eq. intros w. rewrite best_energies_lookup, ES. destruct (decide (w = who)) as [->|Hne].
    - by rewrite !lookup_insert_eq.
    - rewrite !lookup_insert_ne, best_energies_lookup by congruence. done. }
  assert (forall i, i <> id -> best_energies i s' = best_energies i s) as HB'.
  { intros i Hi. apply map_eq. intros w. by rewrite !best_energies_lookup, ES, lookup_insert_ne by congruence. }
  apply update_ranking_ok with (best := best_energies id s) in Hup as [Hok' Hother].
  2: { rewrite (proj1 (Htop id)). replace (OrderFrontRunner s1) with (OrderFrontRunner s) by congruence. done. }
  2: { intros old. rewrite best_energies_lookup, fmap_Some. intros (sol & Hsol & ->). by apply Himp. }
  replace (OrderFrontRunner s2) with (OrderFrontRunner s') in Hok', Hother by congruence.
  assert (forall i, i <> id -> OrderFrontRunner s' !! i = OrderFrontRunner s !! i /\ top_solvers i s' = top_solvers i s) as Hoth.
  { intros i Hi. destruct (Hother i Hi) as [E1 E2]. rewrite (proj2 (Htop i)), E2, (proj1 (Htop i)).
    split; [congruence|done]. }
  split; intros i.
  - intros o. rewrite EJ, lookup_insert_Some. intros [[<- <-]|[Hne Hi]].
    + rewrite HB, (proj2 (Htop id)).
      assert (solution_count (order_after order (block_number s) (bool_decide (OrderSolutions s !! (id, who) = None))) =
        (if bool_decide (OrderSolutions s !! (id, who) = None) then u32_add (solution_count order) 1 else solution_count order) /\
        resolution (order_after order (block_number s) (bool_decide (OrderSolutions s !! (id, who) = None))) = resolution order)
        as [-> ->] by (destruct order; done).
      assert (0 < (if bool_decide (OrderSolutions s !! (id, who) = None) then u32_add (solution_count order) 1 else solution_count order)) as Hpos.
      { case_bool_decide as Hnew; [unfold u32_add, sat_u; lia|].
        destruct (decide (solution_count order = 0)) as [Hz%Hc|]; [|lia]. exfalso. apply Hnew.
        apply (f_equal (.!! who)) in Hz. rewrite best_energies_lookup, lookup_empty in Hz. by apply fmap_None in Hz. }
      split_and!; [done|lia|]. split; [lia|]. intros Hz%(f_equal (.!! who)). by rewrite lookup_insert_eq in Hz.
    + rewrite HB' by done. destruct (Hoth i) as [-> ->]; [done|]. by apply Hin.
  - rewrite EJ, lookup_insert_None. intros [Hi Hne]. rewrite HB' by done. destruct (Hoth i) as [-> ->]; [done|]. by apply Hfr.
Qed.

Lemma do_propose_job_rank who id p a m r dl w d s s' order_id :
  sched_inv s -> rank_inv s ->
  do_propose_job cfg who id p a m r dl w d s = Ok (s', order_id) -> rank_inv s'.
Proof.
  intros Hs [Hin Hfr] Hok. apply do_propose_job_effect in Hok as (-> & _ & Hres & _ & _ & EJ & _ & _ & _ & Heq). simplify_eq.
  assert (forall i, best_energies i s' = best_energies i s /\ OrderFrontRunner s' !! i = OrderFrontRunner s !! i
    /\ top_solvers i s' = top_solvers i s) as Hsame.
  { intros i. unfold best_energies, top_solvers. split_and!; congruence. }
  assert (JobOrders s !! NextOrderId s = None) as Hnew.
  { apply eq_None_not_Some. intros Hsm%(si_fresh _ Hs). lia. }
  split; intros i; destruct (Hsame i) as (-> & -> & ->).
  - intros o. rewrite EJ, lookup_insert_Some. intros [[<- <-]|[Hne Hi]]; [|by apply Hin].
    destruct (Hfr _ Hnew) as (-> & -> & ->). simpl. split_and!; [|lia|done].
    destruct r; simpl in *; [done|hinv..]; split; [lia|apply ranks_nil|lia|apply ranks_nil].
  - rewrite EJ, lookup_insert_None. intros [Hi _]. by apply Hfr.
Qed.

(** Every call keeps the ranking of every order. *)
Lemma dispatch_rank o c s s' :
  sched_inv s -> rank_inv s -> dispatch cfg o c s = Ok s' -> rank_inv s'.
Proof.
  intros Hs Hinv Hok. apply dispatch_book in Hok
    as [Hsame|who id p a m r dl w d s1 oid Hp Hsame|who id sols payee Hsub|o' id Hc|o' id Hc].
  - unfold book in Hsame. simplify_eq. eapply rank_inv_frame; [done|unfold ranking; congruence|].
    intros i. replace (JobOrders s') with (JobOrders s) by congruence. by case_match.
  - apply do_propose_job_rank in Hp; [|done..]. unfold book in Hsame. simplify_eq.
    eapply rank_inv_frame; [done|unfold ranking; congruence|].
    intros i. replace (JobOrders s') with (JobOrders s1) by congruence. by case_match.
  - apply submit_solution_inner_Ok in Hsub as (info & order & _ & tr & selected & best & diversity & _ & Hord & _ & _ & _ & _ & _ & _ & Hev & Hrec).
    apply evaluate_submission_sound in Hev as (_ & _ & _ & _ & _ & _ & _ & Himp).
    by eapply record_submission_rank.
  - apply claim_reward_effect in Hc as (order & ps & w & s1 & Hord & _ & _ & _ & _ & _ & _ & _ & EJ & _ & Heq).
    eapply close_order_rank; [done..|unfold ranking; congruence|done].
  - apply reclaim_order_effect in Hc as (order & w & Hord & _ & _ & _ & _ & _ & EJ & _ & Heq).
    eapply close_order_rank; [done..|unfold ranking; congruence|done].
Qed.

(** ** Payouts *)

Definition winner_of (p : payout) : RankedSolver := mkRankedSolver p.1.1 p.2.

#[local] Lemma weighted_loop_winners ranked index count total r distributed :
  winner_of <$> (weighted_loop index count total r distributed ranked).1 = ranked.
Proof.
  revert index distributed. induction ranked as [|[w e] ranked IH]; intros index distributed; csimpl; [done|].
  destruct (weighted_loop _ _ _ _ _ ranked) as [rest d] eqn:Hl. csimpl. f_equal.
  transitivity (winner_of <$> (rest, d).1); [done|]. by rewrite <- Hl, IH.
Qed.

Lemma top_n_weighted_winners ranked r : winner_of <$> top_n_weighted_payouts ranked r = ranked.
Proof.
  unfold top_n_weighted_payouts. case_bool_decide; [by subst|].
  pose proof (weighted_loop_winners ranked 0 (zlen ranked) (sat_u 128 (zlen ranked * u128_add (zlen ranked) 1) / 2) r 0) as Hw.
  destruct (weighted_loop _ _ _ _ _ ranked) as [ps d]. simpl in Hw. destruct ps as [|[[who a] e] ps]; by subst.
Qed.

Lemma top_n_equal_winners ranked r : winner_of <$> top_n_equal_payouts ranked r = ranked.
Proof.
  unfold top_n_equal_payouts. case_bool_decide; [by subst|]. rewrite fmap_imap.
  apply list_eq. intros i. rewrite list_lookup_imap. destruct (ranked !! i) as [[w e]|]; done.
Qed.

(** The payouts of an order: they add up to the reward, go to distinct solvers
    with their best energies, and leave a solver out only when every winner is
    at least as good. *)
Record fair_payouts (r : Z) (best : gmap Z Z) (ps : list payout) : Prop := {
  fp_sum : zsum (amounts ps) = r;
  fp_nonneg : Forall (fun a => 0 <= a) (amounts ps);
  fp_count : 0 < zlen ps <= MAX_REWARD_WINNERS;
  fp_distinct : NoDup (solver <$> (winner_of <$> ps));
  fp_best : Forall (fun p => best !! p.1.1 = Some p.2) ps;
  fp_top : forall who e, best !! who = Some e ->
    who ∈ (solver <$> (winner_of <$> ps)) \/ Forall (fun p => p.2 <= e) ps
}.

(** *** The rules of [RewardResolution]

    What a rule promises, independently of how the code computes it: how many
    solvers share the reward, the weight of rank [i] of [k], and the
    proportional share of a rank, rounded down. *)
Definition winner_limit (r : RewardResolution) : Z :=
  match r with SingleBest => 1 | TopNWeighted n | TopNEqual n => n end.
Definition rank_weight (r : RewardResolution) (k i : Z) : Z :=
  match r with SingleBest | TopNEqual _ => 1 | TopNWeighted _ => k - i end.
Definition total_weight (r : RewardResolution) (k : Z) : Z := zsum (rank_weight r k <$> seqZ 0 k).
Definition rank_share (r : RewardResolution) (rew k i : Z) : Z :=
  rew * rank_weight r k i / total_weight r k.

(** The payouts follow the rule: as many winners as the rule allows and there
    are solvers, best energy first; every rank after the first gets exactly its
    share, and the leader its share and what rounding leaves, which is less
    than one unit per winner. *)
Record by_rule (r : RewardResolution) (rew : Z) (best : gmap Z Z) (ps : list payout) : Prop := {
  br_count : zlen ps = Z.min (winner_limit r) (Z.of_nat (size best));
  br_sorted : StronglySorted energy_le (winner_of <$> ps);
  br_share : forall i p, (0 < i)%nat -> ps !! i = Some p -> p.1.2 = rank_share r rew (zlen ps) (Z.of_nat i);
  br_leader : forall p, head ps = Some p ->
    rank_share r rew (zlen ps) 0 <= p.1.2 < rank_share r rew (zlen ps) 0 + zlen ps
}.

(** Proportional shares rounded down never exceed the whole, and lose less
    than one unit each. *)
#[local] Lemma share_floor_sum rew total (ws : list Z) :
  0 < total ->
  rew * zsum ws - total * zlen ws <= total * zsum ((fun w => rew * w / total) <$> ws) <= rew * zsum ws /\
  (ws <> [] -> rew * zsum ws - total * zlen ws < total * zsum ((fun w => rew * w / total) <$> ws)).
Proof.
  intros Ht. induction ws as [|w ws [IH _]]; [unfold zsum, zlen; simpl; split; [lia|done]|].
  rewrite zlen_cons. unfold zsum in *. csimpl.
  pose proof (Z.div_mod (rew * w) total ltac:(lia)). pose proof (Z.mod_pos_bound (rew * w) total Ht).
  split; [nia|]. intros _. nia.
Qed.

#[local] Lemma total_weight_pos r k : 0 < k -> 0 < total_weight r k.
Proof.
  intros Hk. unfold total_weight. rewrite seqZ_cons by done. unfold zsum. csimpl.
  assert (0 <= zsum (rank_weight r k <$> seqZ (Z.succ 0) (Z.pred k))) as Hz.
  { apply zsum_nonneg, Forall_fmap, Forall_forall. intros i Hi%elem_of_seqZ. destruct r; simpl; lia. }
  unfold zsum in Hz. destruct r; simpl in *; lia.
Qed.

#[local] Lemma total_weight_equal n k : 0 < k -> total_weight (TopNEqual n) k = k.
Proof.
  intros Hk. unfold total_weight. assert (forall l : list Z, zsum (rank_weight (TopNEqual n) k <$> l) = zlen l) as ->.
  { induction l as [|x l IH]; [done|]. rewrite zlen_cons. unfold zsum in *. csimpl. lia. }
  unfold zlen. rewrite length_seqZ. lia.
Qed.

#[local] Lemma total_weight_weighted n k : 0 < k -> total_weight (TopNWeighted n) k = k * (k + 1) / 2.
Proof.
  intros Hk. unfold total_weight.
  assert (forall m : nat, Z.of_nat m <= k -> 2 * zsum (rank_weight (TopNWeighted n) k <$> seqZ (k - Z.of_nat m) (Z.of_nat m))
    = Z.of_nat m * (Z.of_nat m + 1)) as Hs.
  { induction m as [|m IH]; intros Hm; [done|]. rewrite seqZ_cons by lia. unfold zsum in *. csimpl.
    replace (Z.succ (k - Z.of_nat (S m))) with (k - Z.of_nat m) by lia. replace (Z.pred (Z.of_nat (S m))) with (Z.of_nat m) by lia.
    specialize (IH ltac:(lia)). simpl in *. lia. }
  specialize (Hs (Z.to_nat k) ltac:(lia)). rewrite Z2Nat.id, Z.sub_diag in Hs by lia.
  rewrite <- Hs. symmetry. rewrite Z.mul_comm. by apply Z.div_mul.
Qed.

(** A list of payouts that adds up to the reward and whose lower ranks get
    their shares leaves the leader its share and the remainder. *)
#[local] Lemma by_rule_intro r rew best ps :
  zlen ps = Z.min (winner_limit r) (Z.of_nat (size best)) -> StronglySorted energy_le (winner_of <$> ps) ->
  0 < zlen ps -> zsum (amounts ps) = rew ->
  (forall i a, (0 < i)%nat -> amounts ps !! i = Some a -> a = rank_share r rew (zlen ps) (Z.of_nat i)) ->
  by_rule r rew best ps.
Proof.
  intros Hc Hs Hk Hsum Hsh. pose proof (total_weight_pos r _ Hk) as Ht.
  assert (forall i p, (0 < i)%nat -> ps !! i = Some p -> p.1.2 = rank_share r rew (zlen ps) (Z.of_nat i)) as Hsh'.
  { intros i p Hi Hp. apply Hsh; [done|]. unfold amounts. by rewrite list_lookup_fmap, Hp. }
  split; try done. intros p Hp. destruct ps as [|p' ps]; [done|]. injection Hp as ->.
  set (k := zlen (p :: ps)) in *.
  destruct (share_floor_sum rew (total_weight r k) (rank_weight r k <$> seqZ 0 k) Ht) as [Hle Hlt].
  rewrite <- list_fmap_compose in Hle, Hlt. fold (total_weight r k) in Hle, Hlt.
  assert (zlen (rank_weight r k <$> seqZ 0 k) = k) as Hlen by (unfold zlen; rewrite length_fmap, length_seqZ; lia).
  assert (seqZ 0 k <> []) as Hne by (rewrite seqZ_cons by done; done).
  specialize (Hlt ltac:(intros ?%fmap_nil_inv; done)). rewrite Hlen in Hle, Hlt.
  assert (((fun w => rew * w / total_weight r k) ∘ rank_weight r k <$> seqZ 0 k)
    = rank_share r rew k 0 :: ((fun p : payout => p.1.2) <$> ps)) as Heq.
  { rewrite seqZ_cons by done. csimpl. f_equal. apply list_eq. intros i. rewrite !list_lookup_fmap.
    destruct (ps !! i) as [q|] eqn:Hq; csimpl.
    - pose proof (lookup_lt_Some _ _ _ Hq). rewrite lookup_seqZ_lt by (unfold k, zlen; simpl; lia). csimpl.
      rewrite (Hsh' (S i) q) by (done || lia). unfold rank_share. by replace (Z.succ 0 + Z.of_nat i) with (Z.of_nat (S i)) by lia.
    - apply lookup_ge_None in Hq. rewrite lookup_seqZ_ge by (unfold k, zlen; simpl; lia). done. }
  rewrite Heq in Hle, Hlt. unfold zsum, amounts in *. csimpl in *. split; nia.
Qed.

#[local] Lemma ranks_fair rule best ranked r ps :
  0 < winner_limit rule <= MAX_REWARD_WINNERS -> ranks (Z.to_nat (winner_limit rule)) best ranked -> ranked <> [] ->
  winner_of <$> ps = ranked -> zsum (amounts ps) = r -> Forall (fun a => 0 <= a) (amounts ps) ->
  (forall k, 0 < k -> k = zlen ranked -> forall i a, (0 < i)%nat -> amounts ps !! i = Some a ->
     a = rank_share rule r k (Z.of_nat i)) ->
  fair_payouts r best ps /\ by_rule rule r best ps.
Proof.
  intros Hn Hr Hne Hw Hsum Hpos Hsh. pose proof (ranks_count _ _ _ Hr) as Hcount. destruct Hr as [Hso Hd Hb Hl Ht].
  assert (length ranked = length ps) as Hlen by (by rewrite <- Hw, length_fmap).
  assert (zlen ps = zlen ranked) as Hz by (unfold zlen; congruence).
  assert (0 < zlen ranked) as Hpos' by (unfold zlen; destruct ranked; [done|simpl; lia]).
  subst ranked. split.
  - split; try done; [unfold zlen in *; lia|by apply Forall_fmap in Hb|].
    intros who e He. destruct (Ht who e He) as [?|[_ Hall]]; [by left|right].
    exact (proj1 (Forall_fmap winner_of (fun r => energy_milli r <= e) ps) Hall).
  - apply by_rule_intro; try done; [unfold zlen in *; lia|lia|]. rewrite Hz. by apply Hsh.
Qed.

#[local] Lemma single_best_by_rule r best f :
  in_u 128 r -> size best <> 0%nat -> best !! fr_solver f = Some (fr_energy_milli f) ->
  (forall who e, best !! who = Some e -> fr_energy_milli f <= e) ->
  fair_payouts r best (single_best_payouts f r) /\ by_rule SingleBest r best (single_best_payouts f r).
Proof.
  intros Hrew Hsz Hf Hmin. assert (zsum (amounts (single_best_payouts f r)) = r) as Hsum.
  { unfold zsum, amounts. simpl. lia. }
  split.
  - split; try done.
    + unfold amounts. csimpl. constructor; [|constructor]. unfold in_u in Hrew. lia.
    + apply NoDup_singleton.
    + by constructor.
    + intros who e He. right. constructor; [by eapply Hmin|constructor].
  - apply by_rule_intro; try done; simpl.
    + unfold zlen. simpl. lia.
    + repeat constructor.
    + intros [|i] a Hi; [lia|done].
Qed.

Lemma compute_payouts_fair id o s :
  rank_ok (resolution o) (best_energies id s) (OrderFrontRunner s !! id) (top_solvers id s) ->
  best_energies id s <> ∅ -> in_u 128 (reward o) ->
  exists ps, compute_payouts id o s = Ok ps /\ fair_payouts (reward o) (best_energies id s) ps /\
    by_rule (resolution o) (reward o) (best_energies id s) ps.
Proof.
  intros Hr Hne Hrew. unfold compute_payouts.
  assert (forall n, ranks n (best_energies id s) (top_solvers id s) -> (0 < n)%nat -> top_solvers id s <> []) as Hnil.
  { intros n Hrk Hn Hnil. rewrite Hnil in Hrk. destruct (map_choose _ Hne) as (w & e & Hw).
    destruct (rk_top _ _ _ Hrk w e Hw) as [Hin|[Hl _]]; [by apply not_elem_of_nil in Hin|simpl in Hl; lia]. }
  assert (size (best_energies id s) <> 0%nat) as Hsz by (by intros ?%map_size_empty_iff).
  destruct (resolution o) as [|n|n]; simpl in Hr.
  - destruct (OrderFrontRunner s !! id) as [f|]; [|done]. destruct Hr as [Hf Hmin]. eexists. split; [done|].
    by apply single_best_by_rule.
  - destruct Hr as [Hn Hr]. specialize (Hnil _ Hr ltac:(lia)). rewrite bool_decide_false by done. eexists. split; [done|].
    destruct (top_n_weighted_sum (top_solvers id s) (reward o)) as (Hs & Hp & _ & Hsh & _); [done| |done|].
    { pose proof (rk_bound _ _ _ Hr). unfold zlen, MAX_REWARD_WINNERS in *. lia. }
    eapply (ranks_fair (TopNWeighted n)); [done..|apply top_n_weighted_winners|done|done|].
    intros k Hk -> i a Hi Ha. rewrite (Hsh i a Hi Ha). unfold rank_share. by rewrite total_weight_weighted by lia.
  - destruct Hr as [Hn Hr]. specialize (Hnil _ Hr ltac:(lia)). rewrite bool_decide_false by done. eexists. split; [done|].
    destruct (top_n_equal_sum (top_solvers id s) (reward o)) as (Hs & Hp & Hsh & _); [done|done|].
    eapply (ranks_fair (TopNEqual n)); [done..|apply top_n_equal_winners|done| |].
    + eapply Forall_impl; [exact Hp|]. intros a [Ha _]. simpl in Ha.
      assert (0 <= reward o / zlen (top_solvers id s)); [|lia]. apply Z.div_pos; [apply Hrew|].
      unfold zlen. destruct (top_solvers id s); [done|simpl; lia].
    + intros k Hk -> i a Hi Ha. rewrite (Hsh i a Hi Ha). unfold rank_share. rewrite total_weight_equal by lia. simpl. by rewrite Z.mul_1_r.
Qed.

Definition rewards_typed s : Prop := forall id o, JobOrders s !! id = Some o -> in_u 128 (reward o).

(** Expiring an order never panics. *)
Lemma finalise_order_total id s :
  rank_inv s -> rewards_typed s -> exists s', finalise_order id s = Ok s'.
Proof.
  intros Hinv Hty. unfold finalise_order. destruct (JobOrders s !! id) as [o|] eqn:Hid; [|eauto].
  case_bool_decide; simpl; [|eauto]. case_match eqn:Hc; [eauto|]. bool_to_prop.
  destruct (ri_order _ Hinv id o Hid) as (Hr & _ & Hcount).
  match goal with |- context [compute_payouts id ?o' ?s1] => destruct (compute_payouts_fair id o' s1) as (ps & -> & Hf & _) end.
  - exact Hr.
  - intros He. apply Hc, Hcount. exact He.
  - exact (Hty id o Hid).
  - unfold winner_summaries_from_payouts. rewrite (proj2 (Z.leb_le _ _)); [simpl; eauto|]. apply Hf.
Qed.

#[local] Lemma finalise_order_inv id s s' :
  rank_inv s -> rewards_typed s -> finalise_order id s = Ok s' -> rank_inv s' /\ rewards_typed s'.
Proof.
  intros Hinv Hty Hok. apply finalise_order_effect in Hok as (EJ & _ & _ & Heq). unfold unexpired_fields in Heq.
  assert (forall i, match JobOrders s !! i, JobOrders s' !! i with
    | Some o, Some o' => resolution o' = resolution o /\ solution_count o' = solution_count o /\ reward o' = reward o
    | None, None => True | _, _ => False end) as Hb.
  { intros i. rewrite EJ. unfold expire. destruct (JobOrders s !! id) as [o|] eqn:Hid; [|by case_match].
    case_bool_decide; [|by case_match]. destruct (decide (id = i)) as [<-|Hne].
    - by rewrite Hid, lookup_insert_eq.
    - rewrite lookup_insert_ne by done. by case_match. }
  split.
  - eapply rank_inv_frame; [done|unfold ranking; congruence|]. intros i. specialize (Hb i).
    destruct (JobOrders s !! i), (JobOrders s' !! i); naive_solver.
  - intros i o' Ho'. specialize (Hb i). rewrite Ho' in Hb. destruct (JobOrders s !! i) as [o|] eqn:Hi; [|done].
    destruct Hb as (_ & _ & ->). by eapply Hty.
Qed.

#[local] Lemma finalise_loop_total n now budget bucket fin vis s :
  rank_inv s -> rewards_typed s ->
  exists r, finalise_loop n now budget bucket fin vis s = Ok r /\ rank_inv r.1.1.1 /\ rewards_typed r.1.1.1.
Proof.
  revert budget bucket fin vis s. induction n as [|n IH]; intros budget bucket fin vis s Hinv Hty; simpl; [eauto|].
  case_match; [|eauto].
  match goal with |- context [rfold ?f s ?l] => destruct (rfold_total f (fun x => rank_inv x /\ rewards_typed x) l s)
    as (s1 & -> & Hinv1 & Hty1) end; [|done|].
  - intros acc id _ [Ha1 Ha2].
    assert (rank_inv (remove_expiry bucket id acc)) as Hr by (by eapply rank_inv_frame; [done|done|intros i; simpl; case_match]).
    destruct (finalise_order_total id (remove_expiry bucket id acc)) as [acc' Hacc']; [done|done|].
    exists acc'. split; [done|]. by eapply finalise_order_inv.
  - simpl. case_match; [eauto|]. by apply IH.
Qed.

(** The block hook always succeeds. *)
Lemma on_initialize_total now s :
  rank_inv s -> rewards_typed s ->
  exists s', on_initialize now s = Ok s' /\ rank_inv s' /\ rewards_typed s'.
Proof.
  intros Hinv Hty. unfold on_initialize, finalise_expired_orders.
  destruct (finalise_loop_total (Z.to_nat MAX_FINALISED_ORDERS_PER_BLOCK) now MAX_FINALISED_ORDERS_PER_BLOCK
    (NextExpiryBucket s) 0 0 s Hinv Hty) as ([[[s1 b] fin] vis] & -> & Hr & Ht). simpl.
  eexists. split; [done|]. split; [|done]. by eapply rank_inv_frame; [done|done|intros i; simpl; case_match].
Qed.

(** ** Solvency *)

(** What the proposer [x] still owes: the rewards of its unsettled orders. *)
Definition owes (x : Z) (o : JobOrder) : Z :=
  if bool_decide (proposer o = x) && negb (bool_decide (status o = Closed)) then reward o else 0.
Definition owed (x : Z) s : Z := msum (owes x) (JobOrders s).

(** The reserve of every account covers its unsettled orders and what other
    pallets hold. *)
Definition solvent (others : Z -> Z) s : Prop :=
  forall x, 0 <= others x /\ owed x s + others x <= reserved_balance (world s) x.

Lemma owed_nonneg x s : rewards_typed s -> 0 <= owed x s.
Proof.
  intros Hty. apply msum_nonneg. intros k o Ho. unfold owes. case_match; [|lia]. by apply (Hty k).
Qed.

Lemma owed_covers x s id o :
  rewards_typed s -> JobOrders s !! id = Some o -> status o <> Closed -> proposer o = x -> reward o <= owed x s.
Proof.
  intros Hty Ho Hst <-. replace (reward o) with (owes (proposer o) o).
  - eapply msum_lookup_le; [|done]. intros k o' Ho'. unfold owes. case_match; [|lia]. by apply (Hty k).
  - unfold owes. by rewrite bool_decide_true, bool_decide_false.
Qed.

Lemma owed_update x s s' id o o' :
  JobOrders s !! id = Some o -> JobOrders s' = <[id := o']> (JobOrders s) ->
  owed x s' = owed x s - owes x o + owes x o'.
Proof. intros Ho EJ. unfold owed. rewrite EJ, msum_insert, Ho. simpl. lia. Qed.

(** Releasing the reward of an unsettled order always succeeds in full. *)
Lemma reserve_present `{!CurrencyLaws W} others s id o :
  solvent others s -> rewards_typed s -> JobOrders s !! id = Some o -> status o <> Closed ->
  (unreserve (world s) (proposer o) (reward o)).2 = 0.
Proof.
  intros Hs Hty Ho Hst. destruct (Hs (proposer o)) as [Hn Hle].
  pose proof (owed_covers (proposer o) s id o Hty Ho Hst eq_refl).
  rewrite unreserve_rest by apply (Hty id o Ho). lia.
Qed.

#[local] Lemma close_solvent `{!CurrencyLaws W} others s s' id o :
  solvent others s -> rewards_typed s -> JobOrders s !! id = Some o -> status o = Expired ->
  JobOrders s' = <[id := o <| status := Closed |>]> (JobOrders s) ->
  (forall x, reserved_balance (world s') x =
     reserved_balance (unreserve (world s) (proposer o) (reward o)).1 x) ->
  solvent others s'.
Proof.
  intros Hs Hty Ho Hst EJ Hw x. destruct (Hs x) as [Hn Hle]. split; [done|].
  rewrite Hw, unreserve_reserved by apply (Hty id o Ho). rewrite (owed_update x s s' id o _ Ho EJ).
  unfold owes. simpl. rewrite andb_false_r. pose proof (owed_covers (proposer o) s id o Hty Ho) as Hcov.
  case_decide as Hx; [subst x|].
  - rewrite bool_decide_true, bool_decide_false by congruence. simpl. specialize (Hcov ltac:(congruence) eq_refl). lia.
  - rewrite bool_decide_false by congruence. simpl. lia.
Qed.

Lemma pay_loop_reserved `{!CurrencyLaws W} id o ps s s' :
  rfold (pay_winner id o) s ps = Ok s' ->
  forall x, reserved_balance (world s') x = reserved_balance (world s) x.
Proof.
  intros Hok. eapply (rfold_Ok_ind _ (fun y => forall x, reserved_balance (world y) x = reserved_balance (world s) x)); [|done|exact Hok].
  intros acc [[w a] e] acc' _ Hacc Hp x. unfold pay_winner in Hp. case_match; hinv; [done|].
  match goal with Ht : transfer _ _ _ _ = Some _ |- _ => pose proof (transfer_reserved _ _ _ _ _ Ht x) as Hx end.
  rewrite <- Hacc. case_match; simpl; done.
Qed.

(** The arguments of a call are in range of their types: a 128-bit reward, and
    a model within its bounded vector. *)
Definition call_typed (c : call) : Prop :=
  match c with ProposeJob _ p a _ _ _ _ _ _ => in_u 128 a /\ zlen (p_nodes p) <= MaxNodes cfg | _ => True end.

(** An order keeps the reward, the model and the specification it was proposed
    with, and a new order names a registered specification. *)
Lemma dispatch_orders o c s s' i o' :
  dispatch cfg o c s = Ok s' -> JobOrders s' !! i = Some o' ->
  (exists o0, JobOrders s !! i = Some o0 /\ reward o' = reward o0 /\ ising_params o' = ising_params o0 /\
     spec_id o' = spec_id o0) \/
  (exists id p a m r dl w d chain, c = ProposeJob id p a m r dl w d chain /\ reward o' = a /\ ising_params o' = p /\
     is_Some (JobSpecs s !! spec_id o')).
Proof.
  intros Hok Ho'.
  destruct c; simpl in Hok; try (unfold register_solver, deregister_solver, register_job_spec, insert_job_spec, purge_result in Hok; hinv; by eauto 10).
  - assert (exists s1 oid who, do_propose_job cfg who id params amount m r deadline wait d s = Ok (s1, oid) /\
      JobOrders s' = JobOrders s1) as (s1 & oid & who & Hp & EJ').
    { destruct required_chain; [unfold propose_job_with_payee_requirement in Hok|unfold propose_job in Hok]; hinv;
        match goal with Hp : do_propose_job _ _ _ _ _ _ _ _ _ _ _ = Ok ?r |- _ => destruct r as [s1 oid] end; hinv;
        by do 3 eexists. }
    pose proof (do_propose_job_spec _ _ _ _ _ _ _ _ _ _ _ _ _ Hp) as [Hspec _].
    apply do_propose_job_effect in Hp as (_ & _ & _ & _ & _ & EJ & _). rewrite EJ', EJ, lookup_insert_Some in Ho'.
    destruct Ho' as [[<- <-]|[_ ?]]; [right; do 9 eexists; by split_and!|eauto 10].
  - assert (exists who, submit_solution_inner cfg who order_id solutions payee s = Ok s') as (who & Hs).
    { destruct payee; [unfold submit_solution_with_payee in Hok|unfold submit_solution in Hok]; hinv; eauto. }
    apply submit_solution_inner_Ok in Hs as (? & order & _ & _ & ? & ? & ? & _ & Hord & _ & _ & _ & _ & _ & _ & _ & Hrec).
    apply record_submission_effect in Hrec as (EJ & _). rewrite EJ, lookup_insert_Some in Ho'.
    destruct Ho' as [[<- <-]|[_ ?]]; [|by eauto 10]. left. exists order. by destruct order.
  - apply claim_reward_effect in Hok as (order & ? & ? & ? & Hord & _ & _ & _ & _ & _ & _ & _ & EJ & _).
    rewrite EJ, lookup_insert_Some in Ho'. destruct Ho' as [[<- <-]|[_ ?]]; eauto 10.
  - apply reclaim_order_effect in Hok as (order & ? & Hord & _ & _ & _ & _ & _ & EJ & _).
    rewrite EJ, lookup_insert_Some in Ho'. destruct Ho' as [[<- <-]|[_ ?]]; eauto 10.
Qed.

Lemma dispatch_typed o c s s' :
  call_typed c -> rewards_typed s -> dispatch cfg o c s = Ok s' -> rewards_typed s'.
Proof.
  intros Hc Hty Hok i o' Ho'. destruct (dispatch_orders _ _ _ _ _ _ Hok Ho')
    as [(o0 & Hi & -> & _ & _)|(id & p & a & m & r & dl & w & d & chain & -> & -> & _ & _)]; [by eapply Hty|apply Hc].
Qed.

(** The models of stored orders fit their bounded vectors. *)
Definition params_typed s : Prop :=
  forall id o, JobOrders s !! id = Some o -> zlen (p_nodes (ising_params o)) <= MaxNodes cfg.

Lemma dispatch_params o c s s' :
  call_typed c -> params_typed s -> dispatch cfg o c s = Ok s' -> params_typed s'.
Proof.
  intros Hc Hty Hok i o' Ho'. destruct (dispatch_orders _ _ _ _ _ _ Hok Ho')
    as [(o0 & Hi & _ & -> & _)|(id & p & a & m & r & dl & w & d & chain & -> & _ & -> & _)]; [by eapply Hty|apply Hc].
Qed.

(** Every order's specification is registered. *)
Definition specs_known s : Prop :=
  forall id o, JobOrders s !! id = Some o -> is_Some (JobSpecs s !! spec_id o).

(** No call removes a specification. *)
Lemma dispatch_specs_grow o c s s' k :
  dispatch cfg o c s = Ok s' -> is_Some (JobSpecs s !! k) -> is_Some (JobSpecs s' !! k).
Proof.
  intros Hok Hk. destruct c; simpl in Hok.
  - unfold register_solver in Hok. by hinv.
  - unfold deregister_solver in Hok. by hinv.
  - unfold register_job_spec, insert_job_spec in Hok. hinv. simpl. rewrite lookup_insert_is_Some'. auto.
  - destruct required_chain; [unfold propose_job_with_payee_requirement in Hok|unfold propose_job in Hok]; hinv;
      match goal with Hp : do_propose_job _ _ _ _ _ _ _ _ _ _ _ = Ok ?r |- _ => destruct r as [s1 oid];
        apply do_propose_job_spec in Hp as [_ Hp]; specialize (Hp k Hk) end; by hinv.
  - assert (exists who, submit_solution_inner cfg who order_id solutions payee s = Ok s') as (who & Hs).
    { destruct payee; [unfold submit_solution_with_payee in Hok|unfold submit_solution in Hok]; hinv; eauto. }
    apply submit_solution_inner_Ok in Hs as (? & order & _ & _ & ? & ? & ? & _ & _ & _ & _ & _ & _ & _ & _ & _ & Hrec).
    apply record_submission_effect in Hrec as (_ & _ & _ & Heq & _). by replace (JobSpecs s') with (JobSpecs s) by congruence.
  - unfold claim_reward in Hok. hinv. destruct (unreserve (world s) _ _) as [w rest]. hinv.
    match goal with Hf : rfold _ _ _ = Ok ?x |- _ => pose proof (pay_loop_frame _ _ _ _ _ Hf) as Hfr;
      assert (is_Some (JobSpecs x !! k)) as Hx by (unfold unpaid_fields in Hfr; simpl in Hfr; congruence) end.
    unfold release_proposer_slot. clear -Hx. repeat (case_match; simpl in * ); rewrite ?lookup_insert_is_Some'; auto.
  - unfold reclaim_order in Hok. hinv. destruct (unreserve (world s) _ _) as [w rest]. hinv.
    unfold release_proposer_slot. repeat (case_match; simpl); done.
  - unfold purge_result in Hok. by hinv.
Qed.

Lemma dispatch_specs_known o c s s' : specs_known s -> dispatch cfg o c s = Ok s' -> specs_known s'.
Proof.
  intros Hk Hok i o' Ho'. destruct (dispatch_orders _ _ _ _ _ _ Hok Ho')
    as [(o0 & Hi & _ & _ & ->)|(id & p & a & m & r & dl & w & d & chain & _ & _ & _ & Hs)];
    eapply dispatch_specs_grow; eauto.
Qed.

Lemma expires_due_specs now s s' :
  expires_due now s s' -> JobSpecs s' = JobSpecs s -> specs_known s -> specs_known s'.
Proof.
  intros Hd Heq Hty i o' Ho'. rewrite Heq. specialize (Hd i). rewrite Ho' in Hd.
  destruct (JobOrders s !! i) as [o|] eqn:Ho; [|done]. destruct Hd as [->|(_ & _ & ->)]; exact (Hty i o Ho).
Qed.

Lemma expires_due_params now s s' : expires_due now s s' -> params_typed s -> params_typed s'.
Proof.
  intros Hd Hty i o' Ho'. specialize (Hd i). rewrite Ho' in Hd. destruct (JobOrders s !! i) as [o|] eqn:Ho; [|done].
  destruct Hd as [->|(_ & _ & ->)]; exact (Hty i o Ho).
Qed.

(** Every call keeps the reserve in step with what is owed. *)
Lemma dispatch_solvent `{!CurrencyLaws W} others o c s s' :
  0 <= MinReward cfg -> sched_inv s -> rewards_typed s -> solvent others s ->
  dispatch cfg o c s = Ok s' -> solvent others s'.
Proof.
  intros Hmin Hinv Hty Hs Hok. apply dispatch_book in Hok
    as [Hsame|who id p a m r dl w d s1 oid Hp Hsame|who id sols payee Hsub|o' id Hc|o' id Hc].
  - intros x. unfold book in Hsame. simplify_eq. unfold owed.
    replace (JobOrders s') with (JobOrders s) by congruence. replace (world s') with (world s) by congruence. apply Hs.
  - apply do_propose_job_effect in Hp as (-> & Ha & _ & _ & (c' & Hc' & Hw) & EJ & _). unfold book in Hsame.
    assert (JobOrders s !! NextOrderId s = None) as Hnew.
    { apply eq_None_not_Some. intros Hsm%(si_fresh _ Hinv). lia. }
    intros x. destruct (Hs x) as [Hn Hle]. split; [done|]. unfold owed in *.
    replace (JobOrders s') with (JobOrders s1) by congruence. replace (world s') with c' by congruence.
    rewrite EJ, msum_insert_fresh by done. rewrite (reserve_reserved _ _ _ _ Hc'). unfold owes at 1. simpl.
    case_decide as Hx; [subst x|]; [rewrite bool_decide_true by done|rewrite bool_decide_false by congruence]; simpl; lia.
  - apply submit_solution_inner_Ok in Hsub as (info & order & _ & _ & sel & best & dv & _ & Hord & _ & _ & _ & _ & _ & _ & _ & Hrec).
    apply record_submission_effect in Hrec as (EJ & _ & _ & Heq & _). intros x. destruct (Hs x) as [Hn Hle]. split; [done|].
    rewrite (owed_update x s s' id order _ Hord EJ). replace (world s') with (world s) by congruence.
    replace (owes x (order_after _ _ _)) with (owes x order) by (by destruct order). lia.
  - apply claim_reward_effect in Hc as (order & ps & w & s1 & Hord & Hst & _ & _ & Hun & Hpay & Hw & _ & EJ & _).
    eapply close_solvent; [done..|]. intros x. rewrite Hw, (pay_loop_reserved _ _ _ _ _ Hpay x), Hun. done.
  - apply reclaim_order_effect in Hc as (order & w & Hord & Hst & _ & _ & Hun & Hw & EJ & _).
    eapply close_solvent; [done..|]. intros x. by rewrite Hw, Hun.
Qed.

Lemma expires_due_solvent others now s s' :
  expires_due now s s' -> world s' = world s -> solvent others s -> solvent others s'.
Proof.
  intros Hd Hw Hs x. destruct (Hs x) as [Hn Hle]. split; [done|]. rewrite Hw.
  assert (owed x s' = owed x s) as ->; [|done]. unfold owed.
  assert (owes x <$> JobOrders s' = owes x <$> JobOrders s) as Hm.
  { apply map_eq. intros i. rewrite !lookup_fmap. specialize (Hd i).
    destruct (JobOrders s !! i), (JobOrders s' !! i); simpl; try done. f_equal.
    destruct Hd as [->|(Hst & _ & ->)]; [done|]. unfold owes. simpl. by rewrite Hst. }
  by rewrite <- !(msum_fmap (owes x)), Hm.
Qed.

Lemma dispatch_counters o c s s' :
  dispatch cfg o c s = Ok s' -> 0 <= NextOrderId s ->
  block_number s' = block_number s /\ 0 <= NextOrderId s'.
Proof.
  intros Hok Hn. apply dispatch_book in Hok
    as [Hsame|who id p a m r dl w d s1 oid Hp Hsame|who id sols payee Hsub|o' id Hc|o' id Hc].
  - unfold book in Hsame. by replace (NextOrderId s') with (NextOrderId s) by congruence; split; [congruence|].
  - apply do_propose_job_effect in Hp as (_ & _ & _ & _ & _ & _ & _ & _ & EN & Heq). unfold book in Hsame.
    replace (NextOrderId s') with (NextOrderId s1) by congruence. split; [congruence|].
    rewrite EN. unfold u64_add. apply sat_u_range. lia.
  - apply submit_solution_inner_Ok in Hsub as (? & ? & ? & ? & ? & ? & ? & _ & _ & _ & _ & _ & _ & _ & _ & _ & Hrec).
    apply record_submission_effect in Hrec as (_ & _ & _ & Heq & _).
    by replace (NextOrderId s') with (NextOrderId s) by congruence; split; [congruence|].
  - apply claim_reward_effect in Hc as (? & ? & ? & ? & _ & _ & _ & _ & _ & _ & _ & _ & _ & _ & Heq).
    by replace (NextOrderId s') with (NextOrderId s) by congruence; split; [congruence|].
  - apply reclaim_order_effect in Hc as (? & ? & _ & _ & _ & _ & _ & _ & _ & _ & Heq).
    by replace (NextOrderId s') with (NextOrderId s) by congruence; split; [congruence|].
Qed.

End Settlement.

(** ** Runs *)

Section Runs.
Context `{MempoolPrims} {W : Type} `{Currency W}.
Context (cfg : MempoolConfig).
#[local] Abbreviation state := (@MempoolState W).
Implicit Types s : state.

(** A run: blocks, calls (the virtual machine knows the programs stored at that
    time), and the rest of the runtime, which moves balances, may release only
    what it reserved itself ([others]), and clears the log. *)
Inductive step : state * (Z -> Z) -> state * (Z -> Z) -> Prop :=
  | step_block s s' others :
      block_number s + 2 < 2 ^ 32 ->
      on_initialize (block_number s + 1) (s <| block_number := block_number s + 1 |>) = Ok s' ->
      step (s, others) (s', others)
  | step_call (vm : QuantumVm) s s' others o c :
      NextOrderId s + 1 < 2 ^ 64 -> call_typed cfg c -> dispatch cfg o c s = Ok s' ->
      step (s, others) (s', others)
  | step_runtime s others others' w evs :
      (forall x, 0 <= others' x) ->
      (forall x, reserved_balance w x - others' x = reserved_balance (world s) x - others x) ->
      step (s, others) (s <| world := w |> <| events := evs |>, others').

Record genesis s : Prop := {
  gen_block : block_number s = 0;
  gen_cursor : NextExpiryBucket s = 0;
  gen_next : NextOrderId s = 0;
  gen_orders : JobOrders s = ∅ /\ OpenOrders s = ∅ /\ OrdersExpiringAt s = ∅;
  gen_ranking : OrderSolutions s = ∅ /\ OrderFrontRunner s = ∅ /\ OrderTopSolvers s = ∅
}.

Inductive reachable : state * (Z -> Z) -> Prop :=
  | reach_genesis s : genesis s -> reachable (s, reserved_balance (world s))
  | reach_step x y : reachable x -> step x y -> reachable y.

Record inv (x : state * (Z -> Z)) : Prop := {
  inv_sched : sched_inv x.1;
  inv_rank : rank_inv x.1;
  inv_typed : rewards_typed x.1;
  inv_solvent : solvent x.2 x.1;
  inv_block : 0 <= block_number x.1 /\ block_number x.1 + 1 < 2 ^ 32;
  inv_next : 0 <= NextOrderId x.1
}.

Lemma genesis_inv `{!CurrencyLaws W} s : genesis s -> inv (s, reserved_balance (world s)).
Proof.
  intros [Hb Hc Hn (EJ & EO & EX) (ES & EF & ET)]. split; simpl; try lia.
  - split; try lia; rewrite ?EJ, ?EO; intros *; rewrite ?lookup_empty; try done.
    + split; [set_solver|]. intros (? & ? & _). by simplify_map_eq.
    + unfold orders_at. rewrite EX, lookup_empty. simpl. set_solver.
  - assert (forall id, best_energies id s = ∅) as HB.
    { intros id. apply map_eq. intros w. by rewrite best_energies_lookup, ES, !lookup_empty. }
    split; rewrite EJ; intros id *; rewrite ?lookup_empty; [done|]. intros _. unfold top_solvers. by rewrite HB, EF, ET.
  - intros id o. by rewrite EJ, lookup_empty.
  - intros x. split; [apply reserved_nonneg|]. unfold owed. rewrite EJ, msum_empty. lia.
Qed.

Lemma step_inv `{!CurrencyLaws W, !MempoolPrimsLaws} x y : 0 <= MinReward cfg -> inv x -> step x y -> inv y.
Proof.
  intros Hmin [Hs Hr Ht Hv [Hb0 Hb] Hn] Hstep. destruct Hstep as [s s' others Hnow Hok|vm s s' others o c Hid Hty Hok|s others others' w evs Ho Hw]; simpl in *.
  - destruct (on_initialize_total (block_number s + 1) (s <| block_number := block_number s + 1 |>)) as (s1 & Hok1 & Hr1 & Ht1); [|done|].
    { by eapply rank_inv_frame; [done|done|intros i; simpl; case_match]. }
    assert (s1 = s') as -> by congruence.
    apply on_initialize_sched in Hok as (Hs' & Hdue & _ & Heq); [|done|lia|lia].
    split; simpl; try done.
    + eapply expires_due_solvent; [done|congruence|done].
    + replace (block_number s') with (block_number s + 1) by congruence. lia.
    + by replace (NextOrderId s') with (NextOrderId s) by congruence.
  - destruct (dispatch_counters _ _ _ _ _ Hok Hn) as [Hbn Hn']. split; simpl; [by eapply dispatch_sched|by eapply dispatch_rank|by eapply dispatch_typed|by eapply dispatch_solvent|lia|done].
  - split; simpl; try done; [by eapply sched_inv_frame|by eapply rank_inv_frame; [done|done|intros i; simpl; case_match]|].
    intros x. destruct (Hv x) as [Hx Hx']. split; [done|]. change (owed x (s <| world := w |> <| events := evs |>)) with (owed x s). simpl.
    specialize (Hw x). lia.
Qed.

Lemma reachable_inv `{!CurrencyLaws W, !MempoolPrimsLaws} x : 0 <= MinReward cfg -> reachable x -> inv x.
Proof. intros Hmin. induction 1; [by apply genesis_inv|by eapply step_inv]. Qed.

Lemma reachable_params `{!CurrencyLaws W, !MempoolPrimsLaws} x : 0 <= MinReward cfg -> reachable x -> params_typed cfg x.1.
Proof.
  intros Hmin. induction 1 as [s Hg|x y Hr IH Hstep].
  - intros i o. destruct Hg as [_ _ _ (EJ & _) _]. simpl. by rewrite EJ, lookup_empty.
  - destruct (reachable_inv x Hmin Hr) as [Hs _ _ _ [Hb0 Hb] _].
    destruct Hstep as [s s' others Hnow Hok|vm s s' others o c Hid Hty Hok|s others others' w evs Ho Hw]; simpl in *.
    + apply on_initialize_sched in Hok as (_ & Hdue & _); [|done|lia|lia]. by eapply expires_due_params.
    + by eapply dispatch_params.
    + done.
Qed.

Lemma reachable_specs `{!CurrencyLaws W, !MempoolPrimsLaws} x : 0 <= MinReward cfg -> reachable x -> specs_known x.1.
Proof.
  intros Hmin. induction 1 as [s Hg|x y Hr IH Hstep].
  - intros i o. destruct Hg as [_ _ _ (EJ & _) _]. simpl. by rewrite EJ, lookup_empty.
  - destruct (reachable_inv x Hmin Hr) as [Hs _ _ _ [Hb0 Hb] _].
    destruct Hstep as [s s' others Hnow Hok|vm s s' others o c Hid Hty Hok|s others others' w evs Ho Hw]; simpl in *.
    + apply on_initialize_sched in Hok as (_ & Hdue & _ & Heq); [|done|lia|lia].
      eapply expires_due_specs; [done|congruence|done].
    + by eapply dispatch_specs_known.
    + done.
Qed.

End Runs.

(** ** Settlement *)

Section Settled.
Context `{QuantumVm, MempoolPrims} {W : Type} `{Currency W}.
Context (cfg : MempoolConfig).
#[local] Abbreviation state := (@MempoolState W).
Implicit Types s : state.

(** What a list of payouts gives to an account. *)
Definition credit (ps : list payout) (w : Z) : Z :=
  zsum ((fun p : payout => if bool_decide (p.1.1 = w) then p.1.2 else 0) <$> ps).

Lemma credit_distinct ps w a e :
  NoDup (solver <$> (winner_of <$> ps)) -> (w, a, e) ∈ ps -> credit ps w = a.
Proof.
  assert (forall l : list payout, w ∉ (solver <$> (winner_of <$> l)) -> credit l w = 0) as Hz.
  { induction l as [|[[w' a'] e'] l IH]; [done|]. unfold credit, zsum in *. csimpl. intros [Hne Hw]%not_elem_of_cons.
    rewrite bool_decide_false by (simpl in Hne; congruence). rewrite Z.add_0_l. by apply IH. }
  induction ps as [|[[w' a'] e'] ps IH]; [by intros _ ?%not_elem_of_nil|]. csimpl. intros [Hni Hnd]%NoDup_cons.
  unfold credit, zsum. csimpl. intros [Heq|Hin]%elem_of_cons.
  - simplify_eq. rewrite bool_decide_true by done. pose proof (Hz ps Hni) as Hr. unfold credit, zsum in Hr. lia.
  - rewrite bool_decide_false; [|intros ->; apply Hni, list_elem_of_fmap; exists (mkRankedSolver w e);
      split; [done|]; apply list_elem_of_fmap; by exists (w, a, e)].
    specialize (IH Hnd Hin). unfold credit, zsum in IH. lia.
Qed.

Lemma pay_loop_credit `{!CurrencyLaws W} id o ps s s' :
  rfold (pay_winner id o) s ps = Ok s' ->
  forall w, w <> proposer o -> free_balance (world s') w = free_balance (world s) w + credit ps w.
Proof.
  revert s. induction ps as [|[[x a] e] ps IH]; intros s Hok w Hw; simpl in Hok.
  { injection Hok as <-. unfold credit, zsum. simpl. lia. }
  apply rbind_Ok_inv in Hok as (s1 & Hp & Hok). rewrite (IH _ Hok w Hw). unfold credit, zsum. csimpl.
  unfold pay_winner in Hp. case_match; hinv; [case_bool_decide; lia|].
  match goal with Ht : transfer _ _ _ _ = Some ?c |- _ => rename Ht into Htr; set (c' := c) in * end.
  match goal with |- free_balance ?c1 w + _ = _ => replace c1 with c' by (by case_match) end.
  case_bool_decide as Hx.
  - subst x. rewrite (transfer_credited _ _ _ _ _ Htr) by done. lia.
  - rewrite (transfer_free_other _ _ _ _ _ w Htr) by done. lia.
Qed.

(** The registered winner's count of rewards grows by what it was paid. *)
Definition earned (info : SolverInfo) (a : Z) : SolverInfo :=
  if a =? 0 then info else info <| solver_rewards_earned $= (fun n => u128_add n a) |>.

Lemma pay_loop_earned id o ps s s' :
  rfold (pay_winner id o) s ps = Ok s' -> NoDup (solver <$> (winner_of <$> ps)) ->
  forall w info, Solvers s !! w = Some info ->
    (w ∉ (solver <$> (winner_of <$> ps)) -> Solvers s' !! w = Some info) /\
    (forall a e, (w, a, e) ∈ ps -> Solvers s' !! w = Some (earned info a)).
Proof.
  revert s. induction ps as [|[[x a] e] ps IH]; intros s Hok; csimpl.
  { intros _ w info Hi. injection Hok as <-. split; [done|]. by intros ? ? ?%not_elem_of_nil. }
  intros [Hni Hnd]%NoDup_cons w info Hi. simpl in Hok. apply rbind_Ok_inv in Hok as (s1 & Hp & Hok).
  assert (Solvers s1 !! w = Some (if bool_decide (x = w) then earned info a else info)) as Hs1.
  { unfold pay_winner in Hp. unfold earned. case_match eqn:Ha; hinv; [by case_bool_decide|].
    case_bool_decide as Hx; [subst x|]; simpl.
    - by rewrite Hi; simpl; rewrite lookup_insert_eq.
    - destruct (Solvers s !! x); simpl; [by rewrite lookup_insert_ne|done]. }
  destruct (IH _ Hok Hnd _ _ Hs1) as [IH1 IH2]. split.
  - intros [Hne Hw]%not_elem_of_cons. rewrite (IH1 Hw), bool_decide_false by congruence. done.
  - intros a' e' [Heq|Hin]%elem_of_cons.
    + simplify_eq. rewrite (IH1 Hni). by rewrite bool_decide_true.
    + rewrite (IH2 a' e' Hin), bool_decide_false; [done|]. intros ->. apply Hni, list_elem_of_fmap.
      exists (mkRankedSolver w e'). split; [done|]. apply list_elem_of_fmap. by exists (w, a', e').
Qed.

(** A settled order paid its whole reward, by its rule, to the best solvers,
    and is closed. *)
Lemma claim_reward_pays `{!CurrencyLaws W} others o id s s' :
  inv (s, others) -> claim_reward o id s = Ok s' ->
  exists order ps, JobOrders s !! id = Some order /\ compute_payouts id order s = Ok ps /\
    fair_payouts (reward order) (best_energies id s) ps /\
    by_rule (resolution order) (reward order) (best_energies id s) ps /\
    (forall w a e, (w, a, e) ∈ ps -> w <> proposer order ->
       free_balance (world s') w = free_balance (world s) w + a) /\
    (forall w a e info, (w, a, e) ∈ ps -> Solvers s !! w = Some info -> Solvers s' !! w = Some (earned info a)) /\
    (exists order', JobOrders s' !! id = Some order' /\ status order' = Closed).
Proof.
  intros [_ Hr Hty _ _ _] Hok. simpl in *.
  apply claim_reward_effect in Hok as (order & ps & w & s1 & Hord & Hst & Hc & Hps & Hun & Hpay & Hw & Hso & EJ & _).
  destruct (ri_order _ Hr id order Hord) as (Hrank & _ & Hcount).
  destruct (compute_payouts_fair id order s Hrank) as (ps' & Hps' & Hfair & Hrule); [|by eapply Hty|].
  { intros He%Hcount. lia. }
  assert (ps' = ps) as -> by congruence. exists order, ps. split_and!; try done.
  - intros x a e Hin Hx. rewrite Hw, (pay_loop_credit _ _ _ _ _ Hpay x Hx). simpl.
    rewrite (credit_distinct ps x a e); [|apply Hfair|done].
    pose proof (unreserve_free_other (world s) (proposer order) (reward order) x Hx) as Hf. by rewrite Hun in Hf; simpl in Hf; rewrite Hf.
  - intros x a e info Hin Hi. rewrite Hso. by eapply (pay_loop_earned _ _ _ _ _ Hpay (fp_distinct _ _ _ Hfair)).
  - eexists. rewrite EJ, lookup_insert_eq. done.
Qed.

(** Settlement of an expired order with solutions passes on what the virtual
    machine says of the winners, and can otherwise only fail in a transfer. *)
Lemma claim_reward_progress `{!CurrencyLaws W} others who id order s :
  inv (s, others) -> specs_known s -> JobOrders s !! id = Some order ->
  status order = Expired -> 0 < solution_count order ->
  exists spec ps winners, JobSpecs s !! spec_id order = Some spec /\
    compute_payouts id order s = Ok ps /\ winner_summaries_from_payouts ps = Ok winners /\
    match vm_validate_result (spec_id order) (validation_program spec) (transform_program spec) winners with
    | Ok _ => is_ok (claim_reward (Signed who) id s) = true \/ claim_reward (Signed who) id s = Err CurrencyError
    | Err e => claim_reward (Signed who) id s = Err e
    | Panic => claim_reward (Signed who) id s = Panic
    end.
Proof.
  intros [_ Hr Hty Hsol _ _] Hk Hord Hst Hc. simpl in *. destruct (Hk id order Hord) as [spec Hspec].
  destruct (ri_order _ Hr id order Hord) as (Hrank & _ & Hcount).
  destruct (compute_payouts_fair id order s Hrank) as (ps & Hps & Hfair & _); [intros He%Hcount; lia|by eapply Hty|].
  assert (exists ws, winner_summaries_from_payouts ps = Ok ws) as [ws Hws].
  { unfold winner_summaries_from_payouts. rewrite (proj2 (Z.leb_le _ _)) by apply Hfair. eauto. }
  exists spec, ps, ws. split_and!; try done. unfold claim_reward. simpl.
  rewrite Hord. simpl. rewrite Hspec, Hst. simpl. rewrite (proj2 (Z.ltb_lt _ _)), Hps by done. simpl. rewrite Hws. simpl.
  destruct (vm_validate_result _ _ _ ws) as [[]|e|]; try done. simpl.
  pose proof (reserve_present others s id order Hsol Hty Hord ltac:(congruence)) as Hrest.
  destruct (unreserve _ _ _) as [w rest]. simpl in Hrest. subst rest. simpl.
  assert (forall s1, (exists s2, rfold (pay_winner id order) s1 ps = Ok s2) \/ rfold (pay_winner id order) s1 ps = Err CurrencyError) as Hloop.
  { clear. induction ps as [|[[x a] e] ps IH]; intros s2; simpl; [eauto|]. case_match; simpl; [apply IH|].
    destruct (transfer _ _ _ _); simpl; [apply IH|auto]. }
  destruct (Hloop (s <| world := w |>)) as [(s2 & ->)| ->]; simpl; auto.
Qed.

(** The proposer of an expired order without solutions always gets the reward
    back. *)
Lemma reclaim_order_refunds `{!CurrencyLaws W} others id order s :
  inv (s, others) -> JobOrders s !! id = Some order -> status order = Expired -> solution_count order = 0 ->
  exists s', reclaim_order (Signed (proposer order)) id s = Ok s' /\
    free_balance (world s') (proposer order) = free_balance (world s) (proposer order) + reward order /\
    (exists order', JobOrders s' !! id = Some order' /\ status order' = Closed).
Proof.
  intros [_ _ Hty Hsol _ _] Hord Hst Hc. simpl in *. unfold reclaim_order. simpl. rewrite Hord. simpl.
  rewrite Z.eqb_refl, Hst, Hc. simpl.
  pose proof (reserve_present others s id order Hsol Hty Hord ltac:(congruence)) as Hrest.
  pose proof (unreserve_free (world s) (proposer order) (reward order) (proj1 (Hty id order Hord))) as Hfree.
  rewrite unreserve_rest in Hrest by apply (Hty id order Hord).
  destruct (unreserve _ _ _) as [w rest] eqn:Hun. simpl in Hfree.
  assert (rest = 0) as ->.
  { pose proof (unreserve_rest (world s) (proposer order) (reward order) (proj1 (Hty id order Hord))) as Hx.
    rewrite Hun in Hx. simpl in Hx. lia. }
  simpl. eexists. split; [done|]. split.
  - unfold release_proposer_slot. repeat (case_match; simpl); lia.
  - eexists. unfold release_proposer_slot. split; [repeat (case_match; simpl); apply lookup_insert_eq|done].
Qed.
End Settled.
