(* ===== verification/MinerRegistry.v ===== *)
(** * The miner registry pallet

    Models [pallets/miner-registry/src/lib.rs]: node descriptors with a
    size-dependent deposit, and participation records per qblock.  The hash of
    the encoded descriptor and the qblock numbering come from outside the
    pallet and are parameters; [debug_assert!] is off in the runtime. *)

From S2P Require Import Prelude Frame.

Definition NODE_DESCRIPTOR_SCHEMA_V1 : Z := 1.
Definition NODE_DESCRIPTOR_SCHEMA_V2 : Z := 2.

(** [QBlockIdProvider::candidate_qblock_id] *)
Definition candidate_qblock_id (latest_qblock_id : option Z) : Z := u64_add (default 0 latest_qblock_id) 1.

(** ** Types *)

Abbreviation bytes := (list Z) (only parsing).

Inductive LogLevel := Debug | Info | Warning | Error.
Inductive MinerKind := Cpu | Gpu | QpuDwave | QpuIbm | QpuIonq | QpuPasqal | Asic | Metal.

Record OsInfo := mkOsInfo { os_system : bytes; os_release : bytes; os_machine : bytes }.
Record CpuInfo := mkCpuInfo {
  logical_cores : option Z; physical_cores : option Z; cpu_brand : bytes; cpu_arch : bytes
}.
Record GpuInfo := mkGpuInfo {
  gpu_index : Z; gpu_vendor : bytes; gpu_name : bytes; gpu_memory_mb : option Z; utilization_pct : option Z
}.
Record SystemInfo := mkSystemInfo {
  si_os : OsInfo; si_cpu : CpuInfo; si_memory_mb : option Z; si_gpus : list GpuInfo
}.
Record RuntimeInfo := mkRuntimeInfo {
  ri_python : bytes; ri_quip_version : bytes; ri_protocol_version : Z; ri_in_docker : bool;
  ri_docker_image : option bytes
}.
Record MinerSpec := mkMinerSpec {
  kind : MinerKind; label : option bytes; backend : option bytes; device_id : option bytes
}.

Record NodeDescriptorV1Input := mkV1Input {
  v1_node_id : bytes; v1_node_name : bytes; v1_public_host : option bytes; v1_public_port : option Z;
  v1_rpc_endpoints : list bytes; v1_auto_mine : bool; v1_log_level : LogLevel; v1_miners : list MinerSpec
}.
(** The v2 input: the v1 fields and the optional surveys. *)
Record NodeDescriptorV2Input := mkV2Input {
  v2_common : NodeDescriptorV1Input;
  v2_system_info : option SystemInfo; v2_runtime : option RuntimeInfo
}.
Inductive NodeDescriptorInput :=
  | V1 (input : NodeDescriptorV1Input)
  | V2 (input : NodeDescriptorV2Input).

Record NodeDescriptor := mkNodeDescriptor {
  schema_version : Z;
  node_id : bytes; node_name : bytes; public_host : option bytes; public_port : option Z;
  rpc_endpoints : list bytes; auto_mine : bool; log_level : LogLevel; miners : list MinerSpec;
  payload_hash : H256; updated_at : BlockNumber; deposit : Balance;
  system_info : option SystemInfo; runtime : option RuntimeInfo
}.
#[export] Instance NodeDescriptor_expansion : Expansion NodeDescriptor := fun r =>
  mkNodeDescriptor (schema_version r) (node_id r) (node_name r) (public_host r) (public_port r)
    (rpc_endpoints r) (auto_mine r) (log_level r) (miners r) (payload_hash r) (updated_at r)
    (deposit r) (system_info r) (runtime r).

Record ParticipationRecord := mkParticipationRecord {
  qblock_id : Z; part_kind : MinerKind; budget_seconds : option Z; part_updated_at : BlockNumber
}.

(** [enum Error] *)
Inductive RegistryError :=
  | EmptyNodeId | EmptyNodeName | EmptyPublicHost | EmptyRpcEndpoint | EmptyMinerLabel
  | EmptyMinerBackend | EmptyMinerDeviceId | EmptyOsSystem | EmptyCpuBrand | EmptyCpuArch
  | EmptyGpuVendor | EmptyGpuName | InvalidGpuUtilization | EmptyPythonVersion | EmptyQuipVersion
  | EmptyDockerImage | NoMiners | InvalidPort | DescriptorNotFound | DescriptorRequired
  | InvalidQBlockId | DuplicateParticipation.

#[global] Instance RegistryError_eq_dec : EqDecision RegistryError.
Proof. solve_decision. Defined.

(** [enum Event] *)
Inductive RegistryEvent :=
  | DescriptorUpdated (who : AccountId) (hash : H256) (payload_len : Z)
  | DescriptorCleared (who : AccountId)
  | MinerParticipated (qblock : Z) (who : AccountId) (k : MinerKind) (budget : option Z).

Abbreviation rresult := (result (DispatchError RegistryError)).

(** [DescriptorDepositBase], [DescriptorDepositPerByte] *)
Record RegistryConfig := mkRegistryConfig {
  DescriptorDepositBase : Balance; DescriptorDepositPerByte : Balance
}.

(** ** Validation *)

Definition nonempty (b : bytes) (e : RegistryError) : rresult unit :=
  require (negb (bool_decide (b = []))) e.
Definition nonempty_opt (b : option bytes) (e : RegistryError) : rresult unit :=
  match b with Some b => nonempty b e | None => Ok tt end.

Definition validate_node_identity (node_id node_name : bytes) (public_host : option bytes)
    (public_port : option Z) (rpc_endpoints : list bytes) : rresult unit :=
  nonempty node_id EmptyNodeId;;?
  nonempty node_name EmptyNodeName;;?
  nonempty_opt public_host EmptyPublicHost;;?
  match public_port with Some port => require (0 <? port) InvalidPort | None => Ok tt end;;?
  rfold (fun _ endpoint => nonempty endpoint EmptyRpcEndpoint) tt rpc_endpoints.

Definition validate_miner (_ : unit) (miner : MinerSpec) : rresult unit :=
  nonempty_opt (label miner) EmptyMinerLabel;;?
  nonempty_opt (backend miner) EmptyMinerBackend;;?
  nonempty_opt (device_id miner) EmptyMinerDeviceId.

Definition validate_miners (miners : list MinerSpec) : rresult unit :=
  require (negb (bool_decide (length miners = 0%nat))) NoMiners;;?
  rfold validate_miner tt miners.

Definition validate_gpu (_ : unit) (gpu : GpuInfo) : rresult unit :=
  nonempty (gpu_vendor gpu) EmptyGpuVendor;;?
  nonempty (gpu_name gpu) EmptyGpuName;;?
  match utilization_pct gpu with
  | Some util => require (util <=? 100) InvalidGpuUtilization | None => Ok tt end.

Definition validate_system_info (i : SystemInfo) : rresult unit :=
  nonempty (os_system (si_os i)) EmptyOsSystem;;?
  nonempty (cpu_brand (si_cpu i)) EmptyCpuBrand;;?
  nonempty (cpu_arch (si_cpu i)) EmptyCpuArch;;?
  rfold validate_gpu tt (si_gpus i).

Definition validate_runtime (r : RuntimeInfo) : rresult unit :=
  nonempty (ri_python r) EmptyPythonVersion;;?
  nonempty (ri_quip_version r) EmptyQuipVersion;;?
  nonempty_opt (ri_docker_image r) EmptyDockerImage.

(** ** Payload length and deposit *)

Section Registry.
Context `{UsizeWidth} {W : Type} `{Currency W}.
Context (cfg : RegistryConfig) (descriptor_hash : NodeDescriptorInput -> H256).

(** [bytes = bytes.saturating_add(x.len())] *)
Definition add_len (acc : Z) (b : bytes) : Z := sat_usize (acc + zlen b).
Definition add_len_opt (acc : Z) (b : option bytes) : Z :=
  match b with Some b => add_len acc b | None => acc end.

Definition descriptor_payload_len (node_id node_name : bytes) (public_host : option bytes)
    (rpc_endpoints : list bytes) (miners : list MinerSpec) : Z :=
  let n := add_len (zlen node_id) node_name in
  let n := add_len_opt n public_host in
  let n := foldl add_len n rpc_endpoints in
  let n := foldl (fun n miner =>
    add_len_opt (add_len_opt (add_len_opt n (label miner)) (backend miner)) (device_id miner)) n miners in
  sat_u 32 n.

Definition system_info_payload_len (i : SystemInfo) : Z :=
  let n := zlen (os_system (si_os i)) in
  let n := add_len n (os_release (si_os i)) in
  let n := add_len n (os_machine (si_os i)) in
  let n := add_len n (cpu_brand (si_cpu i)) in
  let n := add_len n (cpu_arch (si_cpu i)) in
  let n := foldl (fun n gpu => add_len (add_len n (gpu_vendor gpu)) (gpu_name gpu)) n (si_gpus i) in
  sat_u 32 n.

Definition runtime_payload_len (r : RuntimeInfo) : Z :=
  let n := add_len (zlen (ri_python r)) (ri_quip_version r) in
  sat_u 32 (add_len_opt n (ri_docker_image r)).

Definition descriptor_deposit (payload_len : Z) : Balance :=
  u128_add (DescriptorDepositBase cfg) (sat_u 128 (DescriptorDepositPerByte cfg * payload_len)).

Definition validate_and_store_v1 (now : BlockNumber) (input : NodeDescriptorV1Input)
    : rresult (NodeDescriptor * Z) :=
  validate_node_identity (v1_node_id input) (v1_node_name input) (v1_public_host input)
    (v1_public_port input) (v1_rpc_endpoints input);;?
  validate_miners (v1_miners input);;?
  let payload_len := descriptor_payload_len (v1_node_id input) (v1_node_name input)
    (v1_public_host input) (v1_rpc_endpoints input) (v1_miners input) in
  let dep := descriptor_deposit payload_len in
  Ok (mkNodeDescriptor NODE_DESCRIPTOR_SCHEMA_V1 (v1_node_id input) (v1_node_name input)
        (v1_public_host input) (v1_public_port input) (v1_rpc_endpoints input) (v1_auto_mine input)
        (v1_log_level input) (v1_miners input) 0 now dep None None, payload_len).

Definition validate_and_store_v2 (now : BlockNumber) (input : NodeDescriptorV2Input)
    : rresult (NodeDescriptor * Z) :=
  let c := v2_common input in
  validate_node_identity (v1_node_id c) (v1_node_name c) (v1_public_host c) (v1_public_port c)
    (v1_rpc_endpoints c);;?
  validate_miners (v1_miners c);;?
  let payload_len := descriptor_payload_len (v1_node_id c) (v1_node_name c) (v1_public_host c)
    (v1_rpc_endpoints c) (v1_miners c) in
  payload_len <-? match v2_system_info input with
    | Some i => validate_system_info i;;? Ok (u32_add payload_len (system_info_payload_len i))
    | None => Ok payload_len end;;
  payload_len <-? match v2_runtime input with
    | Some r => validate_runtime r;;? Ok (u32_add payload_len (runtime_payload_len r))
    | None => Ok payload_len end;;
  let dep := descriptor_deposit payload_len in
  Ok (mkNodeDescriptor NODE_DESCRIPTOR_SCHEMA_V2 (v1_node_id c) (v1_node_name c) (v1_public_host c)
        (v1_public_port c) (v1_rpc_endpoints c) (v1_auto_mine c) (v1_log_level c) (v1_miners c) 0 now
        dep (v2_system_info input) (v2_runtime input), payload_len).

Definition validate_and_store_descriptor (now : BlockNumber) (descriptor : NodeDescriptorInput)
    : rresult (NodeDescriptor * Z) :=
  match descriptor with
  | V1 input => validate_and_store_v1 now input
  | V2 input => validate_and_store_v2 now input
  end.

(** ** State and calls *)

Record RegistryState := mkRegistryState {
  NodeDescriptors : gmap AccountId NodeDescriptor;
  LatestParticipation : gmap AccountId ParticipationRecord;
  ParticipantsByQBlock : gmap Z (gmap AccountId ParticipationRecord);
  ParticipantCountByQBlock : gmap Z Z;
  block_number : BlockNumber;
  world : W;
  events : list RegistryEvent
}.
#[export] Instance RegistryState_expansion : Expansion RegistryState := fun r =>
  mkRegistryState (NodeDescriptors r) (LatestParticipation r) (ParticipantsByQBlock r)
    (ParticipantCountByQBlock r) (block_number r) (world r) (events r).
Implicit Types s : RegistryState.

Definition deposit_event (e : RegistryEvent) s : RegistryState := s <| events $= (.++ [e]) |>.

Definition replace_descriptor (who : AccountId) (descriptor : NodeDescriptor) (hash : H256) s
    : rresult RegistryState :=
  let previous_deposit := default 0 (deposit <$> NodeDescriptors s !! who) in
  let next_deposit := deposit descriptor in
  w <-? (if previous_deposit <? next_deposit then
           ok_or (reserve (world s) who (sat_u 128 (next_deposit - previous_deposit))) CurrencyError
         else if next_deposit <? previous_deposit then
           Ok (unreserve (world s) who (sat_u 128 (previous_deposit - next_deposit))).1
         else Ok (world s));;
  let s := s <| world := w |> in
  Ok (s <| NodeDescriptors $= <[who := descriptor <| payload_hash := hash |>]> |>).

Definition set_descriptor (origin : Origin) (descriptor : NodeDescriptorInput) s
    : rresult RegistryState :=
  who <-? ensure_signed origin;;
  let hash := descriptor_hash descriptor in
  r <-? validate_and_store_descriptor (block_number s) descriptor;;
  s <-? replace_descriptor who r.1 hash s;;
  Ok (deposit_event (DescriptorUpdated who hash r.2) s).

Definition clear_descriptor (origin : Origin) s : rresult RegistryState :=
  who <-? ensure_signed origin;;
  descriptor <-? some_or (NodeDescriptors s !! who) DescriptorNotFound;;
  let s := s <| NodeDescriptors $= delete who |> in
  let s := s <| world := (unreserve (world s) who (deposit descriptor)).1 |> in
  let s := s <| LatestParticipation $= delete who |> in
  Ok (deposit_event (DescriptorCleared who) s).

Definition participants (q : Z) s : gmap AccountId ParticipationRecord :=
  default ∅ (ParticipantsByQBlock s !! q).

Definition participant_count_by_qblock (q : Z) s : Z := default 0 (ParticipantCountByQBlock s !! q).

(** [latest] is the answer of [QBlockIds::latest_qblock_id]. *)
Definition participate (latest : option Z) (origin : Origin) (q : Z) (k : MinerKind)
    (budget : option Z) s : rresult RegistryState :=
  who <-? ensure_signed origin;;
  require (bool_decide (is_Some (NodeDescriptors s !! who))) DescriptorRequired;;?
  require (q =? candidate_qblock_id latest) InvalidQBlockId;;?
  require (match LatestParticipation s !! who with
           | Some record => negb (qblock_id record =? q) | None => true end) DuplicateParticipation;;?
  let record := mkParticipationRecord q k budget (block_number s) in
  let s := s <| LatestParticipation $= <[who := record]> |> in
  let s := s <| ParticipantsByQBlock $= <[q := <[who := record]> (participants q s)]> |> in
  let s := s <| ParticipantCountByQBlock $= <[q := u32_add (participant_count_by_qblock q s) 1]> |> in
  Ok (deposit_event (MinerParticipated q who k budget) s).

Definition entry_le (a b : AccountId * ParticipationRecord) : Prop := a.1 <= b.1.
#[export] Instance entry_le_dec a b : Decision (entry_le a b).
Proof. unfold entry_le. apply _. Defined.
#[export] Instance entry_le_trans : Transitive entry_le.
Proof. intros ? ? ?. unfold entry_le. lia. Qed.
#[export] Instance entry_le_total : Total entry_le.
Proof. intros ? ?. unfold entry_le. lia. Qed.

Definition participants_by_qblock (q : Z) (start_after : option AccountId) (limit : Z) s
    : list (AccountId * ParticipationRecord) :=
  let limit := Z.min limit 1000 in
  if limit =? 0 then [] else
  let entries := filter (fun e => match start_after with Some cursor => cursor <? e.1 | None => true end = true)
    (map_to_list (participants q s)) in
  take (Z.to_nat limit) (merge_sort entry_le entries).

(** ** Descriptors and deposits *)

(** What every stored descriptor satisfies. *)
Record descriptor_ok (d : NodeDescriptor) : Prop := {
  do_id : node_id d <> [];
  do_name : node_name d <> [];
  do_port : forall port, public_port d = Some port -> 0 < port;
  do_endpoints : Forall (fun e => e <> []) (rpc_endpoints d);
  do_miners : miners d <> [];
  do_schema : schema_version d = NODE_DESCRIPTOR_SCHEMA_V1 /\ system_info d = None /\ runtime d = None \/
    schema_version d = NODE_DESCRIPTOR_SCHEMA_V2;
  do_gpus : forall i, system_info d = Some i ->
    Forall (fun g => gpu_vendor g <> [] /\ gpu_name g <> [] /\
      forall u, utilization_pct g = Some u -> u <= 100) (si_gpus i);
  do_deposit : in_u 128 (deposit d)
}.

#[local] Lemma nonempty_Ok b e u : nonempty b e = Ok u -> b <> [].
Proof. unfold nonempty. intros Hok. by hinv. Qed.

#[local] Lemma validate_identity_Ok id name host port eps u :
  validate_node_identity id name host port eps = Ok u ->
  id <> [] /\ name <> [] /\ (forall p, port = Some p -> 0 < p) /\ Forall (fun e => e <> []) eps.
Proof.
  unfold validate_node_identity. intros Hok. hinv. split_and!; try (by eapply nonempty_Ok).
  - intros p ->. hinv. done.
  - clear -Hok. destruct u. induction eps as [|e eps IH]; constructor; simpl in Hok; hinv.
    + by eapply nonempty_Ok.
    + match goal with x : unit |- _ => destruct x end. by apply IH.
Qed.

#[local] Lemma validate_system_info_Ok i u :
  validate_system_info i = Ok u ->
  Forall (fun g => gpu_vendor g <> [] /\ gpu_name g <> [] /\
    forall x, utilization_pct g = Some x -> x <= 100) (si_gpus i).
Proof.
  unfold validate_system_info. intros Hok. hinv. clear -Hok.
  induction (si_gpus i) as [|g gs IH]; constructor; simpl in Hok; hinv.
  - match goal with Hg : validate_gpu _ _ = Ok _ |- _ => unfold validate_gpu in Hg; hinv end.
    split_and!; try (by eapply nonempty_Ok). intros x Hx. rewrite Hx in *. hinv. done.
  - match goal with x : unit |- _ => destruct x end. by apply IH.
Qed.

#[local] Lemma miners_Ok ms u : validate_miners ms = Ok u -> ms <> [].
Proof. unfold validate_miners. intros Hok. hinv. by destruct ms. Qed.

Lemma descriptor_deposit_range n : in_u 128 (descriptor_deposit n).
Proof. apply sat_u_range. lia. Qed.

(** Validation accepts only well-formed descriptors, and prices them. *)
Lemma validate_and_store_Ok now input d n :
  validate_and_store_descriptor now input = Ok (d, n) ->
  descriptor_ok d /\ deposit d = descriptor_deposit n /\ updated_at d = now.
Proof.
  unfold validate_and_store_descriptor, validate_and_store_v1, validate_and_store_v2.
  intros Hok. destruct input as [input|input]; hinv;
    match goal with Hi : validate_node_identity _ _ _ _ _ = Ok _ |- _ => apply validate_identity_Ok in Hi as (? & ? & ? & ?) end;
    match goal with Hi : validate_miners _ = Ok _ |- _ => apply miners_Ok in Hi end; simplify_eq.
  - split; [|done]. split; simpl; try done; [by left|apply descriptor_deposit_range].
  - split; [|done]. split; simpl; try done; [by right| |apply descriptor_deposit_range].
    intros i Hi. rewrite Hi in *. hinv. by eapply validate_system_info_Ok.
Qed.

(** The reserve covers every stored deposit and what other pallets hold. *)
Record registry_inv (others : Z -> Z) s : Prop := {
  rg_ok : forall who d, NodeDescriptors s !! who = Some d -> descriptor_ok d;
  rg_cover : forall who, 0 <= others who /\
    default 0 (deposit <$> NodeDescriptors s !! who) + others who = reserved_balance (world s) who
}.

(** Setting a descriptor leaves exactly its deposit on reserve. *)
Lemma set_descriptor_inv `{!CurrencyLaws W} others o input s s' :
  registry_inv others s -> set_descriptor o input s = Ok s' -> registry_inv others s'.
Proof.
  intros [Hok Hcov] Hset. unfold set_descriptor in Hset. hinv.
  match goal with Hv : validate_and_store_descriptor _ _ = Ok ?r |- _ => destruct r as [d n]; apply validate_and_store_Ok in Hv as (Hd & _ & _) end.
  match goal with Hr : replace_descriptor ?w _ _ _ = Ok _ |- _ => rename Hr into Hrep; set (who := w) in * end.
  unfold replace_descriptor in Hrep. simpl in Hrep. apply rbind_Ok_inv in Hrep as (w & Hw & Hrep). hinv.
  set (prev := default 0 (deposit <$> NodeDescriptors s !! who)) in *.
  assert (in_u 128 prev) as Hprev.
  { unfold prev. destruct (NodeDescriptors s !! who) as [d0|] eqn:Hd0; [|done]. by apply (Hok who). }
  pose proof (do_deposit _ Hd) as Hdep. unfold in_u in *.
  assert (forall x, reserved_balance w x = reserved_balance (world s) x + (if decide (x = who) then deposit d - prev else 0)) as Hres.
  { intros x. destruct (Hcov who) as [Ho Hc]. fold prev in Hc.
    destruct (prev <? deposit d) eqn:Hlt1; [|destruct (deposit d <? prev) eqn:Hlt2]; bool_to_prop; hinv.
    - match goal with Hr : reserve _ _ _ = Some _ |- _ => rewrite (reserve_reserved _ _ _ _ Hr) end.
      rewrite sat_u_small by (unfold in_u; lia). case_decide; lia.
    - rewrite sat_u_small by (unfold in_u; lia). rewrite unreserve_reserved by lia. case_decide; [subst x; lia|lia].
    - case_decide; lia. }
  split; simpl.
  - intros x d'. rewrite lookup_insert_Some. intros [[<- <-]|[_ Hx]]; [|by eapply Hok]. by destruct Hd; split.
  - intros x. destruct (Hcov x) as [Ho Hc]. split; [done|]. rewrite Hres. case_decide as Hx.
    + subst x. rewrite lookup_insert_eq. fold prev in Hc. simpl. lia.
    + rewrite lookup_insert_ne by done. lia.
Qed.

(** Clearing a descriptor returns its whole deposit. *)
Lemma clear_descriptor_returns `{!CurrencyLaws W} others who s d :
  registry_inv others s -> NodeDescriptors s !! who = Some d ->
  exists s', clear_descriptor (Signed who) s = Ok s' /\ NodeDescriptors s' !! who = None /\
    free_balance (world s') who = free_balance (world s) who + deposit d /\ registry_inv others s'.
Proof.
  intros [Hok Hcov] Hd. unfold clear_descriptor. simpl. rewrite Hd. simpl. eexists. split; [done|]. simpl.
  destruct (Hcov who) as [Ho Hc]. rewrite Hd in Hc. simpl in Hc.
  assert (0 <= deposit d) as Hnn by apply (Hok who d Hd).
  split_and!; [apply lookup_delete_eq|rewrite unreserve_free by done; lia|]. split; simpl.
  - intros x d' [_ Hx]%lookup_delete_Some. by eapply Hok.
  - intros x. destruct (Hcov x) as [Hox Hcx]. split; [done|]. rewrite unreserve_reserved by done. case_decide as Hx.
    + subst x. rewrite lookup_delete_eq, Hd in *. simpl in *. lia.
    + rewrite lookup_delete_ne by done. lia.
Qed.

Lemma participate_inv latest o q k b others s s' :
  registry_inv others s -> participate latest o q k b s = Ok s' -> registry_inv others s'.
Proof. intros [Hok Hcov] Hp. unfold participate in Hp. hinv. by split. Qed.

(** Any call of the pallet. *)
Inductive registry_step : RegistryState -> RegistryState -> Prop :=
  | rs_set o input s s' : set_descriptor o input s = Ok s' -> registry_step s s'
  | rs_clear o s s' : clear_descriptor o s = Ok s' -> registry_step s s'
  | rs_participate latest o q k b s s' : participate latest o q k b s = Ok s' -> registry_step s s'.

Lemma registry_step_inv `{!CurrencyLaws W} others s s' :
  registry_inv others s -> registry_step s s' -> registry_inv others s'.
Proof.
  intros Hinv Hstep. destruct Hstep as [o input t t' Hok|o t t' Hok|latest o q k b t t' Hok].
  - by eapply (set_descriptor_inv others o input).
  - destruct o as [|who| |]; try done. destruct (NodeDescriptors t !! who) as [d|] eqn:Hd.
    + destruct (clear_descriptor_returns others who t d Hinv Hd) as (t'' & Hok' & _ & _ & Hinv').
      rewrite Hok in Hok'. by injection Hok' as ->.
    + unfold clear_descriptor in Hok. simpl in Hok. by rewrite Hd in Hok.
  - by eapply participate_inv.
Qed.

Lemma registry_run_inv `{!CurrencyLaws W} others s s' :
  registry_inv others s -> rtc registry_step s s' -> registry_inv others s'.
Proof. intros Hinv Hrun. induction Hrun; [done|]. apply IHHrun. by eapply registry_step_inv. Qed.

(** ** Participation *)

(** The reverse index and the counters agree with the latest records, while
    [candidate] is the qblock being worked on. *)
Record part_inv (candidate : Z) s : Prop := {
  pi_latest : forall who r, LatestParticipation s !! who = Some r -> qblock_id r <= candidate;
  pi_index : forall q who, is_Some (participants q s !! who) ->
    exists r, LatestParticipation s !! who = Some r /\ q <= qblock_id r;
  pi_count : forall q, participant_count_by_qblock q s = sat_u 32 (Z.of_nat (size (participants q s)))
}.

#[local] Lemma participants_insert q q' who r s :
  participants q' (s <| ParticipantsByQBlock $= <[q := <[who := r]> (participants q s)]> |>) =
  if decide (q' = q) then <[who := r]> (participants q s) else participants q' s.
Proof.
  unfold participants. simpl. case_decide; [subst; by rewrite lookup_insert_eq|by rewrite lookup_insert_ne].
Qed.

#[local] Lemma count_insert q q' n s :
  participant_count_by_qblock q' (s <| ParticipantCountByQBlock $= <[q := n]> |>) =
  if decide (q' = q) then n else participant_count_by_qblock q' s.
Proof.
  unfold participant_count_by_qblock. simpl.
  case_decide; [subst; by rewrite lookup_insert_eq|by rewrite lookup_insert_ne].
Qed.

#[local] Lemma sat_succ (n : nat) : u32_add (sat_u 32 (Z.of_nat n)) 1 = sat_u 32 (Z.of_nat (S n)).
Proof. unfold u32_add, sat_u. lia. Qed.

(** An accepted participation counts a new participant of the candidate
    qblock. *)
Lemma participate_counts latest who q k b s s' :
  part_inv (candidate_qblock_id latest) s ->
  participate latest (Signed who) q k b s = Ok s' ->
  part_inv (candidate_qblock_id latest) s' /\ q = candidate_qblock_id latest /\
  participants q s !! who = None /\ is_Some (participants q s' !! who).
Proof.
  intros [Hl Hx Hc] Hok. unfold participate in Hok. simpl in Hok.
  repeat hinv_step. bool_to_prop. rewrite <- Hm0 in Hl |- *. clear Hm0 latest. subst s'. set (r := mkParticipationRecord q k b (block_number s)).
  assert (participants q s !! who = None) as Hnew.
  { apply eq_None_not_Some. intros (r0 & Hr0 & Hle)%Hx. rewrite Hr0 in *. specialize (Hl _ _ Hr0). bool_to_prop. lia. }
  match goal with |- part_inv _ ?s' /\ _ => assert (forall q', participants q' s' =
      if decide (q' = q) then <[who := r]> (participants q s) else participants q' s) as Hp by (intros; by rewrite <- participants_insert);
    assert (forall q', participant_count_by_qblock q' s' =
      if decide (q' = q) then u32_add (participant_count_by_qblock q s) 1 else participant_count_by_qblock q' s) as Hn by (intros; by rewrite <- count_insert) end.
  split_and!; [split| |done|].
  - intros w r'. simpl. rewrite lookup_insert_Some. intros [[<- <-]|[_ Hw]]; [simpl; lia|by eapply Hl].
  - intros q' w. rewrite Hp. simpl. case_decide as Hq.
    + subst q'. rewrite lookup_insert_is_Some'. intros [<-|Hw]; [exists r; rewrite lookup_insert_eq; split; [done|simpl; lia]|].
      destruct (decide (who = w)) as [<-|Hne]; [exists r; rewrite lookup_insert_eq; split; [done|simpl; lia]|].
      rewrite lookup_insert_ne by done. by apply Hx.
    + intros Hw. destruct (Hx q' w Hw) as (r0 & Hr0 & Hle). destruct (decide (who = w)) as [<-|Hne].
      * exists r. rewrite lookup_insert_eq. split; [done|]. simpl. specialize (Hl _ _ Hr0). lia.
      * exists r0. by rewrite lookup_insert_ne.
  - intros q'. rewrite Hp, Hn. case_decide; [subst q'|apply Hc]. rewrite map_size_insert_None by done.
    rewrite Hc. apply sat_succ.
  - done.
  - rewrite Hp, decide_True, lookup_insert_eq by done. eauto.
Qed.

(** Whatever the calls, the counter never misses a participant. *)
Definition counted s : Prop :=
  forall q, sat_u 32 (Z.of_nat (size (participants q s))) <= participant_count_by_qblock q s.

Lemma participate_counted latest o q k b s s' :
  counted s -> participate latest o q k b s = Ok s' -> counted s'.
Proof.
  intros Hc Hok. unfold participate in Hok. repeat hinv_step. subst s'. clear -Hc. intros q'.
  match goal with |- context [participants q' ?s'] =>
    replace (participants q' s') with (if decide (q' = q) then <[a := mkParticipationRecord q k b (block_number s)]> (participants q s)
      else participants q' s) by (by rewrite <- participants_insert);
    replace (participant_count_by_qblock q' s') with (if decide (q' = q) then u32_add (participant_count_by_qblock q s) 1
      else participant_count_by_qblock q' s) by (by rewrite <- count_insert) end.
  case_decide; [subst q'|apply Hc]. specialize (Hc q). rewrite map_size_insert.
  unfold u32_add, sat_u in *. case_match; simpl; lia.
Qed.

(** ** Pages of participants *)

(** A page is sorted without duplicates, holds only participants after the
    cursor, and skips none: a participant after the cursor that is not on a
    page is after everyone on it, and the page is full. *)
Lemma participants_page q cursor limit s :
  0 < limit ->
  let page := participants_by_qblock q cursor limit s in
  StronglySorted entry_le page /\ NoDup page.*1 /\ zlen page <= Z.min limit 1000 /\
  Forall (fun e => participants q s !! e.1 = Some e.2 /\ forall c, cursor = Some c -> c < e.1) page /\
  (forall who r, participants q s !! who = Some r -> (forall c, cursor = Some c -> c < who) ->
     (who, r) ∈ page \/ zlen page = Z.min limit 1000 /\ Forall (fun e => e.1 <= who) page).
Proof.
  intros Hlim page. unfold page, participants_by_qblock. rewrite (proj2 (Z.eqb_neq _ _)) by lia.
  set (l := filter _ _). set (n := Z.to_nat (Z.min limit 1000)).
  destruct (page_spec entry_le n l) as (Hs & Hin & Hn & _ & Hrest).
  assert (forall e, e ∈ l <-> participants q s !! e.1 = Some e.2 /\ forall c, cursor = Some c -> c < e.1) as Hel.
  { intros [w r]. unfold l. rewrite list_elem_of_filter, elem_of_map_to_list. simpl.
    destruct cursor as [c|]; simpl; [rewrite Z.ltb_lt|]; naive_solver. }
  assert (NoDup (merge_sort entry_le l).*1) as Hnd.
  { rewrite merge_sort_Permutation. unfold l. eapply sublist_NoDup; [apply (NoDup_fst_map_to_list (participants q s))|].
    apply fmap_sublist, sublist_filter. }
  split_and!.
  - exact Hs.
  - rewrite <- (take_drop n (merge_sort entry_le l)), fmap_app in Hnd. by apply NoDup_app in Hnd as [? _].
  - unfold zlen. lia.
  - apply Forall_forall. intros e He. by apply Hel, Hin.
  - intros w r Hw Hc. destruct (Hrest (w, r)) as [?|[Hl Hall]]; [by apply Hel|by left|right]. split; [unfold zlen; lia|exact Hall].
Qed.
End Registry.

(** ** A participant counted twice *)

(** Clearing the descriptor forgets the latest participation, so the same
    account can participate again in the same qblock. *)
Section DoubleCount.
#[local] Existing Instances wasm32 Ledger.currency.

Definition tiny_input : NodeDescriptorInput :=
  V1 (mkV1Input [1] [1] None None [] false Info [mkMinerSpec Cpu None None None]).

Definition double_count_run (s : @RegistryState Ledger.t) : rresult RegistryState :=
  let cfg := mkRegistryConfig 10 1 in
  let hash := fun _ => 0 in
  s <-? set_descriptor cfg hash (Signed 7) tiny_input s;;
  s <-? participate None (Signed 7) 1 Cpu None s;;
  s <-? clear_descriptor (Signed 7) s;;
  s <-? set_descriptor cfg hash (Signed 7) tiny_input s;;
  participate None (Signed 7) 1 Cpu None s.

Definition funded : @RegistryState Ledger.t :=
  mkRegistryState ∅ ∅ ∅ ∅ 0 (Ledger.mk {[ 7 := 100 ]} ∅) [].
End DoubleCount.

(** ** The migration to version 2 ([migrations.rs]) *)

(** Stored records are raw bytes here: [drain] removes every record and yields
    those that decode in the current layout. *)
Section Migration.
Context {W Raw : Type} `{Currency W} (decode_descriptor : Raw -> option NodeDescriptor).

Definition migrate_record (w : W) (e : AccountId * Raw) : W :=
  match decode_descriptor e.2 with
  | Some descriptor => (unreserve w e.1 (deposit descriptor)).1
  | None => w
  end.

Definition InnerMigrateToV2 (records : list (AccountId * Raw)) (w : W) : list (AccountId * Raw) * W :=
  ([], foldl migrate_record w records).

(** [VersionedMigration<1, 2, ..>] *)
Definition MigrateToV2 (version : Z) (records : list (AccountId * Raw)) (w : W) : Z * list (AccountId * Raw) * W :=
  if version =? 1 then let '(records, w) := InnerMigrateToV2 records w in (2, records, w) else (version, records, w).

(** What a record's deposit is to the migration. *)
Definition seen_deposit (raw : Raw) : Z := default 0 (deposit <$> decode_descriptor raw).

Lemma migrate_record_exact `{!CurrencyLaws W} w who raw x :
  0 <= seen_deposit raw <= reserved_balance w who ->
  let w' := migrate_record w (who, raw) in
  reserved_balance w' x = reserved_balance w x - (if decide (x = who) then seen_deposit raw else 0) /\
  free_balance w' x = free_balance w x + (if decide (x = who) then seen_deposit raw else 0).
Proof.
  unfold seen_deposit, migrate_record. cbn [fst snd]. destruct (decode_descriptor raw) as [d|]; cbn.
  - intros Hd. rewrite unreserve_reserved by lia. case_decide as Hx; [subst x|].
    + rewrite unreserve_free by lia. lia.
    + rewrite unreserve_free_other by done. lia.
  - intros _. case_decide; lia.
Qed.

(** The migration releases the deposit of every record that decodes and of no
    other, whatever the order. *)
Lemma migration_exact `{!CurrencyLaws W} records w :
  NoDup records.*1 -> (forall who raw, (who, raw) ∈ records -> 0 <= seen_deposit raw <= reserved_balance w who) ->
  let r := MigrateToV2 1 records w in
  r.1 = (2, []) /\
  forall who, match list_to_map (M := gmap AccountId Raw) records !! who with
    | Some raw => reserved_balance r.2 who = reserved_balance w who - seen_deposit raw /\
                  free_balance r.2 who = free_balance w who + seen_deposit raw
    | None => reserved_balance r.2 who = reserved_balance w who /\ free_balance r.2 who = free_balance w who
    end.
Proof.
  intros Hnd Hres. split; [done|]. cbn. clear -Hnd Hres CurrencyLaws0. revert w Hres.
  induction records as [|[who raw] records IH]; intros w Hres x; [done|]. csimpl.
  apply NoDup_cons in Hnd as [Hnew Hnd]. pose proof (fun y => migrate_record_exact w who raw y ltac:(apply Hres; left)) as Hw.
  specialize (IH Hnd (migrate_record w (who, raw))). cbv zeta in Hw.
  assert (forall y raw', (y, raw') ∈ records -> 0 <= seen_deposit raw' <= reserved_balance (migrate_record w (who, raw)) y) as Hres'.
  { intros y raw' Hin. destruct (Hw y) as [-> _]. rewrite decide_False; [|intros ->; apply Hnew, list_elem_of_fmap; by exists (who, raw')].
    specialize (Hres y raw' ltac:(by right)). lia. }
  specialize (IH Hres' x). destruct (Hw x) as [Hr Hf]. destruct (decide (x = who)) as [->|Hne].
  - rewrite lookup_insert_eq. rewrite not_elem_of_list_to_map_1 in IH by done. destruct IH as [-> ->]. lia.
  - rewrite lookup_insert_ne by done. destruct (list_to_map records !! x); destruct IH as [-> ->]; lia.
Qed.

(** A record that no longer decodes is removed all the same, and its deposit
    stays on reserve. *)
Lemma migration_strands `{!CurrencyLaws W} records w who raw :
  NoDup records.*1 -> (forall who raw, (who, raw) ∈ records -> 0 <= seen_deposit raw <= reserved_balance w who) ->
  (who, raw) ∈ records -> decode_descriptor raw = None ->
  let r := MigrateToV2 1 records w in r.1.2 = [] /\ reserved_balance r.2 who = reserved_balance w who.
Proof.
  intros Hnd Hres Hin Hdec. destruct (migration_exact records w Hnd Hres) as [_ Hall]. split; [done|].
  specialize (Hall who). rewrite (proj1 (elem_of_list_to_map _ _ _ Hnd) Hin) in Hall. destruct Hall as [-> _].
  unfold seen_deposit. rewrite Hdec. simpl. lia.
Qed.
End Migration.
