(* ===== verification/Template.v ===== *)
(** * The template pallet

    Models [pallets/template/src/lib.rs]: one stored number that signed
    accounts set and increment. *)

From S2P Require Import Prelude Frame.

Inductive TemplateError := NoneValue | StorageOverflow.
Inductive TemplateEvent := SomethingStored (something : Z) (who : AccountId).
Record TemplateState := mkTemplateState { Something : option Z; template_events : list TemplateEvent }.

Abbreviation tresult := (result (DispatchError TemplateError)).

Definition do_something (origin : Origin) (something : Z) (s : TemplateState) : tresult TemplateState :=
  who <-? ensure_signed origin;;
  Ok (mkTemplateState (Some something) (template_events s ++ [SomethingStored something who])).

Definition cause_error (origin : Origin) (s : TemplateState) : tresult TemplateState :=
  ensure_signed origin;;?
  match Something s with
  | None => Err (Module NoneValue)
  | Some old =>
      new <-? some_or (checked_u 32 (old + 1)) StorageOverflow;;
      Ok (mkTemplateState (Some new) (template_events s))
  end.

(** After a value is set, increments by anyone add one each, until the 32 bits
    are used up; the next one is refused. *)
Lemma increments_add (callers : list AccountId) v s :
  Something s = Some v -> 0 <= v -> v + zlen callers < 2 ^ 32 ->
  exists s', rfold (fun s who => cause_error (Signed who) s) s callers = Ok s' /\ Something s' = Some (v + zlen callers).
Proof.
  revert v s. induction callers as [|who callers IH]; intros v s Hs Hv Hmax.
  - exists s. unfold zlen. cbn. rewrite Z.add_0_r. auto.
  - assert (zlen (who :: callers) = zlen callers + 1) as Hlen by (unfold zlen; simpl; lia). pose proof (zlen_nonneg callers).
    cbn [rfold]. unfold cause_error at 1. cbn. rewrite Hs. unfold checked_u. rewrite decide_True by (unfold in_u; lia). cbn.
    destruct (IH (v + 1) (mkTemplateState (Some (v + 1)) (template_events s))) as (s' & Hok & Hs'); [done|lia|lia|].
    exists s'. split; [exact Hok|]. rewrite Hs'. f_equal. lia.
Qed.

Lemma increment_overflow who s : Something s = Some (2 ^ 32 - 1) -> cause_error (Signed who) s = Err (Module StorageOverflow).
Proof. intros Hs. unfold cause_error. cbn. by rewrite Hs. Qed.
