(* ===== verification/Emission.v ===== *)
(** * The emission controller pallet

    Models [pallets/emission-controller/src/lib.rs]: issuance accrued over time
    into subnet pots, rewards paid from a pot, and the finite faucet budget.
    The ledger with its issuance, the pot addresses (hashes) and the clock come
    from outside the pallet.  The reward payment is an instance of the
    interface the proof-of-work pallet relies on. *)

From S2P Require Import Prelude Frame.

Definition ANNUAL_EMISSION_QUIP : Z := 40000000.
Definition CONTROLLER_SHARE_PERCENT : Z := 75.
Definition STAKING_SHARE_PERCENT : Z := 25.
Definition CONTROLLER_ANNUAL_EMISSION_QUIP : Z :=
  sat_u 128 (ANNUAL_EMISSION_QUIP * CONTROLLER_SHARE_PERCENT) / 100.
Definition STAKING_ANNUAL_EMISSION_QUIP : Z :=
  sat_u 128 (ANNUAL_EMISSION_QUIP * STAKING_SHARE_PERCENT) / 100.
Definition YEAR_SECONDS : Z := 365 * 24 * 60 * 60.
Definition MILLISECONDS_PER_YEAR : Z := YEAR_SECONDS * 1000.

Inductive EmissionError := ZeroAmount | BudgetExceeded | Overflow | DepositFailed.
#[global] Instance EmissionError_eq_dec : EqDecision EmissionError.
Proof. solve_decision. Defined.

Abbreviation eresult := (result (DispatchError EmissionError)).

Inductive EmissionEvent :=
  | SubnetFunded (subnet : Z) (amount : Balance)
  | RewardPaid (subnet : Z) (who : AccountId) (amount : Balance)
  | FaucetMinted (who : AccountId) (amount : Balance)
  | FundingFailed (subnet : Z) (amount : Balance) (e : DispatchError EmissionError)
  | RewardUnavailable (subnet : Z) (who : AccountId) (requested : Balance)
      (e : option (DispatchError EmissionError)).

(** [AnnualEmission], [MaxSubnets] *)
Record EmissionConfig := mkEmissionConfig { AnnualEmission : Balance; MaxSubnets : Z }.

(** [valid_routes]: the loop over the routes, [earlier] being [routes[..i]]. *)
Fixpoint valid_routes_loop (earlier : list Z) (sum : Z) (routes : list (Z * Z)) : bool :=
  match routes with
  | [] => sum =? BILLION
  | (id, share) :: routes =>
      if (share =? 0) || bool_decide (id ∈ earlier) then false
      else valid_routes_loop (earlier ++ [id]) (sum + share) routes
  end.

Section Emission.
Context `{SpArithmetic} {W : Type} `{Currency W, Issuance W}.
Context (cfg : EmissionConfig) (pot : Z -> AccountId).

Definition valid_routes (routes : list (Z * Z)) (enabled : bool) : bool :=
  if MaxSubnets cfg <? zlen routes then false else
  if bool_decide (length routes = 0%nat) then negb enabled
  else valid_routes_loop [] 0 routes.

Record EmissionState := mkEmissionState {
  Enabled : bool;
  StartAt : option Z;
  Routes : list (Z * Z);
  SubnetIssued : gmap Z Balance;
  ScheduledIssued : Balance;
  FaucetBudget : Balance;
  FaucetIssued : Balance;
  world : W;
  events : list EmissionEvent
}.
#[export] Instance EmissionState_expansion : Expansion EmissionState := fun r =>
  mkEmissionState (Enabled r) (StartAt r) (Routes r) (SubnetIssued r) (ScheduledIssued r)
    (FaucetBudget r) (FaucetIssued r) (world r) (events r).
Implicit Types s : EmissionState.

Definition deposit_event (e : EmissionEvent) s : EmissionState := s <| events $= (.++ [e]) |>.
Definition subnet_issued (subnet : Z) s : Balance := default 0 (SubnetIssued s !! subnet).

(** [GenesisConfig::build] *)
Definition genesis_build (enabled : bool) (start_at : option Z) (routes : list (Z * Z))
    (faucet_budget : Balance) s : eresult EmissionState :=
  if valid_routes routes enabled && (0 <? AnnualEmission cfg) && negb (bool_decide (start_at = Some 0))
     && (zlen routes <=? MaxSubnets cfg)
  then Ok (s <| Enabled := enabled |> <| StartAt := start_at |> <| Routes := routes |>
             <| FaucetBudget := faucet_budget |>)
  else Panic.

Definition deposit_exact (who : AccountId) (amount : Balance) s : eresult EmissionState :=
  require (bool_decide (in_u 128 (total_issuance (world s) + amount))) Overflow;;?
  let '(w, peek) := deposit_creating (world s) who amount in
  require (peek =? amount) DepositFailed;;?
  Ok (s <| world := w |>).

Definition fund_subnet (subnet : Z) (amount : Balance) s : eresult EmissionState :=
  next <-? some_or (checked_u 128 (subnet_issued subnet s + amount)) Overflow;;
  total <-? some_or (checked_u 128 (ScheduledIssued s + amount)) Overflow;;
  s <-? deposit_exact (pot subnet) amount s;;
  let s := s <| SubnetIssued $= <[subnet := next]> |> in
  let s := s <| ScheduledIssued := total |> in
  Ok (deposit_event (SubnetFunded subnet amount) s).

Definition entitlement (elapsed : Z) : option Balance :=
  let annual := AnnualEmission cfg in
  match checked_u 128 (annual * (elapsed / YEAR_SECONDS)) with
  | None => None
  | Some years =>
      match checked_u 128 (annual * (elapsed mod YEAR_SECONDS)) with
      | None => None
      | Some fraction => checked_u 128 (years + fraction / YEAR_SECONDS)
      end
  end.

(** One route of the accrual loop; a failed funding is reported and retried
    later. *)
Definition accrue_route (total : Balance) s (route : Z * Z) : EmissionState :=
  let '(subnet, share) := route in
  let target := mul_floor share total in
  let amount := sat_u 128 (target - subnet_issued subnet s) in
  if amount =? 0 then s else
  match fund_subnet subnet amount s with
  | Ok s => s
  | Err e => deposit_event (FundingFailed subnet amount e) s
  | Panic => s
  end.

Definition accrue (now : Z) s : EmissionState :=
  if negb (Enabled s) || (now =? 0) then s else
  match StartAt s with
  | None => s <| StartAt := Some now |>
  | Some start =>
      match entitlement (sat_u 64 (now - start)) with
      | None => s
      | Some total => foldl (accrue_route total) s (Routes s)
      end
  end.

Definition on_initialize (now : Z) s : EmissionState := accrue now s.

Definition rebased_start (now : Z) s : option (option Z) :=
  match StartAt s with
  | Some start =>
      if negb (Enabled s) || (ScheduledIssued s =? 0) then Some (Some start) else
      match mul_rational_down (ScheduledIssued s) YEAR_SECONDS (AnnualEmission cfg) with
      | None => None
      | Some elapsed => Some (Some (sat_u 64 (now - sat_u 64 elapsed)))
      end
  | None => Some None
  end.

(** [on_runtime_upgrade]: the storage version with the state. *)
Definition VERSION : Z := 2.
Definition on_runtime_upgrade (now : Z) (version : Z) s : Z * EmissionState :=
  if VERSION <=? version then (version, s) else
  match rebased_start now s with
  | None => (version, s)
  | Some start => (VERSION, s <| StartAt := start |>)
  end.

Definition mint_faucet (who : AccountId) (amount : Balance) s : eresult EmissionState :=
  require (0 <? amount) ZeroAmount;;?
  next <-? some_or (checked_u 128 (FaucetIssued s + amount)) Overflow;;
  require (next <=? FaucetBudget s) BudgetExceeded;;?
  s <-? deposit_exact who amount s;;
  let s := s <| FaucetIssued := next |> in
  Ok (deposit_event (FaucetMinted who amount) s).

(** [SubnetRewards::pay] *)
Definition subnet_pay (subnet : Z) s (who : AccountId) (requested : Balance) : EmissionState * Balance :=
  let p := pot subnet in
  let available := sat_u 128 (free_balance (world s) p - minimum_balance (C := W)) in
  let amount := Z.min requested available in
  if (amount =? 0) || (p =? who) then (deposit_event (RewardUnavailable subnet who requested None) s, 0)
  else match transfer_keep_alive (world s) p who amount with
       | None => (deposit_event (RewardUnavailable subnet who requested (Some CurrencyError)) s, 0)
       | Some w => (deposit_event (RewardPaid subnet who amount) (s <| world := w |>), amount)
       end.

(** ** The entitlement curve *)

Lemma year_pos : 0 < YEAR_SECONDS.
Proof. done. Qed.

(** The split into whole years and a rest loses nothing: the entitlement is
    the exact rational, rounded down once. *)
Lemma entitlement_exact elapsed e :
  0 <= AnnualEmission cfg -> 0 <= elapsed -> entitlement elapsed = Some e ->
  e = AnnualEmission cfg * elapsed / YEAR_SECONDS /\ in_u 128 e.
Proof.
  intros Ha He. unfold entitlement. set (a := AnnualEmission cfg) in *. pose proof year_pos as Hy.
  destruct (checked_u 128 (a * (elapsed / YEAR_SECONDS))) as [years|] eqn:Hc1; [|done].
  destruct (checked_u 128 (a * (elapsed mod YEAR_SECONDS))) as [fr|] eqn:Hc2; [|done].
  apply checked_u_Some in Hc1 as [-> Hc1]. apply checked_u_Some in Hc2 as [-> Hc2].
  intros [-> Hr]%checked_u_Some. split; [|done].
  rewrite (Z.div_mod elapsed YEAR_SECONDS) at 3 by lia.
  rewrite Z.mul_add_distr_l. replace (a * (YEAR_SECONDS * (elapsed / YEAR_SECONDS))) with
    (a * (elapsed / YEAR_SECONDS) * YEAR_SECONDS) by lia.
  rewrite Z.div_add_l by lia. done.
Qed.

(** It is defined as long as the schedule fits. *)
Lemma entitlement_defined elapsed :
  0 <= AnnualEmission cfg -> 0 <= elapsed ->
  AnnualEmission cfg * YEAR_SECONDS < 2 ^ 128 -> AnnualEmission cfg * elapsed / YEAR_SECONDS < 2 ^ 128 ->
  entitlement elapsed = Some (AnnualEmission cfg * elapsed / YEAR_SECONDS).
Proof.
  intros Ha He Hy Hfit. unfold entitlement. set (a := AnnualEmission cfg) in *. pose proof year_pos as Hyp.
  pose proof (Z.mod_pos_bound elapsed YEAR_SECONDS Hyp) as Hm.
  pose proof (Z.div_pos elapsed YEAR_SECONDS He Hyp) as Hd.
  assert (a * elapsed / YEAR_SECONDS = a * (elapsed / YEAR_SECONDS) + a * (elapsed mod YEAR_SECONDS) / YEAR_SECONDS) as Heq.
  { rewrite (Z.div_mod elapsed YEAR_SECONDS) at 1 by lia. rewrite Z.mul_add_distr_l.
    replace (a * (YEAR_SECONDS * (elapsed / YEAR_SECONDS))) with (a * (elapsed / YEAR_SECONDS) * YEAR_SECONDS) by lia.
    by rewrite Z.div_add_l by lia. }
  assert (0 <= a * (elapsed mod YEAR_SECONDS) / YEAR_SECONDS) by (apply Z.div_pos; nia).
  assert (0 <= a * (elapsed / YEAR_SECONDS)) by nia.
  rewrite (proj2 (checked_u_Some 128 _ _)) by (split; [done|unfold in_u; lia]).
  rewrite (proj2 (checked_u_Some 128 _ _)) by (split; [done|unfold in_u; nia]).
  apply checked_u_Some. split; [done|unfold in_u; lia].
Qed.

(** ** Issuance accounting *)

(** Everything accrual leaves alone. *)
Definition schedule s := (Enabled s, StartAt s, Routes s, FaucetBudget s, FaucetIssued s).

Lemma deposit_exact_effect `{!IssuanceLaws W} who amount s s' :
  0 <= amount -> deposit_exact who amount s = Ok s' ->
  total_issuance (world s') = total_issuance (world s) + amount /\
  s' = s <| world := world s' |> /\
  (forall x, free_balance (world s') x =
     if decide (x = who) then free_balance (world s) x + amount else free_balance (world s) x).
Proof.
  intros Ha Hok. unfold deposit_exact in Hok. hinv.
  pose proof (deposit_issuance (world s) who amount Ha) as Hi. pose proof (deposit_free (world s) who amount Ha) as Hf.
  destruct (deposit_creating _ _ _) as [w peek]. simpl in *. hinv. simpl in *. split_and!; [lia|by destruct s|].
  subst peek. exact Hf.
Qed.

(** What one route of the accrual does: nothing, or it funds the pot with
    exactly the missing amount. *)
Lemma accrue_route_effect `{!IssuanceLaws W} total s id share :
  let missing := sat_u 128 (mul_floor share total - subnet_issued id s) in
  let s' := accrue_route total s (id, share) in
  exists d, (d = 0 \/ d = missing) /\ 0 <= d /\
    (forall x, subnet_issued x s' = subnet_issued x s + (if decide (x = id) then d else 0)) /\
    ScheduledIssued s' = ScheduledIssued s + d /\
    total_issuance (world s') = total_issuance (world s) + d /\ schedule s' = schedule s.
Proof.
  intros missing s'. unfold s', accrue_route. fold missing.
  assert (0 <= missing) as Hm by (apply sat_u_range; lia).
  assert (forall y, SubnetIssued y = SubnetIssued s -> ScheduledIssued y = ScheduledIssued s -> world y = world s ->
    schedule y = schedule s -> exists d, (d = 0 \/ d = missing) /\ 0 <= d /\
    (forall x, subnet_issued x y = subnet_issued x s + (if decide (x = id) then d else 0)) /\
    ScheduledIssued y = ScheduledIssued s + d /\
    total_issuance (world y) = total_issuance (world s) + d /\ schedule y = schedule s) as Hnone.
  { intros y E1 E2 E3 E4. exists 0. rewrite E2, E3. split_and!; try (done || lia || by left).
    intros x. unfold subnet_issued. rewrite E1. case_decide; lia. }
  case_match; [by apply Hnone|]. destruct (fund_subnet id missing s) as [y|e|] eqn:Hf; [|by apply Hnone|by apply Hnone].
  unfold fund_subnet in Hf. apply rbind_Ok_inv in Hf as (next & Hnx & Hf). apply some_or_Ok, checked_u_Some in Hnx as [-> _].
  apply rbind_Ok_inv in Hf as (tot & Htt & Hf). apply some_or_Ok, checked_u_Some in Htt as [-> _].
  apply rbind_Ok_inv in Hf as (s1 & Hd & [= <-]). apply deposit_exact_effect in Hd as (Hi & Hs1 & _); [|done].
  exists missing. rewrite Hs1 in Hi |- *. simpl in *. split_and!; try (done || by right).
  intros x. unfold subnet_issued at 1. simpl. case_decide; [subst; by rewrite lookup_insert_eq|].
  rewrite lookup_insert_ne by done. unfold subnet_issued. lia.
Qed.

(** What has been issued to the subnets of a list of routes. *)
Definition routes_issued (routes : list (Z * Z)) s : Z := zsum ((fun r => subnet_issued r.1 s) <$> routes).

#[local] Lemma routes_issued_update routes s s' id d :
  NoDup routes.*1 ->
  (forall x, subnet_issued x s' = subnet_issued x s + (if decide (x = id) then d else 0)) ->
  routes_issued routes s' = routes_issued routes s + (if decide (id ∈ routes.*1) then d else 0).
Proof.
  intros Hnd Hu. unfold routes_issued, zsum. induction routes as [|[x sh] routes IH]; csimpl; [done|].
  apply NoDup_cons in Hnd as [Hni Hnd]. rewrite IH, Hu by done. clear IH. simpl in *.
  destruct (decide (x = id)) as [->|Hne].
  - rewrite decide_False by done. rewrite decide_True by set_solver. lia.
  - destruct (decide (id ∈ routes.*1)); [rewrite decide_True by set_solver|rewrite decide_False by set_solver]; lia.
Qed.

(** The books balance: the scheduled counter is the sum of the subnet counters
    of the routes, whose ids are distinct and whose shares are at most one. *)
Record books s : Prop := {
  bk_distinct : NoDup (Routes s).*1;
  bk_shares : Forall (fun r => 0 <= r.2 <= BILLION) (Routes s) /\ zsum (Routes s).*2 <= BILLION;
  bk_sum : ScheduledIssued s = routes_issued (Routes s) s;
  bk_nonneg : forall id, 0 <= subnet_issued id s
}.

(** No subnet is ahead of its share of [total]. *)
Definition within (total : Z) s : Prop :=
  Forall (fun r => subnet_issued r.1 s <= mul_floor r.2 total) (Routes s).

(** Total issuance moves only by what the counters record. *)
Definition off_books s : Z := total_issuance (world s) - ScheduledIssued s - FaucetIssued s.

#[local] Lemma accrue_route_step `{!IssuanceLaws W} total s id share :
  books s -> within total s -> (id, share) ∈ Routes s ->
  let s' := accrue_route total s (id, share) in
  books s' /\ within total s' /\ off_books s' = off_books s /\ schedule s' = schedule s.
Proof.
  intros [Hnd Hsh Hsum Hnn] Hw Hin s'.
  destruct (accrue_route_effect total s id share) as (d & Hd & Hd0 & Hsub & Hsch & Hiss & Hfr). fold s' in Hsub, Hsch, Hiss, Hfr.
  pose proof Hfr as Hfr'. unfold schedule in Hfr'. assert (Routes s' = Routes s) as ER by congruence.
  assert (FaucetIssued s' = FaucetIssued s) as EF by congruence.
  unfold within in *. rewrite Forall_forall in Hw. specialize (Hw _ Hin) as Hwi. simpl in Hwi.
  split_and!; [split; rewrite ?ER| | |done].
  - done.
  - done.
  - rewrite Hsch, (routes_issued_update _ s s' id d Hnd Hsub), decide_True, Hsum by (by apply list_elem_of_fmap; exists (id, share)). lia.
  - intros x. rewrite Hsub. specialize (Hnn x). case_decide; lia.
  - rewrite ER. apply Forall_forall. intros [x sh] Hx. simpl. rewrite Hsub. case_decide as Hxe.
    + subst x. assert (sh = share) as ->.
      { by eapply NoDup_fst_functional. }
      destruct Hd as [->|Hd]; [lia|]. revert Hd. unfold sat_u. lia.
    + specialize (Hw _ Hx). simpl in Hw. lia.
  - unfold off_books. lia.
Qed.

#[local] Lemma accrue_loop `{!IssuanceLaws W} total routes s :
  (forall r, r ∈ routes -> r ∈ Routes s) -> books s -> within total s ->
  let s' := foldl (accrue_route total) s routes in
  books s' /\ within total s' /\ off_books s' = off_books s /\ schedule s' = schedule s.
Proof.
  revert s. induction routes as [|[id share] routes IH]; intros s Hsub Hb Hw; simpl; [done|].
  destruct (accrue_route_step total s id share Hb Hw) as (Hb1 & Hw1 & Ho1 & Hs1); [apply Hsub; set_solver|].
  destruct (IH (accrue_route total s (id, share))) as (Hb2 & Hw2 & Ho2 & Hs2); [|done|done|].
  - intros r Hr. unfold schedule in Hs1. replace (Routes (accrue_route total s (id, share))) with (Routes s) by congruence.
    apply Hsub. set_solver.
  - split_and!; [done|done|by etransitivity|by etransitivity].
Qed.

#[local] Lemma mul_floor_mono `{!SpArithmeticLaws} share x y :
  0 <= share <= BILLION -> 0 <= x <= y -> mul_floor share x <= mul_floor share y.
Proof. intros Hs Hxy. rewrite !mul_floor_spec by lia. unfold BILLION. apply Z.div_le_mono; nia. Qed.

Lemma within_mono `{!SpArithmeticLaws} x y s : books s -> 0 <= x <= y -> within x s -> within y s.
Proof.
  intros [_ [Hsh _] _ _] Hxy Hw. unfold within in *. rewrite Forall_forall in *. intros r Hr.
  pose proof (mul_floor_mono r.2 x y (Hsh r Hr) Hxy). specialize (Hw r Hr). lia.
Qed.

#[local] Lemma floor_sum `{!SpArithmeticLaws} routes total :
  0 <= total -> Forall (fun r : Z * Z => 0 <= r.2 <= BILLION) routes ->
  zsum ((fun r => mul_floor r.2 total) <$> routes) * BILLION <= zsum routes.*2 * total.
Proof.
  intros Ht. unfold zsum. induction 1 as [|[id sh] routes Hs _ IH]; csimpl; [lia|]. simpl in Hs.
  assert (mul_floor sh total * BILLION <= sh * total); [|nia].
  rewrite mul_floor_spec by done. unfold BILLION. pose proof (Z.mul_div_le (sh * total) 1000000000 ltac:(lia)). lia.
Qed.

(** Within the schedule, the subnets together never exceed the entitlement. *)
Lemma within_total `{!SpArithmeticLaws} total s : 0 <= total -> books s -> within total s -> ScheduledIssued s <= total.
Proof.
  intros Ht [_ [Hsh Hone] Hsum _] Hw. rewrite Hsum.
  assert (routes_issued (Routes s) s <= zsum ((fun r => mul_floor r.2 total) <$> Routes s)) as Hle.
  { unfold routes_issued, zsum, within in *. clear -Hw. induction Hw; csimpl; lia. }
  pose proof (floor_sum (Routes s) total Ht Hsh) as Hfs. unfold BILLION in *. nia.
Qed.

(** Accrual keeps the books balanced and issues nothing beyond the
    entitlement of the elapsed time. *)
Lemma accrue_bounded `{!SpArithmeticLaws, !IssuanceLaws W} now s start total :
  0 <= AnnualEmission cfg -> Enabled s = true -> 0 < now < 2 ^ 64 -> StartAt s = Some start ->
  entitlement (sat_u 64 (now - start)) = Some total ->
  books s -> within total s ->
  let s' := accrue now s in
  books s' /\ within total s' /\ off_books s' = off_books s /\ schedule s' = schedule s /\
  ScheduledIssued s' <= AnnualEmission cfg * sat_u 64 (now - start) / YEAR_SECONDS.
Proof.
  intros Ha He Hn Hst Hent Hb Hw s'. unfold s', accrue. rewrite He, (proj2 (Z.eqb_neq _ _)), Hst, Hent by lia. simpl.
  destruct (accrue_loop total (Routes s) s) as (Hb' & Hw' & Ho & Hs); [done..|]. split_and!; try done.
  apply entitlement_exact in Hent as [<- Hr]; [|done|apply sat_u_range; lia].
  apply within_total; [apply Hr|done|done].
Qed.

(** Paths do not matter: when funding succeeds, a subnet that was not ahead
    holds exactly its share of the entitlement. *)
Lemma accrue_route_catches_up `{!IssuanceLaws W} total s id share :
  subnet_issued id s <= mul_floor share total < 2 ^ 128 -> 0 <= subnet_issued id s ->
  is_ok (fund_subnet id (sat_u 128 (mul_floor share total - subnet_issued id s)) s) = true ->
  subnet_issued id (accrue_route total s (id, share)) = mul_floor share total.
Proof.
  intros Hle Hnn Hok. unfold accrue_route. case_match eqn:Hz; bool_to_prop.
  { rewrite sat_u_small in Hz by (unfold in_u; lia). lia. }
  destruct (fund_subnet _ _ _) as [y|e|] eqn:Hf; [|done|done]. unfold fund_subnet in Hf. hinv.
  match goal with Hc : checked_u 128 (subnet_issued id s + _) = Some _ |- _ => apply checked_u_Some in Hc as [-> _] end.
  unfold subnet_issued at 1. simpl. rewrite lookup_insert_eq. simpl. rewrite sat_u_small by (unfold in_u; lia). lia.
Qed.

(** ** The faucet budget *)

Lemma mint_faucet_budget `{!IssuanceLaws W} who amount s s' :
  mint_faucet who amount s = Ok s' ->
  0 < amount /\ FaucetIssued s' = FaucetIssued s + amount /\ FaucetIssued s' <= FaucetBudget s' /\
  FaucetBudget s' = FaucetBudget s /\ off_books s' = off_books s /\
  free_balance (world s') who = free_balance (world s) who + amount.
Proof.
  intros Hok. unfold mint_faucet in Hok. hinv.
  match goal with Hc : checked_u 128 _ = Some _ |- _ => apply checked_u_Some in Hc as [-> _] end.
  match goal with Hd : deposit_exact _ _ _ = Ok ?x |- _ => apply deposit_exact_effect in Hd as (Hi & Hs & Hf); [|lia]; set (s1 := x) in * end.
  specialize (Hf who). rewrite decide_True in Hf by done. rewrite Hs in *. unfold off_books. simpl in *. split_and!; try (done || lia).
Qed.

(** ** Rewards *)

(** A reward is paid out of the pot: nothing is minted, the pot keeps its
    existential deposit, and the miner gets what is reported. *)
Lemma subnet_pay_conserves `{!IssuanceLaws W} subnet s who requested :
  let r := subnet_pay subnet s who requested in
  0 <= requested -> free_balance (world s) (pot subnet) < 2 ^ 128 ->
  0 <= r.2 <= requested /\ total_issuance (world r.1) = total_issuance (world s) /\
  ScheduledIssued r.1 = ScheduledIssued s /\
  (0 < r.2 -> free_balance (world r.1) who = free_balance (world s) who + r.2 /\
     minimum_balance (C := W) <= free_balance (world r.1) (pot subnet)).
Proof.
  intros r Hreq Hpot. unfold r, subnet_pay.
  pose proof (sat_u_range 128 (free_balance (world s) (pot subnet) - minimum_balance (C := W)) ltac:(lia)) as Hsat.
  unfold in_u in Hsat. destruct (_ || _) eqn:Hz; [simpl; split_and!; (done || lia)|]. bool_to_prop.
  destruct (transfer_keep_alive _ _ _ _) as [w|] eqn:Ht; simpl; [|split_and!; (done || lia)].
  split_and!; try (done || lia); [by eapply keep_alive_issuance|]. intros _.
  pose proof (keep_alive_free _ _ _ _ _ Ht) as Hf. rewrite !Hf by congruence. rewrite decide_False, !decide_True by congruence.
  split; [done|]. unfold sat_u in *. lia.
Qed.

(** ** Routes and the rebase *)

#[local] Lemma valid_routes_loop_sound earlier sum routes :
  Forall (fun r : Z * Z => 0 <= r.2) routes -> valid_routes_loop earlier sum routes = true ->
  NoDup routes.*1 /\ (forall id, id ∈ routes.*1 -> id ∉ earlier) /\
  Forall (fun r => 0 < r.2) routes /\ sum + zsum routes.*2 = BILLION.
Proof.
  intros Hf. revert earlier sum. induction Hf as [|[id sh] routes Hs _ IH]; intros earlier sum; csimpl.
  { intros Hb. bool_to_prop. split_and!; [constructor|set_solver|constructor|unfold zsum; simpl; lia]. }
  destruct (_ || _) eqn:Hz; [done|]. simpl in Hs. bool_to_prop. intros (Hnd & Hfr & Hpos & Hsum)%IH.
  split_and!.
  - constructor; [|done]. intros Hin%Hfr. set_solver.
  - intros x [->|Hx]%elem_of_cons; [done|]. specialize (Hfr x Hx). set_solver.
  - constructor; [simpl; lia|done].
  - unfold zsum in *. simpl. lia.
Qed.

(** Accepted routes are distinct, positive shares that add up to one, and a
    fresh chain starts with balanced books. *)
Lemma valid_routes_sound routes :
  Forall (fun r => 0 <= r.2) routes -> valid_routes routes true = true ->
  NoDup routes.*1 /\ Forall (fun r => 0 < r.2) routes /\ zsum routes.*2 = BILLION /\ zlen routes <= MaxSubnets cfg.
Proof.
  intros Hf. unfold valid_routes. destruct (_ <? _) eqn:Hlen; [done|]. case_bool_decide; [done|]. bool_to_prop.
  intros (Hnd & _ & Hp & Hs)%valid_routes_loop_sound; [|done]. split_and!; try done; lia.
Qed.

(** The rebase moves the anchor so that the schedule neither jumps nor
    stalls: at the upgrade the entitlement is at most what was issued, and one
    second later it has reached it. *)
Lemma rebased_start_resumes `{!SpArithmeticLaws} now s start start' elapsed :
  0 < AnnualEmission cfg -> Enabled s = true -> StartAt s = Some start -> 0 < ScheduledIssued s ->
  rebased_start now s = Some (Some start') ->
  elapsed = ScheduledIssued s * YEAR_SECONDS / AnnualEmission cfg -> elapsed <= now < 2 ^ 64 ->
  start' = now - elapsed /\
  AnnualEmission cfg * (now - start') / YEAR_SECONDS <= ScheduledIssued s <=
  AnnualEmission cfg * (now + 1 - start') / YEAR_SECONDS.
Proof.
  intros Ha He Hst Hi Hr Hel Hn. unfold rebased_start in Hr. rewrite Hst, He in Hr.
  rewrite (proj2 (Z.eqb_neq _ _)) in Hr by lia. simpl in Hr.
  rewrite mul_rational_down_spec in Hr by (done || lia). rewrite <- Hel in Hr.
  destruct (checked_u 128 elapsed) as [e|] eqn:Hc; [|done]. apply checked_u_Some in Hc as [-> Hc].
  unfold in_u in Hc. rewrite (sat_u_small 64 elapsed), sat_u_small in Hr by (unfold in_u; lia).
  injection Hr as <-. pose proof year_pos as Hy. split; [done|].
  set (a := AnnualEmission cfg) in *. set (i := ScheduledIssued s) in *.
  pose proof (Z.mul_div_le (i * YEAR_SECONDS) a Ha) as H1'. pose proof (Z.mul_succ_div_gt (i * YEAR_SECONDS) a Ha) as H2'.
  rewrite <- Hel in H1', H2'. split.
  - apply Z.div_le_upper_bound; [done|]. nia.
  - apply Z.div_le_lower_bound; [done|]. nia.
Qed.
(** ** Runs of the pallet *)

(** The clock with the state: a block accrues, the faucet mints within its
    budget, a reward is paid from a pot. *)
Inductive emission_step : Z * EmissionState -> Z * EmissionState -> Prop :=
  | es_block now now' s : now <= now' < 2 ^ 64 -> emission_step (now, s) (now', on_initialize now' s)
  | es_mint now who amount s s' :
      mint_faucet who amount s = Ok s' -> emission_step (now, s) (now, s')
  | es_pay now subnet who amount s : emission_step (now, s) (now, (subnet_pay subnet s who amount).1).

(** The exact entitlement of the time since [start], rounded down. *)
Definition entitled (start now : Z) : Z := AnnualEmission cfg * sat_u 64 (now - start) / YEAR_SECONDS.

(** A running schedule: balanced books, nothing beyond the entitlement, the
    faucet within its budget. *)
Record on_schedule (start now : Z) s : Prop := {
  os_clock : 0 <= now;
  os_running : Enabled s = true /\ StartAt s = Some start;
  os_books : books s;
  os_within : within (entitled start now) s;
  os_faucet : FaucetIssued s <= FaucetBudget s
}.

Lemma entitled_mono start now now' : 0 <= AnnualEmission cfg -> now <= now' -> entitled start now <= entitled start now'.
Proof.
  intros Ha Hn. unfold entitled. pose proof year_pos. apply Z.div_le_mono; [done|].
  apply Z.mul_le_mono_nonneg_l; [done|]. unfold sat_u. lia.
Qed.

Lemma entitled_nonneg start now : 0 <= AnnualEmission cfg -> 0 <= entitled start now.
Proof.
  intros Ha. unfold entitled. pose proof year_pos. apply Z.div_pos; [|done].
  pose proof (sat_u_range 64 (now - start) ltac:(lia)) as [? _]. nia.
Qed.

Lemma on_schedule_total `{!SpArithmeticLaws} start now s : 0 <= AnnualEmission cfg -> on_schedule start now s -> ScheduledIssued s <= entitled start now.
Proof. intros Ha [_ _ Hb Hw _]. apply within_total; [by apply entitled_nonneg|done|done]. Qed.

(** The fields [books] and [within] speak about. *)
Lemma on_schedule_frame start now s s' :
  on_schedule start now s -> Routes s' = Routes s -> SubnetIssued s' = SubnetIssued s ->
  ScheduledIssued s' = ScheduledIssued s -> Enabled s' = Enabled s -> StartAt s' = StartAt s ->
  FaucetIssued s' <= FaucetBudget s' -> on_schedule start now s'.
Proof.
  intros [Hc Hr [B1 B2 B3 B4] Hw _] E1 E2 E3 E4 E5 Hf.
  assert (forall x, subnet_issued x s' = subnet_issued x s) as Es by (intros x; unfold subnet_issued; by rewrite E2).
  split; rewrite ?E4, ?E5; try done.
  - split; rewrite ?E1; try done.
    + rewrite E3, B3. unfold routes_issued. f_equal. apply list_fmap_ext. intros i r _. by rewrite Es.
    + intros id. by rewrite Es.
  - unfold within in *. rewrite E1. eapply Forall_impl; [exact Hw|]. intros r. by rewrite Es.
Qed.

Lemma accrue_on_schedule `{!SpArithmeticLaws, !IssuanceLaws W} start now now' s :
  0 <= AnnualEmission cfg -> now <= now' < 2 ^ 64 -> on_schedule start now s ->
  on_schedule start now' (accrue now' s) /\ off_books (accrue now' s) = off_books s.
Proof.
  intros Ha Hn [Hc [He Hst] Hb Hw Hf].
  assert (within (entitled start now') s) as Hw' by (eapply within_mono; [done| |exact Hw]; split; [by apply entitled_nonneg|apply entitled_mono; [done|lia]]).
  assert (on_schedule start now' s) as Hkeep by (split; [lia|done..]).
  destruct (decide (now' = 0)) as [->|Hnz]; [unfold accrue; by rewrite He|].
  destruct (entitlement (sat_u 64 (now' - start))) as [total|] eqn:Hent.
  - pose proof (sat_u_range 64 (now' - start) ltac:(lia)) as [Hs _].
    destruct (entitlement_exact _ _ Ha Hs Hent) as [Ht _].
    destruct (accrue_bounded now' s start total) as (Hb' & Hwt & Ho & Hsch & _); try done; [lia|by rewrite Ht|].
    split; [|done]. unfold schedule in Hsch. split; [lia|split; congruence|done|by rewrite Ht in Hwt|].
    replace (FaucetIssued (accrue now' s)) with (FaucetIssued s) by congruence.
    by replace (FaucetBudget (accrue now' s)) with (FaucetBudget s) by congruence.
  - unfold accrue. rewrite He, (proj2 (Z.eqb_neq _ _)), Hst, Hent by lia. done.
Qed.

Lemma emission_step_on_schedule `{!SpArithmeticLaws, !IssuanceLaws W} start now now' s s' :
  0 <= AnnualEmission cfg -> emission_step (now, s) (now', s') -> on_schedule start now s ->
  on_schedule start now' s' /\ off_books s' = off_books s.
Proof.
  intros Ha Hstep Hos. inversion Hstep as [? ? ? Hn|? who amount ? ? Hok|? subnet who amount ?]; subst.
  - by eapply accrue_on_schedule.
  - pose proof Hok as (_ & _ & Hb & _ & Ho & _)%mint_faucet_budget. split; [|done].
    unfold mint_faucet in Hok. hinv. match goal with Hd : deposit_exact _ _ _ = Ok _ |- _ => unfold deposit_exact in Hd end.
    destruct (deposit_creating _ _ _). hinv. by (eapply on_schedule_frame; [exact Hos|..]).
  - unfold subnet_pay. destruct (_ || _); simpl; [split; [by (eapply on_schedule_frame; [exact Hos|..]; try done; apply Hos)|done]|].
    destruct (transfer_keep_alive _ _ _ _) as [w|] eqn:Ht; simpl; (split; [by (eapply on_schedule_frame; [exact Hos|..]; try done; apply Hos)|]); [|done].
    unfold off_books. simpl. by rewrite (keep_alive_issuance _ _ _ _ _ Ht).
Qed.

Lemma emission_run_on_schedule `{!SpArithmeticLaws, !IssuanceLaws W} start x y :
  0 <= AnnualEmission cfg -> rtc emission_step x y -> on_schedule start x.1 x.2 ->
  on_schedule start y.1 y.2 /\ off_books y.2 = off_books x.2.
Proof.
  intros Ha Hrun. induction Hrun as [|[n s] [n' s'] y Hstep _ IH]; intros Hos; [done|].
  destruct (emission_step_on_schedule start n n' s s' Ha Hstep Hos) as [H1' H2'].
  destruct (IH H1') as [H3' H4']. split; [done|]. by rewrite H4'.
Qed.
End Emission.

(** ** The reward interface *)

(** The ledger of the emission pallet, seen by the pallets that use it. *)
Section Interface.
Context {W : Type} `{Currency W, Issuance W}.
Context (cfg : EmissionConfig) (pot : Z -> AccountId) (subnet : Z).

#[export] Instance emission_currency : Currency (@EmissionState W) := {
  free_balance s := free_balance (world s);
  reserved_balance s := reserved_balance (world s);
  reserve s who v := (fun w => s <| world := w |>) <$> reserve (world s) who v;
  unreserve s who v := let '(w, rest) := unreserve (world s) who v in (s <| world := w |>, rest);
  transfer s from to v := (fun w => s <| world := w |>) <$> transfer (world s) from to v
}.

#[export] Instance emission_currency_laws `{!CurrencyLaws W} : CurrencyLaws (@EmissionState W).
Proof.
  split; simpl.
  - intros s who. apply reserved_nonneg.
  - intros s s' who v (w & Hw & ->)%fmap_Some. by apply reserve_reserved.
  - intros s who v Hv x. pose proof (unreserve_reserved (world s) who v Hv x) as Hx. by destruct (unreserve _ _ _).
  - intros s who v Hv. pose proof (unreserve_rest (world s) who v Hv) as Hx. by destruct (unreserve _ _ _).
  - intros s who v Hv. pose proof (unreserve_free (world s) who v Hv) as Hx. by destruct (unreserve _ _ _).
  - intros s who v x Hx. pose proof (unreserve_free_other (world s) who v x Hx) as Hf. by destruct (unreserve _ _ _).
  - intros s s' from to v (w & Hw & ->)%fmap_Some x. by eapply transfer_reserved.
  - intros s s' from to v (w & Hw & ->)%fmap_Some Hne. by eapply transfer_credited.
  - intros s s' from to v x (w & Hw & ->)%fmap_Some Hf Ht. by eapply transfer_free_other.
Qed.

#[export] Instance emission_reward : MiningReward (@EmissionState W) := subnet_pay pot subnet.

#[export] Instance emission_reward_laws `{!CurrencyLaws W, !IssuanceLaws W} :
  MiningRewardLaws (@EmissionState W).
Proof.
  split.
  - intros s who amount x. unfold pay, emission_reward, subnet_pay. simpl. case_match; [done|].
    case_match eqn:Ht; simpl; [|done]. by eapply keep_alive_reserved.
  - intros s who amount Ha. unfold pay, emission_reward, subnet_pay. case_match; simpl; [lia|].
    case_match; simpl; [|lia]. pose proof (sat_u_range 128 (free_balance (world s) (pot subnet) - minimum_balance (C := W)) ltac:(lia)) as Hs.
    unfold in_u in Hs. lia.
Qed.
End Interface.
