(* ===== verification/StakingRewards.v ===== *)
(** * Staking rewards and the emission budget

    Models [runtime/src/configs/staking_rewards.rs] (the fixed payout per era)
    and the controller's amount configured in [runtime/src/configs/mod.rs], and
    relates the two budgets. *)

From S2P Require Import Prelude Frame RuntimeParams Emission.

Definition StakingAnnualEmission : Balance := sat_u 128 (STAKING_ANNUAL_EMISSION_QUIP * Params.UNIT).
Definition ControllerAnnualEmission : Balance := sat_u 128 (CONTROLLER_ANNUAL_EMISSION_QUIP * Params.UNIT).

(** [impl pallet_emission_controller::Config for Runtime] *)
Definition runtime_emission_config : EmissionConfig :=
  {| AnnualEmission := ControllerAnnualEmission; MaxSubnets := 32 |}.

(** [FixedStakingPayout::era_payout]: the payout and the remainder. *)
Definition era_payout (total_staked total_issuance era_duration_millis : Z) : Balance * Balance :=
  (sat_u 128 (StakingAnnualEmission * era_duration_millis) / MILLISECONDS_PER_YEAR, 0).

(** The assertions compiled into the runtime. *)
Lemma budgets_compiled :
  AnnualEmission runtime_emission_config = StakingAnnualEmission * 3 /\
  AnnualEmission runtime_emission_config + StakingAnnualEmission = ANNUAL_EMISSION_QUIP * Params.UNIT.
Proof. split; reflexivity. Qed.

(** No era is long enough to saturate the product. *)
Lemma era_payout_exact staked issuance millis :
  in_u 64 millis ->
  era_payout staked issuance millis = (StakingAnnualEmission * millis / MILLISECONDS_PER_YEAR, 0).
Proof.
  intros Hm. unfold era_payout. rewrite sat_u_small; [done|].
  change StakingAnnualEmission with 10000000000000000000. unfold in_u in *. lia.
Qed.

(** Over any sequence of eras the payouts follow the fixed rate: they never
    exceed it, and fall short of it by less than a base unit per era. *)
Lemma era_payouts_rate (eras : list (Z * Z * Z)) :
  Forall (fun e => in_u 64 e.2) eras ->
  let paid := zsum ((fun e => (era_payout e.1.1 e.1.2 e.2).1) <$> eras) in
  let millis := zsum (eras.*2) in
  paid * MILLISECONDS_PER_YEAR <= StakingAnnualEmission * millis <= (paid + zlen eras) * MILLISECONDS_PER_YEAR.
Proof.
  induction 1 as [|[[st iss] ms] eras Hms _ IH]; [done|]. cbn zeta in *. rewrite !fmap_cons.
  change (zsum (?x :: ?l)) with (x + zsum l). simpl in Hms. cbn [fst snd]. rewrite era_payout_exact by done. cbn [fst].
  assert (zlen ((st, iss, ms) :: eras) = zlen eras + 1) as -> by (unfold zlen; simpl; lia).
  assert (0 < MILLISECONDS_PER_YEAR) as Hpos by reflexivity.
  pose proof (Z.mul_div_le (StakingAnnualEmission * ms) MILLISECONDS_PER_YEAR Hpos).
  pose proof (Z.mul_succ_div_gt (StakingAnnualEmission * ms) MILLISECONDS_PER_YEAR Hpos).
  set (paid := zsum ((fun e => _) <$> eras)) in *. set (millis := zsum eras.*2) in *.
  unfold Z.succ in *. nia.
Qed.
