(* ===== verification/MainnetAllocation.v ===== *)
(** * The mainnet allocation plan

    Models [runtime/src/genesis_config_presets/mainnet_allocation.rs]: the
    check of a custody plan of vesting tranches before a mainnet genesis may be
    exported, with the bounds of [runtime/src/configs/vesting.rs].  The vesting
    pallet's own validity test is a parameter, and so are the account ids of
    the placeholders and of the contract pallet (hashes). *)

From stdpp Require Import strings.
From S2P Require Import Prelude Frame RuntimeParams.

Open Scope Z_scope.

(** ** The vesting pallet's configuration *)

Definition DEFAULT_CLIFF_BLOCKS : Z := 5256000.
Definition DEFAULT_LINEAR_BLOCKS : Z := 15768000.
Definition DEFAULT_TRANCHE_CADENCE_MONTHS : Z := 3.
Definition DEFAULT_MAX_VESTING_SCHEDULES : Z := 28.
Definition MinVestedTransfer : Z := 100 * Params.EXISTENTIAL_DEPOSIT.
Definition MAX_VESTING_SCHEDULES : Z := DEFAULT_MAX_VESTING_SCHEDULES.

(** [VestingInfo], as its accessors show it. *)
Record VestingInfo := mkVestingInfo { locked : Balance; per_block : Balance; starting_block : BlockNumber }.

(** ** The accounts a genesis may not use *)

Class GenesisHashes := {
  (** [blake2_256] of the encoded role and label, as an account *)
  mainnet_placeholder : string -> string -> AccountId;
  (** [pallet_revive::Pallet::account_id()] *)
  revive_account : AccountId;
  (** [VestingInfo::is_valid] *)
  schedule_valid : VestingInfo -> bool
}.

Definition MAINNET_COUNCIL_LABELS : list string :=
  ["Rick"; "Colton"; "Vik"; "Roman"; "David"; "BVI Admin"]%string.
Definition MAINNET_VALIDATOR_LABELS : list string :=
  ["Validator 1"; "Validator 2"; "Validator 3"; "Validator 4"; "Validator 5"]%string.

Definition custody_placeholder `{GenesisHashes} : AccountId := mainnet_placeholder "custody" "Allocation".

Definition reserved_mainnet_accounts `{GenesisHashes} : list AccountId :=
  (mainnet_placeholder "council" <$> MAINNET_COUNCIL_LABELS) ++
  (mainnet_placeholder "validator" <$> MAINNET_VALIDATOR_LABELS) ++
  [mainnet_placeholder "spec-builder" "Ising"] ++ [custody_placeholder].

(** ** The plan *)

Record AllocationTranche := mkTranche {
  recipient : AccountId;
  issue_at : BlockNumber;
  schedule : VestingInfo
}.
Record AllocationTerms := mkTerms { cadence_blocks : BlockNumber; tranches : list AllocationTranche }.
Record MainnetAllocation := mkAllocation {
  total : option Balance;
  custody : AccountId;
  recipients : option (list AccountId);
  terms : option AllocationTerms
}.

Definition MAINNET_ALLOCATION_TOTAL : option Balance := None.
Definition MAINNET_ALLOCATION_RECIPIENTS : option (list AccountId) := None.

(** [MainnetAllocation::unresolved] *)
Definition unresolved `{GenesisHashes} : MainnetAllocation :=
  mkAllocation MAINNET_ALLOCATION_TOTAL custody_placeholder MAINNET_ALLOCATION_RECIPIENTS None.

Inductive AllocationError :=
  | TotalTBD | TotalUnusable | CustodyPlaceholder | CustodyNotDedicated | RecipientsTBD | RecipientsInvalid
  | TermsTBD | TermsInvalid | TrancheUnlistedRecipient | TrancheUnusable | TrancheEndOverflows
  | CadenceInconsistent | ScheduleCountOverflows | ScheduleCapExceeded | TrancheTotalOverflows
  | RecipientOmitted | TranchesExceedFunding | DustResidual.
#[global] Instance AllocationError_eq_dec : EqDecision AllocationError.
Proof. solve_decision. Defined.

Abbreviation alresult := (result AllocationError).

(** [ceil(locked / rate)] in blocks *)
Definition tranche_duration (v : VestingInfo) : option Z :=
  n ← checked_u 128 (locked v - 1);
  n ← (if per_block v =? 0 then None else Some (n / per_block v));
  n ← checked_u 128 (n + 1);
  checked_u 32 n.

(** The body of the loop over the tranches; the state is [issued] and
    [planned]. *)
Definition check_tranche `{GenesisHashes} (cadence : BlockNumber) (unique : gset AccountId)
    (acc : gmap AccountId (BlockNumber * Z) * Balance) (tranche : AllocationTranche)
    : alresult (gmap AccountId (BlockNumber * Z) * Balance) :=
  let '(issued, planned) := acc in
  let v := schedule tranche in
  ensure (bool_decide (recipient tranche ∈ unique)) TrancheUnlistedRecipient;;?
  ensure (negb ((issue_at tranche =? 0) || (starting_block v <? issue_at tranche) ||
                negb (schedule_valid v) || (locked v <? MinVestedTransfer))) TrancheUnusable;;?
  duration <-? ok_or (tranche_duration v) TrancheEndOverflows;;
  ok_or (checked_u 32 (starting_block v + duration)) TrancheEndOverflows;;?
  count <-? match issued !! recipient tranche with
    | Some (previous, count) =>
        ensure (bool_decide (checked_u 32 (previous + cadence) = Some (issue_at tranche))) CadenceInconsistent;;?
        ok_or (checked_u 32 (count + 1)) ScheduleCountOverflows
    | None => Ok 1
    end;;
  ensure (count <=? MAX_VESTING_SCHEDULES) ScheduleCapExceeded;;?
  let issued := <[recipient tranche := (issue_at tranche, count)]> issued in
  planned <-? ok_or (checked_u 128 (planned + locked v)) TrancheTotalOverflows;;
  Ok (issued, planned).

Definition validate `{GenesisHashes} (a : MainnetAllocation) (operational : list AccountId) : alresult Balance :=
  total <-? ok_or (total a) TotalTBD;;
  ensure (Params.EXISTENTIAL_DEPOSIT <=? total) TotalUnusable;;?
  let reserved := reserved_mainnet_accounts in
  ensure (negb (bool_decide (custody a ∈ reserved))) CustodyPlaceholder;;?
  ensure (negb (bool_decide (custody a ∈ operational) || bool_decide (custody a = revive_account))) CustodyNotDedicated;;?
  recipients <-? ok_or (recipients a) RecipientsTBD;;
  let unique : gset AccountId := list_to_set recipients in
  ensure (negb (bool_decide (recipients = []) || negb (bool_decide (size unique = length recipients)) ||
      existsb (fun r => bool_decide (r ∈ reserved) || (r =? custody a) || (r =? revive_account)) recipients)) RecipientsInvalid;;?
  terms <-? ok_or (terms a) TermsTBD;;
  ensure (negb ((cadence_blocks terms =? 0) || bool_decide (length (tranches terms) = 0%nat))) TermsInvalid;;?
  plan <-? rfold (check_tranche (cadence_blocks terms) unique) (∅, 0) (tranches terms);;
  let '(issued, planned) := plan in
  ensure (bool_decide (size issued = size unique)) RecipientOmitted;;?
  residual <-? ok_or (checked_u 128 (total - planned)) TranchesExceedFunding;;
  ensure (negb (negb (residual =? 0) && (residual <? Params.EXISTENTIAL_DEPOSIT))) DustResidual;;?
  Ok total.

(** ** What an accepted plan is *)

(** The tranches of one recipient, in the plan's order. *)
Definition tranches_of (r : AccountId) (l : list AllocationTranche) : list AllocationTranche :=
  filter (fun t => recipient t = r) l.

(** The end block of a schedule, which the vesting pallet computes with its
    rate rounded up. *)
Definition tranche_ok (t : AllocationTranche) : Prop :=
  0 < issue_at t <= starting_block (schedule t) /\
  MinVestedTransfer <= locked (schedule t) /\
  exists duration, tranche_duration (schedule t) = Some duration /\
    locked (schedule t) <= duration * per_block (schedule t) /\
    starting_block (schedule t) + duration < 2 ^ 32.

(** A recipient's tranches are issued one cadence apart, and fit the vesting
    pallet's limit. *)
Definition evenly_issued (cadence : Z) (own : list AllocationTranche) : Prop :=
  zlen own <= MAX_VESTING_SCHEDULES /\
  forall i t t', own !! i = Some t -> own !! S i = Some t' -> issue_at t' = issue_at t + cadence.

Lemma tranche_duration_Some v n :
  tranche_duration v = Some n -> 1 <= locked v /\ 0 <= per_block v -> 0 < per_block v /\ locked v <= n * per_block v /\ in_u 32 n.
Proof.
  unfold tranche_duration. intros Hd [Hl Hp].
  apply bind_Some in Hd as (a & Ha & Hd). unfold checked_u in Ha. case_decide; simplify_eq.
  apply bind_Some in Hd as (q & Hq & Hd). destruct (per_block v =? 0) eqn:Hz; simplify_eq. bool_to_prop.
  apply bind_Some in Hd as (b & Hb & Hn). unfold checked_u in Hb, Hn. repeat case_decide; simplify_eq.
  split_and!; [lia| |done]. pose proof (Z.div_mod (locked v - 1) (per_block v)). pose proof (Z.mod_pos_bound (locked v - 1) (per_block v)). nia.
Qed.

(** What the loop has established about the tranches seen so far. *)
Record plan_inv (cadence : Z) (unique : gset AccountId) (l : list AllocationTranche)
    (acc : gmap AccountId (BlockNumber * Z) * Balance) : Prop := {
  plan_issued : forall r, acc.1 !! r =
    (fun t => (issue_at t, zlen (tranches_of r l))) <$> last (tranches_of r l);
  plan_even : forall r, evenly_issued cadence (tranches_of r l);
  plan_ok : Forall tranche_ok l;
  plan_listed : Forall (fun t => recipient t ∈ unique) l;
  plan_sum : acc.2 = zsum ((fun t => locked (schedule t)) <$> l)
}.

(** Amounts and blocks are of their Rust types. *)
Definition tranche_typed (t : AllocationTranche) : Prop :=
  in_u 128 (locked (schedule t)) /\ in_u 128 (per_block (schedule t)) /\
  in_u 32 (starting_block (schedule t)) /\ in_u 32 (issue_at t).

Lemma tranches_of_snoc r l t :
  tranches_of r (l ++ [t]) = if decide (recipient t = r) then tranches_of r l ++ [t] else tranches_of r l.
Proof.
  unfold tranches_of. rewrite filter_app, filter_cons. case_decide; [done|]. by rewrite app_nil_r.
Qed.

Lemma evenly_issued_snoc cadence own t :
  evenly_issued cadence own -> zlen own + 1 <= MAX_VESTING_SCHEDULES ->
  (forall p, last own = Some p -> issue_at t = issue_at p + cadence) -> evenly_issued cadence (own ++ [t]).
Proof.
  intros [Hlen Hstep] Hcap Hlast. split; [unfold zlen in *; rewrite length_app; simpl; lia|].
  intros i a b Ha Hb. destruct (decide (S i < length own)%nat).
  - rewrite lookup_app_l in Ha, Hb by lia. eauto.
  - assert (S i = length own) as Hi.
    { apply lookup_lt_Some in Hb. rewrite length_app in Hb. simpl in Hb. lia. }
    rewrite lookup_app_r, Hi, Nat.sub_diag in Hb by lia. injection Hb as <-.
    rewrite lookup_app_l in Ha by lia. apply Hlast. rewrite last_lookup. rewrite <- Hi. done.
Qed.

Section Plan.
Context `{GenesisHashes} (cadence : Z) (unique : gset AccountId).

Lemma check_tranche_Ok issued planned t acc :
  check_tranche cadence unique (issued, planned) t = Ok acc ->
  exists duration count,
    recipient t ∈ unique /\ issue_at t <> 0 /\ issue_at t <= starting_block (schedule t) /\
    MinVestedTransfer <= locked (schedule t) /\ tranche_duration (schedule t) = Some duration /\
    in_u 32 (starting_block (schedule t) + duration) /\
    match issued !! recipient t with
    | Some (previous, n) => issue_at t = previous + cadence /\ count = n + 1
    | None => count = 1
    end /\
    count <= MAX_VESTING_SCHEDULES /\
    acc = (<[recipient t := (issue_at t, count)]> issued, planned + locked (schedule t)).
Proof.
  unfold check_tranche. intros Hok. rinv. bool_to_prop.
  match goal with Hd : tranche_duration _ = Some ?d, Hm : match issued !! _ with _ => _ end = Ok ?c |- _ =>
    exists d, c; rename Hm into Hcount end.
  unfold checked_u in *. repeat case_decide; simplify_eq. split_and!; try done.
  destruct (issued !! recipient t) as [[previous n]|]; rinv; bool_to_prop; repeat case_decide; by simplify_eq.
Qed.

Lemma check_tranche_ok t issued planned acc :
  tranche_typed t -> check_tranche cadence unique (issued, planned) t = Ok acc -> tranche_ok t /\ recipient t ∈ unique.
Proof.
  intros (Hl & Hp & Hs & Hi) (d & c & Hin & H0 & Hst & Hmin & Hd & Hend & _)%check_tranche_Ok.
  split; [|done]. assert (MinVestedTransfer = 100000000000) as Hm by reflexivity. unfold in_u in *.
  split; [lia|]. split; [lia|]. exists d. split; [done|].
  apply tranche_duration_Some in Hd as (_ & Hd & _); [|lia]. split; [done|lia].
Qed.

(** One more tranche keeps the invariant. *)
Lemma check_tranche_inv l t acc acc' :
  tranche_typed t -> plan_inv cadence unique l acc -> check_tranche cadence unique acc t = Ok acc' ->
  plan_inv cadence unique (l ++ [t]) acc'.
Proof.
  destruct acc as [issued planned]. intros Htyped [Hissued Heven Hokl Hlisted Hsum] Hok.
  destruct (check_tranche_ok t _ _ _ Htyped Hok) as [Ht Hin].
  apply check_tranche_Ok in Hok as (d & c & _ & _ & _ & _ & _ & _ & Hc & Hcap & ->). simpl in *.
  assert (c = zlen (tranches_of (recipient t) l) + 1 /\
    forall p, last (tranches_of (recipient t) l) = Some p -> issue_at t = issue_at p + cadence) as [Hc1 Hlast].
  { rewrite Hissued in Hc. destruct (last (tranches_of (recipient t) l)) as [p|] eqn:Hl; simpl in Hc.
    - destruct Hc as [Hi ->]. split; [done|]. by intros ? [= <-].
    - apply last_None in Hl. rewrite Hl. by subst. }
  split.
  - intros r. simpl. rewrite tranches_of_snoc. case_decide as Hr; [subst r|by rewrite lookup_insert_ne].
    rewrite lookup_insert_eq, last_snoc. simpl. do 2 f_equal. unfold zlen in *. rewrite length_app. simpl. lia.
  - intros r. rewrite tranches_of_snoc. case_decide as Hr; [subst r|apply Heven].
    apply evenly_issued_snoc; [apply Heven|lia|done].
  - apply Forall_app; auto.
  - apply Forall_app; auto.
  - rewrite fmap_app, zsum_app, <- Hsum. unfold zsum. simpl. lia.
Qed.

Lemma check_tranches_inv l acc :
  Forall tranche_typed l -> rfold (check_tranche cadence unique) (∅, 0) l = Ok acc -> plan_inv cadence unique l acc.
Proof.
  revert acc; induction l as [|t l IH] using rev_ind; intros acc Hty.
  - intros [= <-]. split; done.
  - apply Forall_app in Hty as [Hty Ht]. rewrite Forall_singleton in Ht. rewrite rfold_app.
    intros (acc1 & H1 & H2)%rbind_Ok_inv. cbn [rfold] in H2. apply rbind_Ok_inv in H2 as (acc2 & H2 & [= <-]).
    apply (check_tranche_inv l t acc1); [exact Ht|apply IH; [exact Hty|exact H1]|exact H2].
Qed.
End Plan.

(** [collect::<BTreeSet<_>>().len()] tells whether a list repeats itself. *)
Lemma list_to_set_size_le (l : list AccountId) : (size (list_to_set l : gset AccountId) <= length l)%nat.
Proof.
  induction l as [|x l IH]; csimpl; [done|]. rewrite size_union_alt, size_singleton.
  assert (size ((list_to_set l : gset AccountId) ∖ {[x]}) <= size (list_to_set l : gset AccountId))%nat
    by (apply subseteq_size; set_solver). lia.
Qed.

Lemma list_to_set_NoDup (l : list AccountId) : size (list_to_set l : gset AccountId) = length l <-> NoDup l.
Proof.
  split; [|by apply size_list_to_set]. induction l as [|x l IH]; csimpl; [constructor|]. intros Hs.
  pose proof (list_to_set_size_le l) as Hle. destruct (decide (x ∈ l)) as [Hin|Hno].
  - assert ({[x]} ∪ list_to_set l = (list_to_set l : gset AccountId)) as Heq by set_solver. rewrite Heq in Hs. lia.
  - rewrite size_union, size_singleton in Hs by set_solver. constructor; [done|]. apply IH. lia.
Qed.

(** An accepted plan: distinct recipients apart from custody, every recipient
    has tranches at the cadence and every tranche is usable, and the amounts add
    up to at most the funding, leaving nothing or a usable rest. *)
Lemma validate_sound `{GenesisHashes} a operational total' rs tm :
  validate a operational = Ok total' -> recipients a = Some rs -> terms a = Some tm ->
  Forall tranche_typed (tranches tm) ->
  total a = Some total' /\ Params.EXISTENTIAL_DEPOSIT <= total' /\
  (custody a ∉ reserved_mainnet_accounts /\ custody a ∉ operational /\ custody a <> revive_account) /\
  (NoDup rs /\ rs <> [] /\ forall r, r ∈ rs -> r ∉ reserved_mainnet_accounts /\ r <> custody a /\ r <> revive_account) /\
  (forall r, r ∈ rs <-> tranches_of r (tranches tm) <> []) /\
  (forall r, evenly_issued (cadence_blocks tm) (tranches_of r (tranches tm))) /\
  Forall tranche_ok (tranches tm) /\
  let planned := zsum ((fun t => locked (schedule t)) <$> tranches tm) in
  planned <= total' /\ (planned = total' \/ Params.EXISTENTIAL_DEPOSIT <= total' - planned).
Proof.
  unfold validate. intros Hok Hrs Htm Hty. rewrite Hrs, Htm in Hok.
  destruct (total a) as [tot|]; [|done]. cbn [ok_or rbind] in Hok. cbn zeta in Hok.
  repeat (apply rbind_Ok_inv in Hok as (? & ?%ensure_Ok & Hok)). cbn [ok_or rbind] in Hok.
  repeat (apply rbind_Ok_inv in Hok as (? & ?%ensure_Ok & Hok)).
  apply rbind_Ok_inv in Hok as ([issued planned] & Hplan & Hok).
  apply rbind_Ok_inv in Hok as (? & Hsize%ensure_Ok & Hok).
  apply rbind_Ok_inv in Hok as (residual & Hres & Hok).
  apply rbind_Ok_inv in Hok as (? & Hdust%ensure_Ok & [= <-]).
  apply check_tranches_inv in Hplan as [Hissued Heven Htr Hlisted Hsum]; [|done]. simpl in Hissued, Hsum. subst planned.
  bool_to_prop. assert (dom issued = list_to_set rs) as Hdom.
  { apply set_subseteq_size_eq; [|rewrite size_dom; lia]. intros r (t & Ht)%elem_of_dom. rewrite Hissued in Ht.
    apply fmap_Some in Ht as (tr & Hl & _). apply last_Some_elem_of, list_elem_of_filter in Hl as [<- Hin].
    rewrite Forall_forall in Hlisted. by apply Hlisted. }
  unfold checked_u in Hres. case_decide as Hrange; [|done]. injection Hres as <-. unfold in_u in Hrange.
  split_and!; try done.
  - by apply list_to_set_NoDup.
  - intros r Hr. match goal with Hx : existsb _ rs = false |- _ => rename Hx into Hbad end.
    assert (forall r, r ∈ rs -> bool_decide (r ∈ reserved_mainnet_accounts) || (r =? custody a) || (r =? revive_account) = false) as Hall.
    { intros r' Hr'. destruct (_ || _) eqn:E; [|done]. rewrite <- Hbad. symmetry. apply existsb_exists.
      exists r'. split; [by apply list_elem_of_In|done]. }
    specialize (Hall r Hr). bool_to_prop. done.
  - intros r. rewrite <- (elem_of_list_to_set (C := gset AccountId)), <- Hdom, elem_of_dom, Hissued, fmap_is_Some.
    rewrite last_is_Some. done.
  - lia.
  - rewrite ?negb_true_iff in Hdust. apply andb_false_iff in Hdust as [Hd|Hd]; bool_to_prop; [left; lia|right; lia].
Qed.
