(* ===== verification/RuntimeWeights.v ===== *)
(** * Weights the runtime gives to calls of the SDK's pallets

    The measured table of [runtime/src/weights/pallet_vesting.rs], and the
    weights of equivocation reports of [runtime/src/configs/slashing.rs]: the
    SDK's, which are parameters, and the guard's reads on top. *)

From S2P Require Import Prelude Frame RuntimeParams Weights MainnetAllocation.

(** ** Vesting *)

(** Its calls, as functions of the number of locks and of schedules. *)
Module Vesting.
Section Table.
Context `{DbWeight}.
#[local] Open Scope weight_scope.

Definition vest_locked (l s : Z) : Weight :=
  from_parts 40070743 0 + from_parts 0 4764 + from_parts 45274 0 * l + from_parts 35561 0 * s + reads 3 + writes 2.
Definition vest_unlocked (l s : Z) : Weight :=
  from_parts 43015043 0 + from_parts 0 4764 + from_parts 36134 0 * l + from_parts 21945 0 * s + reads 3 + writes 2.
Definition vest_other_locked (l s : Z) : Weight :=
  from_parts 43299067 0 + from_parts 0 4764 + from_parts 49174 0 * l + from_parts 39884 0 * s + reads 4 + writes 3.
Definition vest_other_unlocked (l s : Z) : Weight :=
  from_parts 46274742 0 + from_parts 0 4764 + from_parts 39149 0 * l + from_parts 23052 0 * s + reads 4 + writes 3.
Definition vested_transfer (l s : Z) : Weight :=
  from_parts 91901638 0 + from_parts 0 4764 + from_parts 52762 0 * l + from_parts 59816 0 * s + reads 4 + writes 3.
Definition force_vested_transfer (l s : Z) : Weight :=
  from_parts 93864326 0 + from_parts 0 6196 + from_parts 49890 0 * l + from_parts 65299 0 * s + reads 5 + writes 4.
Definition not_unlocking_merge_schedules (l s : Z) : Weight :=
  from_parts 40586311 0 + from_parts 0 4764 + from_parts 49225 0 * l + from_parts 36683 0 * s + reads 3 + writes 2.
Definition unlocking_merge_schedules (l s : Z) : Weight :=
  from_parts 43960350 0 + from_parts 0 4764 + from_parts 43907 0 * l + from_parts 33726 0 * s + reads 3 + writes 2.
Definition force_remove_vesting_schedule (l s : Z) : Weight :=
  from_parts 47263608 0 + from_parts 0 4764 + from_parts 50230 0 * l + from_parts 32829 0 * s + reads 4 + writes 3.

(** The table, in the order of the file. *)
Definition table : list (Z -> Z -> Weight) :=
  [vest_locked; vest_unlocked; vest_other_locked; vest_other_unlocked; vested_transfer; force_vested_transfer; not_unlocking_merge_schedules; unlocking_merge_schedules; force_remove_vesting_schedule].

(** The configured number of locks an account may have. *)
Definition MaxLocks : Z := 50.

Context `{!DbWeightLaws}.

(** No call costs more than seven tenths of a millisecond, whatever an account
    may hold. *)
Lemma table_fits f l s :
  f ∈ table -> 0 <= l <= MaxLocks -> 0 <= s <= MAX_VESTING_SCHEDULES -> fits 700000000 6196 (f l s).
Proof.
  unfold table. intros Hf Hl Hs. rewrite !elem_of_cons in Hf.
  assert (forall t p kl ks r w, 0 <= t -> 0 <= p <= 6196 -> 0 <= kl -> 0 <= ks -> 0 <= r -> 0 <= w ->
    t + kl * MaxLocks + ks * MAX_VESTING_SCHEDULES + 25000000 * r + 100000000 * w <= 700000000 ->
    fits 700000000 6196 (from_parts t 0 + from_parts 0 p + from_parts kl 0 * l + from_parts ks 0 * s + reads r + writes w)) as Hlin.
  { intros t p kl ks r w Ht Hp Hkl Hks Hr Hw Hsum.
    assert (fits (t + 0 + kl * MaxLocks + ks * MAX_VESTING_SCHEDULES + 25000000 * r + 100000000 * w) (0 + p + 0 * MaxLocks + 0 * MAX_VESTING_SCHEDULES + 0 + 0)
      (from_parts t 0 + from_parts 0 p + from_parts kl 0 * l + from_parts ks 0 * s + reads r + writes w)) as [? ?] by eauto 30 with weigh.
    split; lia. }
  repeat destruct Hf as [->|Hf]; try (apply Hlin; vm_compute; try split; congruence). by apply not_elem_of_nil in Hf.
Qed.
End Table.
End Vesting.

(** ** Equivocation reports *)

(** [EquivocationWeights], over the SDK's weights of the two pallets. *)
Module Equivocation.
Section Reports.
Context `{DbWeight} (plan_config_change_sdk note_stalled_sdk : Weight) (report_sdk : Z -> Z -> Weight).
#[local] Open Scope weight_scope.

Definition bucket_guard_weight : Weight := from_parts 10000000 10000 + reads 3.
Definition plan_config_change : Weight := plan_config_change_sdk.
Definition note_stalled : Weight := note_stalled_sdk.
Definition report_equivocation (validators nominators : Z) : Weight := report_sdk validators nominators + bucket_guard_weight.

(** A report is charged for the guard's three reads on top of what the SDK
    charges. *)
Lemma report_pays_guard validators nominators :
  weight_ok (report_sdk validators nominators) ->
  (report_sdk validators nominators ≤ report_equivocation validators nominators) /\
  (reads 3 ≤ report_equivocation validators nominators).
Proof.
  intros Hok. assert (weight_ok bucket_guard_weight) as Hg by apply weight_add_ok. split.
  - by apply weight_le_add_r.
  - destruct Hok as [[] []], Hg as [[] []]. unfold report_equivocation, bucket_guard_weight, reads in *. split; cbn in *; unfold sat_u in *; lia.
Qed.
End Reports.
End Equivocation.
