(* ===== verification/Faucet.v ===== *)
(** * The faucet pallet and the EVM chain id

    Models [pallets/faucet-ops/src/lib.rs] over the emission controller it is
    wired to, and [pallets/evm-chain-id/src/lib.rs]. *)

From S2P Require Import Prelude Frame Emission.

(** ** [faucet-ops] *)

Inductive FaucetState := FaucetEnabled | PermanentlyDisabled | Paused.
#[global] Instance FaucetState_eq_dec : EqDecision FaucetState.
Proof. solve_decision. Defined.

Inductive FaucetError := FaucetZeroAmount | FaucetDepositFailed | Disabled | EmissionFailed (e : EmissionError).
#[global] Instance FaucetError_eq_dec : EqDecision FaucetError.
Proof. solve_decision. Defined.

Inductive FaucetEvent :=
  | Minted (who : AccountId) (amount : Balance)
  | FuseBlown
  | AuthorityChanged (authority : option AccountId).

Abbreviation fresult := (result (DispatchError FaucetError)).

Definition lift_emission_error (e : DispatchError EmissionError) : DispatchError FaucetError :=
  match e with
  | BadOrigin => BadOrigin
  | CurrencyError => CurrencyError
  | Module e => Module (EmissionFailed e)
  end.

Section Faucet.
Context {W : Type} `{Currency W, Issuance W}.
(** [AuthorityOrigin], and the governance half of [MintOrigin]. *)
Context (foundation : Origin -> bool).

Record Faucet := mkFaucet {
  State : FaucetState;
  Authority : option AccountId;
  storage_version : Z;
  emissions : @EmissionState W;
  faucet_events : list FaucetEvent
}.
#[export] Instance Faucet_expansion : Expansion Faucet := fun r =>
  mkFaucet (State r) (Authority r) (storage_version r) (emissions r) (faucet_events r).
Implicit Types f : Faucet.

Definition emit (e : FaucetEvent) f : Faucet := f <| faucet_events $= (.++ [e]) |>.

(** [EnsureFaucetAuthority::try_origin] *)
Definition ensure_faucet_authority (o : Origin) f : option AccountId :=
  match o with
  | Signed who => if bool_decide (Authority f = Some who) then Some who else None
  | _ => None
  end.

(** [MintOrigin]: the authority, or the Foundation. *)
Definition mint_origin (o : Origin) f : bool :=
  bool_decide (is_Some (ensure_faucet_authority o f)) || foundation o.

(** [GenesisConfig::build] *)
Definition faucet_genesis (state : FaucetState) (authority : option AccountId) f : fresult Faucet :=
  if negb (bool_decide (state = FaucetEnabled)) || bool_decide (is_Some authority)
  then Ok (f <| State := state |> <| Authority := authority |>) else Panic.

(** [on_runtime_upgrade]; [stored] tells whether the state key exists. *)
Definition faucet_runtime_upgrade (stored : bool) f : Faucet :=
  if storage_version f <? 1 then
    let f := if stored && bool_decide (State f = PermanentlyDisabled) then f else f <| State := Paused |> in
    f <| Authority := None |> <| storage_version := 1 |>
  else f.

Definition mint (origin : Origin) (who : AccountId) (amount : Balance) f : fresult Faucet :=
  ensure_origin (fun o => mint_origin o f) origin;;?
  require (bool_decide (State f = FaucetEnabled)) Disabled;;?
  require (negb (amount =? 0)) FaucetZeroAmount;;?
  e <-? rmap_err lift_emission_error (mint_faucet who amount (emissions f));;
  Ok (emit (Minted who amount) (f <| emissions := e |>)).

Definition set_authority (origin : Origin) (authority : option AccountId) f : fresult Faucet :=
  ensure_origin foundation origin;;?
  Ok (emit (AuthorityChanged authority) (f <| Authority := authority |>)).

Definition disable (origin : Origin) f : fresult Faucet :=
  ensure_origin (fun o => mint_origin o f) origin;;?
  require (bool_decide (State f = FaucetEnabled)) Disabled;;?
  Ok (emit FuseBlown (f <| State := PermanentlyDisabled |>)).

(** ** The fuse and the budget *)

Inductive faucet_step : Faucet -> Faucet -> Prop :=
  | fs_mint o who amount f f' : mint o who amount f = Ok f' -> faucet_step f f'
  | fs_authority o a f f' : set_authority o a f = Ok f' -> faucet_step f f'
  | fs_disable o f f' : disable o f = Ok f' -> faucet_step f f'
  | fs_upgrade f : faucet_step f (faucet_runtime_upgrade true f).

(** Once the faucet is not enabled, no sequence of calls and upgrades mints
    anything or enables it again; and the budget is never exceeded. *)
Lemma faucet_fuse f f' :
  rtc faucet_step f f' -> State f <> FaucetEnabled ->
  State f' <> FaucetEnabled /\ emissions f' = emissions f /\
  (State f = PermanentlyDisabled -> State f' = PermanentlyDisabled).
Proof.
  induction 1 as [f|f g f' Hstep _ IH]; intros Hne; [done|].
  assert (State g <> FaucetEnabled /\ emissions g = emissions f /\
    (State f = PermanentlyDisabled -> State g = PermanentlyDisabled)) as (Hg & He & Hp).
  { destruct Hstep as [o who amount f g Hok|o a f g Hok|o f g Hok|f].
    - unfold mint in Hok. hinv. done.
    - unfold set_authority in Hok. hinv. done.
    - unfold disable in Hok. hinv. done.
    - unfold faucet_runtime_upgrade. case_match; [|done]. simpl. case_bool_decide; simpl; [done|]. split_and!; done. }
  destruct (IH Hg) as (H1' & H2' & H3'). split_and!; [done|congruence|auto].
Qed.

Lemma faucet_budget `{!IssuanceLaws W} f f' :
  rtc faucet_step f f' -> FaucetIssued (emissions f) <= FaucetBudget (emissions f) ->
  FaucetIssued (emissions f') <= FaucetBudget (emissions f') /\
  FaucetBudget (emissions f') = FaucetBudget (emissions f) /\ off_books (emissions f') = off_books (emissions f).
Proof.
  induction 1 as [f|f g f' Hstep _ IH]; intros Hb; [done|].
  assert (FaucetIssued (emissions g) <= FaucetBudget (emissions g) /\
    FaucetBudget (emissions g) = FaucetBudget (emissions f) /\ off_books (emissions g) = off_books (emissions f)) as (Hg & Hbg & Hog).
  { destruct Hstep as [o who amount f g Hok|o a f g Hok|o f g Hok|f].
    - unfold mint in Hok. hinv.
      match goal with Hm : mint_faucet _ _ _ = Ok _ |- _ => apply mint_faucet_budget in Hm as (_ & _ & ? & ? & ? & _) end. done.
    - unfold set_authority in Hok. hinv. done.
    - unfold disable in Hok. hinv. done.
    - unfold faucet_runtime_upgrade. repeat case_match; done. }
  destruct (IH Hg) as (H1' & H2' & H3'). split_and!; [done|congruence|].
  by rewrite H3'.
Qed.
End Faucet.

(** ** [evm-chain-id] *)

Definition TESTNET_CHAIN_ID : Z := 20033.
Definition LOCAL_CHAIN_ID : Z := 1337.

(** [Eip155ChainId::get] with its default for a missing key. *)
Definition chain_id_get (stored : option Z) : Z := default TESTNET_CHAIN_ID stored.

Definition chain_id_genesis (chain_id : Z) : fresult (option Z) :=
  if 0 <? chain_id then Ok (Some chain_id) else Panic.
