(* ===== verification/SlashPolicy.v ===== *)
(** * The slash policy pallet

    Models [pallets/slash-policy/src/lib.rs]: discretionary slashes within a
    rolling per-stash budget.  The staking pallet is outside this repository:
    its eras, exposures and slash queue are parameters. *)

From S2P Require Import Prelude Frame.

(** Fractions are parts of a billion. *)
Definition MIN_PER_MOTION : Z := 1000000.
Definition MAX_PER_MOTION : Z := 50000000.
Definition MIN_CUMULATIVE : Z := 10000000.
Definition MAX_CUMULATIVE : Z := 100000000.
Definition DEFAULT_PER_MOTION : Z := 10000000.
Definition DEFAULT_CUMULATIVE : Z := 40000000.

Inductive SlashError :=
  | NoActiveEra | InvalidEra | NoExposure | InvalidFraction | InvalidWindow | BudgetExceeded
  | HistoryFull | NoSlashScheduled | ArithmeticOverflow | StakingError.
#[global] Instance SlashError_eq_dec : EqDecision SlashError.
Proof. solve_decision. Defined.

Inductive SlashEvent :=
  | SlashScheduled (stash : AccountId) (offence_era apply_era fraction remaining_budget : Z)
  | LimitsSet (per_motion cumulative window : Z).

Abbreviation sresult := (result (DispatchError SlashError)).

(** [BondingDuration], [MaxBudgetWindow], [SlashDeferDuration] *)
Record SlashConfig := mkSlashConfig { BondingDuration : Z; MaxBudgetWindow : Z; SlashDeferDuration : Z }.

(** [pallet_staking] over its storage. *)
Class StakingOps (S : Type) := {
  active_era : S -> option Z;
  (** [ErasStakersOverview::get(era, stash)], its total *)
  exposure_total : S -> Z -> AccountId -> option Balance;
  (** [UnappliedSlashes::decode_len(era)] *)
  unapplied_len : S -> Z -> option nat;
  (** [UnappliedSlashes::get(era)]: whether an entry slashes anything *)
  unapplied : S -> Z -> list bool;
  manual_slash : S -> AccountId -> Z -> Z -> option S
}.

(** [manual_slash] schedules a slash; it does not move the active era. *)
Class StakingLaws (S : Type) `{StakingOps S} :=
  manual_slash_era : forall st st' who era fraction,
    manual_slash st who era fraction = Some st' -> active_era st' = active_era st.

Section Slash.
Context `{SpArithmetic} {S : Type} `{StakingOps S}.
Context (cfg : SlashConfig) (council : Origin -> bool).

Record SlashState := mkSlashState {
  MaxDiscretionarySlashPerMotion : Z;
  MaxDiscretionarySlashCumulative : Z;
  BudgetWindow : Z;
  SlashHistory : gmap AccountId (list (Z * Z));
  staking : S;
  events : list SlashEvent
}.
#[export] Instance SlashState_expansion : Expansion SlashState := fun r =>
  mkSlashState (MaxDiscretionarySlashPerMotion r) (MaxDiscretionarySlashCumulative r) (BudgetWindow r)
    (SlashHistory r) (staking r) (events r).
Implicit Types s : SlashState.

Definition history_of (stash : AccountId) s : list (Z * Z) := default [] (SlashHistory s !! stash).

Definition check_fractions (per_motion cumulative : Z) : sresult unit :=
  require ((MIN_PER_MOTION <=? per_motion) && (per_motion <=? MAX_PER_MOTION) &&
           (MIN_CUMULATIVE <=? cumulative) && (cumulative <=? MAX_CUMULATIVE) &&
           (per_motion <=? cumulative)) InvalidFraction.

(** [try_fold(fraction, checked_add)] *)
Definition charge (fraction : Z) (used : list Z) : option Z :=
  foldl (fun sum u => match sum with Some sum => checked_u 32 (sum + u) | None => None end)
    (Some fraction) used.

(** [iter_mut().find(|(when, _)| *when == active)]: [Perbill::saturating_add] on
    the first entry of the era *)
Fixpoint add_to_era (active fraction : Z) (history : list (Z * Z)) : option (list (Z * Z)) :=
  match history with
  | [] => None
  | (when_, used) :: rest =>
      if when_ =? active then Some ((when_, perbill_add used fraction) :: rest)
      else ((when_, used) ::.) <$> add_to_era active fraction rest
  end.

Definition record_motion (active fraction : Z) (history : list (Z * Z)) : sresult (list (Z * Z)) :=
  match add_to_era active fraction history with
  | Some history => Ok history
  | None =>
      require (zlen history <? MaxBudgetWindow cfg) HistoryFull;;?
      Ok (history ++ [(active, fraction)])
  end.

Definition discretionary_slash (origin : Origin) (stash : AccountId) (era fraction : Z) s
    : sresult SlashState :=
  ensure_origin council origin;;?
  active <-? some_or (active_era (staking s)) NoActiveEra;;
  require ((era <=? active) && (sat_u 32 (active - SlashDeferDuration cfg) <=? era)) InvalidEra;;?
  exposure <-? some_or (exposure_total (staking s) era stash) NoExposure;;
  require (negb (exposure =? 0)) NoExposure;;?
  let per_motion := MaxDiscretionarySlashPerMotion s in
  let cumulative := MaxDiscretionarySlashCumulative s in
  check_fractions per_motion cumulative;;?
  require (negb (fraction =? 0) && (fraction <=? per_motion)) InvalidFraction;;?
  let window := BudgetWindow s in
  require ((BondingDuration cfg <=? window) && (window <=? MaxBudgetWindow cfg)) InvalidWindow;;?
  let retained_from := sat_u 32 (active - sat_u 32 (MaxBudgetWindow cfg - 1)) in
  let history := filter (fun e => retained_from <= e.1) (history_of stash s) in
  let budget_from := sat_u 32 (active - sat_u 32 (window - 1)) in
  charged <-? some_or (charge fraction (filter (fun e => budget_from <= e.1) history).*2) BudgetExceeded;;
  require (charged <=? cumulative) BudgetExceeded;;?
  history <-? record_motion active fraction history;;
  apply_era <-? some_or (checked_u 32 (era + SlashDeferDuration cfg) ≫= fun e => checked_u 32 (e + 1))
    ArithmeticOverflow;;
  let before := default 0%nat (unapplied_len (staking s) apply_era) in
  staking' <-? some_or (manual_slash (staking s) stash era fraction) StakingError;;
  require (bool_decide (unapplied staking' apply_era !! before = Some true)) NoSlashScheduled;;?
  let s := s <| staking := staking' |> in
  let s := s <| SlashHistory $= <[stash := history]> |> in
  Ok (s <| events $= (.++ [SlashScheduled stash era apply_era fraction (sat_u 32 (cumulative - charged))]) |>).

Definition set_limits (origin : Origin) (per_motion cumulative window : Z) s : sresult SlashState :=
  ensure_origin council origin;;?
  check_fractions per_motion cumulative;;?
  require ((BondingDuration cfg <=? window) && (window <=? MaxBudgetWindow cfg)) InvalidWindow;;?
  let s := s <| MaxDiscretionarySlashPerMotion := per_motion |>
             <| MaxDiscretionarySlashCumulative := cumulative |> <| BudgetWindow := window |> in
  Ok (s <| events $= (.++ [LimitsSet per_motion cumulative window]) |>).

(** ** The rolling budget *)

(** What the council has charged a stash in the eras from [from] on. *)
Definition charged_from (from : Z) (history : list (Z * Z)) : Z :=
  zsum (filter (fun e => from <= e.1) history).*2.

(** A history has one entry per era, none in the future, within the widest
    window, with fractions of at most one. *)
Record history_ok (active : Z) (history : list (Z * Z)) : Prop := {
  ho_distinct : NoDup history.*1;
  ho_eras : Forall (fun e => 0 <= e.1 <= active) history;
  ho_fractions : Forall (fun e => 0 <= e.2) history
}.

#[local] Lemma charge_Some fraction used c :
  0 <= fraction -> Forall (fun u => 0 <= u) used -> charge fraction used = Some c -> c = fraction + zsum used.
Proof.
  intros Hf Hu. unfold charge. revert fraction Hf. induction Hu as [|u used Hu _ IH]; intros fraction Hf; simpl.
  { intros [= <-]. unfold zsum. simpl. lia. }
  destruct (checked_u 32 (fraction + u)) as [x|] eqn:Hx.
  - apply checked_u_Some in Hx as [-> _]. intros ->%IH; [|lia]. unfold zsum. simpl. lia.
  - assert (forall l, foldl (fun sum u => match sum with Some sum => checked_u 32 (sum + u) | None => None end) None l = None)
      as -> by (by induction l). done.
Qed.

#[local] Lemma add_to_era_None active f h : add_to_era active f h = None -> active ∉ h.*1.
Proof.
  induction h as [|[w u] h IH]; csimpl; [set_solver|]. case_match eqn:Hw; [done|]. bool_to_prop.
  destruct (add_to_era active f h); [done|]. intros _. apply not_elem_of_cons. split; [done|by apply IH].
Qed.

#[local] Lemma add_to_era_Some `{!SpArithmeticLaws} active f h h' :
  0 <= f -> Forall (fun e => 0 <= e.2) h -> Forall (fun e => e.1 = active -> e.2 + f <= BILLION) h ->
  add_to_era active f h = Some h' ->
  h'.*1 = h.*1 /\ (forall from, from <= active -> charged_from from h' = charged_from from h + f) /\
  Forall (fun e => 0 <= e.2) h'.
Proof.
  intros Hf Hnn. revert h'. induction Hnn as [|[w u] h Hu Hnn IH]; intros h' Hcap; csimpl; [done|]. simpl in Hu.
  apply Forall_cons in Hcap as [Hc Hcap]. simpl in Hc.
  destruct (w =? active) eqn:Hw; bool_to_prop.
  - intros [= <-]. subst w. specialize (Hc eq_refl). rewrite perbill_add_spec by done. split_and!; [done| |constructor; [simpl; lia|done]].
    intros from Hfrom. unfold charged_from, zsum. rewrite !filter_cons_True by (simpl; lia). csimpl. lia.
  - destruct (add_to_era active f h) as [h1|] eqn:Ha; [|done]. intros [= <-].
    destruct (IH h1 Hcap eq_refl) as (E1 & E2 & E3). split_and!; [csimpl; by rewrite E1| |by constructor].
    intros from Hfrom. specialize (E2 from Hfrom). unfold charged_from, zsum in *. rewrite !filter_cons.
    case_decide; csimpl; lia.
Qed.

#[local] Lemma charged_from_filter from r h : r <= from -> charged_from from (filter (fun e => r <= e.1) h) = charged_from from h.
Proof.
  intros Hr. unfold charged_from. do 2 f_equal. rewrite list_filter_filter. apply list_filter_iff. intros e. lia.
Qed.

#[local] Lemma charged_from_nonneg from h : Forall (fun e => 0 <= e.2) h -> 0 <= charged_from from h.
Proof.
  intros Hnn. apply zsum_nonneg, Forall_fmap, Forall_forall. intros e [_ He]%list_elem_of_filter.
  rewrite Forall_forall in Hnn. by apply Hnn.
Qed.

(** An entry of the window is part of what was charged. *)
#[local] Lemma charged_from_entry from h e :
  Forall (fun e => 0 <= e.2) h -> e ∈ h -> from <= e.1 -> e.2 <= charged_from from h.
Proof.
  intros Hnn. induction Hnn as [|x h Hx Hnn IH]; [by intros ?%not_elem_of_nil|].
  pose proof (charged_from_nonneg from h Hnn) as Hp. intros [<-|Hin]%elem_of_cons Hfrom.
  - unfold charged_from, zsum in *. rewrite filter_cons_True by done. csimpl. lia.
  - specialize (IH Hin Hfrom). unfold charged_from, zsum in *. rewrite filter_cons. case_decide; csimpl; lia.
Qed.

#[local] Lemma eras_count (l : list Z) lo hi :
  NoDup l -> Forall (fun x => lo <= x < hi) l -> lo <= hi -> zlen l <= hi - lo.
Proof.
  intros Hnd Hr Hle. assert (length l <= length (seqZ lo (hi - lo)))%nat as Hlen.
  { apply NoDup_incl_length; [by apply NoDup_ListNoDup|]. intros x Hx%list_elem_of_In. apply list_elem_of_In, elem_of_seqZ.
    rewrite Forall_forall in Hr. specialize (Hr x Hx). lia. }
  rewrite length_seqZ in Hlen. unfold zlen. lia.
Qed.

(** Recording a motion never fails for lack of room, and charges exactly the
    fraction in every window it falls into. *)
Lemma record_motion_total `{!SpArithmeticLaws} active f h r :
  0 <= f -> history_ok active h -> Forall (fun e => r <= e.1) h -> 0 <= r <= active ->
  active - r < MaxBudgetWindow cfg -> Forall (fun e => e.1 = active -> e.2 + f <= BILLION) h ->
  exists h', record_motion active f h = Ok h' /\ history_ok active h' /\
    (forall from, from <= active -> charged_from from h' = charged_from from h + f).
Proof.
  intros Hf [Hd He Hn] Hr Hra HM Hcap. unfold record_motion. destruct (add_to_era active f h) as [h'|] eqn:Ha.
  - apply add_to_era_Some in Ha as (E1 & E2 & E3); [|done..]. exists h'. split_and!; [done| |done].
    split; [by rewrite E1| |done]. apply (Forall_fmap fst (fun x => 0 <= x <= active)). rewrite E1. by apply Forall_fmap.
  - apply add_to_era_None in Ha as Hni.
    assert (zlen h <= active - r) as Hlen.
    { replace (zlen h) with (zlen h.*1) by (unfold zlen; by rewrite length_fmap). apply eras_count; [done| |lia].
      apply Forall_forall. intros x Hx. rewrite Forall_forall in Hr, He. assert (x <> active) by congruence.
      apply list_elem_of_fmap in Hx as (e & -> & Hin). specialize (Hr e Hin). specialize (He e Hin). lia. }
    rewrite (proj2 (Z.ltb_lt _ _)) by lia. simpl. eexists. split_and!; [done| |].
    + split; [|apply Forall_app; split; [done|by constructor; [simpl; lia|]]..].
      rewrite fmap_app. apply NoDup_app. split_and!; [done|set_solver|apply NoDup_singleton].
    + intros from Hfrom. unfold charged_from. rewrite filter_app, fmap_app, zsum_app. f_equal.
      rewrite filter_cons_True by done. unfold zsum. simpl. lia.
Qed.

(** Every stash's history is well formed. *)
Definition histories_ok (active : Z) s : Prop := forall stash, history_ok active (history_of stash s).

(** The first era of the selected window, and of the widest one. *)
Definition budget_from (active : Z) s : Z := sat_u 32 (active - sat_u 32 (BudgetWindow s - 1)).
Definition retained_from (active : Z) : Z := sat_u 32 (active - sat_u 32 (MaxBudgetWindow cfg - 1)).

#[local] Lemma Forall_kept {A} (P Q : A -> Prop) `{!forall x, Decision (P x)} (l : list A) :
  Forall Q l -> Forall Q (filter P l).
Proof. rewrite !Forall_forall. intros Hl x [_ Hx]%list_elem_of_filter. auto. Qed.

#[local] Lemma retained_history active h :
  history_ok active h -> history_ok active (filter (fun e => retained_from active <= e.1) h).
Proof.
  intros [Hd He Hn]. split.
  - eapply sublist_NoDup; [exact Hd|]. apply fmap_sublist, sublist_filter.
  - by apply Forall_kept.
  - by apply Forall_kept.
Qed.

Lemma windows_nested active s :
  in_u 32 active -> 0 < BudgetWindow s <= MaxBudgetWindow cfg -> MaxBudgetWindow cfg < 2 ^ 32 ->
  0 <= retained_from active <= budget_from active s /\ budget_from active s <= active /\
  active - retained_from active < MaxBudgetWindow cfg.
Proof. unfold in_u, retained_from, budget_from, sat_u. lia. Qed.

(** An accepted slash: within the per-motion limit, charged in full to every
    window it falls into (narrow or wide), and the stash stays within the
    cumulative limit, which is never above ten percent. *)
Lemma discretionary_slash_budget `{!SpArithmeticLaws} o stash era fraction s s' active :
  active_era (staking s) = Some active -> in_u 32 active -> 0 <= fraction ->
  0 < BondingDuration cfg -> MaxBudgetWindow cfg < 2 ^ 32 -> histories_ok active s ->
  discretionary_slash o stash era fraction s = Ok s' ->
  histories_ok active s' /\ 0 < fraction <= MaxDiscretionarySlashPerMotion s /\
  MaxDiscretionarySlashPerMotion s <= MAX_PER_MOTION /\
  (forall from, retained_from active <= from <= active ->
     charged_from from (history_of stash s') = charged_from from (history_of stash s) + fraction) /\
  charged_from (budget_from active s) (history_of stash s') <= MaxDiscretionarySlashCumulative s /\
  MaxDiscretionarySlashCumulative s <= MAX_CUMULATIVE /\
  (forall x, x <> stash -> history_of x s' = history_of x s).
Proof.
  intros Hact Hra Hf Hbd HM Hok Hs. unfold discretionary_slash in Hs. rewrite Hact in Hs. cbn [rbind some_or ok_or] in Hs. hinv.
  match goal with Hc : check_fractions _ _ = Ok _ |- _ => unfold check_fractions in Hc; hinv end.
  destruct (windows_nested active s) as (Hr & Hb & HW); [done|lia|done|].
  repeat match goal with Hx : context [sat_u 32 (active - sat_u 32 (MaxBudgetWindow cfg - 1))] |- _ =>
    change (sat_u 32 (active - sat_u 32 (MaxBudgetWindow cfg - 1))) with (retained_from active) in Hx end.
  repeat match goal with Hx : context [sat_u 32 (active - sat_u 32 (BudgetWindow s - 1))] |- _ =>
    change (sat_u 32 (active - sat_u 32 (BudgetWindow s - 1))) with (budget_from active s) in Hx end.
  set (h := filter (fun e => retained_from active <= e.1) (history_of stash s)) in *.
  pose proof (retained_history active _ (Hok stash)) as Hh. fold h in Hh.
  match goal with Hc : charge _ _ = Some ?c |- _ => apply charge_Some in Hc as Hcharge; [|done|] end.
  2: { apply Forall_fmap, Forall_kept. apply Hh. }
  assert (forall from, retained_from active <= from -> charged_from from h = charged_from from (history_of stash s)) as Hsame.
  { intros from Hfrom. by apply charged_from_filter. }
  destruct (record_motion_total active fraction h (retained_from active)) as (h' & Hrec & Hh' & Hch).
  - done.
  - done.
  - apply Forall_forall. intros e [He _]%list_elem_of_filter. done.
  - lia.
  - done.
  - apply Forall_forall. intros e He Hea.
    pose proof (charged_from_entry (budget_from active s) h e (ho_fractions _ _ Hh) He ltac:(lia)) as Hle.
    unfold charged_from in Hle at 1. unfold MAX_CUMULATIVE, BILLION in *. lia.
  - match goal with Hm : record_motion _ _ _ = Ok ?x |- _ => assert (x = h') as -> by congruence end.
    assert (history_of stash (s <| SlashHistory $= <[stash := h']> |>) = h') as Hnew.
    { unfold history_of. simpl. by rewrite lookup_insert_eq. }
    split_and!; try (done || lia).
    + intros x. unfold history_of. simpl. destruct (decide (x = stash)) as [->|Hne]; [by rewrite lookup_insert_eq|].
      rewrite lookup_insert_ne by done. apply Hok.
    + intros from Hfrom. unfold history_of at 1. simpl. rewrite lookup_insert_eq. simpl. rewrite Hch by lia. f_equal.
      apply Hsame. lia.
    + unfold history_of at 1. simpl. rewrite lookup_insert_eq. simpl. rewrite Hch by lia. unfold charged_from. lia.
    + intros x Hx. unfold history_of. simpl. by rewrite lookup_insert_ne.
Qed.

(** ** Runs of the pallet *)

(** Slashes, new limits, and the staking pallet moving on, its era never going
    back. *)
Inductive slash_step : SlashState -> SlashState -> Prop :=
  | ss_slash o stash era fraction s s' :
      0 <= fraction -> discretionary_slash o stash era fraction s = Ok s' -> slash_step s s'
  | ss_limits o per_motion cumulative window s s' :
      set_limits o per_motion cumulative window s = Ok s' -> slash_step s s'
  | ss_staking s st a a' :
      active_era (staking s) = Some a -> active_era st = Some a' -> a <= a' < 2 ^ 32 ->
      slash_step s (s <| staking := st |>).

Definition slash_inv s : Prop :=
  exists active, active_era (staking s) = Some active /\ in_u 32 active /\ histories_ok active s.

#[local] Lemma histories_ok_later a a' s s' :
  a <= a' -> SlashHistory s' = SlashHistory s -> histories_ok a s -> histories_ok a' s'.
Proof.
  intros Ha E Hok stash. unfold history_of. rewrite E. destruct (Hok stash) as [Hd He Hn]. split; [done| |done].
  eapply Forall_impl; [exact He|]. simpl. lia.
Qed.

Lemma slash_step_inv `{!SpArithmeticLaws, !StakingLaws S} s s' :
  0 < BondingDuration cfg -> MaxBudgetWindow cfg < 2 ^ 32 ->
  slash_inv s -> slash_step s s' -> slash_inv s'.
Proof.
  intros Hbd HM (active & Hact & Hr & Hok) Hstep.
  destruct Hstep as [o stash era fraction s s' Hf Hs|o pm cm win s s' Hs|s st a a' Ha Ha' Hle].
  - exists active. pose proof Hs as Hs'. eapply discretionary_slash_budget in Hs' as (Hok' & _); [|done..].
    split_and!; [|done|done]. unfold discretionary_slash in Hs. hinv. simpl.
    match goal with Hm : manual_slash _ _ _ _ = Some _ |- _ => rewrite (manual_slash_era _ _ _ _ _ Hm) end. done.
  - unfold set_limits in Hs. hinv. exists active. split_and!; [done|done|]. by (eapply histories_ok_later; [|done|exact Hok]).
  - exists a'. rewrite Hact in Ha. injection Ha as <-. unfold in_u in *. split_and!; [done|lia|lia|].
    by (eapply histories_ok_later; [|done|exact Hok]; lia).
Qed.

Lemma slash_run_inv `{!SpArithmeticLaws, !StakingLaws S} s s' :
  0 < BondingDuration cfg -> MaxBudgetWindow cfg < 2 ^ 32 ->
  slash_inv s -> rtc slash_step s s' -> slash_inv s'.
Proof. intros Hbd HM Hinv Hrun. induction Hrun; [done|]. apply IHHrun. by eapply slash_step_inv. Qed.
End Slash.
