(* ===== verification/Slashing.v ===== *)
(** * Offence reports: the guard on late reports

    Models the report path of [runtime/src/configs/slashing.rs]
    ([has_pending_slash_bucket], [GuardedReports]) and the equivocation
    preflight of [runtime/src/apis.rs] that shares it.  The reporter behind
    the guard and the consensus pallets' own submission are parameters: they
    are SDK code. *)

From S2P Require Import Prelude Frame RuntimeParams.

(** What the guard reads of [pallet_staking]: the active era's index, the
    first session of each era, and the eras whose exposures are still bonded,
    oldest first. *)
Record StakingEras := mkStakingEras {
  ActiveEra : option Z;
  ErasStartSessionIndex : gmap Z Z;
  BondedEras : list (Z * Z)
}.

(** [eras.iter().rev().find(|(_, start)| *start <= session)] *)
Definition latest_started (session : Z) (eras : list (Z * Z)) : option (Z * Z) :=
  head (filter (fun e : Z * Z => e.2 <= session) (reverse eras)).

Definition has_pending_slash_bucket (st : StakingEras) (session : Z) : bool :=
  match ActiveEra st with
  | None => false
  | Some active =>
      match ErasStartSessionIndex st !! active with
      | None => false
      | Some start =>
          match (if start <=? session then Some active
                 else fst <$> latest_started session (BondedEras st)) with
          | None => false
          | Some era =>
              match checked_u 32 (era + Params.SLASH_DEFER_ERAS) ≫= fun e => checked_u 32 (e + 1) with
              | Some apply_era => active <? apply_era
              | None => false
              end
          end
      end
  end.

Inductive OffenceError := DuplicateReport | OtherOffenceError (code : Z).

(** [GuardedReports]: [W] is the rest of the chain, [O] an offence. *)
Section Guarded.
Context {W O Id TimeSlot : Type} (eras_of : W -> StakingEras) (session_index : O -> Z).
Context (historical_report : list AccountId -> O -> W -> result OffenceError W).
Context (historical_known : list Id -> TimeSlot -> W -> bool).

Definition report_offence (reporters : list AccountId) (offence : O) (w : W) : result OffenceError W :=
  if negb (has_pending_slash_bucket (eras_of w) (session_index offence))
  then Err (OtherOffenceError 0)
  else historical_report reporters offence w.

Definition is_known_offence (offenders : list Id) (time_slot : TimeSlot) (w : W) : bool :=
  historical_known offenders time_slot w.
End Guarded.

(** [submit_report_equivocation_unsigned_extrinsic] of the BABE and of the
    GRANDPA interface: the same preflight before the pallet's submission. *)
Section Preflight.
Context {W Proof Opaque Membership : Type} (eras_of : W -> StakingEras).
Context (decode_proof : Opaque -> option Membership) (proof_session : Membership -> Z).
Context (submit : Proof -> Membership -> W -> option W).

Definition submit_report_equivocation_unsigned_extrinsic
    (equivocation_proof : Proof) (key_owner_proof : Opaque) (w : W) : option W :=
  key_owner_proof ← decode_proof key_owner_proof;
  if negb (has_pending_slash_bucket (eras_of w) (proof_session key_owner_proof)) then None
  else submit equivocation_proof key_owner_proof w.
End Preflight.

(** ** Which era a session belongs to *)

(** The bookkeeping of staking: eras are bonded in order, with increasing
    first sessions, all before the first session of the active era. *)
Record eras_ok (st : StakingEras) (active start : Z) : Prop := {
  eras_active : ActiveEra st = Some active;
  eras_start : ErasStartSessionIndex st !! active = Some start;
  eras_sorted : StronglySorted (fun a b : Z * Z => a.1 < b.1 /\ a.2 < b.2) (BondedEras st);
  eras_bonded : Forall (fun e : Z * Z => 0 <= e.1 <= active) (BondedEras st);
  eras_range : 0 <= active /\ active + Params.SLASH_DEFER_ERAS + 1 < 2 ^ 32
}.

(** Era [e] was running in [session]: it is the active era and has started, or
    it is the last bonded era that had started. *)
Definition era_of_session (st : StakingEras) (active start e session : Z) : Prop :=
  (start <= session /\ e = active) \/
  (session < start /\ exists first, (e, first) ∈ BondedEras st /\ first <= session /\
     forall e' first', (e', first') ∈ BondedEras st -> first' <= session -> e' <= e).

Lemma latest_started_Some session eras e first :
  StronglySorted (fun a b : Z * Z => a.1 < b.1 /\ a.2 < b.2) eras ->
  latest_started session eras = Some (e, first) <->
  (e, first) ∈ eras /\ first <= session /\
  forall e' first', (e', first') ∈ eras -> first' <= session -> e' <= e.
Proof.
  intros Hs. unfold latest_started. induction eras as [|[e0 s0] eras IH] using rev_ind.
  { split; [done|]. intros [?%not_elem_of_nil _]; done. }
  rewrite reverse_app. simpl. rewrite filter_cons.
  assert (Forall (fun a => a.1 < e0 /\ a.2 < s0) eras) as Hlt.
  { apply Forall_forall. intros a Ha. exact (StronglySorted_app_1_elem_of _ eras [(e0, s0)] a (e0, s0) Hs Ha ltac:(set_solver)). }
  rewrite Forall_forall in Hlt. case_decide as Hc; simpl in *.
  - split.
    + intros [= <- <-]. split_and!; [set_solver|done|]. intros e' f' [Hin|[= -> ->]%list_elem_of_singleton]%elem_of_app Hf; [|lia].
      specialize (Hlt _ Hin). simpl in Hlt. lia.
    + intros (Hin & Hf & Hmax). specialize (Hmax e0 s0 ltac:(set_solver) Hc).
      apply elem_of_app in Hin as [Hin|[= -> ->]%list_elem_of_singleton]; [|done].
      specialize (Hlt _ Hin). simpl in Hlt. lia.
  - rewrite IH by (by eapply StronglySorted_app_1_l). split; intros (Hin & Hf & Hmax).
    + split_and!; [set_solver|done|]. intros e' f' [Hin'|[= -> ->]%list_elem_of_singleton]%elem_of_app Hf'; [eauto|lia].
    + apply elem_of_app in Hin as [Hin|[= -> ->]%list_elem_of_singleton]; [|lia].
      split_and!; [done|done|]. intros e' f' Hin' Hf'. apply (Hmax e' f'); [set_solver|done].
Qed.

(** The guard is exact: it accepts a session exactly when it falls into a
    known era whose deferred slash is not yet due. *)
Lemma has_pending_slash_bucket_spec st active start session :
  eras_ok st active start ->
  has_pending_slash_bucket st session = true <->
  exists e, era_of_session st active start e session /\ active <= e + Params.SLASH_DEFER_ERAS.
Proof.
  intros [Ha Hst Hs Hb Hr]. unfold has_pending_slash_bucket. rewrite Ha, Hst.
  assert (forall e, 0 <= e <= active ->
    match checked_u 32 (e + Params.SLASH_DEFER_ERAS) ≫= (fun e => checked_u 32 (e + 1)) with
    | Some apply_era => active <? apply_era | None => false end = true <->
    active <= e + Params.SLASH_DEFER_ERAS) as Hdue.
  { intros e He. unfold Params.SLASH_DEFER_ERAS, checked_u in *.
    rewrite decide_True by (unfold in_u; lia). simpl. rewrite decide_True by (unfold in_u; lia). lia. }
  rewrite Forall_forall in Hb. unfold era_of_session. destruct (start <=? session) eqn:Hle; bool_to_prop.
  - rewrite Hdue by lia. split; [by exists active; auto|].
    intros (e & [[_ ->]|[? _]] & He); [done|lia].
  - destruct (latest_started session (BondedEras st)) as [[e first]|] eqn:Hl; simpl.
    + apply latest_started_Some in Hl as (Hin & Hf & Hmax); [|done].
      pose proof (Hb _ Hin) as He. simpl in He. rewrite Hdue by done. split.
      * intros Hd. exists e. split; [|done]. right. eauto 10.
      * intros (e' & [[? _]|(_ & f' & Hin' & Hf' & Hmax')] & Hd); [lia|].
        specialize (Hmax _ _ Hin' Hf'). specialize (Hmax' _ _ Hin Hf). lia.
    + split; [done|]. intros (e & [[? _]|(_ & f & Hin & Hf & Hmax)] & _); [lia|].
      assert (latest_started session (BondedEras st) = Some (e, f)) by (by apply latest_started_Some). congruence.
Qed.
