(* ===== verification/ElectionData.v ===== *)
(** * The election's data: admitted targets and their voters

    Models [AdmissionData] of [runtime/src/configs/validator_onboarding.rs]:
    the electable targets, the snapshot of voters with its bounded scan of the
    nominators, and the number of winners asked for; and
    [InitializeStakingLimits].  The staking pallet's vote weights and its own
    wish for winners, the SCALE sizes and the election bounds' test on targets
    are parameters. *)

From S2P Require Import Prelude Frame BoundedHeap RuntimeParams.

#[local] Set Warnings "-register-all".

Record Nominations := mkNominations { targets : list AccountId; suppressed : bool }.

(** [DataProviderBounds] *)
Record DataProviderBounds := mkDataProviderBounds { count_bound : option Z; size_bound : option Z }.

(** What the data provider reads.  [Nominators] is in the order in which the
    storage map is iterated. *)
Record ElectionState := mkElectionState {
  Approved : gset AccountId;
  Validators : gset AccountId;
  NextKeys : gset AccountId;
  Nominators : list (AccountId * Nominations)
}.

Inductive ElectionDataError :=
  | OnePageOnly | TargetsExceedBounds | NominationExceedsVoteBound | CountExceedsCap | StakingDataError.
#[global] Instance ElectionDataError_eq_dec : EqDecision ElectionDataError.
Proof. solve_decision. Defined.

Inductive ElectionDataEvent := ElectionVotersTruncated (eligible retained : Z).

(** A voter: the account, its stake and whom it votes for. *)
Abbreviation Voter := (AccountId * Z * list AccountId)%type (only parsing).

(** ** The order of the heap *)

(** [Vec]'s order *)
Fixpoint lex_leb (l k : list Z) : bool :=
  match l, k with
  | [], _ => true
  | _ :: _, [] => false
  | x :: l, y :: k => (x <? y) || ((x =? y) && lex_leb l k)
  end.

(** The order on [(Reverse(stake), nominator, votes)]. *)
Definition ranked_leb (a b : Voter) : bool :=
  let '(who, stake, votes) := a in
  let '(who', stake', votes') := b in
  (stake' <? stake) || ((stake =? stake') && ((who <? who') || ((who =? who') && lex_leb votes votes'))).
Definition ranked (a b : Voter) : Prop := ranked_leb a b = true.

#[export] Instance ranked_dec : RelDecision ranked.
Proof. intros a b. unfold ranked. apply _. Defined.

Lemma lex_leb_total l k : lex_leb l k = true \/ lex_leb k l = true.
Proof.
  revert k; induction l as [|x l IH]; intros [|y k]; simpl; auto.
  destruct (Z.lt_trichotomy x y) as [H|[->|H]].
  - left. by rewrite (proj2 (Z.ltb_lt x y)).
  - rewrite Z.ltb_irrefl, Z.eqb_refl. simpl. apply IH.
  - right. by rewrite (proj2 (Z.ltb_lt y x)).
Qed.

Lemma lex_leb_trans l k m : lex_leb l k = true -> lex_leb k m = true -> lex_leb l m = true.
Proof.
  revert k m; induction l as [|x l IH]; intros [|y k] [|z m]; simpl; try done.
  rewrite !orb_true_iff, !andb_true_iff, !Z.ltb_lt, !Z.eqb_eq.
  intros [?|[-> ?]] [?|[-> ?]]; [left; lia|auto|auto|right; split; [done|by eapply IH]].
Qed.

Lemma lex_leb_antisym l k : lex_leb l k = true -> lex_leb k l = true -> l = k.
Proof.
  revert k; induction l as [|x l IH]; intros [|y k]; simpl; try done.
  rewrite !orb_true_iff, !andb_true_iff, !Z.ltb_lt, !Z.eqb_eq.
  intros [?|[-> ?]] [?|[? ?]]; try lia. f_equal; auto.
Qed.

#[export] Instance ranked_total : Total ranked.
Proof.
  intros [[w s] v] [[w' s'] v']. unfold ranked; simpl.
  rewrite !orb_true_iff, !andb_true_iff, !orb_true_iff, !andb_true_iff, !Z.ltb_lt, !Z.eqb_eq.
  destruct (Z.lt_trichotomy s s') as [|[->|]]; [auto| |auto].
  destruct (Z.lt_trichotomy w w') as [|[->|]]; [auto 6| |auto 6].
  destruct (lex_leb_total v v'); auto 8.
Qed.

#[export] Instance ranked_trans : Transitive ranked.
Proof.
  intros [[w s] v] [[w' s'] v'] [[w2 s2] v2]. unfold ranked; simpl.
  rewrite !orb_true_iff, !andb_true_iff, !orb_true_iff, !andb_true_iff, !Z.ltb_lt, !Z.eqb_eq.
  intros [?|[-> [?|[-> ?]]]] [?|[-> [?|[-> ?]]]]; try (left; lia); right; split; try done;
    [left; lia|auto|auto|right; split; [done|by eapply lex_leb_trans]].
Qed.

#[export] Instance ranked_antisym : AntiSymm (=) ranked.
Proof.
  intros [[w s] v] [[w' s'] v']. unfold ranked; simpl.
  rewrite !orb_true_iff, !andb_true_iff, !orb_true_iff, !andb_true_iff, !Z.ltb_lt, !Z.eqb_eq.
  intros [?|[-> [?|[-> ?]]]] [?|[? [?|[? ?]]]]; try lia. f_equal. by apply lex_leb_antisym.
Qed.

(** ** [AdmissionData] *)

#[local] Set Default Proof Using "Type".

Section Provider.
Context `{UsizeWidth}.
Context (weight_of : AccountId -> Z) (staking_desired : result ElectionDataError Z).
Context (voter_size : Voter -> Z) (compact_size : Z -> Z).
Context (slice_exhausted : DataProviderBounds -> list AccountId -> bool).
Implicit Types st : ElectionState.

(** The admitted accounts, in the set's order, that are validators with
    session keys. *)
Definition candidates st : list AccountId :=
  filter (fun who => who ∈ Validators st /\ who ∈ NextKeys st) (merge_sort Z.le (elements (Approved st))).

Definition electable_targets (bounds : DataProviderBounds) (page : Z) st
    : result ElectionDataError (list AccountId) :=
  if negb (page =? 0) then Err OnePageOnly else
  let targets := candidates st in
  if slice_exhausted bounds targets then Err TargetsExceedBounds else Ok targets.

(** The self votes: one per candidate with stake. *)
Definition self_voters (targets : list AccountId) : list Voter :=
  filter (fun v : Voter => 0 < v.1.2) ((fun who => (who, weight_of who, [who])) <$> targets).

(** The body of the loop over the nominators; the state is the heap and
    [eligible]. *)
Definition scan_nominator (targets' : list AccountId) (nominator_slots : Z)
    (acc : list Voter * Z) (n : AccountId * Nominations) : result ElectionDataError (list Voter * Z) :=
  let '(nominated, eligible) := acc in
  let '(nominator, nominations) := n in
  if suppressed nominations || bool_decide (nominator ∈ targets') then Ok acc else
  let votes := filter (fun t => t ∈ targets') (targets nominations) in
  if bool_decide (votes = []) then Ok acc else
  let stake := weight_of nominator in
  if stake =? 0 then Ok acc else
  if Params.MaxVotesPerVoter <? zlen votes then Err NominationExceedsVoteBound else
  let eligible := u32_add eligible 1 in
  if 0 <? nominator_slots
  then Ok (push_bounded ranked (Z.to_nat nominator_slots) nominated (nominator, stake, votes), eligible)
  else Ok (nominated, eligible).

(** The loop that removes voters from the tail until the snapshot fits; the
    voters are held last first. *)
Fixpoint trim_voters (self_votes bound : Z) (voters : list Voter) (payload_size : Z) : list Voter :=
  match voters with
  | [] => []
  | voter :: rest =>
      if (self_votes <? zlen voters) &&
         (bound <? sat_usize (payload_size + compact_size (wrap_u 32 (zlen voters))))
      then trim_voters self_votes bound rest (sat_usize (payload_size - voter_size voter))
      else voters
  end.

Definition payload_of (voters : list Voter) : Z :=
  foldl (fun total voter => sat_usize (total + voter_size voter)) 0 voters.

Definition electing_voters (bounds : DataProviderBounds) (page : Z) st
    : result ElectionDataError (list Voter * option ElectionDataEvent) :=
  if negb (page =? 0) then Err OnePageOnly else
  let targets := candidates st in
  let voters := self_voters targets in
  let limit := match count_bound bounds with
    | None => Params.VoterSnapshotPerBlock
    | Some bound => Z.min bound Params.VoterSnapshotPerBlock
    end in
  let self_votes := zlen voters in
  let nominator_slots := sat_usize (limit - self_votes) in
  acc <-? rfold (scan_nominator targets nominator_slots) ([], wrap_u 32 self_votes) (Nominators st);;
  let '(nominated, eligible) := acc in
  let voters := voters ++ into_sorted_vec ranked nominated in
  let voters := match size_bound bounds with
    | None => voters
    | Some size => reverse (trim_voters self_votes size (reverse voters) (payload_of voters))
    end in
  let retained := wrap_u 32 (zlen voters) in
  Ok (voters, if retained <? eligible then Some (ElectionVotersTruncated eligible retained) else None).

Definition desired_targets st : result ElectionDataError Z :=
  desired <-? staking_desired;;
  if Params.MaxValidatorSetCap <? desired then Err CountExceedsCap
  else Ok (Z.min desired (wrap_u 32 (zlen (candidates st)))).

(** ** The snapshot against its reference *)

(** The entry of a nominator in the snapshot, if it has one. *)
Definition nominator_entry (targets' : list AccountId) (n : AccountId * Nominations) : option Voter :=
  let votes := filter (fun t => t ∈ targets') (targets n.2) in
  if suppressed n.2 || bool_decide (n.1 ∈ targets') || bool_decide (votes = []) || (weight_of n.1 =? 0)
  then None else Some (n.1, weight_of n.1, votes).

Definition eligible_nominators st : list Voter := omap (nominator_entry (candidates st)) (Nominators st).

Definition snapshot_limit (bounds : DataProviderBounds) : Z :=
  match count_bound bounds with
  | None => Params.VoterSnapshotPerBlock
  | Some bound => Z.min bound Params.VoterSnapshotPerBlock
  end.

(** Every self vote, and then the nominators of highest stake that the count
    bound leaves room for. *)
Definition full_snapshot (bounds : DataProviderBounds) st : list Voter :=
  let self := self_voters (candidates st) in
  self ++ take (Z.to_nat (snapshot_limit bounds - zlen self)) (merge_sort ranked (eligible_nominators st)).

(** The size of an encoded list of voters. *)
Definition snapshot_size (voters : list Voter) : Z :=
  zsum (voter_size <$> voters) + compact_size (zlen voters).

(** One iteration of the loop, by the nominator's entry. *)
Lemma scan_nominator_entry targets' slots h e n :
  scan_nominator targets' slots (h, e) n =
  match nominator_entry targets' n with
  | None => Ok (h, e)
  | Some v =>
      if Params.MaxVotesPerVoter <? zlen v.2 then Err NominationExceedsVoteBound
      else Ok (if 0 <? slots then push_bounded ranked (Z.to_nat slots) h v else h, u32_add e 1)
  end.
Proof.
  destruct n as [who n]. unfold scan_nominator, nominator_entry. simpl.
  destruct (suppressed n || _); simpl; [done|]. destruct (bool_decide _); simpl; [done|].
  destruct (_ =? 0); simpl; [done|]. by destruct (_ <? zlen _), (0 <? slots).
Qed.

Lemma scan_nominators_eq targets' slots l h e :
  Forall (fun v : Voter => zlen v.2 <= Params.MaxVotesPerVoter) (omap (nominator_entry targets') l) -> in_u 32 e ->
  rfold (scan_nominator targets' slots) (h, e) l =
  Ok (if 0 <? slots then foldl (push_bounded ranked (Z.to_nat slots)) h (omap (nominator_entry targets') l) else h,
      sat_u 32 (e + zlen (omap (nominator_entry targets') l))).
Proof.
  revert h e; induction l as [|n l IH]; intros h e Hq He.
  { rewrite Z.add_0_r, sat_u_small by done. by destruct (0 <? slots). }
  cbn [rfold]. rewrite scan_nominator_entry. csimpl in Hq. csimpl.
  destruct (nominator_entry targets' n) as [v|]; cbn [rbind]; [|by apply IH].
  apply Forall_cons in Hq as [Hv Hq]. rewrite (proj2 (Z.ltb_ge _ _)) by done. cbn [rbind].
  rewrite IH by (done || unfold in_u, u32_add, sat_u; lia).
  f_equal. f_equal; [by destruct (0 <? slots)|]. unfold u32_add, zlen, sat_u, in_u in *. simpl. lia.
Qed.

Lemma nominator_entry_Some targets' n v :
  nominator_entry targets' n = Some v <->
  suppressed n.2 = false /\ n.1 ∉ targets' /\ weight_of n.1 <> 0 /\
  filter (fun t => t ∈ targets') (targets n.2) <> [] /\
  v = (n.1, weight_of n.1, filter (fun t => t ∈ targets') (targets n.2)).
Proof.
  clear voter_size compact_size. unfold nominator_entry. destruct (suppressed n.2); simpl; [naive_solver|].
  repeat case_bool_decide; simpl; try naive_solver.
  destruct (weight_of n.1 =? 0) eqn:Hw; bool_to_prop; naive_solver.
Qed.

Lemma sat_sum_eq t voters :
  (forall v, 0 <= voter_size v) -> 0 <= t -> t + zsum (voter_size <$> voters) < 2 ^ usize_bits ->
  foldl (fun total voter => sat_usize (total + voter_size voter)) t voters = t + zsum (voter_size <$> voters).
Proof.
  intros Hv. revert t; induction voters as [|v voters IH]; intros t Ht Hs; [unfold zsum; simpl; lia|].
  rewrite fmap_cons in Hs |- *. change (zsum (?x :: ?l)) with (x + zsum l) in *. cbn [foldl].
  assert (0 <= zsum (voter_size <$> voters)) by (apply zsum_nonneg, Forall_fmap, Forall_forall; intros; apply Hv).
  pose proof (Hv v). unfold sat_usize at 2. rewrite sat_u_small by (unfold in_u; lia). rewrite IH by lia. lia.
Qed.

(** Trimming keeps the longest prefix that fits, and never a self vote less. *)
Lemma trim_voters_prefix self bound voters :
  (forall v, 0 <= voter_size v) -> (forall n, 0 <= compact_size n) ->
  (forall n, (n <= length voters)%nat -> snapshot_size (take n voters) < 2 ^ usize_bits) ->
  zlen voters < 2 ^ 32 -> 0 <= self <= zlen voters ->
  exists n, reverse (trim_voters self bound (reverse voters) (zsum (voter_size <$> voters))) = take n voters /\
    self <= Z.of_nat n <= zlen voters /\
    (Z.of_nat n = self \/ snapshot_size (take n voters) <= bound) /\
    forall m, (n < m <= length voters)%nat -> bound < snapshot_size (take m voters).
Proof.
  intros Hv Hc. induction voters as [|v voters IH] using rev_ind; intros Hs Hl Hself.
  { exists 0%nat. unfold zlen in *. simpl in *. split_and!; [done|lia|lia|left; lia|lia]. }
  pose proof (Hs (length (voters ++ [v])) ltac:(lia)) as Hall. rewrite take_ge in Hall by lia.
  rewrite reverse_snoc. cbn [trim_voters].
  assert (zlen (v :: reverse voters) = zlen (voters ++ [v])) as ->
    by (unfold zlen; rewrite length_app; simpl; rewrite length_reverse; lia).
  assert (0 <= zsum (voter_size <$> voters)) as Hpos by (apply zsum_nonneg, Forall_fmap, Forall_forall; intros; apply Hv).
  assert (zsum (voter_size <$> voters ++ [v]) = zsum (voter_size <$> voters) + voter_size v) as Hsum
    by (rewrite fmap_app, zsum_app; unfold zsum at 2; simpl; lia).
  assert (zlen (voters ++ [v]) = zlen voters + 1) as Hlen by (unfold zlen; rewrite length_app; simpl; lia).
  unfold snapshot_size in Hall. pose proof (Hv v) as Hv0. pose proof (Hc (zlen (voters ++ [v]))) as Hc0.
  unfold sat_usize at 1. rewrite wrap_u_small, sat_u_small by (unfold in_u, zlen in *; lia).
  assert (forall m, (m <= length voters)%nat -> take m (voters ++ [v]) = take m voters) as Htake
    by (intros; by rewrite take_app_le).
  destruct (_ && _) eqn:Hcond; bool_to_prop.
  - unfold sat_usize. rewrite sat_u_small by (unfold in_u; lia).
    replace (_ - voter_size v) with (zsum (voter_size <$> voters)) by lia.
    destruct IH as (n & Heq & Hn & Hfit & Hmax); [|lia|lia|].
    { intros m Hm. rewrite <- Htake by done. apply Hs. rewrite length_app. lia. }
    exists n. rewrite Htake by (unfold zlen in *; lia). split_and!; [done|lia|lia|done|].
    intros m Hm. rewrite length_app in Hm. simpl in Hm. destruct (decide (m = S (length voters))) as [->|].
    + rewrite take_ge by (rewrite length_app; simpl; lia). unfold snapshot_size. lia.
    + rewrite Htake by lia. apply Hmax. lia.
  - exists (length (voters ++ [v])). rewrite take_ge by lia. rewrite <- reverse_snoc, reverse_involutive.
    split_and!; [done|unfold zlen in *; lia|unfold zlen; lia| |lia].
    apply andb_false_iff in Hcond as [Hcond|Hcond]; bool_to_prop; [left; unfold zlen in *; lia|right; unfold snapshot_size; lia].
Qed.

(** ** The provider *)

(** Trimming only shortens. *)
Lemma trim_voters_suffix self bound voters payload :
  exists dropped, voters = dropped ++ trim_voters self bound voters payload.
Proof.
  revert payload; induction voters as [|v voters IH]; intros payload; simpl; [by exists []|].
  destruct (_ && _); [|by exists []]. destruct (IH (sat_usize (payload - voter_size v))) as [d Hd].
  exists (v :: d). simpl. by rewrite <- Hd.
Qed.

Lemma candidates_spec st who :
  who ∈ candidates st <-> who ∈ Approved st /\ who ∈ Validators st /\ who ∈ NextKeys st.
Proof. unfold candidates. rewrite list_elem_of_filter, merge_sort_Permutation, elem_of_elements. split; intros; destruct_and!; done. Qed.

Lemma candidates_NoDup st : NoDup (candidates st).
Proof. apply NoDup_filter. rewrite merge_sort_Permutation. apply NoDup_elements. Qed.

Lemma candidates_length st : (length (candidates st) <= size (Approved st))%nat.
Proof.
  etrans; [apply length_filter|]. by rewrite (Permutation_length (merge_sort_Permutation _ _)).
Qed.

Lemma self_voters_spec targets v :
  v ∈ self_voters targets <-> exists who, who ∈ targets /\ 0 < weight_of who /\ v = (who, weight_of who, [who]).
Proof.
  clear voter_size compact_size. unfold self_voters. rewrite list_elem_of_filter, list_elem_of_fmap. naive_solver.
Qed.

Lemma self_voters_accounts targets :
  (self_voters targets).*1.*1 = filter (fun who => 0 < weight_of who) targets.
Proof.
  unfold self_voters. induction targets as [|who targets IH]; csimpl; [done|].
  rewrite !filter_cons. simpl. case_decide; csimpl; by rewrite IH.
Qed.

Lemma self_voters_length targets : (length (self_voters targets) <= length targets)%nat.
Proof. etrans; [apply length_filter|]. by rewrite length_fmap. Qed.

(** The reference snapshot, trimmed to the size bound. *)
Definition snapshot_voters (bounds : DataProviderBounds) st : list Voter :=
  match size_bound bounds with
  | None => full_snapshot bounds st
  | Some b => reverse (trim_voters (zlen (self_voters (candidates st))) b
                 (reverse (full_snapshot bounds st)) (payload_of (full_snapshot bounds st)))
  end.

Definition truncation (voters : list Voter) st : option ElectionDataEvent :=
  let eligible := sat_u 32 (wrap_u 32 (zlen (self_voters (candidates st))) + zlen (eligible_nominators st)) in
  let retained := wrap_u 32 (zlen voters) in
  if retained <? eligible then Some (ElectionVotersTruncated eligible retained) else None.

(** The optimised scan gives the reference. *)
Lemma electing_voters_snapshot bounds st :
  Forall (fun v : Voter => zlen v.2 <= Params.MaxVotesPerVoter) (eligible_nominators st) ->
  Z.of_nat (size (Approved st)) < 2 ^ 32 ->
  match count_bound bounds with Some b => 0 <= b | None => True end ->
  electing_voters bounds 0 st = Ok (snapshot_voters bounds st, truncation (snapshot_voters bounds st) st).
Proof.
  intros Hq Hsz Hb. unfold electing_voters. cbn [Z.eqb negb].
  pose proof (self_voters_length (candidates st)) as Hl1. pose proof (candidates_length st) as Hl2.
  rewrite scan_nominators_eq by (done || apply wrap_u_range; lia). cbn [rbind].
  fold (eligible_nominators st). fold (snapshot_limit bounds).
  assert (self_voters (candidates st) ++
    into_sorted_vec ranked (if 0 <? sat_usize (snapshot_limit bounds - zlen (self_voters (candidates st)))
      then foldl (push_bounded ranked (Z.to_nat (sat_usize (snapshot_limit bounds - zlen (self_voters (candidates st))))))
             [] (eligible_nominators st) else []) = full_snapshot bounds st) as ->; [|done].
  unfold full_snapshot. f_equal.
  assert (0 <= snapshot_limit bounds < 2 ^ 32) as Hlim
    by (unfold snapshot_limit, Params.VoterSnapshotPerBlock; destruct (count_bound bounds); lia).
  set (d := snapshot_limit bounds - _).
  assert (sat_usize d = Z.max 0 d) as ->.
  { unfold sat_usize, sat_u, d, zlen. destruct usize_bits_cases as [-> | ->]; lia. }
  destruct (0 <? Z.max 0 d) eqn:Hd; bool_to_prop.
  - rewrite bounded_scan_sorted by apply _. do 2 f_equal. lia.
  - rewrite Z2Nat.nonpos by lia. done.
Qed.

(** Conversely, a returned snapshot is the reference. *)
Lemma scan_nominators_Ok targets' slots l h e acc :
  rfold (scan_nominator targets' slots) (h, e) l = Ok acc ->
  Forall (fun v : Voter => zlen v.2 <= Params.MaxVotesPerVoter) (omap (nominator_entry targets') l).
Proof.
  revert h e; induction l as [|n l IH]; intros h e; [constructor|]. cbn [rfold].
  rewrite scan_nominator_entry. csimpl. destruct (nominator_entry targets' n) as [v|]; cbn [rbind]; [|apply IH].
  destruct (_ <? _) eqn:Hv; [done|]. bool_to_prop. cbn [rbind]. intros Hok%IH. by constructor.
Qed.

Lemma electing_voters_Ok bounds page st voters event :
  Z.of_nat (size (Approved st)) < 2 ^ 32 ->
  match count_bound bounds with Some b => 0 <= b | None => True end ->
  electing_voters bounds page st = Ok (voters, event) -> voters = snapshot_voters bounds st.
Proof.
  intros Hsz Hb Hok. pose proof Hok as Hok'. unfold electing_voters in Hok'.
  destruct (page =? 0) eqn:Hp; [|done]. bool_to_prop. subst page.
  apply rbind_Ok_inv in Hok' as (acc & Hacc%scan_nominators_Ok & _).
  rewrite electing_voters_snapshot in Hok by done. by injection Hok.
Qed.

(** The snapshot does not depend on the order of the nominators. *)
Lemma full_snapshot_order bounds st l :
  Nominators st ≡ₚ l -> full_snapshot bounds (mkElectionState (Approved st) (Validators st) (NextKeys st) l) = full_snapshot bounds st.
Proof.
  intros Hp. unfold full_snapshot, eligible_nominators, candidates. simpl. do 2 f_equal.
  apply (StronglySorted_unique ranked); [by apply StronglySorted_merge_sort; apply _..|].
  rewrite !(merge_sort_Permutation ranked). by rewrite Hp.
Qed.

(** Who is in the snapshot and for whom it votes. *)
Lemma full_snapshot_elem bounds st v :
  v ∈ full_snapshot bounds st ->
  v ∈ self_voters (candidates st) \/ v ∈ eligible_nominators st.
Proof.
  unfold full_snapshot. intros [?|Hv]%elem_of_app; [by left|right].
  apply elem_of_take in Hv as (i & Hi & _). apply list_elem_of_lookup_2 in Hi.
  by rewrite merge_sort_Permutation in Hi.
Qed.

Lemma full_snapshot_votes bounds st v t :
  v ∈ full_snapshot bounds st -> t ∈ v.2 -> t ∈ candidates st.
Proof.
  intros [Hv|Hv]%full_snapshot_elem Ht.
  - apply self_voters_spec in Hv as (who & Hin & _ & ->). simpl in Ht. apply list_elem_of_singleton in Ht. by subst.
  - apply list_elem_of_omap in Hv as (n & _ & (_ & _ & _ & _ & ->)%nominator_entry_Some).
    simpl in Ht. by apply list_elem_of_filter in Ht as [? _].
Qed.

(** With one storage entry per nominator, nobody votes twice. *)
Lemma full_snapshot_NoDup bounds st :
  NoDup (Nominators st).*1 -> NoDup (full_snapshot bounds st).*1.*1.
Proof.
  intros Hnd. unfold full_snapshot. rewrite !fmap_app. apply NoDup_app. split_and!.
  - rewrite self_voters_accounts. apply NoDup_filter, candidates_NoDup.
  - intros who Hw. rewrite self_voters_accounts in Hw. apply list_elem_of_filter in Hw as [_ Hw].
    intros (v1 & -> & Hv1)%list_elem_of_fmap. apply list_elem_of_fmap in Hv1 as (v & -> & Hv).
    apply elem_of_take in Hv as (i & Hi & _). apply list_elem_of_lookup_2 in Hi. rewrite merge_sort_Permutation in Hi.
    apply list_elem_of_omap in Hi as (n & _ & (_ & Hn & _ & _ & ->)%nominator_entry_Some). done.
  - rewrite !fmap_take. eapply sublist_NoDup; [|apply sublist_take].
    rewrite merge_sort_Permutation. unfold eligible_nominators.
    eapply sublist_NoDup; [exact Hnd|]. clear Hnd. induction (Nominators st) as [|n l IH]; csimpl; [done|].
    destruct (nominator_entry (candidates st) n) as [v|] eqn:He; [|by constructor].
    apply nominator_entry_Some in He as (_ & _ & _ & _ & ->). csimpl. by constructor.
Qed.
End Provider.

(** [InitializeStakingLimits::on_runtime_upgrade]: [MaxNominatorsCount] is set
    to zero when it is absent. *)
Definition initialize_staking_limits (max_nominators_count : option Z) : option Z :=
  match max_nominators_count with None => Some 0 | Some n => Some n end.
