(* ===== verification/Admission.v ===== *)
(** * Validator admission and the filter on Root calls

    Models [pallets/validator-admission/src/lib.rs] and the call filter wired
    into it, [CouncilRootCalls::check] of [runtime/src/configs/slashing.rs].
    The calls of the other pallets are opaque, except the ones the filter
    names. *)

From S2P Require Import Prelude Frame.

#[local] Set Warnings "-register-all".

(** ** The Root-call filter *)

Inductive RootCallError := Denied | DepthLimit | CallLimit.
#[global] Instance RootCallError_eq_dec : EqDecision RootCallError.
Proof. solve_decision. Defined.

(** [RuntimeCall], as far as the Root filter and the proxy filter inspect it. *)
Inductive RuntimeCall :=
  | VestingForceVestedTransfer
  | VestingForceRemoveSchedule
  | StakingManualSlash
  | SystemSetStorage
  | SystemKillStorage
  | SystemKillPrefix
  | ProxyProxy (call : RuntimeCall)
  | ProxyAnnounced (call : RuntimeCall)
  | MultisigAsMulti (call : RuntimeCall)
  | MultisigThreshold1 (call : RuntimeCall)
  | AdmissionDispatchAsRoot (call : RuntimeCall)
  | ReviveEthSubstrateCall (call : RuntimeCall)
  | ReviveDispatchAsFallback (call : RuntimeCall)
  | FoundationExecute (proposal : RuntimeCall)
  | FoundationPropose (proposal : RuntimeCall)
  | UtilityBatch (calls : list RuntimeCall)
  | UtilityBatchAll (calls : list RuntimeCall)
  | UtilityForceBatch (calls : list RuntimeCall)
  | UtilityAsDerivative (call : RuntimeCall)
  | UtilityDispatchAs (call : RuntimeCall)
  | UtilityDispatchAsFallible (call : RuntimeCall)
  | UtilityWithWeight (call : RuntimeCall)
  | UtilityIfElse (main fallback : RuntimeCall)
  | UtilityOther
  | BalancesTransferAllowDeath
  | BalancesTransferKeepAlive
  | BalancesTransferAll
  | OtherCall (tag : Z).

(** The nested function [allowed]; the result carries [remaining]. *)
Fixpoint allowed (call : RuntimeCall) (depth remaining : Z) : result RootCallError Z :=
  if 8 <? depth then Err DepthLimit else
  if remaining =? 0 then Err CallLimit else
  let remaining := remaining - 1 in
  let deeper := sat_u 8 (depth + 1) in
  let fix all (calls : list RuntimeCall) (remaining : Z) : result RootCallError Z :=
    match calls with
    | [] => Ok remaining
    | inner :: calls => remaining <-? allowed inner deeper remaining;; all calls remaining
    end in
  match call with
  | VestingForceVestedTransfer | VestingForceRemoveSchedule | StakingManualSlash
  | SystemSetStorage | SystemKillStorage | SystemKillPrefix => Err Denied
  | ProxyProxy call | ProxyAnnounced call | MultisigAsMulti call | MultisigThreshold1 call =>
      allowed call deeper remaining
  | AdmissionDispatchAsRoot call | ReviveEthSubstrateCall call | ReviveDispatchAsFallback call =>
      allowed call deeper remaining
  | FoundationExecute proposal | FoundationPropose proposal => allowed proposal deeper remaining
  | UtilityBatch calls | UtilityBatchAll calls | UtilityForceBatch calls => all calls remaining
  | UtilityAsDerivative call | UtilityDispatchAs call | UtilityDispatchAsFallible call
  | UtilityWithWeight call => allowed call deeper remaining
  | UtilityIfElse main fallback =>
      remaining <-? allowed main deeper remaining;; allowed fallback deeper remaining
  | UtilityOther => Err Denied
  | BalancesTransferAllowDeath | BalancesTransferKeepAlive | BalancesTransferAll
  | OtherCall _ => Ok remaining
  end.

Definition check (call : RuntimeCall) : result RootCallError unit :=
  allowed call 0 256;;? Ok tt.

(** ** What the filter guarantees *)

(** The calls directly inside a call. *)
Definition children (call : RuntimeCall) : list RuntimeCall :=
  match call with
  | ProxyProxy c | ProxyAnnounced c | MultisigAsMulti c | MultisigThreshold1 c
  | AdmissionDispatchAsRoot c | ReviveEthSubstrateCall c | ReviveDispatchAsFallback c
  | FoundationExecute c | FoundationPropose c
  | UtilityAsDerivative c | UtilityDispatchAs c | UtilityDispatchAsFallible c | UtilityWithWeight c => [c]
  | UtilityBatch cs | UtilityBatchAll cs | UtilityForceBatch cs => cs
  | UtilityIfElse m f => [m; f]
  | _ => []
  end.

(** The calls Root must never make. *)
Definition forbidden (call : RuntimeCall) : bool :=
  match call with
  | VestingForceVestedTransfer | VestingForceRemoveSchedule | StakingManualSlash
  | SystemSetStorage | SystemKillStorage | SystemKillPrefix | UtilityOther => true
  | _ => false
  end.

(** [inside n c call]: [c] occurs in [call], [n] levels down. *)
Inductive inside : nat -> RuntimeCall -> RuntimeCall -> Prop :=
  | inside_here c : inside 0 c c
  | inside_child n c child call : child ∈ children call -> inside n c child -> inside (S n) c call.

(** The number of calls in a tree. *)
Fixpoint calls_in (call : RuntimeCall) : Z :=
  let fix sum (l : list RuntimeCall) : Z := match l with [] => 0 | c :: l => calls_in c + sum l end in
  1 + match call with
      | ProxyProxy c | ProxyAnnounced c | MultisigAsMulti c | MultisigThreshold1 c
      | AdmissionDispatchAsRoot c | ReviveEthSubstrateCall c | ReviveDispatchAsFallback c
      | FoundationExecute c | FoundationPropose c
      | UtilityAsDerivative c | UtilityDispatchAs c | UtilityDispatchAsFallible c | UtilityWithWeight c => calls_in c
      | UtilityBatch cs | UtilityBatchAll cs | UtilityForceBatch cs => sum cs
      | UtilityIfElse m f => calls_in m + calls_in f
      | _ => 0
      end.

(** Induction over call trees, batches included. *)
Section CallInd.
Context (P : RuntimeCall -> Prop).
Hypothesis step : forall call, (forall child, child ∈ children call -> P child) -> P call.

Fixpoint RuntimeCall_tree_ind (call : RuntimeCall) : P call.
Proof.
  apply step. intros child Hin.
  destruct call; simpl in Hin;
    try (destruct (not_elem_of_nil _ Hin));
    try (apply list_elem_of_singleton in Hin; subst; apply RuntimeCall_tree_ind).
  1-3: induction calls as [|c calls IH]; [destruct (not_elem_of_nil _ Hin)|];
    apply elem_of_cons in Hin as [->|Hin]; [apply RuntimeCall_tree_ind|exact (IH Hin)].
  apply elem_of_cons in Hin as [->|Hin%list_elem_of_singleton]; [apply RuntimeCall_tree_ind|].
  subst. apply RuntimeCall_tree_ind.
Qed.
End CallInd.

Lemma allowed_unfold call depth remaining :
  allowed call depth remaining =
  if 8 <? depth then Err DepthLimit else
  if remaining =? 0 then Err CallLimit else
  if forbidden call then Err Denied else
  rfold (fun r c => allowed c (sat_u 8 (depth + 1)) r) (remaining - 1) (children call).
Proof.
  assert (forall (m : result RootCallError Z), m = (r <-? m;; Ok r)) as Hret by (by intros []).
  destruct call; simpl; try done; repeat case_match; try done; try apply Hret.
  1-3: generalize (remaining - 1); induction calls as [|c calls IH]; intros r; simpl; [done|];
    destruct (allowed c _ r); simpl; [apply IH|done|done].
  destruct (allowed _ _ _); simpl; [apply Hret|done|done].
Qed.

Lemma calls_in_unfold call : calls_in call = 1 + zsum (calls_in <$> children call).
Proof.
  destruct call; simpl; unfold zsum; try (simpl; lia); f_equal; induction calls; csimpl; lia.
Qed.

Lemma calls_in_pos call : 0 < calls_in call.
Proof.
  induction call as [call IH] using RuntimeCall_tree_ind. rewrite calls_in_unfold.
  assert (0 <= zsum (calls_in <$> children call)); [|lia]. apply zsum_nonneg, Forall_fmap, Forall_forall.
  intros c Hc. specialize (IH c Hc). simpl. lia.
Qed.

(** An accepted call holds no forbidden call at any depth, is at most eight
    levels deep, and uses up one unit per call. *)
Lemma allowed_sound call depth remaining remaining' :
  0 <= depth -> 0 <= remaining -> allowed call depth remaining = Ok remaining' ->
  remaining' = remaining - calls_in call /\ 0 <= remaining' /\
  (forall n c, inside n c call -> forbidden c = false /\ depth + Z.of_nat n <= 8).
Proof.
  revert depth remaining remaining'. induction call as [call IH] using RuntimeCall_tree_ind.
  intros depth remaining remaining' Hd Hr. rewrite allowed_unfold.
  destruct (8 <? depth) eqn:Hdepth; [done|]. destruct (remaining =? 0) eqn:Hrem; [done|].
  destruct (forbidden call) eqn:Hforb; [done|]. bool_to_prop. rewrite calls_in_unfold.
  assert (sat_u 8 (depth + 1) = depth + 1) as -> by (apply sat_u_small; unfold in_u; lia).
  intros Hfold.
  assert (forall l r r', (forall c, c ∈ l -> c ∈ children call) -> 0 <= r ->
    rfold (fun r c => allowed c (depth + 1) r) r l = Ok r' ->
    r' = r - zsum (calls_in <$> l) /\ 0 <= r' /\
    forall c, c ∈ l -> forall n d, inside n d c -> forbidden d = false /\ depth + 1 + Z.of_nat n <= 8) as Hl.
  { induction l as [|c l IHl]; intros r r' Hsub Hr0; cbn [rfold].
    - intros [= <-]. split_and!; [unfold zsum; simpl; lia|done|by intros ? ?%not_elem_of_nil].
    - intros (r1 & Hc & Hl)%rbind_Ok_inv. apply IH in Hc as (-> & Hr1 & Hin); [|apply Hsub; set_solver|lia|done].
      apply IHl in Hl as (-> & Hr2 & Hin'); [|intros x Hx; apply Hsub; set_solver|done].
      split_and!; [change (zsum (calls_in <$> c :: l)) with (calls_in c + zsum (calls_in <$> l)); lia|done|].
      intros x [->|Hx]%elem_of_cons; [exact Hin|by apply Hin']. }
  apply Hl in Hfold as (-> & Hr' & Hin); [|done|lia]. split_and!; [lia|done|].
  intros n c Hi. inversion Hi as [|m c' child call' Hch Hm]; subst; [split; [done|lia]|].
  destruct (Hin child Hch m c Hm). split; [done|lia].
Qed.

(** Conversely, a tree without forbidden calls, within the depth and call
    limits, is accepted. *)
Lemma allowed_complete call depth remaining :
  0 <= depth -> calls_in call <= remaining ->
  (forall n c, inside n c call -> forbidden c = false /\ depth + Z.of_nat n <= 8) ->
  allowed call depth remaining = Ok (remaining - calls_in call).
Proof.
  revert depth remaining. induction call as [call IH] using RuntimeCall_tree_ind.
  intros depth remaining Hd Hr Hin. rewrite allowed_unfold. destruct (Hin 0%nat call) as [Hf Hd8]; [constructor|].
  pose proof (calls_in_pos call) as Hpos.
  rewrite (proj2 (Z.ltb_ge _ _)), (proj2 (Z.eqb_neq _ _)), Hf by lia.
  assert (forall n c child, child ∈ children call -> inside n c child -> forbidden c = false /\ depth + 1 + Z.of_nat n <= 8) as Hin'.
  { intros n c child Hch Hc. destruct (Hin (S n) c) as [? ?]; [by econstructor|]. split; [done|lia]. }
  rewrite calls_in_unfold in Hr |- *.
  assert (sat_u 8 (depth + 1) = depth + 1) as -> by (apply sat_u_small; unfold in_u; lia).
  assert (forall l r, (forall c, c ∈ l -> c ∈ children call) -> zsum (calls_in <$> l) <= r ->
    rfold (fun r c => allowed c (depth + 1) r) r l = Ok (r - zsum (calls_in <$> l))) as Hl.
  { induction l as [|c l IHl]; intros r Hsub Hle; [unfold zsum; simpl; f_equal; lia|].
    change (zsum (calls_in <$> c :: l)) with (calls_in c + zsum (calls_in <$> l)) in Hle |- *. pose proof (calls_in_pos c).
    assert (0 <= zsum (calls_in <$> l)).
    { apply zsum_nonneg, Forall_fmap, Forall_forall. intros x _. pose proof (calls_in_pos x). simpl. lia. }
    cbn [rfold]. rewrite IH; [|apply Hsub; set_solver|lia|lia|intros n d Hi; apply (Hin' n d c); [apply Hsub; set_solver|done]].
    cbn [rbind]. rewrite IHl; [f_equal; lia|intros x Hx; apply Hsub; set_solver|lia]. }
  rewrite Hl by (done || lia). f_equal. lia.
Qed.

(** ** The pallet *)

Inductive AdmissionMode := FixedTestnet | FoundationOnly | PermissionlessEligibility.
#[global] Instance AdmissionMode_eq_dec : EqDecision AdmissionMode.
Proof. solve_decision. Defined.

Inductive AdmissionError :=
  | WrongMode | AlreadyApproved | NotApproved | TooManyAuthorities | InvalidTransition
  | GraduationNotReady | RootCallDenied | RootCallTooDeep | RootCallTooLarge
  (** the error of the removal hook, which [remove] passes on *)
  | RemovalFailed.
#[global] Instance AdmissionError_eq_dec : EqDecision AdmissionError.
Proof. solve_decision. Defined.

Inductive AdmissionEvent :=
  | ApprovedEvent (who : AccountId)
  | RemovedEvent (who : AccountId)
  | ModeAdvanced (mode : AdmissionMode)
  | RootDispatched (succeeded : bool).

Abbreviation aresult := (result (DispatchError AdmissionError)).

Section Admission.
(** The rest of the chain; the Foundation's origin, the readiness of
    graduation, the cleanup after a removal and the Root dispatch of a call. *)
Context {W : Type} (foundation : Origin -> bool) (graduation_ready : W -> bool).
Context (on_removal : gset AccountId -> W -> option W) (dispatch_root : RuntimeCall -> W -> W * bool).
Context (MaxAuthorities : Z).

Record AdmissionState := mkAdmissionState {
  Mode : AdmissionMode;
  Approved : gset AccountId;
  rest : W;
  events : list AdmissionEvent
}.
#[export] Instance AdmissionState_expansion : Expansion AdmissionState := fun r =>
  mkAdmissionState (Mode r) (Approved r) (rest r) (events r).
Implicit Types s : AdmissionState.

Definition emit (e : AdmissionEvent) s : AdmissionState := s <| events $= (.++ [e]) |>.

(** [GenesisConfig::build] *)
Definition genesis_build (mode : AdmissionMode) (approved : list AccountId) s : aresult AdmissionState :=
  if bool_decide (mode = PermissionlessEligibility) then Panic else
  set <-? rfold (fun (set : gset AccountId) who =>
      if bool_decide (who ∈ set) then Panic
      else if Z.of_nat (size set) <? MaxAuthorities then Ok ({[who]} ∪ set) else Panic) ∅ approved;;
  Ok (s <| Mode := mode |> <| Approved := set |>).

Definition approve (origin : Origin) (who : AccountId) s : aresult AdmissionState :=
  ensure_origin foundation origin;;?
  require (bool_decide (Mode s = FoundationOnly)) WrongMode;;?
  require (negb (bool_decide (who ∈ Approved s))) AlreadyApproved;;?
  require (Z.of_nat (size (Approved s)) <? MaxAuthorities) TooManyAuthorities;;?
  Ok (emit (ApprovedEvent who) (s <| Approved $= ({[who]} ∪.) |>)).

Definition remove (origin : Origin) (who : AccountId) s : aresult AdmissionState :=
  ensure_origin foundation origin;;?
  require (bool_decide (Mode s = FoundationOnly)) WrongMode;;?
  require (bool_decide (who ∈ Approved s)) NotApproved;;?
  let s := s <| Approved $= (.∖ {[who]}) |> in
  w <-? some_or (on_removal (Approved s) (rest s)) RemovalFailed;;
  Ok (emit (RemovedEvent who) (s <| rest := w |>)).

Definition advance (origin : Origin) (mode : AdmissionMode) s : aresult AdmissionState :=
  match Mode s, mode with
  | FixedTestnet, FoundationOnly => ensure_origin foundation origin
  | FoundationOnly, PermissionlessEligibility =>
      ensure_signed origin;;?
      require (graduation_ready (rest s)) GraduationNotReady
  | _, _ => Err (Module InvalidTransition)
  end;;?
  Ok (emit (ModeAdvanced mode) (s <| Mode := mode |>)).

Definition dispatch_as_root (origin : Origin) (call : RuntimeCall) s : aresult AdmissionState :=
  ensure_origin foundation origin;;?
  rmap_err (fun reason => Module match reason with
    | Denied => RootCallDenied | DepthLimit => RootCallTooDeep | CallLimit => RootCallTooLarge end)
    (check call);;?
  let '(w, succeeded) := dispatch_root call (rest s) in
  Ok (emit (RootDispatched succeeded) (s <| rest := w |>)).

(** ** Properties *)

Definition mode_rank (m : AdmissionMode) : Z :=
  match m with FixedTestnet => 0 | FoundationOnly => 1 | PermissionlessEligibility => 2 end.

Inductive admission_call :=
  | CallApprove (who : AccountId) | CallRemove (who : AccountId) | CallAdvance (mode : AdmissionMode)
  | CallDispatchAsRoot (call : RuntimeCall).

Definition admission_dispatch (o : Origin) (c : admission_call) s : aresult AdmissionState :=
  match c with
  | CallApprove who => approve o who s
  | CallRemove who => remove o who s
  | CallAdvance mode => advance o mode s
  | CallDispatchAsRoot call => dispatch_as_root o call s
  end.

(** The admitted set respects its bound, the mode only advances, one step at a
    time, and permissionless mode is entered only on graduation. *)
Lemma admission_dispatch_inv o c s s' :
  Z.of_nat (size (Approved s)) <= MaxAuthorities -> admission_dispatch o c s = Ok s' ->
  Z.of_nat (size (Approved s')) <= MaxAuthorities /\
  mode_rank (Mode s) <= mode_rank (Mode s') <= mode_rank (Mode s) + 1 /\
  (Mode s <> Mode s' -> Mode s' = PermissionlessEligibility -> graduation_ready (rest s) = true) /\
  (Approved s' <> Approved s -> foundation o = true /\ Mode s = FoundationOnly).
Proof.
  intros Hb Hok. destruct c; simpl in Hok.
  - unfold approve in Hok. hinv. simpl. rewrite size_union by set_solver. rewrite size_singleton.
    split_and!; try (done || lia).
  - unfold remove in Hok. hinv. simpl. split_and!; try (done || lia).
    assert (size (Approved s ∖ {[who]}) <= size (Approved s))%nat by (apply subseteq_size; set_solver). lia.
  - unfold advance in Hok. hinv. simpl. destruct (Mode s), mode; simpl in *; hinv; split_and!; try (done || lia).
  - unfold dispatch_as_root in Hok. hinv. destruct (dispatch_root _ _). hinv. simpl. split_and!; (done || lia).
Qed.
End Admission.
