(* ===== verification/Governance.v ===== *)
(** * Who may do what

    The origins of [runtime/src/configs/validator_onboarding.rs]: the
    Foundation's two-thirds motion and its union with Root.  The collective
    pallet's [EnsureProportionAtLeast] is a class with its documented meaning. *)

From S2P Require Import Prelude Frame.

(** [EnsureProportionAtLeast<_, Instance1, N, D>] *)
Class EnsureProportion := ensure_proportion_at_least : Z -> Z -> Origin -> bool.

(** A motion of the collective passes when its yes votes are at least [n / d]
    of the seats; no other origin does. *)
Class EnsureProportionLaws `{EnsureProportion} :=
  ensure_proportion_spec : forall n d o,
    ensure_proportion_at_least n d o =
    match o with Collective (Members yes seats) => n * seats <=? d * yes | _ => false end.

Section Governance.
Context `{EnsureProportion}.

Definition FoundationOrigin (o : Origin) : bool := ensure_proportion_at_least 2 3 o.

(** [EitherOfDiverse<EnsureRoot, FoundationOrigin>] *)
Definition FoundationOrRoot (o : Origin) : bool :=
  match o with Root => true | _ => FoundationOrigin o end.

Context `{!EnsureProportionLaws}.

(** A motion carries exactly from two thirds of the seats. *)
Lemma FoundationOrigin_iff o :
  FoundationOrigin o = true <-> exists yes seats, o = Collective (Members yes seats) /\ 2 * seats <= 3 * yes.
Proof.
  unfold FoundationOrigin. rewrite ensure_proportion_spec. split.
  - destruct o as [| | |[yes seats|]]; try done. intros Hb%Z.leb_le. eauto.
  - intros (yes & seats & -> & Hle). by apply Z.leb_le.
Qed.

Lemma FoundationOrRoot_iff o : FoundationOrRoot o = true <-> o = Root \/ FoundationOrigin o = true.
Proof.
  assert (FoundationOrigin Root = false) as HR by (unfold FoundationOrigin; by rewrite ensure_proportion_spec).
  destruct o; simpl; split; intros Ho; auto; destruct Ho as [?|?]; congruence.
Qed.

(** Neither Root nor a single account is the Foundation. *)
Lemma FoundationOrigin_not_signed who : FoundationOrigin (Signed who) = false.
Proof. unfold FoundationOrigin. by rewrite ensure_proportion_spec. Qed.
Lemma FoundationOrigin_not_root : FoundationOrigin Root = false.
Proof. unfold FoundationOrigin. by rewrite ensure_proportion_spec. Qed.
End Governance.

(** The documented behaviour, as an instance. *)
Definition exact_proportion : EnsureProportion := fun n d o =>
  match o with Collective (Members yes seats) => n * seats <=? d * yes | _ => false end.
Lemma exact_proportion_laws : @EnsureProportionLaws exact_proportion.
Proof. intros n d o. done. Qed.
