(* ===== verification/RuntimeGuards.v ===== *)
(** * Policies of the runtime

    The filter of the custody proxies, the guard on runtime upgrades
    ([runtime/src/configs/mod.rs]), the council's default vote
    ([validator_onboarding.rs]) and the two migrations that initialise pallets
    added by an upgrade ([runtime/src/lib.rs], [slashing.rs]).  Reading the
    version of a code blob, installing it and minting are parameters. *)

From stdpp Require Import strings.
From S2P Require Import Prelude Frame RuntimeParams Admission.

Open Scope Z_scope.

(** ** Custody proxies *)

Inductive ProxyType := Any | TransferOnly.
#[global] Instance ProxyType_eq_dec : EqDecision ProxyType.
Proof. solve_decision. Defined.

Definition proxy_filter (p : ProxyType) (call : RuntimeCall) : bool :=
  match p with
  | Any => true
  | TransferOnly =>
      match call with
      | BalancesTransferAllowDeath | BalancesTransferKeepAlive | BalancesTransferAll => true
      | _ => false
      end
  end.

Definition is_superset (p other : ProxyType) : bool := bool_decide (p = Any) || bool_decide (p = other).

(** A restricted proxy reaches no nested call, hence nothing administrative
    behind one. *)
Lemma transfer_only_confined call n c :
  proxy_filter TransferOnly call = true -> inside n c call ->
  c = call /\ n = 0%nat /\ forbidden c = false.
Proof.
  intros Hf Hin. destruct call; try done; inversion Hin as [|m c' child call' Hch]; subst; try done;
    by apply not_elem_of_nil in Hch.
Qed.

(** [is_superset] is the order of permissions: a partial order under which a
    larger type permits what a smaller one does. *)
Lemma is_superset_permits p q call : is_superset p q = true -> proxy_filter q call = true -> proxy_filter p call = true.
Proof. by destruct p, q. Qed.

Lemma is_superset_exact p q : is_superset p q = true <-> forall call, proxy_filter q call = true -> proxy_filter p call = true.
Proof.
  split; [intros Hs call; by apply is_superset_permits|]. destruct p, q; cbn; try done.
  intros Hall. by specialize (Hall (OtherCall 0) eq_refl).
Qed.

(** ** Runtime upgrades *)

Inductive UpgradeError := RUNTIME_IDENTITY_MISMATCH | SetCodeError (code : Z).

Section Upgrade.
Context {W : Type} (runtime_version : list Z -> option (list Z)) (decode_spec_name : list Z -> option string).
Context (spec_name : string) (set_code_unchecked : list Z -> W -> result UpgradeError W).

(** [NetworkIdentityGuard::set_code] *)
Definition guarded_set_code (code : list Z) (w : W) : result UpgradeError W :=
  match runtime_version code ≫= decode_spec_name with
  | Some name =>
      if negb (bool_decide (name = spec_name)) then Err RUNTIME_IDENTITY_MISMATCH else set_code_unchecked code w
  | None => set_code_unchecked code w
  end.

(** No code that names another network is ever installed. *)
Lemma guarded_set_code_identity code w w' v name :
  guarded_set_code code w = Ok w' -> runtime_version code = Some v -> decode_spec_name v = Some name -> name = spec_name.
Proof. unfold guarded_set_code. intros Hok Hv Hn. rewrite Hv in Hok. cbn in Hok. rewrite Hn in Hok. by case_bool_decide. Qed.
End Upgrade.

(** ** The council's default vote *)

(** [AbstentionsAlwaysNo] *)
Definition default_vote (prime_vote : option bool) (yes_votes no_votes len : Z) : bool := false.

(** ** Migrations *)

Section Migrations.
Context {W : Type} (account_exists : W -> AccountId -> bool) (mint_into : W -> AccountId -> Balance -> option W).
Context (revive_account : AccountId).

(** [InitializeReviveAccount] *)
Definition initialize_revive_account {E} (w : W) : result E W :=
  if account_exists w revive_account then Ok w else
  match mint_into w revive_account Params.EXISTENTIAL_DEPOSIT with Some w => Ok w | None => Panic end.

(** Run again it does nothing, as long as minting creates the account. *)
Lemma initialize_revive_account_idempotent {E} w w' :
  (forall w w', mint_into w revive_account Params.EXISTENTIAL_DEPOSIT = Some w' -> account_exists w' revive_account = true) ->
  @initialize_revive_account E w = Ok w' -> @initialize_revive_account E w' = Ok w'.
Proof.
  unfold initialize_revive_account. intros Hmint. destruct (account_exists w revive_account) eqn:He.
  - intros [= <-]. by rewrite He.
  - destruct (mint_into _ _ _) as [w1|] eqn:Hm; [|done]. intros [= <-]. by rewrite (Hmint _ _ Hm).
Qed.
End Migrations.

(** [InitializeOffences], on the storage version of the offences pallet. *)
Definition initialize_offences (version : Z) : Z := if version =? 0 then 1 else version.
