(* ===== verification/RuntimeIdentity.v ===== *)
(** * What a transaction and an upgrade name

    Models the [VERSION] constants of the two runtimes ([runtime/src/lib.rs]
    and [runtime-testnet/src/lib.rs], which differ in the name only) with the
    guard on installing code, and the tuple of transaction extensions that
    [runtime/src/lib.rs] builds for native and for Ethereum transactions. *)

From stdpp Require Import strings.
From S2P Require Import Prelude Frame RuntimeParams Admission RuntimeGuards.

Open Scope Z_scope.

(** ** Versions *)

(** [RuntimeVersion], without the table of API versions. *)
Record RuntimeVersion := mkRuntimeVersion {
  spec_name : string;
  impl_name : string;
  authoring_version : Z;
  spec_version : Z;
  impl_version : Z;
  transaction_version : Z;
  system_version : Z
}.

Definition MAINNET_VERSION : RuntimeVersion := mkRuntimeVersion "quip" "quip" 1 120 1 7 1.
Definition TESTNET_VERSION : RuntimeVersion := mkRuntimeVersion "quip-testnet" "quip" 1 120 1 7 1.

Section Identity.
Context {W : Type} (runtime_version : list Z -> option (list Z)) (decode_spec_name : list Z -> option string).
Context (set_code_unchecked : list Z -> W -> result UpgradeError W).
#[local] Abbreviation set_code own := (guarded_set_code runtime_version decode_spec_name (spec_name own) set_code_unchecked).

(** Neither network installs the other's code; each still installs its own, and
    code whose version cannot be read, as the unchecked path does. *)
Lemma networks_refuse_each_other own other code w v :
  (own, other) ∈ [(MAINNET_VERSION, TESTNET_VERSION); (TESTNET_VERSION, MAINNET_VERSION)] ->
  runtime_version code = Some v ->
  (decode_spec_name v = Some (spec_name other) -> set_code own code w = Err RUNTIME_IDENTITY_MISMATCH) /\
  (decode_spec_name v = Some (spec_name own) \/ decode_spec_name v = None -> set_code own code w = set_code_unchecked code w).
Proof.
  intros Hpair Hv. unfold guarded_set_code. rewrite Hv. cbn [mbind option_bind].
  assert (spec_name other <> spec_name own) as Hne.
  { rewrite !elem_of_cons in Hpair. destruct Hpair as [[= -> ->]|[[= -> ->]|[]%not_elem_of_nil]]; discriminate. }
  split; [intros ->; by rewrite bool_decide_false|]. intros [->| ->]; [by rewrite bool_decide_true|done].
Qed.
End Identity.

(** ** Transaction extensions *)

(** [generic::Era] *)
Inductive Era := Immortal | Mortal (period phase : Z).

(** The members of [TxExtension], each with what it is built from; the origin
    extension tells whether Revive recovered the signer. *)
Inductive Extension :=
  | AuthorizeCall | CheckNonZeroSender | CheckSpecVersion | CheckTxVersion | CheckGenesis
  | CheckEra (era : Era) | CheckNonce (nonce : Z) | CheckWeight | ChargeTransactionPayment (tip : Balance)
  | CheckMetadataHash (enabled : bool) | SetOrigin (from_eth : bool) | WeightReclaim.

Definition tx_extension (era : Era) (nonce : Z) (tip : Balance) (revive_origin : bool) : list Extension :=
  [AuthorizeCall; CheckNonZeroSender; CheckSpecVersion; CheckTxVersion; CheckGenesis; CheckEra era; CheckNonce nonce;
   CheckWeight; ChargeTransactionPayment tip; CheckMetadataHash false; SetOrigin revive_origin; WeightReclaim].

Definition native_tx_extension (era : Era) (nonce : Z) (tip : Balance) : list Extension := tx_extension era nonce tip false.

(** [EthExtraImpl::get_eth_extension] *)
Definition get_eth_extension (nonce : Z) (tip : Balance) : list Extension := tx_extension Immortal nonce tip true.

(** The two kinds of transaction go through the same checks: an Ethereum
    transaction's are an immortal native one's with the origin replaced; and
    what a signer chose can be read off the tuple. *)
Lemma eth_extension_native nonce tip :
  get_eth_extension nonce tip = <[10%nat := SetOrigin true]> (native_tx_extension Immortal nonce tip).
Proof. done. Qed.

Lemma tx_extension_inj era nonce tip o era' nonce' tip' o' :
  tx_extension era nonce tip o = tx_extension era' nonce' tip' o' -> (era, nonce, tip, o) = (era', nonce', tip', o').
Proof. unfold tx_extension. congruence. Qed.
