(* ===== verification/ElectionRound.v ===== *)
(** * Election rounds: who starts, consumes and invalidates them

    Models [runtime/src/configs/election.rs]: the removal hook
    [InvalidateAdmissionRound], the election provider
    [AdmissionMultiBlockElection] and the [ElectionScheduler] with its
    compile-time integrity test.  The SDK's multi-block election pallet is the
    class [MultiBlock], with its documented behaviour in [MultiBlockLaws]; the
    staking pallet's session manager is a parameter. *)

From S2P Require Import Prelude Frame RuntimeParams Admission.

#[local] Set Warnings "-register-all".

(** ** The multi-block election pallet *)

(** [multi_block::Phase], as far as the runtime inspects it. *)
Inductive Phase := Snapshot (page : Z) | UnsignedPhase (left : Z) | OtherPhase.

Inductive ElectionError := SnapshotNotReady | UnsignedJustOpened | WinnerNotAdmitted | PalletError (code : Z).

(** A winner with its backing. *)
Abbreviation Supports := (list (AccountId * Z)) (only parsing).

(** The pallet's errors are numbers here. *)
Class MultiBlock (M : Type) := {
  (** [CurrentPhase::get()] *)
  current_phase : M -> Phase;
  (** [status()]: [None] is [Err(())] *)
  round_status : M -> option (option Z);
  (** [manage(Root, ForceRotateRound)] *)
  force_rotate : M -> option M;
  (** [start()] *)
  start_round : M -> result Z M;
  (** [elect(page)] *)
  elect_page : Z -> M -> M * result Z Supports;
  (** [duration()] *)
  round_duration : Z;
  (** the pallet's work in one block *)
  poll : M -> M
}.

(** The blocks of a round: the snapshot's polls and the phases. *)
Definition round_blocks : Z :=
  sat_u 32 (sat_u 32 (sat_u 32 (sat_u 32 (Params.Pages + 1) + Params.SignedPhase) + Params.SignedValidationPhase)
            + Params.UnsignedPhase).

(** [status] tells whether a round is running; a round starts when none is,
    with its snapshot; rotating ends it; exporting the only page rotates; and a
    started round that is only polled keeps running, and has passed its snapshot
    and unsigned phases after as many blocks as they have. *)
Class MultiBlockLaws (M : Type) `{MultiBlock M} := {
  start_when_off : forall m, round_status m = None ->
    exists m' page, start_round m = Ok m' /\ is_Some (round_status m') /\ current_phase m' = Snapshot page;
  rotate_ends : forall m, exists m', force_rotate m = Some m' /\ round_status m' = None;
  export_ends : forall m m' supports, elect_page 0 m = (m', Ok supports) -> round_status m' = None;
  polled_running : forall m m' n, start_round m = Ok m' -> is_Some (round_status (Nat.iter n poll m'));
  polled_past_phases : forall m m' n, start_round m = Ok m' -> round_blocks <= Z.of_nat n ->
    current_phase (Nat.iter n poll m') = OtherPhase
}.

Inductive Forcing := NotForcing | ForceNew | ForceNone | ForceAlways.
#[global] Instance Forcing_eq_dec : EqDecision Forcing.
Proof. solve_decision. Defined.

Section Round.
Context {M : Type} `{MultiBlock M}.

(** The staking and session storage the runtime reads, and the election
    pallet's state. *)
Record Chain := mkChain {
  mbe : M;
  ForceEra : Forcing;
  CurrentEra : option Z;
  ErasStartSessionIndex : gmap Z Z;
  CurrentIndex : Z
}.
#[export] Instance Chain_expansion : Expansion Chain := fun c =>
  mkChain (mbe c) (ForceEra c) (CurrentEra c) (ErasStartSessionIndex c) (CurrentIndex c).
Implicit Types c : Chain.

(** [InvalidateAdmissionRound::on_removal] *)
Definition on_removal c : option Chain :=
  if bool_decide (is_Some (round_status (mbe c))) then
    m ← force_rotate (mbe c);
    let c := c <| mbe := m |> in
    if negb (bool_decide (ForceEra c = ForceNone)) then
      m ← rok (start_round (mbe c));
      Some (c <| mbe := m |>)
    else Some c
  else Some c.

(** [AdmissionMultiBlockElection::elect], on the approved set at the time of
    the call.  What it stores stays also when it returns an error. *)
Definition elect_ready (approved : gset AccountId) (page : Z) c : Chain * result ElectionError Supports :=
  let '(m, r) := elect_page page (mbe c) in
  let c := c <| mbe := m |> in
  match r with
  | Err e => (c, Err (PalletError e))
  | Panic => (c, Panic)
  | Ok supports =>
      if existsb (fun s : AccountId * Z => negb (bool_decide (s.1 ∈ approved))) supports then
        match start_round (mbe c) with
        | Ok m => (c <| mbe := m |>, Err WinnerNotAdmitted)
        | Err e => (c, Err (PalletError e))
        | Panic => (c, Panic)
        end
      else (c, Ok supports)
  end.

Definition elect (approved : gset AccountId) (page : Z) c : Chain * result ElectionError Supports :=
  match current_phase (mbe c) with
  | Snapshot _ => (c, Err SnapshotNotReady)
  | UnsignedPhase remaining =>
      if sat_u 32 (Params.UnsignedPhase - 1) <=? remaining then (c, Err UnsignedJustOpened)
      else elect_ready approved page c
  | OtherPhase => elect_ready approved page c
  end.

(** [start], [status] and [duration] of the provider. *)
Definition provider_start c : result ElectionError Chain :=
  m <-? rmap_err PalletError (start_round (mbe c));; Ok (c <| mbe := m |>).
Definition provider_status c : option (option Z) := round_status (mbe c).
Definition provider_duration : Z := round_duration.

(** [ElectionScheduler::maybe_start] *)
Definition era_start c : Z := default 0 (CurrentEra c ≫= fun era => ErasStartSessionIndex c !! era).

Definition due c : bool :=
  (Params.PlanningSession <=? sat_u 32 (CurrentIndex c - era_start c)) ||
  bool_decide (ForceEra c = ForceNew \/ ForceEra c = ForceAlways).

Definition maybe_start c : Chain :=
  if bool_decide (ForceEra c = ForceNone) then
    if bool_decide (is_Some (round_status (mbe c))) then
      match force_rotate (mbe c) with Some m => c <| mbe := m |> | None => c end
    else c
  else if due c && bool_decide (round_status (mbe c) = None) then
    match start_round (mbe c) with Ok m => c <| mbe := m |> | _ => c end
  else c.

(** [SessionManager for ElectionScheduler] over the historical staking
    manager. *)
Context (staking_new_session staking_new_session_genesis : Z -> Chain -> Chain * option (list AccountId)).
Context (staking_start_session staking_end_session : Z -> Chain -> Chain).

Definition new_session (new_index : Z) c : Chain * option (list AccountId) :=
  let '(c, validators) := staking_new_session new_index c in
  (maybe_start c, validators).
Definition new_session_genesis (new_index : Z) c : Chain * option (list AccountId) :=
  staking_new_session_genesis new_index c.
Definition start_session (start_index : Z) c : Chain := staking_start_session start_index c.
Definition end_session (end_index : Z) c : Chain := staking_end_session end_index c.

(** ** Properties *)

Context `{!MultiBlockLaws M}.

Definition running c : Prop := is_Some (round_status (mbe c)).

#[global] Instance running_dec c : Decision (running c).
Proof. unfold running. apply _. Defined.

(** The removal hook always succeeds, and what it leaves is no round or a new
    one that has yet to take its snapshot. *)
Lemma on_removal_fresh c :
  exists c', on_removal c = Some c' /\
    (round_status (mbe c') = None \/ exists page, current_phase (mbe c') = Snapshot page) /\
    (ForceEra c <> ForceNone -> running c -> running c') /\
    ForceEra c' = ForceEra c.
Proof.
  unfold on_removal, running. case_bool_decide as Hr.
  - destruct (rotate_ends (mbe c)) as (m & -> & Hm). simpl. case_bool_decide as Hf; simpl.
    + eexists. split; [done|]. simpl. split_and!; [by left|done|done].
    + destruct (start_when_off m Hm) as (m' & page & -> & Hs & Hp). simpl.
      eexists. split; [done|]. simpl. split_and!; [right; by exists page|done|done].
  - eexists. split; [done|]. split_and!; [|done|done].
    destruct (round_status (mbe c)); [destruct Hr; eauto|by left].
Qed.

(** A returned set of winners is admitted, and its round is over. *)
Lemma elect_admitted approved c c' supports :
  elect approved 0 c = (c', Ok supports) ->
  (forall who backing, (who, backing) ∈ supports -> who ∈ approved) /\ ~ running c' /\
  ~ (exists page, current_phase (mbe c) = Snapshot page) /\
  ForceEra c' = ForceEra c.
Proof.
  assert (forall c', elect_ready approved 0 c = (c', Ok supports) ->
    (forall who backing, (who, backing) ∈ supports -> who ∈ approved) /\ ~ running c' /\ ForceEra c' = ForceEra c) as Hready.
  { intros c1. unfold elect_ready, running. destruct (elect_page 0 (mbe c)) as [m r] eqn:He.
    destruct r as [sup|e|]; [|done|done]. destruct (existsb _ sup) eqn:Hx; [by repeat case_match|].
    intros [= <- <-]. simpl. split_and!; [|by rewrite (export_ends _ _ _ He); intros []|done].
    intros who b Hin. destruct (decide (who ∈ approved)); [done|].
    assert (existsb (fun s : AccountId * Z => negb (bool_decide (s.1 ∈ approved))) sup = true); [|congruence].
    apply existsb_exists. exists (who, b). split; [by apply list_elem_of_In|]. simpl. by rewrite bool_decide_eq_false_2. }
  unfold elect. destruct (current_phase (mbe c)); [done|case_match; [done|]|];
    intros (? & ? & ?)%Hready; split_and!; try done; by intros [].
Qed.

(** A failed election that found a removed winner has started the next round. *)
Lemma elect_stale_restarts approved c c' :
  elect approved 0 c = (c', Err WinnerNotAdmitted) ->
  exists p, current_phase (mbe c') = Snapshot p /\ running c'.
Proof.
  intros He. assert (elect_ready approved 0 c = (c', Err WinnerNotAdmitted)) as Hr.
  { unfold elect in He. by destruct (current_phase (mbe c)); [|case_match|]. }
  clear He. unfold elect_ready in Hr. destruct (elect_page 0 (mbe c)) as [m r] eqn:Hp.
  destruct r as [sup|e|]; [|done|done]. destruct (existsb _ sup); [|done]. simpl in Hr.
  destruct (start_when_off m (export_ends _ _ _ Hp)) as (m' & p & Hs & Hst & Hph).
  rewrite Hs in Hr. injection Hr as <-. exists p. done.
Qed.

(** The scheduler never leaves a due election without a round, and never
    disturbs a running one unless eras are paused. *)
Lemma maybe_start_runs c : ForceEra c <> ForceNone -> due c = true -> running (maybe_start c).
Proof.
  intros Hf Hd. unfold maybe_start, running. rewrite bool_decide_eq_false_2, Hd by done. simpl.
  case_bool_decide as Hs.
  - destruct (start_when_off (mbe c) Hs) as (m & p & -> & Hm & _). done.
  - destruct (round_status (mbe c)); [by eexists|done].
Qed.

Lemma maybe_start_keeps c : ForceEra c <> ForceNone -> running c -> maybe_start c = c.
Proof.
  intros Hf [x Hr]. unfold maybe_start. rewrite bool_decide_eq_false_2 by done.
  rewrite Hr, (bool_decide_eq_false_2 (Some x = None)), andb_false_r by done. done.
Qed.

Lemma maybe_start_pauses c : ForceEra c = ForceNone -> ~ running (maybe_start c).
Proof.
  intros Hf. unfold maybe_start, running. rewrite bool_decide_eq_true_2 by done. case_bool_decide as Hr; [|done].
  destruct (rotate_ends (mbe c)) as (m & -> & Hm). simpl. rewrite Hm. by intros [].
Qed.

(** *** A stretch of blocks and session rotations *)

Inductive window_event := Block | Rotation (new_index : Z).

Definition window_step c (e : window_event) : Chain :=
  match e with
  | Block => c <| mbe $= poll |>
  | Rotation new_index => (new_session new_index c).1
  end.

Definition blocks_of (es : list window_event) : nat :=
  length (filter (fun e => match e with Block => true | Rotation _ => false end = true) es).

(** Staking leaves the election alone in a rotation that is not the era's
    last. *)
Definition quiet (e : window_event) : Prop :=
  match e with
  | Block => True
  | Rotation new_index => forall c,
      mbe (staking_new_session new_index c).1 = mbe c /\ ForceEra (staking_new_session new_index c).1 = ForceEra c
  end.

Lemma window_polls m0 m es c k :
  start_round m0 = Ok m -> mbe c = Nat.iter k poll m -> ForceEra c <> ForceNone -> Forall quiet es ->
  mbe (foldl window_step c es) = Nat.iter (k + blocks_of es) poll m /\
  ForceEra (foldl window_step c es) <> ForceNone.
Proof.
  intros Hst. revert c k; induction es as [|e es IH]; intros c k Hm Hf Hq; simpl.
  { by rewrite Nat.add_0_r. }
  apply Forall_cons in Hq as [Hq0 Hq]. unfold blocks_of. rewrite filter_cons. destruct e as [|idx]; simpl.
  - rewrite Nat.add_succ_r. apply (IH _ (S k)); [simpl; by rewrite Hm|done|done].
  - destruct (Hq0 c) as [Hmbe Hforce]. unfold new_session.
    destruct (staking_new_session idx c) as [c1 vals]; simpl in *.
    assert (maybe_start c1 = c1) as ->.
    { apply maybe_start_keeps; [congruence|]. unfold running. rewrite Hmbe, Hm. by eapply polled_running. }
    apply IH; [congruence|congruence|done].
Qed.

(** The round a scheduler call started is ready for export once it has been
    polled for the blocks of its phases. *)
Lemma started_round_ready c es :
  ForceEra c <> ForceNone -> due c = true -> ~ running c -> Forall quiet es ->
  round_blocks <= Z.of_nat (blocks_of es) ->
  let c' := foldl window_step (maybe_start c) es in
  running c' /\ forall approved, elect approved 0 c' = elect_ready approved 0 c'.
Proof.
  intros Hf Hd Hr Hq Hn. unfold maybe_start. rewrite bool_decide_eq_false_2, Hd by done. simpl.
  assert (round_status (mbe c) = None) as Hs by (destruct (round_status (mbe c)) eqn:E; [by destruct Hr; exists o|done]).
  rewrite bool_decide_eq_true_2 by done. destruct (start_when_off (mbe c) Hs) as (m & p & Hst & _).
  rewrite Hst. destruct (window_polls _ m es (c <| mbe := m |>) 0 Hst) as [Hm _]; [done|done|done|].
  simpl in Hm. unfold running, elect. rewrite Hm, (polled_past_phases _ _ _ Hst Hn).
  split; [by eapply polled_running|done].
Qed.
End Round.

(** ** The integrity test *)

(** [assert_planning_window] *)
Definition planning_window `{NetworkParams} : Z :=
  let deadline := sat_u 32 (Params.SessionsPerEra - 1) in
  sat_u 64 (sat_u 32 (deadline - Params.PlanningSession) * Params.EpochDuration).

Definition assert_planning_window `{NetworkParams} (round_blocks : Z) : bool :=
  let deadline := sat_u 32 (Params.SessionsPerEra - 1) in
  (Params.PlanningSession <? deadline) &&
  (sat_u 64 (round_blocks + Params.MinimumElectionSlack) <=? planning_window).

Definition integrity_test `{NetworkParams} : bool :=
  (Params.Pages =? 1) && ((Params.SignedPhase =? 0) && (Params.SignedValidationPhase =? 0)) &&
  (2 <=? Params.UnsignedPhase) &&
  (sat_u 32 (Params.TargetSnapshotPerBlock + Params.MaxNominators) <=? Params.VoterSnapshotPerBlock) &&
  assert_planning_window round_blocks.

Lemma integrity_mainnet : @integrity_test mainnet_params = true.
Proof. reflexivity. Qed.

Lemma integrity_testnet : @integrity_test testnet_params = true.
Proof. reflexivity. Qed.

(** What the test buys: a round started at the planning session is over before
    the election as long as no more slots of the window are missed than the
    slack. *)
Lemma integrity_window `{NetworkParams} blocks missed :
  integrity_test = true -> in_u 32 Params.MinimumElectionSlack ->
  blocks + missed = planning_window -> missed <= Params.MinimumElectionSlack -> round_blocks <= blocks.
Proof.
  unfold integrity_test, assert_planning_window. unfold in_u. intros Hi Hs Hb Hm. bool_to_prop.
  assert (0 <= round_blocks) by (vm_compute; discriminate).
  assert (round_blocks < 2 ^ 32) by reflexivity.
  match goal with H : sat_u 64 _ <= _ |- _ => unfold sat_u at 1 in H end.
  assert (planning_window <= 2 ^ 64 - 1) by (unfold planning_window, sat_u; lia). lia.
Qed.
