(* ===== verification/GenesisPresets.v ===== *)
(** * Genesis presets

    Models [runtime/src/genesis_config_presets.rs]: the genesis patch every
    preset is built from, with its assertions, the local and testnet presets,
    and the checks that guard the export of a mainnet genesis.  The patch is
    the record [RuntimeGenesis]; its JSON text is not modelled.  Key derivation
    from seeds and the operators' public keys come from outside
    ([GenesisKeys]). *)

From stdpp Require Import strings.
From S2P Require Import Prelude Frame RuntimeParams Emission Faucet Admission MainnetAllocation.

Open Scope Z_scope.

(** BABE and GRANDPA keys are numbers. *)
Abbreviation Authority := (AccountId * Z * Z)%type (only parsing).

Class GenesisKeys := {
  tx_account_from_seed : string -> AccountId;
  babe_authority_from_seed : string -> Z;
  grandpa_authority_from_seed : string -> Z;
  (** [Sr25519Keyring::iter()] without [One] and [Two], as seeds *)
  keyring_seeds : list string;
  (** the seeds of the keyring in both spellings, in order *)
  dev_seeds : list string;
  (** the keys in [genesis_quip_testnet/operator_N_*.hex] *)
  operator_babe : nat -> Z;
  operator_grandpa : nat -> Z
}.

Definition VALIDATOR_BOND : Balance := 2000 * Params.UNIT.
Definition TEST_CURRENCY_ENDOWMENT : Balance := Z.shiftl 1 60.
Definition MAINNET_CHAIN_ID : Z := 20049.
Definition MAINNET_COUNCIL_PLACEHOLDERS : list string :=
  ["Rick"; "Colton"; "Vik"; "Roman"; "David"; "BVI Admin"]%string.
Definition MAINNET_VALIDATOR_FLOAT : option Balance := Some (10 * Params.UNIT).
Definition MAINNET_COUNCIL_FLOAT : option Balance := Some (10 * Params.UNIT).
Definition MAINNET_SPEC_BUILDER_FLOAT : option Balance := Some (10 * Params.UNIT).
Definition TESTNET_RELAUNCH_FAUCET_BUDGET : Balance := 1000000000 * Params.UNIT.
Definition ISING_SUBNET : Z := 0.
Definition QVRF_SUBNET : Z := 1.

Inductive KeyKind := StashKey | BabeKey | GrandpaKey.
Inductive KeySource := TestnetOperator | DevKeyring.

Inductive GenesisError :=
  | CouncilIsOperator
  | PlaceholdersMismatch | UnresolvedCouncil (labels : list string) | WrongSeats | BuilderNotDedicated
  | UnresolvedPlaceholder | SessionKeysTBD (validator : nat) | DuplicateSessionKey
  | FloatTBD (name : string) | FloatUnusable (name : string) | BondOverflows | AllocationFailed (e : AllocationError)
  | WrongEndowments | WrongCustodyEndowment | ReservedEndowed | TestEndowment | UnusableEndowment
  | IssuanceOverflows | FaucetNotDisabled | KeyReused (validator : nat) (kind : KeyKind) (source : KeySource)
  | RelaunchCouncilTBD | RelaunchDuplicateSeat | RelaunchPlaceholder.

Abbreviation gresult := (result GenesisError).

(** ** The genesis patch *)

Record RuntimeGenesis := mkRuntimeGenesis {
  foundation_members : list AccountId;
  admission_mode : AdmissionMode;
  approved : list AccountId;
  validator_count : Z;
  minimum_validator_count : Z;
  max_validator_count : option Z;
  max_nominator_count : option Z;
  min_validator_bond : Balance;
  min_nominator_bond : Balance;
  stakers : list (AccountId * AccountId * Balance);
  chain_id : Z;
  balances : list (AccountId * Balance);
  session_keys : list (AccountId * AccountId * (Z * Z));
  default_ising_spec_builder : option AccountId;
  faucet_state : FaucetState;
  faucet_authority_config : option AccountId;
  emission_enabled : bool;
  emission_start_at : option Z;
  emission_routes : list (Z * Z);
  faucet_budget : Balance
}.

Record GenesisRoles := mkGenesisRoles {
  role_foundation_members : list AccountId;
  role_faucet_authority : AccountId;
  role_ising_spec_builder : AccountId;
  require_council_disjoint : bool
}.

Record GenesisFunding := mkGenesisFunding {
  funding_balances : list (AccountId * Balance);
  funding_faucet_state : FaucetState;
  funding_faucet_authority : option AccountId;
  funding_faucet_budget : Balance
}.

Definition assert_council_disjoint (council operators : list AccountId) (require : bool) : gresult unit :=
  if negb require then Ok tt else
  match head (filter (fun who => who ∈ operators) council) with
  | Some _ => Err CouncilIsOperator
  | None => Ok tt
  end.

(** [assert!] *)
Definition assert (b : bool) : gresult unit := if b then Ok tt else Panic.

(** [collect::<BTreeSet<_>>().len()] *)
Definition distinct (l : list AccountId) : nat := size (list_to_set l : gset AccountId).

Definition network_genesis (initial_authorities : list Authority) (funding : GenesisFunding) (roles : GenesisRoles)
    (chain_id minimum_validator_count : Z) : gresult RuntimeGenesis :=
  assert (negb (bool_decide (length initial_authorities = 0%nat)) && (zlen initial_authorities <=? 32));;?
  assert ((1 <=? minimum_validator_count) && (minimum_validator_count <=? wrap_u 32 (zlen initial_authorities)));;?
  let approved := initial_authorities.*1.*1 in
  assert (bool_decide (distinct approved = length approved));;?
  assert (forallb (fun who => existsb (fun e : AccountId * Balance => (e.1 =? who) && (VALIDATOR_BOND <? e.2))
                                (funding_balances funding)) approved);;?
  assert (bool_decide (distinct (funding_balances funding).*1 = length (funding_balances funding)));;?
  assert (negb (bool_decide (length (role_foundation_members roles) = 0%nat)));;?
  assert (bool_decide (distinct (role_foundation_members roles) = length (role_foundation_members roles)));;?
  match assert_council_disjoint (role_foundation_members roles) approved (require_council_disjoint roles) with
  | Ok _ => Ok tt | _ => Panic end;;?
  assert (zlen (role_foundation_members roles) <=? 32);;?
  Ok {| foundation_members := role_foundation_members roles;
        admission_mode := FoundationOnly;
        approved := approved;
        validator_count := wrap_u 32 (zlen approved);
        minimum_validator_count := minimum_validator_count;
        max_validator_count := None;
        max_nominator_count := Some Params.MaxNominators;
        min_validator_bond := 2000 * Params.UNIT;
        min_nominator_bond := 10 * Params.UNIT;
        stakers := (fun who => (who, who, 2000 * Params.UNIT)) <$> approved;
        chain_id := chain_id;
        balances := funding_balances funding;
        session_keys := (fun a : Authority => (a.1.1, a.1.1, (a.1.2, a.2))) <$> initial_authorities;
        default_ising_spec_builder := Some (role_ising_spec_builder roles);
        faucet_state := funding_faucet_state funding;
        faucet_authority_config := funding_faucet_authority funding;
        emission_enabled := true;
        emission_start_at := None;
        emission_routes := [(ISING_SUBNET, BILLION / 2); (QVRF_SUBNET, BILLION / 2)];
        faucet_budget := funding_faucet_budget funding |}.

Definition testnet_genesis (initial_authorities : list Authority) (endowed_accounts : list AccountId)
    (roles : GenesisRoles) (chain_id minimum_validator_count : Z) : gresult RuntimeGenesis :=
  network_genesis initial_authorities
    (mkGenesisFunding ((fun a => (a, TEST_CURRENCY_ENDOWMENT)) <$> endowed_accounts)
       FaucetEnabled (Some (role_faucet_authority roles)) (1000000000 * Params.UNIT))
    roles chain_id minimum_validator_count.

(** ** Mainnet *)

Record MainnetValidator := mkMainnetValidator { stash : AccountId; validator_keys : option (Z * Z) }.

Record MainnetInputs := mkMainnetInputs {
  council : list AccountId;
  council_placeholders : list string;
  validators : list MainnetValidator;
  spec_builder : AccountId;
  validator_float : option Balance;
  council_float : option Balance;
  spec_builder_float : option Balance;
  allocation : MainnetAllocation
}.

Definition resolved_float (value : option Balance) (name : string) : gresult Balance :=
  value <-? ok_or value (FloatTBD name);;
  if (value =? 0) || (value <? Params.EXISTENTIAL_DEPOSIT) then Err (FloatUnusable name) else Ok value.

Definition validate_session_keys (authorities : list Authority) : gresult unit :=
  if negb (bool_decide (distinct authorities.*1.*2 = length authorities)) ||
     negb (bool_decide (distinct authorities.*2 = length authorities))
  then Err DuplicateSessionKey else Ok tt.

(** ** The testnet operators *)

Section Presets.
Context `{GenesisHashes, GenesisKeys}.

Definition quip_testnet_authorities : list Authority :=
  [(0xc5c1e685e181d2939fddaf43e61455c0f00a99d2716d59b1f90674e5c0292510, operator_babe 1, operator_grandpa 1);
   (0x40f5f2aeab073dfa95c96e48eba57b4afbdd2d118ff4acf60987a8c8bf8bf32b, operator_babe 2, operator_grandpa 2);
   (0xd88854de054c7534450cddace65332a98d12ba06ff3adb39f9ad40f129b37aa7, operator_babe 3, operator_grandpa 3)].

Definition forbidden_keys : list (KeySource * Authority) :=
  ((fun keys => (TestnetOperator, keys)) <$> quip_testnet_authorities) ++
  ((fun seed => (DevKeyring, (tx_account_from_seed seed, babe_authority_from_seed seed, grandpa_authority_from_seed seed)))
     <$> dev_seeds).

Definition collision (a forbidden : Authority) : option KeyKind :=
  if a.1.1 =? forbidden.1.1 then Some StashKey
  else if a.1.2 =? forbidden.1.2 then Some BabeKey
  else if a.2 =? forbidden.2 then Some GrandpaKey else None.

Definition validate_mainnet_network_keys (authorities : list Authority) : gresult unit :=
  rfold (fun _ (f : KeySource * Authority) =>
    rfold (fun _ (a : nat * Authority) =>
      match collision a.2 f.2 with
      | Some kind => Err (KeyReused (a.1 + 1) kind f.1)
      | None => Ok tt
      end) tt (imap pair authorities)) tt forbidden_keys.

Definition validate_mainnet_funding (funding : GenesisFunding) (validators council : list AccountId)
    (builder custody : AccountId) (allocation_total : Balance) : gresult unit :=
  let expected : gset AccountId := list_to_set (validators ++ council ++ [builder] ++ [custody]) in
  let actual : gset AccountId := list_to_set (funding_balances funding).*1 in
  let bal := funding_balances funding in
  ensure (negb (negb (bool_decide (size expected = 13%nat)) || negb (bool_decide (size actual = length bal)) ||
                negb (bool_decide (actual = expected)))) WrongEndowments;;?
  ensure (negb (existsb (fun e : AccountId * Balance => (e.1 =? custody) && negb (e.2 =? allocation_total)) bal))
    WrongCustodyEndowment;;?
  let reserved := reserved_mainnet_accounts in
  ensure (negb (existsb (fun e : AccountId * Balance => bool_decide (e.1 ∈ reserved)) bal)) ReservedEndowed;;?
  ensure (negb (existsb (fun e : AccountId * Balance => e.2 =? TEST_CURRENCY_ENDOWMENT) bal)) TestEndowment;;?
  ensure (negb (existsb (fun e : AccountId * Balance => (e.2 <? Params.EXISTENTIAL_DEPOSIT) ||
      (bool_decide (e.1 ∈ validators) && (e.2 <=? VALIDATOR_BOND))) bal)) UnusableEndowment;;?
  rfold (fun total (e : AccountId * Balance) => ok_or (checked_u 128 (total + e.2)) IssuanceOverflows)
    Params.EXISTENTIAL_DEPOSIT bal;;?
  ensure (negb (negb (bool_decide (funding_faucet_state funding = PermanentlyDisabled)) ||
      bool_decide (is_Some (funding_faucet_authority funding)) || negb (funding_faucet_budget funding =? 0))) FaucetNotDisabled.

(** The validators' authorities, once their session keys are known. *)
Definition resolved_authorities (vs : list MainnetValidator) : gresult (list Authority) :=
  rmapM (fun v : nat * MainnetValidator =>
    keys <-? ok_or (validator_keys v.2) (SessionKeysTBD (v.1 + 1));;
    Ok (stash v.2, keys.1, keys.2)) (imap pair vs).

(** [mainnet_genesis] up to the construction of the patch: the authorities and
    the funding. *)
Definition mainnet_plan (inputs : MainnetInputs) : gresult (list Authority * GenesisFunding) :=
  let actual_placeholders : gset string := list_to_set
    (filter (fun label => mainnet_placeholder "council" label ∈ council inputs) MAINNET_COUNCIL_LABELS) in
  let declared : gset string := list_to_set (council_placeholders inputs) in
  ensure (negb (negb (bool_decide (actual_placeholders = declared)) ||
                negb (bool_decide (size declared = length (council_placeholders inputs))))) PlaceholdersMismatch;;?
  ensure (bool_decide (declared = ∅)) (UnresolvedCouncil (council_placeholders inputs));;?
  let vs := stash <$> validators inputs in
  ensure (negb (negb (bool_decide (length (council inputs) = 6%nat)) || negb (bool_decide (distinct (council inputs) = 6%nat)) ||
                negb (bool_decide (length vs = 5%nat)) || negb (bool_decide (distinct vs = 5%nat)))) WrongSeats;;?
  assert_council_disjoint (council inputs) vs true;;?
  ensure (negb (bool_decide (spec_builder inputs ∈ council inputs) || bool_decide (spec_builder inputs ∈ vs))) BuilderNotDedicated;;?
  let reserved := reserved_mainnet_accounts in
  ensure (negb (existsb (fun a => bool_decide (a ∈ reserved)) (vs ++ council inputs ++ [spec_builder inputs]))) UnresolvedPlaceholder;;?
  authorities <-? resolved_authorities (validators inputs);;
  validate_session_keys authorities;;?
  validator_float <-? resolved_float (validator_float inputs) "MAINNET_VALIDATOR_FLOAT";;
  council_float <-? resolved_float (council_float inputs) "MAINNET_COUNCIL_FLOAT";;
  spec_builder_float <-? resolved_float (spec_builder_float inputs) "MAINNET_SPEC_BUILDER_FLOAT";;
  stash_balance <-? ok_or (checked_u 128 (VALIDATOR_BOND + validator_float)) BondOverflows;;
  let operational := vs ++ council inputs ++ [spec_builder inputs] in
  allocation_total <-? rmap_err AllocationFailed (validate (allocation inputs) operational);;
  let funding := mkGenesisFunding
    (((fun a => (a, stash_balance)) <$> vs) ++ ((fun a => (a, council_float)) <$> council inputs) ++
     [(spec_builder inputs, spec_builder_float)] ++ [(custody (allocation inputs), allocation_total)])
    PermanentlyDisabled None 0 in
  validate_mainnet_funding funding vs (council inputs) (spec_builder inputs) (custody (allocation inputs)) allocation_total;;?
  validate_mainnet_network_keys authorities;;?
  Ok (authorities, funding).

Definition mainnet_genesis (inputs : MainnetInputs) : gresult RuntimeGenesis :=
  plan <-? mainnet_plan inputs;;
  let '(authorities, funding) := plan in
  network_genesis authorities funding
    (mkGenesisRoles (council inputs) (spec_builder inputs) (spec_builder inputs) true) MAINNET_CHAIN_ID 3.

Definition mainnet_inputs : MainnetInputs :=
  mkMainnetInputs (mainnet_placeholder "council" <$> MAINNET_COUNCIL_LABELS) MAINNET_COUNCIL_PLACEHOLDERS
    ((fun label => mkMainnetValidator (mainnet_placeholder "validator" label) None) <$> MAINNET_VALIDATOR_LABELS)
    (mainnet_placeholder "spec-builder" "Ising")
    MAINNET_VALIDATOR_FLOAT MAINNET_COUNCIL_FLOAT MAINNET_SPEC_BUILDER_FLOAT unresolved.

Definition quip_mainnet_config_genesis : gresult RuntimeGenesis := mainnet_genesis mainnet_inputs.

(** ** The other presets *)

Definition seed_authority (seed : string) : Authority :=
  (tx_account_from_seed seed, babe_authority_from_seed seed, grandpa_authority_from_seed seed).

Definition development_roles : GenesisRoles :=
  let alice := tx_account_from_seed "//Alice" in mkGenesisRoles [alice] alice alice false.

Definition development_config_genesis : gresult RuntimeGenesis :=
  testnet_genesis [seed_authority "//Alice"]
    [tx_account_from_seed "//Alice"; tx_account_from_seed "//Bob";
     tx_account_from_seed "//AliceStash"; tx_account_from_seed "//BobStash"]
    development_roles LOCAL_CHAIN_ID 1.

Definition local_config_genesis : gresult RuntimeGenesis :=
  testnet_genesis [seed_authority "//Alice"; seed_authority "//Bob"]
    (tx_account_from_seed <$> keyring_seeds) development_roles LOCAL_CHAIN_ID 1.

Definition local_three_validator_config_genesis : gresult RuntimeGenesis :=
  testnet_genesis [seed_authority "//Alice"; seed_authority "//Bob"; seed_authority "//Charlie"]
    (tx_account_from_seed <$> keyring_seeds) development_roles LOCAL_CHAIN_ID 1.

Definition quip_testnet_config_genesis : gresult RuntimeGenesis :=
  let authorities := quip_testnet_authorities in
  let accounts := authorities.*1.*1 in
  op1 <-? or_panic (accounts !! 0%nat);;
  testnet_genesis authorities accounts (mkGenesisRoles accounts op1 op1 false) TESTNET_CHAIN_ID 3.

(** [TESTNET_RELAUNCH_COUNCIL_TBD] *)
Definition TESTNET_RELAUNCH_COUNCIL_TBD : option (AccountId * AccountId * AccountId) := None.

Definition testnet_relaunch_genesis (council : option (AccountId * AccountId * AccountId)) : gresult RuntimeGenesis :=
  seats <-? ok_or council RelaunchCouncilTBD;;
  let '(seat1, seat2, seat3) := seats in
  let council := [seat1; seat2; seat3] in
  ensure (bool_decide (distinct council = 3%nat)) RelaunchDuplicateSeat;;?
  ensure (negb (existsb (fun a => bool_decide (a ∈ reserved_mainnet_accounts)) council)) RelaunchPlaceholder;;?
  let authorities := quip_testnet_authorities in
  validate_session_keys authorities;;?
  let operators := authorities.*1.*1 in
  assert_council_disjoint council operators true;;?
  op1 <-? or_panic (operators !! 0%nat);;
  network_genesis authorities
    (mkGenesisFunding ((fun a => (a, TEST_CURRENCY_ENDOWMENT)) <$> operators ++ council)
       FaucetEnabled (Some op1) TESTNET_RELAUNCH_FAUCET_BUDGET)
    (mkGenesisRoles council op1 op1 true) TESTNET_CHAIN_ID 3.

Definition quip_testnet_relaunch_config_genesis : gresult RuntimeGenesis :=
  testnet_relaunch_genesis TESTNET_RELAUNCH_COUNCIL_TBD.

Definition rehearsal_config_genesis : gresult RuntimeGenesis :=
  let seeds := ["//Alice"; "//Bob"; "//Charlie"; "//Dave"]%string in
  let members := merge_sort Z.le (tx_account_from_seed <$> take 3 seeds) in
  let faucet := tx_account_from_seed "//Eve" in
  testnet_genesis (seed_authority <$> seeds) ((tx_account_from_seed <$> seeds) ++ [faucet])
    (mkGenesisRoles members faucet (tx_account_from_seed "//Alice") false) LOCAL_CHAIN_ID 4.

(** [unwrap_or_else(|reason| refuse_preset_export(reason))] *)
Definition refuse_preset_export (r : gresult RuntimeGenesis) : gresult RuntimeGenesis :=
  match r with Ok g => Ok g | _ => Panic end.

Definition LOCAL_THREE_VALIDATOR_RUNTIME_PRESET : string := "local_three_validator".
Definition REHEARSAL_RUNTIME_PRESET : string := "validator_rehearsal".
Definition QUIP_TESTNET_RUNTIME_PRESET : string := "quip_testnet".
Definition QUIP_MAINNET_RUNTIME_PRESET : string := "quip-mainnet".
Definition QUIP_TESTNET_RELAUNCH_RUNTIME_PRESET : string := "quip-testnet-relaunch".
(** [sp_genesis_builder]'s names *)
Definition DEV_RUNTIME_PRESET : string := "development".
Definition LOCAL_TESTNET_RUNTIME_PRESET : string := "local_testnet".

Definition get_preset (id : string) : option (gresult RuntimeGenesis) :=
  if bool_decide (id = DEV_RUNTIME_PRESET) then Some development_config_genesis
  else if bool_decide (id = LOCAL_TESTNET_RUNTIME_PRESET) then Some local_config_genesis
  else if bool_decide (id = LOCAL_THREE_VALIDATOR_RUNTIME_PRESET) then Some local_three_validator_config_genesis
  else if bool_decide (id = QUIP_TESTNET_RUNTIME_PRESET) then Some quip_testnet_config_genesis
  else if bool_decide (id = QUIP_MAINNET_RUNTIME_PRESET) then Some (refuse_preset_export quip_mainnet_config_genesis)
  else if bool_decide (id = QUIP_TESTNET_RELAUNCH_RUNTIME_PRESET) then Some (refuse_preset_export quip_testnet_relaunch_config_genesis)
  else if bool_decide (id = REHEARSAL_RUNTIME_PRESET) then Some rehearsal_config_genesis
  else None.

Definition preset_names : list string :=
  [DEV_RUNTIME_PRESET; LOCAL_TESTNET_RUNTIME_PRESET; LOCAL_THREE_VALIDATOR_RUNTIME_PRESET; QUIP_TESTNET_RUNTIME_PRESET;
   QUIP_MAINNET_RUNTIME_PRESET; QUIP_TESTNET_RELAUNCH_RUNTIME_PRESET; REHEARSAL_RUNTIME_PRESET].
End Presets.
