(* ===== verification/NodeSpecs.v ===== *)
(** * The node's chain specifications and session keys

    Models [node/src/chain_spec.rs], [load_spec] of [node/src/command.rs] and
    the command of [node/src/insert_hybrid_key.rs].  Whether the runtime's code
    is available, the JSON artefacts, the file system, key derivation and the
    SDK's keystore are parameters. *)

From stdpp Require Import strings.
From S2P Require Import Prelude Frame RuntimeParams MainnetAllocation GenesisPresets.

(** ** Chain specifications *)

Inductive ChainType := Development | Local.

(** A specification: built from a preset of the runtime, or read as it is. *)
Inductive ChainSpec :=
  | BuiltSpec (name id : string) (chain_type : ChainType) (preset : string)
  | PinnedTestnet
  | FileSpec (path : string).

Inductive SpecError := WasmNotAvailable (message : string) | BadJson (message : string).
Abbreviation sresult := (result SpecError).

Section Specs.
(** [WASM_BINARY], [from_json_bytes] of the embedded artefact, [from_json_file] *)
Context (wasm_binary : option (list Z)) (pinned_json : sresult ChainSpec) (json_file : string -> sresult ChainSpec).

Definition build_spec (message name id : string) (t : ChainType) (preset : string) : sresult ChainSpec :=
  match wasm_binary with
  | Some _ => Ok (BuiltSpec name id t preset)
  | None => Err (WasmNotAvailable message)
  end.

Definition development_chain_spec : sresult ChainSpec :=
  build_spec "Development wasm not available" "Development" "dev" Development DEV_RUNTIME_PRESET.
Definition local_chain_spec : sresult ChainSpec :=
  build_spec "Development wasm not available" "Local Testnet" "local_testnet" Local LOCAL_TESTNET_RUNTIME_PRESET.
Definition local_three_validator_chain_spec : sresult ChainSpec :=
  build_spec "Development wasm not available" "Local Testnet (3 Validators)" "local_three_validator" Local
    LOCAL_THREE_VALIDATOR_RUNTIME_PRESET.
Definition validator_rehearsal_chain_spec : sresult ChainSpec :=
  build_spec "Rehearsal wasm not available" "Validator Rehearsal (4 Validators)" "validator_rehearsal" Local
    REHEARSAL_RUNTIME_PRESET.
Definition quip_testnet_chain_spec : sresult ChainSpec := pinned_json.

Definition load_spec (id : string) : sresult ChainSpec :=
  if bool_decide (id = "dev"%string) then development_chain_spec
  else if bool_decide (id = "local"%string) then local_chain_spec
  else if bool_decide (id ∈ ["rehearsal"; "validator_rehearsal"]%string) then validator_rehearsal_chain_spec
  else if bool_decide (id ∈ ["local3"; "local-3"; "local_three_validator"]%string) then local_three_validator_chain_spec
  else if bool_decide (id ∈ [""; "quip-testnet"; "quip_testnet"; "testnet"]%string) then quip_testnet_chain_spec
  else json_file id.

(** A specification the node builds itself names a preset the runtime has, and
    never one of the live networks. *)
Lemma load_spec_preset `{GenesisHashes, GenesisKeys} id name spec_id t preset :
  load_spec id = Ok (BuiltSpec name spec_id t preset) ->
  (forall s, pinned_json = Ok s -> s = PinnedTestnet) -> (forall p s, json_file p = Ok s -> s = FileSpec p) ->
  is_Some (get_preset preset) /\
  preset ∉ [QUIP_TESTNET_RUNTIME_PRESET; QUIP_MAINNET_RUNTIME_PRESET; QUIP_TESTNET_RELAUNCH_RUNTIME_PRESET].
Proof.
  intros Hl Hp Hf. unfold load_spec in Hl.
  repeat case_bool_decide;
    try (unfold development_chain_spec, local_chain_spec, validator_rehearsal_chain_spec, local_three_validator_chain_spec,
           build_spec in Hl; destruct wasm_binary; [|done]; injection Hl as _ _ _ <-;
         split; [eexists; reflexivity|apply (bool_decide_unpack _); vm_compute; exact I]).
  - by apply Hp in Hl.
  - by apply Hf in Hl.
Qed.
End Specs.

(** ** [insert-hybrid-key] *)

Inductive HybridScheme := HybridBabeH444 | HybridGrandpaH244.

Section InsertKey.
(** [KeyTypeId::try_from], four bytes; the file system *)
Context (key_type_of : string -> option (list Z)) (is_file : string -> bool) (read_file : string -> option string).
Context (trim_text : string -> string) (BABE_KEY_TYPE GRANDPA_KEY_TYPE : list Z).

(** [Pair::from_string] of the two schemes, giving the public key or the reason
    of the refusal. *)
Context (babe_public grandpa_public : string -> result string (list Z)).
(** What the SDK makes of the command's shared and keystore parameters: the base
    path, the chain id, the directory of a specification, where the keystore
    is; and the keystores on disk. *)
Context {Disk SdkError : Type} (base_path : result SdkError (option string)) (project_path chain_id : string).
Context (spec_id : ChainSpec -> string) (config_dir : string -> string -> string).

(** [KeystoreConfig] *)
Inductive KeystoreConfig := KeystorePath (path : string) (password : option string) | KeystoreInMemory.
Context (keystore_config : string -> result SdkError KeystoreConfig).
Context (open_keystore : string -> option string -> Disk -> result SdkError Disk).
Context (keystore_insert : string -> list Z -> string -> list Z -> Disk -> option Disk).
Context (cli_load_spec : string -> sresult ChainSpec).

(** [sc_cli::Error]: the command's own messages, and the SDK's and the
    specification's errors passed on. *)
Inductive KeyError :=
  | BadKeyType (text : string)
  | UnreadableFile (path : string)
  | InvalidSuri (scheme : HybridScheme) (reason : string)
  | InsertFailed (key_type : list Z)
  | SdkErr (e : SdkError)
  | SpecErr (e : SpecError).
Abbreviation kresult := (result KeyError).

Definition resolve_key_type (key_type : option string) (default_id : list Z) : kresult (list Z) :=
  match key_type with
  | Some s => ok_or (key_type_of s) (BadKeyType s)
  | None => Ok default_id
  end.

Definition read_suri (suri : string) : kresult string :=
  if is_file suri then raw <-? ok_or (read_file suri) (UnreadableFile suri);; Ok (trim_text raw) else Ok suri.

(** The key a scheme derives, with the type it is stored under. *)
Definition scheme_key (scheme : HybridScheme) (key_type : option string) (suri : string) : kresult (list Z * list Z) :=
  match scheme with
  | HybridBabeH444 =>
      public <-? rmap_err (InvalidSuri scheme) (babe_public suri);;
      key_type <-? resolve_key_type key_type BABE_KEY_TYPE;;
      Ok (key_type, public)
  | HybridGrandpaH244 =>
      public <-? rmap_err (InvalidSuri scheme) (grandpa_public suri);;
      key_type <-? resolve_key_type key_type GRANDPA_KEY_TYPE;;
      Ok (key_type, public)
  end.

(** [InsertHybridKeyCmd] *)
Record InsertHybridKeyCmd := mkInsertHybridKeyCmd { suri : string; key_type : option string; scheme : HybridScheme }.

(** [InsertHybridKeyCmd::run], on the keystores of the machine. *)
Definition insert_hybrid_key (cmd : InsertHybridKeyCmd) (d : Disk) : kresult Disk :=
  suri <-? read_suri (suri cmd);;
  base <-? rmap_err SdkErr base_path;;
  let base := default project_path base in
  spec <-? rmap_err SpecErr (cli_load_spec chain_id);;
  let dir := config_dir base (spec_id spec) in
  key <-? scheme_key (scheme cmd) (key_type cmd) suri;;
  cfg <-? rmap_err SdkErr (keystore_config dir);;
  match cfg with
  | KeystorePath path password =>
      d <-? rmap_err SdkErr (open_keystore path password d);;
      ok_or (keystore_insert path key.1 suri key.2 d) (InsertFailed key.1)
  | KeystoreInMemory => Panic
  end.

(** What the command puts into a keystore is the key its secret derives in the
    scheme asked for, under the type asked for or the scheme's own, in the
    keystore of the chain asked for. *)
Lemma insert_hybrid_key_inserts cmd d d' :
  insert_hybrid_key cmd d = Ok d' ->
  exists secret spec public kt path password base d1,
    read_suri (suri cmd) = Ok secret /\ cli_load_spec chain_id = Ok spec /\ base_path = Ok base /\
    (match scheme cmd with HybridBabeH444 => babe_public | HybridGrandpaH244 => grandpa_public end) secret = Ok public /\
    match key_type cmd with
    | Some text => key_type_of text = Some kt
    | None => kt = match scheme cmd with HybridBabeH444 => BABE_KEY_TYPE | HybridGrandpaH244 => GRANDPA_KEY_TYPE end
    end /\
    keystore_config (config_dir (default project_path base) (spec_id spec)) = Ok (KeystorePath path password) /\
    open_keystore path password d = Ok d1 /\ keystore_insert path kt secret public d1 = Some d'.
Proof.
  unfold insert_hybrid_key. intros Hok.
  apply rbind_Ok_inv in Hok as (secret & Hs & Hok). apply rbind_Ok_inv in Hok as (base & Hb & Hok).
  apply rbind_Ok_inv in Hok as (spec & Hsp & Hok). apply rbind_Ok_inv in Hok as ([kt public] & Hk & Hok).
  apply rbind_Ok_inv in Hok as (cfg & Hc & Hok). destruct cfg as [path password|]; [|done].
  apply rbind_Ok_inv in Hok as (d1 & Ho & Hi).
  assert ((match scheme cmd with HybridBabeH444 => babe_public | HybridGrandpaH244 => grandpa_public end) secret = Ok public /\
    resolve_key_type (key_type cmd) (match scheme cmd with HybridBabeH444 => BABE_KEY_TYPE | HybridGrandpaH244 => GRANDPA_KEY_TYPE end) = Ok kt)
    as [Hp Hr].
  { unfold scheme_key in Hk. destruct (scheme cmd); hinv; simplify_eq; split; try done;
      match goal with Hx : rmap_err _ ?m = Ok _ |- _ => by destruct m; simplify_eq/= end. }
  exists secret, spec, public, kt, path, password, base, d1.
  destruct base_path, (cli_load_spec chain_id), (keystore_config _), (open_keystore _ _ _) eqn:Hop, (keystore_insert _ _ _ _ _) eqn:Hin;
    simplify_eq/=; split_and!; try done.
  unfold resolve_key_type in Hr. destruct (key_type cmd); [|by injection Hr as <-]. by destruct (key_type_of _); simplify_eq/=.
Qed.
End InsertKey.
