(* ===== verification/Xqvm.v ===== *)
(** * The XQVM program pallet

    Models [pallets/xqvm/src/lib.rs]: content-addressed program storage with a
    deposit, the pre-verification shape bounds, and metered execution.  The
    [xqvm] crate (decoder, verifier, interpreter), the hash and the currency's
    holds are outside this repository and are parameters.  Weights are not
    modelled. *)

From S2P Require Import Prelude Frame.

(** ** The [xqvm] crate *)

(** Instructions, as far as the pallet inspects them. *)
Inductive Instruction :=
  | Target | Jump1 | Jump2 | JumpI1 | JumpI2 | Range | Iter | Next | OtherInstruction (opcode : Z).
#[global] Instance Instruction_eq_dec : EqDecision Instruction.
Proof. solve_decision. Defined.

(** [RegVal]: integers, integer vectors and the model or sample values. *)
Inductive RegVal := RInt (v : Z) | RVecInt (v : list Z) | ROther (tag : Z).

(** [xqvm::VerifierError] *)
Inductive VerifierErr :=
  | VeTruncatedInstruction | VeBadOpcode | VeUndefinedJumpTarget | VeNoActiveLoop | VeUnmatchedLoop
  | VeReadUnsetRegister | VeRegisterTypeMismatch | VeStackUnderflow | VeStackOverflowRisk
  | VeLoopStackImbalance | VeStackDepthMismatch.

(** [xqvm::Error] *)
Inductive VmErr :=
  | EStackUnderflow | EStackOverflow | EDivisionByZero | EStepLimitExceeded | EBadOpcode
  | ETruncatedInstruction | ERegisterType | EIncompatibleType | EMemoryLimitExceeded | EUnsetRegister
  | EArithmeticOverflow | EIndexOutOfBounds | ENoActiveLoop | EUnmatchedLoop | ELoopStackOverflow
  | EBadJumpTarget | EInvalidLabel | ECallDataIndex | EOutputIndex | ESizeMismatch | EVecLengthMismatch
  | EInvalidShift | EInvalidGridDimensions | EInvalidIntegerK | ESampleOutOfDomain | EInvalidAllocation
  | ETraceFailed.
#[global] Instance VmErr_eq_dec : EqDecision VmErr.
Proof. solve_decision. Defined.

(** What a run leaves behind: its error, [vm.steps()] and [vm.outputs()]. *)
Record VmRun := mkVmRun { run_error : option VmErr; steps : Z; outputs : list RegVal }.

Class XqvmLib := {
  Program : Type;
  decode : list Z -> option Program;
  (** the decoded instruction stream, up to the first structural fault *)
  code : Program -> list Instruction;
  verify : Program -> option VerifierErr;
  (** [run memory_limit step_limit output_slots calldata program] *)
  run : Z -> Z -> Z -> list RegVal -> Program -> VmRun
}.

(** The documented metering of the interpreter: a run stays within its step
    limit and has the requested number of output slots. *)
Class XqvmLibLaws `{XqvmLib} := {
  run_steps : forall mem limit slots calldata p, 0 <= limit ->
    0 <= steps (run mem limit slots calldata p) <= limit;
  run_outputs : forall mem limit slots calldata p, 0 <= slots ->
    zlen (outputs (run mem limit slots calldata p)) = slots
}.

(** [fungible::MutateHold] under this pallet's hold reason.  Holds are part of
    the account's reserved balance, [backing], which other users of the ledger
    share. *)
Class Holds (C : Type) := {
  on_hold : C -> AccountId -> Balance;
  backing : C -> AccountId -> Balance;
  hold : C -> AccountId -> Balance -> option C;
  (** [release(.., BestEffort)] *)
  release : C -> AccountId -> Balance -> option (C * Balance)
}.
Class HoldsLaws (C : Type) `{Holds C} := {
  hold_on_hold : forall c c' who v, hold c who v = Some c' ->
    forall x, on_hold c' x = if decide (x = who) then on_hold c x + v else on_hold c x;
  hold_backing : forall c c' who v, hold c who v = Some c' ->
    forall x, backing c' x = if decide (x = who) then backing c x + v else backing c x;
  (** the reserved balance must cover what is released *)
  release_best : forall c who v, 0 <= v -> Z.min v (on_hold c who) <= backing c who ->
    exists c', release c who v = Some (c', Z.min v (on_hold c who)) /\
    forall x, on_hold c' x = (if decide (x = who) then on_hold c x - Z.min v (on_hold c x) else on_hold c x) /\
              backing c' x = (if decide (x = who) then backing c x - Z.min v (on_hold c x) else backing c x)
}.

(** ** The control-flow shape *)

Record ControlFlowShape := mkShape { blocks : Z; loop_depth : Z }.

(** One instruction of the walk: blocks, whether a leader is pending, the
    current and the deepest nesting. *)
Definition shape_step (acc : Z * bool * Z * Z) (instr : Instruction) : Z * bool * Z * Z :=
  let '(blocks, leader_pending, depth, deepest) := acc in
  match instr with
  | Target => ((if leader_pending then blocks else u32_add blocks 1), false, depth, deepest)
  | Jump1 | Jump2 | JumpI1 | JumpI2 => (u32_add blocks 1, true, depth, deepest)
  | Range | Iter =>
      let depth := u32_add depth 1 in
      (u32_add blocks 1, true, depth, Z.max deepest depth)
  | Next => (u32_add blocks 1, true, Z.max 0 (depth - 1), deepest)
  | OtherInstruction _ => (blocks, false, depth, deepest)
  end.

Definition shape_of (instrs : list Instruction) : ControlFlowShape :=
  let '(blocks, _, _, deepest) := foldl shape_step (1, true, 0, 0) instrs in
  mkShape blocks deepest.

(** ** Errors, events, configuration *)

Inductive XqvmError :=
  | InvalidBytecode | VerifierBadInstruction | VerifierUndefinedJumpTarget | VerifierLoopImbalance
  | VerifierReadUnsetRegister | VerifierRegisterTypeMismatch | VerifierStackFault | TooManyBlocks
  | LoopNestingTooDeep | ProgramAlreadyExists | ProgramNotFound | NotProgramOwner | StepLimitTooHigh
  | ZeroStepLimit | TooManyOutputSlots | VmStackUnderflow | VmStackOverflow | VmDivisionByZero
  | VmStepLimitExceeded | VmMemoryLimitExceeded | VmBadBytecode | VmRegisterType | VmUnsetRegister
  | VmArithmeticOverflow | VmIndexOutOfBounds | VmLoopStructure | VmLoopStackOverflow | VmBadJump
  | VmCallDataIndex | VmOutputIndex | VmSizeMismatch | VmInvalidShift | VmInvalidGridDimensions
  | VmInvalidIntegerK | VmInvalidAllocation | VmTraceFailed | VmSampleOutOfDomain.
#[global] Instance XqvmError_eq_dec : EqDecision XqvmError.
Proof. solve_decision. Defined.

Inductive XqvmEvent :=
  | ProgramStored (hash : H256) (owner : AccountId) (size : Z) (deposit : Balance)
  | ProgramRemoved (hash : H256) (owner : AccountId) (deposit : Balance)
  | ProgramEvicted (hash : H256) (owner : AccountId) (deposit : Balance)
  | ProgramExecuted (caller : AccountId) (hash : H256) (steps_used : Z) (out : list Z).

Abbreviation xresult := (result (DispatchError XqvmError)).

Record XqvmConfig := mkXqvmConfig {
  DepositBase : Balance; DepositPerByte : Balance; MaxProgramSize : Z; MaxProgramBlocks : Z;
  MaxLoopDepth : Z; MaxCallDataLen : Z; MaxOutputSlots : Z; MaxVmMemory : Z; MaxStepLimit : Z
}.

Definition map_verifier_error (e : VerifierErr) : XqvmError :=
  match e with
  | VeTruncatedInstruction | VeBadOpcode => VerifierBadInstruction
  | VeUndefinedJumpTarget => VerifierUndefinedJumpTarget
  | VeNoActiveLoop | VeUnmatchedLoop => VerifierLoopImbalance
  | VeReadUnsetRegister => VerifierReadUnsetRegister
  | VeRegisterTypeMismatch => VerifierRegisterTypeMismatch
  | VeStackUnderflow | VeStackOverflowRisk | VeLoopStackImbalance | VeStackDepthMismatch => VerifierStackFault
  end.

Definition map_vm_error (e : VmErr) : XqvmError :=
  match e with
  | EStackUnderflow => VmStackUnderflow
  | EStackOverflow => VmStackOverflow
  | EDivisionByZero => VmDivisionByZero
  | EStepLimitExceeded => VmStepLimitExceeded
  | EBadOpcode | ETruncatedInstruction => VmBadBytecode
  | ERegisterType | EIncompatibleType => VmRegisterType
  | EMemoryLimitExceeded => VmMemoryLimitExceeded
  | EUnsetRegister => VmUnsetRegister
  | EArithmeticOverflow => VmArithmeticOverflow
  | EIndexOutOfBounds => VmIndexOutOfBounds
  | ENoActiveLoop | EUnmatchedLoop => VmLoopStructure
  | ELoopStackOverflow => VmLoopStackOverflow
  | EBadJumpTarget | EInvalidLabel => VmBadJump
  | ECallDataIndex => VmCallDataIndex
  | EOutputIndex => VmOutputIndex
  | ESizeMismatch | EVecLengthMismatch => VmSizeMismatch
  | EInvalidShift => VmInvalidShift
  | EInvalidGridDimensions => VmInvalidGridDimensions
  | EInvalidIntegerK => VmInvalidIntegerK
  | ESampleOutOfDomain => VmSampleOutOfDomain
  | EInvalidAllocation => VmInvalidAllocation
  | ETraceFailed => VmTraceFailed
  end.

Section Xqvm.
Context `{XqvmLib} {C : Type} `{Holds C}.
Context (cfg : XqvmConfig) (hash_of : list Z -> H256).

Record XqvmState := mkXqvmState {
  Programs : gmap H256 (list Z);
  ProgramOwner : gmap H256 AccountId;
  ProgramDeposit : gmap H256 Balance;
  ledger : C;
  events : list XqvmEvent
}.
#[export] Instance XqvmState_expansion : Expansion XqvmState := fun r =>
  mkXqvmState (Programs r) (ProgramOwner r) (ProgramDeposit r) (ledger r) (events r).
Implicit Types s : XqvmState.

Definition emit (e : XqvmEvent) s : XqvmState := s <| events $= (.++ [e]) |>.

Definition deposit_for (size : Z) : Balance :=
  u128_add (DepositBase cfg) (sat_u 128 (DepositPerByte cfg * size)).

Definition store_program (origin : Origin) (bytecode : list Z) s : xresult XqvmState :=
  who <-? ensure_signed origin;;
  program <-? some_or (decode bytecode) InvalidBytecode;;
  let shape := shape_of (code program) in
  require (blocks shape <=? MaxProgramBlocks cfg) TooManyBlocks;;?
  require (loop_depth shape <=? MaxLoopDepth cfg) LoopNestingTooDeep;;?
  match verify program with Some e => Err (Module (map_verifier_error e)) | None => Ok tt end;;?
  let hash := hash_of bytecode in
  require (bool_decide (Programs s !! hash = None)) ProgramAlreadyExists;;?
  let size := wrap_u 32 (zlen bytecode) in
  let dep := deposit_for size in
  c <-? ok_or (hold (ledger s) who dep) CurrencyError;;
  let s := s <| ledger := c |> in
  let s := s <| Programs $= <[hash := bytecode]> |> <| ProgramOwner $= <[hash := who]> |>
             <| ProgramDeposit $= <[hash := dep]> |> in
  Ok (emit (ProgramStored hash who size dep) s).

Definition do_remove (hash : H256) (owner : AccountId) s : xresult (XqvmState * Z * Balance) :=
  bytecode <-? some_or (Programs s !! hash) ProgramNotFound;;
  let s := s <| Programs $= delete hash |> in
  let size := wrap_u 32 (zlen bytecode) in
  let recorded := default 0 (ProgramDeposit s !! hash) in
  let s := s <| ProgramDeposit $= delete hash |> in
  r <-? ok_or (release (ledger s) owner recorded) CurrencyError;;
  let s := s <| ledger := r.1 |> in
  let s := s <| ProgramOwner $= delete hash |> in
  Ok (s, size, r.2).

Definition remove_program (origin : Origin) (hash : H256) s : xresult XqvmState :=
  who <-? ensure_signed origin;;
  owner <-? some_or (ProgramOwner s !! hash) ProgramNotFound;;
  require (owner =? who) NotProgramOwner;;?
  r <-? do_remove hash owner s;;
  Ok (emit (ProgramRemoved hash owner r.2) r.1.1).

Definition evict_program (origin : Origin) (hash : H256) s : xresult XqvmState :=
  ensure_root origin;;?
  owner <-? some_or (ProgramOwner s !! hash) ProgramNotFound;;
  r <-? do_remove hash owner s;;
  Ok (emit (ProgramEvicted hash owner r.2) r.1.1).

(** The scalar view of an output slot. *)
Definition scalar (r : RegVal) : Z := match r with RInt v => v | _ => 0 end.

Definition execute (origin : Origin) (hash : H256) (calldata : list Z) (output_slots step_limit : Z) s
    : xresult XqvmState :=
  who <-? ensure_signed origin;;
  require (0 <? step_limit) ZeroStepLimit;;?
  require (step_limit <=? MaxStepLimit cfg) StepLimitTooHigh;;?
  require (output_slots <=? MaxOutputSlots cfg) TooManyOutputSlots;;?
  bytecode <-? some_or (Programs s !! hash) ProgramNotFound;;
  program <-? some_or (decode bytecode) VmBadBytecode;;
  let vm := run (MaxVmMemory cfg) step_limit output_slots (RInt <$> calldata) program in
  match run_error vm with
  | Some e => Err (Module (map_vm_error e))
  | None =>
      if zlen (outputs vm) <=? MaxOutputSlots cfg
      then Ok (emit (ProgramExecuted who hash (steps vm) (scalar <$> outputs vm)) s)
      else Panic
  end.

(** ** Stored programs and their deposits *)

(** The deposits an account has on hold for its programs. *)
Definition owned_deposit (x : AccountId) (p : AccountId * Balance) : Z := if decide (p.1 = x) then p.2 else 0.
Definition deposits_of (x : AccountId) s : Z :=
  msum (owned_deposit x) (map_zip (ProgramOwner s) (ProgramDeposit s)).

(** A program admitted to storage: it decodes, passes the verifier and the
    shape bounds, and is stored under its hash. *)
Definition admitted (hash : H256) (bytecode : list Z) : Prop :=
  hash = hash_of bytecode /\ exists program, decode bytecode = Some program /\ verify program = None /\
    blocks (shape_of (code program)) <= MaxProgramBlocks cfg /\
    loop_depth (shape_of (code program)) <= MaxLoopDepth cfg.

Record xqvm_inv s : Prop := {
  xi_admitted : forall h b, Programs s !! h = Some b -> admitted h b;
  xi_owner : forall h, is_Some (Programs s !! h) <-> is_Some (ProgramOwner s !! h);
  xi_deposit : forall h, is_Some (Programs s !! h) <-> is_Some (ProgramDeposit s !! h);
  xi_range : forall h d, ProgramDeposit s !! h = Some d -> 0 <= d;
  xi_held : forall x, on_hold (ledger s) x = deposits_of x s
}.

(** The reserved balances cover the holds. *)
Definition backed s : Prop := forall x, on_hold (ledger s) x <= backing (ledger s) x.

Lemma store_program_backed `{!HoldsLaws C} o bytecode s s' :
  backed s -> store_program o bytecode s = Ok s' -> backed s'.
Proof.
  intros Hb Hok x. unfold store_program in Hok. hinv. simpl.
  match goal with Hc : hold _ _ _ = Some _ |- _ => rewrite (hold_on_hold _ _ _ _ Hc), (hold_backing _ _ _ _ Hc) end.
  specialize (Hb x). case_decide; lia.
Qed.

Lemma store_program_inv `{!HoldsLaws C} o bytecode s s' :
  xqvm_inv s -> store_program o bytecode s = Ok s' ->
  xqvm_inv s' /\ Programs s' !! hash_of bytecode = Some bytecode /\ admitted (hash_of bytecode) bytecode.
Proof.
  intros [Ha Ho Hd Hr Hh] Hok. unfold store_program in Hok. hinv.
  match goal with Hv : match verify ?p with _ => _ end = Ok _ |- _ => destruct (verify p) eqn:Hver; [done|] end.
  assert (admitted (hash_of bytecode) bytecode) as Hadm by (split; [done|]; eauto 10).
  match goal with Hn : Programs s !! _ = None |- _ => rename Hn into Hnone end.
  assert (ProgramOwner s !! hash_of bytecode = None) as Hno.
  { apply eq_None_not_Some. rewrite <- Ho, Hnone. by intros [? ?]. }
  split_and!; [split; simpl| |done].
  - intros h b. rewrite lookup_insert_Some. intros [[<- <-]|[_ Hb]]; [done|by apply Ha].
  - intros h. rewrite !lookup_insert_is_Some'. by rewrite Ho.
  - intros h. rewrite !lookup_insert_is_Some'. by rewrite Hd.
  - intros h d. rewrite lookup_insert_Some. intros [[_ <-]|[_ Hb]]; [apply sat_u_range; lia|by eapply Hr].
  - intros x. match goal with Hc : hold _ _ _ = Some _ |- _ => rewrite (hold_on_hold _ _ _ _ Hc) end.
    unfold deposits_of. simpl. rewrite <- map_insert_zip_with, msum_insert_fresh.
    2: { rewrite map_lookup_zip_with, Hno. done. }
    rewrite Hh. unfold deposits_of. set (M := msum _ _). clearbody M. unfold owned_deposit. simpl.
    repeat case_decide; subst; try done; lia.
  - simpl. apply lookup_insert_eq.
Qed.

(** Removing a program releases exactly what was taken for it. *)
Lemma do_remove_exact `{!HoldsLaws C} hash owner s :
  xqvm_inv s -> backed s -> ProgramOwner s !! hash = Some owner ->
  exists s' size dep, do_remove hash owner s = Ok (s', size, dep) /\ (xqvm_inv s' /\ backed s') /\
    ProgramDeposit s !! hash = Some dep /\ Programs s' !! hash = None /\
    on_hold (ledger s') owner = on_hold (ledger s) owner - dep.
Proof.
  intros [Ha Ho Hd Hr Hh] Hbk Hown. unfold do_remove.
  destruct (proj2 (Ho hash)) as [b Hb]; [by eauto|]. destruct (proj1 (Hd hash)) as [d Hdep]; [by eauto|].
  rewrite Hb. simpl. rewrite Hdep. simpl. pose proof (Hr _ _ Hdep) as Hd0.
  destruct (release_best (ledger s) owner d Hd0) as (c & Hrel & Hcb); [specialize (Hbk owner); lia|]. rewrite Hrel. simpl.
  assert (forall x, on_hold c x = if decide (x = owner) then on_hold (ledger s) x - Z.min d (on_hold (ledger s) x) else on_hold (ledger s) x) as Hc
    by apply Hcb.
  assert (d <= on_hold (ledger s) owner) as Hle.
  { rewrite Hh. replace d with (owned_deposit owner (owner, d)) at 1 by (unfold owned_deposit; simpl; by rewrite decide_True).
    eapply (msum_lookup_le _ _ hash); [|rewrite map_lookup_zip_with, Hown, Hdep; done].
    intros h [o d'] Hz. unfold owned_deposit. simpl. case_decide; [|lia].
    rewrite map_lookup_zip_with in Hz. destruct (ProgramOwner s !! h), (ProgramDeposit s !! h) eqn:E; simplify_eq/=. by eapply Hr. }
  rewrite Z.min_l by lia. eexists _, _, d. split; [done|]. split_and!; [split; simpl| | | |].
  - intros h b' [_ Hb']%lookup_delete_Some. by apply Ha.
  - intros h. rewrite !lookup_delete_is_Some. by rewrite Ho.
  - intros h. rewrite !lookup_delete_is_Some. by rewrite Hd.
  - intros h d' [_ Hd']%lookup_delete_Some. by eapply Hr.
  - intros x. rewrite Hc. unfold deposits_of. simpl.
    replace (map_zip (delete hash (ProgramOwner s)) (delete hash (ProgramDeposit s)))
      with (delete hash (map_zip (ProgramOwner s) (ProgramDeposit s))) by apply map_delete_zip_with.
    rewrite msum_delete, map_lookup_zip_with, Hown, Hdep. simpl. specialize (Hh x). unfold deposits_of in Hh.
    revert Hh. set (M := msum _ _). clearbody M. unfold owned_deposit. simpl. intros Hh.
    repeat case_decide; subst; try done; lia.
  - intros x. simpl. destruct (Hcb x) as [-> ->]. specialize (Hbk x). case_decide; lia.
  - done.
  - apply lookup_delete_eq.
  - simpl. rewrite Hc, decide_True by done. lia.
Qed.

(** A stored program never fails to decode when it is executed, and the run is
    metered: at most the requested steps, within the pallet's limits. *)
Lemma execute_metered `{!XqvmLibLaws} who hash calldata slots limit s :
  xqvm_inv s -> 0 <= slots ->
  execute (Signed who) hash calldata slots limit s <> Panic /\
  execute (Signed who) hash calldata slots limit s <> Err (Module VmBadBytecode) \/
  (exists b p, Programs s !! hash = Some b /\ decode b = Some p /\
     (run_error (run (MaxVmMemory cfg) limit slots (RInt <$> calldata) p) = Some EBadOpcode \/
      run_error (run (MaxVmMemory cfg) limit slots (RInt <$> calldata) p) = Some ETruncatedInstruction)).
Proof.
  intros Hinv Hs. unfold execute. simpl.
  destruct (0 <? limit); simpl; [|by left]. destruct (limit <=? _); simpl; [|by left].
  destruct (slots <=? MaxOutputSlots cfg) eqn:Hslots; simpl; [|by left]. bool_to_prop.
  destruct (Programs s !! hash) as [b|] eqn:Hb; simpl; [|by left].
  destruct (xi_admitted _ Hinv hash b Hb) as (_ & p & Hp & _). rewrite Hp. simpl.
  pose proof (run_outputs (MaxVmMemory cfg) limit slots (RInt <$> calldata) p Hs) as Hout.
  destruct (run_error _) as [e|] eqn:He.
  - destruct e; try (left; done); right; exists b, p; auto.
  - left. rewrite (proj2 (Z.leb_le _ _)) by lia. done.
Qed.

Lemma execute_steps `{!XqvmLibLaws} who hash calldata slots limit s s' :
  execute (Signed who) hash calldata slots limit s = Ok s' ->
  exists used out, s' = emit (ProgramExecuted who hash used out) s /\ 0 <= used <= limit /\
    limit <= MaxStepLimit cfg /\ zlen out <= MaxOutputSlots cfg.
Proof.
  intros Hok. unfold execute in Hok. simpl in Hok. hinv.
  destruct (run_error _) eqn:He; [done|]. case_match eqn:Hlen; [|done]. hinv. bool_to_prop.
  do 2 eexists. split; [done|]. match goal with |- context [steps (run ?m ?l ?o ?c ?p)] => pose proof (run_steps m l o c p ltac:(lia)) end.
  split_and!; try lia. unfold zlen in *. by rewrite length_fmap.
Qed.

(** Any call of the pallet. *)
Inductive xqvm_step : XqvmState -> XqvmState -> Prop :=
  | xs_store o bytecode s s' : store_program o bytecode s = Ok s' -> xqvm_step s s'
  | xs_remove o hash s s' : remove_program o hash s = Ok s' -> xqvm_step s s'
  | xs_evict o hash s s' : evict_program o hash s = Ok s' -> xqvm_step s s'
  | xs_execute o hash calldata slots limit s s' :
      execute o hash calldata slots limit s = Ok s' -> xqvm_step s s'.

#[local] Lemma xqvm_inv_emit e s : xqvm_inv s -> xqvm_inv (emit e s).
Proof. intros [A1 A2 A3 A4 A5]. by split. Qed.

#[local] Lemma do_remove_inv `{!HoldsLaws C} hash owner s r :
  xqvm_inv s -> backed s -> ProgramOwner s !! hash = Some owner -> do_remove hash owner s = Ok r ->
  xqvm_inv r.1.1 /\ backed r.1.1.
Proof.
  intros Hinv Hbk Ho Hok. destruct (do_remove_exact hash owner s Hinv Hbk Ho) as (s' & size & dep & Hok' & Hinv' & _).
  rewrite Hok in Hok'. by injection Hok' as ->.
Qed.

Lemma xqvm_step_inv `{!HoldsLaws C} s s' : xqvm_inv s -> backed s -> xqvm_step s s' -> xqvm_inv s' /\ backed s'.
Proof.
  intros Hinv Hbk Hstep. destruct Hstep as [o bytecode t t' Hok|o hash t t' Hok|o hash t t' Hok|o hash cd sl lim t t' Hok].
  - split; [by eapply store_program_inv in Hok as [? _]|by eapply store_program_backed].
  - unfold remove_program in Hok. hinv. match goal with Hr : do_remove _ _ _ = Ok _ |- _ => apply do_remove_inv in Hr as [? ?]; [|done..] end.
    split; [by apply xqvm_inv_emit|done].
  - unfold evict_program in Hok. hinv. match goal with Hr : do_remove _ _ _ = Ok _ |- _ => apply do_remove_inv in Hr as [? ?]; [|done..] end.
    split; [by apply xqvm_inv_emit|done].
  - unfold execute in Hok. hinv. destruct (run_error _); [done|]. case_match; [|done]. hinv. split; [by apply xqvm_inv_emit|done].
Qed.

Lemma xqvm_run_inv `{!HoldsLaws C} s s' : xqvm_inv s -> backed s -> rtc xqvm_step s s' -> xqvm_inv s' /\ backed s'.
Proof. intros Hinv Hbk Hrun. induction Hrun as [|s t u Hstep _ IH]; [done|]. eapply xqvm_step_inv in Hstep as [? ?]; auto. Qed.
End Xqvm.

(** ** The block count *)

Definition branches (i : Instruction) : bool :=
  match i with Jump1 | Jump2 | JumpI1 | JumpI2 | Range | Iter | Next => true | _ => false end.

(** Position [i] starts a basic block: the entry, a [TARGET], or what follows a
    branching instruction. *)
Definition leader (instrs : list Instruction) (i : nat) : bool :=
  match i with O => true | S j => default false (branches <$> instrs !! j) end ||
  bool_decide (instrs !! i = Some Target).

Definition leaders (instrs : list Instruction) : list nat :=
  filter (fun i => leader instrs i = true) (seq 0 (S (length instrs))).

#[local] Definition pending (instrs : list Instruction) : bool :=
  match last instrs with None => true | Some i => branches i end.

#[local] Lemma leader_snoc l x i : (i < length l)%nat -> leader (l ++ [x]) i = leader l i.
Proof.
  intros Hi. unfold leader. rewrite lookup_app_l by done. f_equal. destruct i; [done|].
  rewrite lookup_app_l by lia. done.
Qed.

#[local] Lemma leaders_snoc l x :
  leaders (l ++ [x]) = filter (fun i => leader l i = true) (seq 0 (length l)) ++
    (if pending l || bool_decide (x = Target) then [length l] else []) ++
    (if branches x then [S (length l)] else []).
Proof.
  unfold leaders. rewrite length_app. simpl length.
  replace (S (length l + 1)) with (length l + 2)%nat by lia. rewrite seq_app, filter_app. f_equal.
  - assert (forall n, (n <= length l)%nat -> filter (fun i => leader (l ++ [x]) i = true) (seq 0 n) =
      filter (fun i => leader l i = true) (seq 0 n)) as Hf; [|by apply Hf].
    induction n as [|n IH]; intros Hn; [done|]. rewrite seq_S, !filter_app, IH by lia. f_equal. simpl.
    by rewrite !filter_cons, !leader_snoc by lia.
  - assert (leader (l ++ [x]) (length l) = pending l || bool_decide (x = Target)) as E1.
    { unfold leader, pending. rewrite (list_lookup_middle l [] x) by done. f_equal; [|apply bool_decide_ext; naive_solver].
      destruct l as [|y l _] using rev_ind; [done|]. rewrite last_snoc, length_app, Nat.add_comm. simpl.
      rewrite <- app_assoc. by rewrite (list_lookup_middle l [x] y). }
    assert (leader (l ++ [x]) (S (length l)) = branches x) as E2.
    { unfold leader. rewrite (list_lookup_middle l [] x) by done. rewrite lookup_ge_None_2 by (rewrite length_app; simpl; lia).
      by rewrite orb_false_r. }
    simpl. rewrite !filter_cons, filter_nil, E1, E2. destruct (_ || _), (branches x); done.
Qed.

#[local] Lemma shape_walk l :
  zlen l + 1 < 2 ^ 32 -> exists depth deepest,
    foldl shape_step (1, true, 0, 0) l = (zlen (leaders l), pending l, depth, deepest).
Proof.
  induction l as [|x l IH] using rev_ind; intros Hlen; [by exists 0, 0|].
  rewrite zlen_app in Hlen. change (zlen [x]) with 1 in Hlen. destruct IH as (depth & deepest & Hw); [lia|].
  rewrite foldl_app, Hw. simpl.
  assert (leaders l = filter (fun i => leader l i = true) (seq 0 (length l)) ++ (if pending l then [length l] else [])) as Hl.
  { unfold leaders. rewrite seq_S, filter_app. f_equal. simpl. rewrite filter_cons, filter_nil.
    assert (leader l (length l) = pending l) as ->.
    { unfold leader, pending. rewrite (lookup_ge_None_2 l (length l)) by lia. rewrite orb_false_r.
      destruct l as [|y l _] using rev_ind; [done|]. rewrite last_snoc, length_app, Nat.add_comm. simpl.
      by rewrite (list_lookup_middle l [] y). }
    by destruct (pending l). }
  assert (zlen (leaders l) <= zlen l + 1) as Hb.
  { unfold leaders, zlen. pose proof (length_filter (fun i => leader l i = true) (seq 0 (S (length l)))) as Hlf.
    rewrite length_seq in Hlf. lia. }
  assert (forall n, 0 <= n -> n + 1 < 2 ^ 32 -> u32_add n 1 = n + 1) as Hadd.
  { intros n Hn Hn'. unfold u32_add. apply sat_u_small. unfold in_u. lia. }
  pose proof (zlen_nonneg (leaders l)) as Hnn. unfold pending at 2. rewrite last_snoc, leaders_snoc.
  rewrite Hl in Hb, Hnn |- *. rewrite !zlen_app in *.
  destruct x, (pending l); simpl; rewrite ?Hadd by (unfold zlen in *; simpl in *; lia); eexists _, _;
    match goal with |- (?x, _, _, _) = (?y, _, _, _) => replace y with x; [reflexivity|unfold zlen; simpl; lia] end.
Qed.

(** The pre-verification block count is the number of basic blocks. *)
Lemma shape_blocks l : zlen l + 1 < 2 ^ 32 -> blocks (shape_of l) = zlen (leaders l).
Proof. intros (depth & deepest & Hw)%shape_walk. unfold shape_of. by rewrite Hw. Qed.
