(* ===== verification/RuntimeConfig.v ===== *)
(** * The runtime's configuration

    The values with which [runtime/src/configs/mod.rs] instantiates the
    pallets, the prices derived from them, and the small policies defined
    there: the custody proxies' filter, the guard on runtime upgrades, and the
    migrations of [runtime/src/lib.rs] and [slashing.rs].  Percentages of the
    SDK ([Perbill]), the accounts and origins are parameters. *)

From stdpp Require Import strings.
From S2P Require Import Prelude Frame RuntimeParams Weights QuantumPow Mempool MempoolCore MinerRegistry SlashPolicy Xqvm Admission.

Open Scope Z_scope.

(** ** Block weights *)

(** [Perbill * x] rounds to the nearest integer. *)
Class PerbillTimes := perbill_times : Z -> Z -> Z.
Class PerbillTimesLaws `{PerbillTimes} := perbill_times_nearest : forall share x,
  0 <= share <= BILLION -> 0 <= x -> 2 * Z.abs (BILLION * perbill_times share x - share * x) <= BILLION.

Definition WEIGHT_REF_TIME_PER_SECOND : Z := 1000000000000.
Definition WEIGHT_REF_TIME_PER_NANOS : Z := 1000.
Definition ExtrinsicBaseWeight : Weight := from_parts (sat_u 64 (WEIGHT_REF_TIME_PER_NANOS * 323359)) 0.
Definition BlockExecutionWeight : Weight := from_parts (sat_u 64 (WEIGHT_REF_TIME_PER_NANOS * 435519)) 0.
Definition NORMAL_DISPATCH_RATIO : Z := 750000000.
Definition AVERAGE_ON_INITIALIZE_RATIO : Z := 100000000.

(** ** Prices of storage *)

Definition StorageDepositPerItem : Balance := 200 * Params.MILLI_UNIT.
Definition StorageDepositPerByte : Balance := 10 * Params.MICRO_UNIT.
Definition MultisigDepositBase : Balance := StorageDepositPerItem + 89 * StorageDepositPerByte.
Definition MultisigDepositFactor : Balance := 32 * StorageDepositPerByte.
Definition ProxyDepositBase : Balance := StorageDepositPerItem + 48 * StorageDepositPerByte.
Definition ProxyDepositFactor : Balance := 37 * StorageDepositPerByte.
Definition AnnouncementDepositBase : Balance := StorageDepositPerItem + 48 * StorageDepositPerByte.
Definition AnnouncementDepositFactor : Balance := 68 * StorageDepositPerByte.

(** ** Metering *)

Definition MaxProgramSize : Z := 65536.
Definition MaxProgramBlocks : Z := 2048.
Definition MaxLoopDepth : Z := 32.
Definition MaxCallDataLen : Z := 256.
Definition MaxOutputSlots : Z := 256.
Definition MaxVmMemory : Z := 16 * 1024 * 1024.
Definition QuantumMaxNodes : Z := 5000.
Definition QuantumMaxEdges : Z := 50000.
Definition QuantumMaxSolutions : Z := 20.
Definition QuantumMaxTransformSteps : Z := 5000000.
Definition QuantumMaxBidMiners : Z := 16.
Definition QuantumPowMaxNodes : Z := 5000.
Definition QuantumPowMaxEdges : Z := 50000.
Definition QuantumPowMaxSolutions : Z := 32.
Definition QuantumPowMaxProofsPerBlock : Z := 8.
Definition QuantumPowMaxAllowedValues : Z := 32.

Section Metering.
Context `{PerbillTimes, DbWeight}.

Definition perbill_weight (share : Z) (w : Weight) : Weight :=
  from_parts (perbill_times share (ref_time w)) (perbill_times share (proof_size w)).

(** [RuntimeBlockWeights]: the block, and what normal calls may use of it. *)
Definition max_block : Weight := from_parts (2 * WEIGHT_REF_TIME_PER_SECOND) (2 ^ 64 - 1).
Definition normal_max : Weight := perbill_weight NORMAL_DISPATCH_RATIO max_block.
(** The most one normal call may use: the builder subtracts the average
    initialisation and the call's own overhead. *)
Definition normal_max_extrinsic : Weight :=
  weight_sub (weight_sub normal_max (perbill_weight AVERAGE_ON_INITIALIZE_RATIO max_block)) ExtrinsicBaseWeight.

Definition XqvmWeightPerStep : Weight :=
  let slope := weight_sub (execute_step_weight 1) (execute_step_weight 0) in
  weight_mul slope 2.

Definition MaxStepLimit : Z :=
  let budget := ref_time normal_max / 2 in
  let base := ref_time (execute_weight MaxProgramSize) in
  let per_step := Z.max (ref_time XqvmWeightPerStep) 1 in
  sat_u 64 (budget - base) / per_step.

Definition QuantumProgramLookupWeight : Weight := weight_mul (execute_weight MaxProgramSize) QuantumMaxSolutions.
Definition QuantumProgramValidationWeight : Weight := store_program_weight MaxProgramSize MaxProgramBlocks.
End Metering.

(** ** The pallets' configurations *)

Definition runtime_xqvm_config `{PerbillTimes, DbWeight} : XqvmConfig :=
  mkXqvmConfig StorageDepositPerItem StorageDepositPerByte MaxProgramSize MaxProgramBlocks MaxLoopDepth
    MaxCallDataLen MaxOutputSlots MaxVmMemory MaxStepLimit.

(** [DEFAULT_ISING_SPEC_NAME]: plain-ising-v1 *)
Definition DEFAULT_ISING_SPEC_NAME : list Z := [112; 108; 97; 105; 110; 45; 105; 115; 105; 110; 103; 45; 118; 49].

(** [builder] is the account of [QUANTUM_DEFAULT_JOB_SPEC_BUILDER_SS58]. *)
Definition runtime_mempool_config (builder : AccountId) : MempoolConfig :=
  mkMempoolConfig QuantumMaxNodes QuantumMaxSolutions 32 1000 100 Params.UNIT 10000 builder DEFAULT_ISING_SPEC_NAME.

(** [admin] is [FoundationOrRoot]. *)
Definition runtime_pow_config (admin : Origin -> bool) : PowConfig :=
  mkPowConfig QuantumPowMaxNodes QuantumPowMaxAllowedValues 16 100 Params.UNIT Params.UNIT (Params.UNIT / 10)
    (100 * Params.UNIT) admin 100 80 400 QuantumPowMaxProofsPerBlock 700 725 750.

Definition runtime_registry_config : RegistryConfig := mkRegistryConfig Params.MILLI_UNIT Params.MICRO_UNIT.
Definition HistoryDepth : Z := 84.
Definition runtime_slash_config : SlashConfig := mkSlashConfig Params.BondingDuration HistoryDepth Params.SLASH_DEFER_ERAS.

(** [QuantumProgramSource]: the mempool reads the programs of the XQVM pallet. *)
Definition QuantumProgramSource {C} (s : @XqvmState C) (hash : H256) : option (list Z) := Programs s !! hash.
(** [RuntimeQBlockIds]: the registry reads the latest qblock of the proof-of-work pallet. *)
Definition RuntimeQBlockIds {W} (s : @PowState W) : option Z := latest_qblock_id s.
