(* ===== verification/XqvmAdapter.v ===== *)
(** * The transform adapter of the compute mempool

    Models [pallets/quantum-compute-mempool/src/xqvm.rs]: registered transform
    programs run on every submitted solution within one step budget.  It
    implements the interface the mempool is written against, with the program
    bytes looked up in the XQVM pallet. *)

From S2P Require Import Prelude Validation Frame Xqvm MempoolCore Mempool.

Section Adapter.
Context `{XqvmLib}.
(** [ProgramSource::program], [MaxTransformStepsPerSubmission], [MaxVmMemory] *)
Context (program_source : H256 -> option (list Z)) (MaxTransformStepsPerSubmission MaxVmMemory : Z).

(** One program of [validate_programs]. *)
Definition validate_program (_ : unit) (hash : H256) : mresult unit :=
  bytes <-? some_or (program_source hash) VmProgramNotFound;;
  program <-? some_or (decode bytes) VmBadBytecode;;
  require (bool_decide (Xqvm.verify program = None)) VmVerificationFailed.

Definition validate_programs (validation transform : option H256) : mresult unit :=
  rfold validate_program tt (omap id [validation; transform]).

Definition map_run_error (e : VmErr) : DispatchError MempoolError :=
  match e with
  | EStepLimitExceeded => Module VmStepLimitExceeded
  | EMemoryLimitExceeded => Module VmMemoryLimitExceeded
  | _ => Module VmExecutionFailed
  end.

Definition is_unit_spin (spin : Z) : bool := (spin =? -1) || (spin =? 1).

(** The checks on the outputs of one run. *)
Definition check_outputs (expected_len : Z) (out : list RegVal) : mresult (list Z) :=
  match out with
  | [RVecInt spins] =>
      require (zlen spins =? expected_len) VmOutputLength;;?
      require (forallb is_unit_spin spins) VmOutputSpin;;?
      Ok ((fun spin => if spin =? -1 then -1 else 1) <$> spins)
  | _ => Err (Module VmOutputType)
  end.

(** The loop over the solutions; the consumed steps survive every error. *)
Fixpoint transform_loop (program : Program) (transformed : list (list Z)) (steps_used : Z)
    (solutions : list (list Z)) : mresult (list (list Z)) * Z :=
  match solutions with
  | [] => (Ok transformed, steps_used)
  | solution :: solutions =>
      let remaining := sat_u 64 (MaxTransformStepsPerSubmission - steps_used) in
      if negb (0 <? remaining) then (Err (Module VmStepLimitExceeded), steps_used) else
      let vm := run MaxVmMemory remaining 1 [RVecInt solution] program in
      let steps_used := u64_add steps_used (steps vm) in
      match run_error vm with
      | Some e => (Err (map_run_error e), steps_used)
      | None =>
          match check_outputs (zlen solution) (outputs vm) with
          | Ok spins => transform_loop program (transformed ++ [spins]) steps_used solutions
          | Err e => (Err e, steps_used)
          | Panic => (Panic, steps_used)
          end
      end
  end.

Definition transform (hash : option H256) (solutions : list (list Z)) : mresult (list (list Z)) * Z :=
  match hash with
  | None => (Ok solutions, 0)
  | Some hash =>
      match program_source hash with
      | None => (Err (Module VmProgramNotFound), 0)
      | Some bytes =>
          match decode bytes with
          | None => (Err (Module VmBadBytecode), 0)
          | Some program => transform_loop program [] 0 solutions
          end
      end
  end.

#[export] Instance XqvmAdapter : QuantumVm := {
  vm_validate_programs := validate_programs;
  vm_transform_solutions := fun _ _ transform_program _ solutions => transform transform_program solutions;
  vm_validate_result := fun _ _ _ _ => Ok tt
}.

(** ** Properties *)

Definition spins_of_len (n : Z) (l : list Z) : Prop := zlen l = n /\ Forall (fun s => s = 1 \/ s = -1) l.

Lemma check_outputs_Ok n out l : check_outputs n out = Ok l -> spins_of_len n l /\ out = [RVecInt l].
Proof.
  unfold check_outputs. destruct out as [|[v|spins|tag] [|? ?]]; try done. intros Hok. hinv.
  assert (Forall (fun s => s = 1 \/ s = -1) spins) as Hs.
  { apply Forall_forall. intros x Hx. match goal with Hf : forallb _ _ = true |- _ => rewrite forallb_forall in Hf;
      specialize (Hf x (proj1 (list_elem_of_In _ _) Hx)) as Hb end. unfold is_unit_spin in Hb.
    apply orb_true_iff in Hb as [Hb|Hb]; bool_to_prop; lia. }
  assert ((fun spin => if spin =? -1 then -1 else 1) <$> spins = spins) as Heq.
  { clear -Hs. induction Hs as [|x l Hx _ IH]; csimpl; [done|]. rewrite IH. f_equal.
    destruct Hx as [->| ->]; done. }
  rewrite Heq. split; [split; [by unfold zlen in *|done]|done].
Qed.

(** Steps never exceed the budget of a submission, whatever the outcome. *)
Lemma transform_loop_steps `{!XqvmLibLaws} program acc used sols :
  0 <= used <= MaxTransformStepsPerSubmission -> MaxTransformStepsPerSubmission < 2 ^ 64 ->
  used <= (transform_loop program acc used sols).2 <= MaxTransformStepsPerSubmission.
Proof.
  intros Hu HM. revert acc used Hu. induction sols as [|sol sols IH]; intros acc used Hu; simpl; [lia|].
  rewrite sat_u_small by (unfold in_u; lia). case_match eqn:Hr; [simpl; lia|]. bool_to_prop.
  match goal with |- context [steps (run ?m ?l ?o ?c ?p)] => pose proof (run_steps m l o c p ltac:(lia)) as Hs end.
  assert (u64_add used (steps (run MaxVmMemory (MaxTransformStepsPerSubmission - used) 1 [RVecInt sol] program)) =
    used + steps (run MaxVmMemory (MaxTransformStepsPerSubmission - used) 1 [RVecInt sol] program)) as Hadd.
  { unfold u64_add. apply sat_u_small. unfold in_u. lia. }
  rewrite Hadd. destruct (run_error _); [simpl; lia|]. destruct (check_outputs _ _); simpl; [|lia|lia].
  specialize (IH (acc ++ [a]) (used + steps (run MaxVmMemory (MaxTransformStepsPerSubmission - used) 1 [RVecInt sol] program)) ltac:(lia)). lia.
Qed.

(** A transformed submission has a valid spin vector of the same length for
    every solution, in order. *)
Lemma transform_loop_Ok program acc used sols out :
  (transform_loop program acc used sols).1 = Ok out ->
  exists new, out = acc ++ new /\ Forall2 (fun sol l => spins_of_len (zlen sol) l) sols new.
Proof.
  revert acc used. induction sols as [|sol sols IH]; intros acc used; simpl.
  { intros [= <-]. exists []. by rewrite app_nil_r. }
  case_match; [done|]. destruct (run_error _); [done|]. destruct (check_outputs _ _) as [l| |] eqn:Hc; [|done|done].
  intros (new & -> & Hf)%IH. apply check_outputs_Ok in Hc as [Hl _]. exists (l :: new). split; [|by constructor].
  by rewrite <- app_assoc.
Qed.

(** Registered programs are present, decodable and verified. *)
Lemma validate_programs_Ok validation transform h :
  validate_programs validation transform = Ok tt -> validation = Some h \/ transform = Some h ->
  exists bytes program, program_source h = Some bytes /\ decode bytes = Some program /\ Xqvm.verify program = None.
Proof.
  assert (forall x, validate_program tt x = Ok tt -> exists bytes program,
    program_source x = Some bytes /\ decode bytes = Some program /\ Xqvm.verify program = None) as Hone.
  { intros x Hx. unfold validate_program in Hx. hinv. eauto. }
  unfold validate_programs. destruct validation as [v|], transform as [t|]; simpl; intros Hok Hh; hinv;
    repeat match goal with u : unit |- _ => destruct u end; destruct Hh; simplify_eq; by apply Hone.
Qed.
End Adapter.
