(* ===== verification/UpgradeChecks.v ===== *)
(** * The checks around runtime upgrades

    Models the [try-runtime] hooks ([pre_upgrade], [post_upgrade], [try_state])
    and the [integrity_test]s of the repository's pallets and of the runtime's
    own migrations, and proves that the upgrades pass their checks. *)

From S2P Require Import Prelude Validation PuzzleSpec Packed Float Energy Gse Diversity Ising SolutionReport Difficulty Frame RuntimeParams Weights QuantumPow QuantumPowProps PowMigration MempoolCore Mempool MempoolProps MinerRegistry Emission StakingRewards Faucet SlashPolicy ElectionData Admission RuntimeGuards Xqvm RuntimeConfig.

(** The messages of [TryRuntimeError::Other]. *)
Inductive TryRuntimeError :=
  | InvalidEmissionRoutes | FaucetBudgetExceeded | IssuanceOverflow | ScheduledIssuanceMismatch | InvalidRebase
  | RebaseDidNotComplete | IncorrectRebaseAnchor | RebaseChangedIssued | RebaseChangedIssuance | RebaseChangedSubnet
  | LegacyFaucetMustFailClosed
  | AdmissionBoundExceeded | PermissionlessWithoutGraduation
  | StorageVersionTooLow | WinnerStreakNotRemoved | QBlocksNotPreserved | OldDifficultyNotRemoved
  | DefaultDifficultyNotSeeded | DefaultTopologyNotWhitelisted
  | StorageVersionNotBumped | DefaultIsingSpecMissing | DefaultIsingSpecBuilderMismatch | OrdersNotWiped
  | OpenOrderMissingFromBucket
  | DescriptorsNotEmpty | NominatorLimitChanged | OffencesVersionNotInitialized.
#[global] Instance TryRuntimeError_eq_dec : EqDecision TryRuntimeError.
Proof. solve_decision. Defined.

Abbreviation tryresult := (result TryRuntimeError).

(** ** The emission controller *)

Section EmissionChecks.
Context `{SpArithmetic} {W : Type} `{Currency W, Issuance W}.
Context (cfg : EmissionConfig).
Implicit Types s : @EmissionState W.

(** [try_state] *)
Definition emission_try_state s : tryresult unit :=
  ensure (valid_routes cfg (Routes s) (Enabled s)) InvalidEmissionRoutes;;?
  ensure (FaucetIssued s <=? FaucetBudget s) FaucetBudgetExceeded;;?
  total <-? rfold (fun total r => ok_or (checked_u 128 (total + subnet_issued r.1 s)) IssuanceOverflow) 0 (Routes s);;
  ensure (total =? ScheduledIssued s) ScheduledIssuanceMismatch.

(** [pre_upgrade]: the anchor expected afterwards and what must not change. *)
Definition emission_pre_upgrade (now version : Z) s : tryresult (option Z * Balance * Balance * list (Z * Balance)) :=
  emission_try_state s;;?
  start <-? (if version <? Emission.VERSION then ok_or (rebased_start cfg now s) InvalidRebase else Ok (StartAt s));;
  let counters := (fun r : Z * Z => (r.1, subnet_issued r.1 s)) <$> Routes s in
  Ok (start, ScheduledIssued s, total_issuance (Emission.world s), counters).

Definition emission_post_upgrade (state : option Z * Balance * Balance * list (Z * Balance)) (version : Z) s : tryresult unit :=
  let '(start, issued, issuance, counters) := state in
  ensure (version =? Emission.VERSION) RebaseDidNotComplete;;?
  ensure (bool_decide (StartAt s = start)) IncorrectRebaseAnchor;;?
  ensure (ScheduledIssued s =? issued) RebaseChangedIssued;;?
  ensure (total_issuance (Emission.world s) =? issuance) RebaseChangedIssuance;;?
  rfold (fun _ c => ensure (subnet_issued c.1 s =? c.2) RebaseChangedSubnet) tt counters;;?
  emission_try_state s.

(** [integrity_test] *)
Definition emission_integrity_test : bool := 0 <? AnnualEmission cfg.

(** The check passes on balanced books. *)
Lemma sum_counters s l acc :
  (forall id, 0 <= subnet_issued id s) -> 0 <= acc -> acc + routes_issued l s < 2 ^ 128 ->
  rfold (fun total r => ok_or (checked_u 128 (total + subnet_issued r.1 s)) IssuanceOverflow) acc l = Ok (acc + routes_issued l s).
Proof.
  unfold routes_issued. intros Hnn. revert acc. induction l as [|r l IH]; intros acc Ha Hb; [unfold zsum; simpl; f_equal; lia|].
  rewrite fmap_cons in *. unfold zsum in *. cbn [foldr] in *. pose proof (Hnn r.1) as Hr.
  assert (0 <= foldr Z.add 0 ((fun r0 : Z * Z => subnet_issued r0.1 s) <$> l)) as Hl.
  { clear -Hnn. induction l as [|r l IH]; [done|]. rewrite fmap_cons. cbn [foldr]. specialize (Hnn r.1). lia. }
  cbn [rfold]. 
  assert (checked_u 128 (acc + subnet_issued r.1 s) = Some (acc + subnet_issued r.1 s)) as ->
    by (apply checked_u_Some; unfold in_u; lia).
  cbn [ok_or rbind]. rewrite IH by lia. f_equal. lia.
Qed.

Lemma books_checked s :
  valid_routes cfg (Routes s) (Enabled s) = true -> FaucetIssued s <= FaucetBudget s -> books s -> ScheduledIssued s < 2 ^ 128 ->
  emission_try_state s = Ok tt.
Proof.
  intros Hr Hf [_ _ Hsum Hnn] Hlt. unfold emission_try_state. rewrite Hr, (proj2 (Z.leb_le _ _)) by done. cbn [ensure rbind].
  rewrite sum_counters by (done || lia). cbn [rbind]. by rewrite Z.add_0_l, Hsum, Z.eqb_refl.
Qed.

(** Whatever state passes the check before the upgrade passes it after. *)
Lemma emission_upgrade_checked now version s pre :
  version <= Emission.VERSION -> emission_pre_upgrade now version s = Ok pre ->
  let r := Emission.on_runtime_upgrade cfg now version s in emission_post_upgrade pre r.1 r.2 = Ok tt.
Proof.
  intros Hv Hpre. unfold emission_pre_upgrade in Hpre.
  apply rbind_Ok_inv in Hpre as ([] & Htry & Hpre). apply rbind_Ok_inv in Hpre as (start & Hstart & [= <-]).
  assert (forall s', Emission.world s' = Emission.world s -> Routes s' = Routes s -> Enabled s' = Enabled s ->
    SubnetIssued s' = SubnetIssued s -> ScheduledIssued s' = ScheduledIssued s -> FaucetIssued s' = FaucetIssued s ->
    FaucetBudget s' = FaucetBudget s -> StartAt s' = start ->
    emission_post_upgrade (start, ScheduledIssued s, total_issuance (Emission.world s),
      (fun r : Z * Z => (r.1, subnet_issued r.1 s)) <$> Routes s) Emission.VERSION s' = Ok tt) as Hpost.
  { intros s' E1 E2 E3 E4 E5 E6 E7 E8. assert (forall id, subnet_issued id s' = subnet_issued id s) as Es
      by (intros id; unfold subnet_issued; by rewrite E4).
    unfold emission_post_upgrade. rewrite E1, E5, E8, !Z.eqb_refl, bool_decide_true by done. simpl.
    assert (forall l, rfold (fun _ c => ensure (subnet_issued c.1 s' =? c.2) RebaseChangedSubnet) tt
      ((fun r : Z * Z => (r.1, subnet_issued r.1 s)) <$> l) = Ok tt) as ->.
    { induction l as [|r l IH]; [done|]. csimpl. rewrite Es, Z.eqb_refl. exact IH. }
    simpl. rewrite <- Htry. unfold emission_try_state. rewrite E2, E3, E5, E6, E7. do 2 f_equal.
    assert (forall l acc, rfold (fun total r => ok_or (checked_u 128 (total + subnet_issued r.1 s')) IssuanceOverflow) acc l =
      rfold (fun total r => ok_or (checked_u 128 (total + subnet_issued r.1 s)) IssuanceOverflow) acc l) as ->; [|done].
    induction l as [|r l IH]; intros acc; [done|]. simpl. rewrite Es. destruct (checked_u _ _); [apply IH|done]. }
  unfold Emission.on_runtime_upgrade. destruct (version <? Emission.VERSION) eqn:Hlt; bool_to_prop.
  - rewrite (proj2 (Z.leb_gt _ _)) by done. destruct (rebased_start cfg now s) as [st|] eqn:Hr; [|done].
    injection Hstart as ->. by apply (Hpost (s <| StartAt := start |>)).
  - rewrite (proj2 (Z.leb_le _ _)) by done. assert (version = Emission.VERSION) as -> by lia.
    injection Hstart as Hstart. by apply (Hpost s).
Qed.
End EmissionChecks.

(** ** The faucet *)

Section FaucetChecks.
Context {W : Type}.
Implicit Types f : @Faucet W.

(** [stored] tells whether the state key exists. *)
Definition faucet_pre_upgrade (stored : bool) f : bool * bool :=
  (Faucet.storage_version f <? 1, stored && bool_decide (Faucet.State f = PermanentlyDisabled)).

Definition faucet_post_upgrade (state : bool * bool) f : tryresult unit :=
  let '(legacy, was_disabled) := state in
  if legacy then
    ensure (bool_decide (Faucet.State f = if was_disabled then PermanentlyDisabled else Paused) &&
            bool_decide (Faucet.Authority f = None)) LegacyFaucetMustFailClosed
  else Ok tt.

Lemma faucet_upgrade_checked stored f :
  faucet_post_upgrade (faucet_pre_upgrade stored f) (faucet_runtime_upgrade stored f) = Ok tt.
Proof.
  unfold faucet_post_upgrade, faucet_pre_upgrade, faucet_runtime_upgrade. destruct (Faucet.storage_version f <? 1); [|done].
  destruct (stored && _) eqn:Hd; simpl; [|done]. apply andb_true_iff in Hd as [_ Hd%bool_decide_eq_true]. by rewrite Hd.
Qed.
End FaucetChecks.

(** ** Validator admission *)

Section AdmissionChecks.
Context {W : Type}.
Implicit Types s : @AdmissionState W.

Definition admission_try_state (max_authorities : Z) (graduation_ready : W -> bool) s : tryresult unit :=
  ensure (Z.of_nat (size (Approved s)) <=? max_authorities) AdmissionBoundExceeded;;?
  ensure (negb (bool_decide (Mode s = PermissionlessEligibility)) || graduation_ready (rest s)) PermissionlessWithoutGraduation.

Definition admission_integrity_test (max_authorities : Z) : bool := (0 <? max_authorities) && (max_authorities <=? 64).

(** Genesis passes the check, and while graduation is never ready every call
    keeps passing it. *)
Lemma admission_genesis_checked max mode approved s s' :
  0 <= max -> Admission.genesis_build max mode approved s = Ok s' -> admission_try_state max (fun _ => false) s' = Ok tt.
Proof.
  intros Hmax Hok. unfold Admission.genesis_build in Hok. case_bool_decide as Hm; [done|].
  apply rbind_Ok_inv in Hok as (set & Hset & [= <-]). unfold admission_try_state. simpl.
  rewrite (bool_decide_false (mode = _)) by done. rewrite (proj2 (Z.leb_le _ _)); [done|].
  eapply (rfold_Ok_ind _ (fun X : gset AccountId => Z.of_nat (size X) <= max)); [| |exact Hset].
  - intros X who X' _ HX. cbv beta. case_bool_decide as Hin; [done|]. case_match eqn:Hlt; [|done]. intros [= <-]. bool_to_prop.
    rewrite size_union by set_solver. rewrite size_singleton. lia.
  - rewrite size_empty. lia.
Qed.

Lemma admission_call_checked max foundation on_removal dispatch_root o c s s' :
  admission_try_state max (fun _ => false) s = Ok tt ->
  admission_dispatch foundation (fun _ => false) on_removal dispatch_root max o c s = Ok s' ->
  admission_try_state max (fun _ => false) s' = Ok tt.
Proof.
  unfold admission_try_state. intros Hs Hok. apply rbind_Ok_inv in Hs as (u & Hb%ensure_Ok & Hm%ensure_Ok).
  rewrite orb_false_r in *. bool_to_prop. apply admission_dispatch_inv in Hok as (Hb' & _ & Hmode & _); [|done].
  rewrite (proj2 (Z.leb_le _ _)) by done. simpl. rewrite bool_decide_false; [done|].
  intros E. destruct (decide (Mode s = Mode s')) as [E'|Hne]; [congruence|]. by specialize (Hmode Hne E).
Qed.
End AdmissionChecks.

(** ** The proof of work *)

Section PowChecks.
Context {W : Type}.
Implicit Types u : @Upgrading W.

(** [pre_upgrade]: whether the chain is at version 2, its default topology,
    and the number of stored qblocks. *)
Definition pow_pre_upgrade (on_chain : Z) u : bool * option H256 * Z :=
  (on_chain =? 2, DefaultTopology (items u), Z.of_nat (size (raw_qblocks u))).

Definition pow_post_upgrade (state : bool * option H256 * Z) (on_chain : Z) u : tryresult unit :=
  ensure (POW_STORAGE_VERSION <=? on_chain) StorageVersionTooLow;;?
  ensure (negb (winner_streak u)) WinnerStreakNotRemoved;;?
  let '(was_v2, default, qblocks_before) := state in
  ensure (Z.of_nat (size (QBlocks (readable u))) =? qblocks_before) QBlocksNotPreserved;;?
  if (was_v2 : bool) then
    ensure (bool_decide (old_difficulty u = None)) OldDifficultyNotRemoved;;?
    match (default : option H256) with
    | Some hash =>
        ensure (bool_decide (is_Some (Difficulties (readable u) !! hash))) DefaultDifficultyNotSeeded;;?
        ensure (bool_decide (hash ∈ MineableTopologies (readable u))) DefaultTopologyNotWhitelisted
    | None => Ok tt
    end
  else Ok tt.

(** [integrity_test] *)
Definition pow_integrity_test (cfg : PowConfig) : bool :=
  (FAST_PROOF_BLOCKS <? MinTargetProofBlocks cfg) &&
  ((MinTargetProofBlocks cfg <=? TargetProofBlocks cfg) && (TargetProofBlocks cfg <=? MaxTargetProofBlocks cfg)) &&
  ((MinBlockReward cfg <=? BlockReward cfg) && (BlockReward cfg <=? MaxBlockReward cfg)).

(** An upgrade that carries the data passes. *)
Lemma pow_upgrade_checked on_chain u :
  2 <= on_chain < POW_STORAGE_VERSION -> map_Forall (fun _ x => layout_of on_chain x) (raw_qblocks u) ->
  let r := pow_runtime_upgrade on_chain u in pow_post_upgrade (pow_pre_upgrade on_chain u) r.1 r.2 = Ok tt.
Proof.
  intros Hv Hlay. destruct (upgrade_keeps_history on_chain u Hv Hlay) as (HQ & _).
  unfold pow_post_upgrade, pow_pre_upgrade. cbv zeta. rewrite HQ, map_size_fmap, Z.eqb_refl.
  unfold pow_runtime_upgrade at 1 2. rewrite (proj2 (Z.leb_gt POW_STORAGE_VERSION on_chain)) by lia. cbn [fst snd remove_winner_streak winner_streak].
  cbn. destruct (on_chain =? 2) eqn:H2; [|done]. bool_to_prop. subst on_chain.
  unfold pow_runtime_upgrade, readable. cbn. destruct (DefaultTopology (items u)) as [d|]; [|done]. cbn.
  rewrite bool_decide_true by (rewrite lookup_insert_eq; eauto). cbn. rewrite bool_decide_true; [done|]. set_solver.
Qed.

(** A chain before version 2 is wiped, which the check takes for lost qblocks
    whenever there were any. *)
Lemma pow_wipe_fails_check on_chain u :
  on_chain < 2 -> 0 < Z.of_nat (size (raw_qblocks u)) ->
  let r := pow_runtime_upgrade on_chain u in
  pow_post_upgrade (pow_pre_upgrade on_chain u) r.1 r.2 = Err QBlocksNotPreserved.
Proof.
  intros Hv Hq. unfold pow_runtime_upgrade. rewrite (proj2 (Z.leb_gt _ _)) by (unfold POW_STORAGE_VERSION; lia).
  rewrite (proj2 (Z.ltb_lt on_chain 3)), (proj2 (Z.ltb_lt on_chain 5)), (proj2 (Z.eqb_neq on_chain 2)), (proj2 (Z.eqb_neq on_chain 4)) by lia.
  unfold pow_post_upgrade, pow_pre_upgrade. cbn. unfold translate. rewrite fmap_empty, omap_empty, map_size_empty.
  by rewrite (proj2 (Z.eqb_neq _ _)) by lia.
Qed.

(** Wiping a chain without qblocks passes. *)
Lemma pow_empty_wipe_passes on_chain u :
  on_chain < 2 -> raw_qblocks u = ∅ ->
  let r := pow_runtime_upgrade on_chain u in pow_post_upgrade (pow_pre_upgrade on_chain u) r.1 r.2 = Ok tt.
Proof.
  intros Hv Hq. unfold pow_runtime_upgrade. rewrite (proj2 (Z.leb_gt _ _)) by (unfold POW_STORAGE_VERSION; lia).
  rewrite (proj2 (Z.ltb_lt on_chain 3)), (proj2 (Z.ltb_lt on_chain 5)), (proj2 (Z.eqb_neq on_chain 2)), (proj2 (Z.eqb_neq on_chain 4)) by lia.
  unfold pow_post_upgrade, pow_pre_upgrade. cbn. unfold translate. rewrite Hq, fmap_empty, omap_empty, map_size_empty.
  by rewrite (proj2 (Z.eqb_neq on_chain 2)) by lia.
Qed.
End PowChecks.

(** ** The compute mempool *)

Section MempoolChecks.
Context `{QuantumVm, MempoolPrims} {W : Type}.
Context (cfg : MempoolConfig).
Implicit Types s : @MempoolState W.

(** [CanonicalDefaultIsingSpecId] *)
Definition default_ising_spec_id : H256 := job_spec_id (default_ising_spec_name cfg) IsingFormulation None None.

(** [pre_upgrade] only records the version. *)
Definition mempool_pre_upgrade (on_chain : Z) : Z := on_chain.

Definition open_order_indexed s (order_id : Z) : tryresult unit :=
  match JobOrders s !! order_id with
  | None => Ok tt
  | Some order =>
      if negb (bool_decide (status order = Opened)) then Ok tt else
      let bucket := expiry_bucket (effective_expiry (created_at order) (first_solution_at order) (timing order)) s in
      ensure (bool_decide (order_id ∈ orders_at bucket s)) OpenOrderMissingFromBucket
  end.

Definition mempool_post_upgrade (pre_version on_chain : Z) s : tryresult unit :=
  ensure (STORAGE_VERSION <=? on_chain) StorageVersionNotBumped;;?
  spec <-? ok_or (JobSpecs s !! default_ising_spec_id) DefaultIsingSpecMissing;;
  (if pre_version <? 2 then
     ensure (bool_decide (builder spec = DefaultJobSpecBuilder cfg)) DefaultIsingSpecBuilderMismatch;;?
     ensure (NextOrderId s =? 0) OrdersNotWiped
   else Ok tt);;?
  if pre_version <? 3 then rfold (fun _ => open_order_indexed s) tt (bucket_order (OpenOrders s)) else Ok tt.

Lemma ensure_all {A} (check : A -> tryresult unit) l :
  (forall x, x ∈ l -> check x = Ok tt) -> rfold (fun _ => check) tt l = Ok tt.
Proof.
  induction l as [|x l IH]; intros Hl; [done|]. cbn. rewrite (Hl x) by (by left). apply IH. intros y Hy. apply Hl. by right.
Qed.

(** After the index has been built every open order is in its bucket. *)
Lemma index_checked `{!MempoolPrimsLaws} s :
  let s' := index_open_orders_for_expiry s in
  JobSpecs s' = JobSpecs s /\ NextOrderId s' = NextOrderId s /\
  rfold (fun _ => open_order_indexed s') tt (bucket_order (OpenOrders s')) = Ok tt.
Proof.
  cbv zeta. unfold index_open_orders_for_expiry. cbv zeta.
  destruct (index_loop (bucket_order (OpenOrders s)) s) as (E0 & E1 & E2 & E3 & E4 & E5).
  set (s1 := foldl _ _ _) in *. split_and!; [done|done|]. apply ensure_all. intros id Hid. cbn in Hid. rewrite E2 in Hid.
  unfold open_order_indexed. cbn. rewrite E1. destruct (JobOrders s !! id) as [order|] eqn:Ho; [|done].
  case_bool_decide as Hst; [|done]. cbn. rewrite bool_decide_true; [done|].
  change (orders_at ?b (s1 <| NextExpiryBucket := _ |>)) with (orders_at b s1). rewrite E5. right. split; [done|].
  exists order. split_and!; [done|done|]. unfold expiry_bucket. cbn. by rewrite E4.
Qed.

(** The upgrade passes its check from every earlier version, when the plain
    spec is in place or, on a chain that is wiped, when it can be reseeded. *)
Lemma mempool_upgrade_checked `{!MempoolPrimsLaws} on_chain s :
  (if on_chain <? 2 then vm_validate_programs None None = Ok tt else is_Some (JobSpecs s !! default_ising_spec_id)) ->
  let r := Mempool.on_runtime_upgrade cfg on_chain s in
  mempool_post_upgrade (mempool_pre_upgrade on_chain) r.1 r.2 = Ok tt.
Proof.
  intros Hspec. unfold Mempool.on_runtime_upgrade, mempool_pre_upgrade, mempool_post_upgrade.
  destruct (Mempool.STORAGE_VERSION <=? on_chain) eqn:Hv; cbn [fst snd].
  { unfold Mempool.STORAGE_VERSION in *. bool_to_prop. rewrite (proj2 (Z.ltb_ge on_chain 2)) in * by lia. destruct Hspec as [spec ->].
    rewrite (proj2 (Z.leb_le _ _)), (proj2 (Z.ltb_ge on_chain 3)) by lia. done. }
  rewrite Z.leb_refl. cbn [ensure rbind].
  destruct (on_chain <? 2) eqn:H2; bool_to_prop.
  - rewrite (proj2 (Z.ltb_lt on_chain 3)) by lia. unfold insert_default_ising_spec, insert_job_spec. cbv zeta.
    change (JobSpecs (clear_prefix s)) with (∅ : gmap H256 JobSpec). rewrite lookup_empty, bool_decide_true by done. cbn [require rbind]. rewrite Hspec.
    cbn [rbind fst]. match goal with |- context [index_open_orders_for_expiry ?x] => destruct (index_checked x) as (-> & -> & ->) end.
    cbn. rewrite lookup_insert_eq. cbn. by rewrite bool_decide_true.
  - destruct (on_chain <? 3) eqn:H3.
    + destruct (index_checked s) as (-> & _ & ->). destruct Hspec as [spec ->]. done.
    + destruct Hspec as [spec ->]. done.
Qed.
End MempoolChecks.

(** ** The miner registry and the staking pallets *)

(** [InnerMigrateToV2::post_upgrade] *)
Definition registry_post_upgrade {R : Type} (records : list R) : tryresult unit :=
  ensure (bool_decide (records = [])) DescriptorsNotEmpty.

(** [InitializeStakingLimits] *)
Definition staking_limits_pre_upgrade (max_nominators_count : option Z) : option Z := max_nominators_count.
Definition staking_limits_post_upgrade (before max_nominators_count : option Z) : tryresult unit :=
  ensure (bool_decide (max_nominators_count = Some (default 0 before))) NominatorLimitChanged.

(** [InitializeOffences] *)
Definition offences_post_upgrade (version : Z) : tryresult unit := ensure (version =? 1) OffencesVersionNotInitialized.

Lemma staking_limits_checked limit :
  staking_limits_post_upgrade (staking_limits_pre_upgrade limit) (initialize_staking_limits limit) = Ok tt.
Proof. unfold staking_limits_post_upgrade. by destruct limit; rewrite bool_decide_true. Qed.

Lemma offences_checked version : offences_post_upgrade (initialize_offences version) = Ok tt <-> version = 0 \/ version = 1.
Proof.
  unfold offences_post_upgrade, initialize_offences. destruct (version =? 0) eqn:E0; bool_to_prop; [subst; split; [by left|done]|].
  destruct (version =? 1) eqn:E1; bool_to_prop; split; intros; try done; [by right|lia].
Qed.

(** ** The slash policy *)

(** [integrity_test] *)
Definition slash_integrity_test (cfg : SlashConfig) : bool :=
  (0 <? BondingDuration cfg) && (BondingDuration cfg <=? MaxBudgetWindow cfg) && (0 <? SlashDeferDuration cfg) &&
  ((MIN_PER_MOTION <=? DEFAULT_PER_MOTION) && (DEFAULT_PER_MOTION <=? MAX_PER_MOTION)) &&
  ((MIN_CUMULATIVE <=? DEFAULT_CUMULATIVE) && (DEFAULT_CUMULATIVE <=? MAX_CUMULATIVE)) &&
  (DEFAULT_PER_MOTION <=? DEFAULT_CUMULATIVE).
