(* ===== verification/Metering.v ===== *)
(** * What calls are charged

    The weights the calls of [pallets/xqvm], [pallets/quantum-pow] and
    [pallets/quantum-compute-mempool] declare before dispatch and report
    afterwards, with the limits of the runtime, and the mempool's integrity
    test over them ([weights.rs]).  The encoded sizes of storage items are
    parameters. *)

From stdpp Require Import strings.
From S2P Require Import Prelude Validation PuzzleSpec Frame RuntimeParams Weights QuantumPow MempoolCore Mempool Xqvm RuntimeConfig.

Open Scope Z_scope.

Section Charges.
Context `{PerbillTimes, DbWeight}.
#[local] Open Scope weight_scope.

(** ** [pallets/xqvm]: [bytecode.len() as u32] *)

Definition len_u32 {A} (l : list A) : Z := wrap_u 32 (zlen l).

Definition store_program_declared (bytecode : list Z) : Weight := store_program_weight (len_u32 bytecode) MaxProgramBlocks.
Definition store_program_actual `{XqvmLib} (bytecode : list Z) : option Weight :=
  program ← decode bytecode;
  Some (store_program_weight (len_u32 bytecode) (blocks (shape_of (code program)))).

Definition execute_declared (step_limit : Z) : Weight := execute_weight MaxProgramSize + XqvmWeightPerStep * step_limit.
Definition execute_actual (bytecode : list Z) (steps_used : Z) : Weight :=
  execute_weight (len_u32 bytecode) + XqvmWeightPerStep * steps_used.

Definition remove_program_declared : Weight := remove_program_weight MaxProgramSize.
Definition remove_program_actual (bytecode : list Z) : Weight := remove_program_weight (len_u32 bytecode).

(** ** [pallets/quantum-pow] *)

Definition allowed_value_input_count (spec : AllowedValueSpec) : Z :=
  match spec with SetSpec values => len_u32 values | IntegerRange _ _ | ContinuousRange _ _ => 2 end.

Definition register_topology_declared (ns : list Z) (es : list (Z * Z)) (h j sp : AllowedValueSpec) : Weight :=
  register_topology_weight (len_u32 ns) (len_u32 es)
    (sat_u 32 (sat_u 32 (allowed_value_input_count h + allowed_value_input_count j) + allowed_value_input_count sp)).

Definition submit_proof_declared {W} (proof : QuantumProof) (s : @PowState W) : Weight :=
  let '(n, e) := match RegisteredTopologies s !! proof_topology_hash proof with
    | Some topology => (len_u32 (nodes topology), len_u32 (edges topology))
    | None => (0, 0)
    end in
  submit_proof_weight n e (len_u32 (solutions proof)).

(** ** [pallets/quantum-compute-mempool] *)

Definition transform_weight (steps : Z) (has_program : bool) : Weight :=
  XqvmWeightPerStep * steps + (if has_program then QuantumProgramLookupWeight else weight_zero).

Definition submit_solution_declared : Weight :=
  submit_solution_weight QuantumMaxNodes QuantumMaxEdges QuantumMaxSolutions + transform_weight QuantumMaxTransformSteps true.

Definition bid_dimensions (mode : JobMode) : Z * Z :=
  match mode with
  | Open => (0, 0)
  | Bid miners miner_types => (default 0 (len_u32 <$> miners), default 0 (len_u32 <$> miner_types))
  end.

Definition propose_job_declared (params : IsingParams) (mode : JobMode) : Weight :=
  let '(b, t) := bid_dimensions mode in
  propose_job_weight (len_u32 (p_nodes params)) (len_u32 (p_edges params)) b t.

Definition register_job_spec_declared (validation_program transform_program : option H256) : Weight :=
  register_job_spec_bench + QuantumProgramValidationWeight *
    ((if bool_decide (is_Some validation_program) then 1 else 0) + (if bool_decide (is_Some transform_program) then 1 else 0)).

(** [on_initialize] *)
Definition expiry_work_weight (finalised buckets_visited : Z) : Weight :=
  finalise_expired_orders_bench finalised + reads buckets_visited.

Section Submission.
Context `{QuantumVm, MempoolPrims} {W : Type} `{Currency W}.
Context (cfg : MempoolConfig).

(** The out parameters [vm_steps] and [has_program] of
    [submit_solution_inner]: what the checks before the transform let pass. *)
Definition vm_usage (who : AccountId) (order_id : Z) (sols : list (list Z)) (payee : option WinnerPayee)
    (s : @MempoolState W) : Z * bool :=
  let checked :=
    info <-? some_or (Solvers s !! who) SolverNotRegistered;;
    require (negb (bool_decide (sols = []))) NoSolutionsSubmitted;;?
    order <-? some_or (JobOrders s !! order_id) OrderNotFound;;
    spec <-? some_or (JobSpecs s !! spec_id order) JobSpecNotFound;;
    require (bool_decide (status order = Opened) &&
      negb (is_expired (block_number s) (created_at order) (first_solution_at order) (timing order)))
      OrderNotOpen;;?
    check_payee order_id payee s;;?
    require (solver_is_eligible who (solver_type info) (mode order)) NotEligibleSolver;;?
    rmap_err map_validation_error
      (TopologyIndex.new (p_nodes (ising_params order)) (p_edges (ising_params order)));;?
    Ok (order, spec) in
  match checked with
  | Ok (order, spec) =>
      ((vm_transform_solutions (spec_id order) (validation_program spec) (transform_program spec) who sols).2,
       bool_decide (is_Some (transform_program spec)))
  | _ => (0, false)
  end.

(** The result with the weight reported after dispatch, on success and on
    failure. *)
Definition do_submit_solution (who : AccountId) (order_id : Z) (sols : list (list Z)) (payee : option WinnerPayee)
    (s : @MempoolState W) : mresult (@MempoolState W) * Weight :=
  let base := if bool_decide (is_Some payee)
    then submit_solution_with_payee_weight QuantumMaxNodes QuantumMaxEdges QuantumMaxSolutions
    else submit_solution_weight QuantumMaxNodes QuantumMaxEdges QuantumMaxSolutions in
  let '(steps, has_program) := vm_usage who order_id sols payee s in
  (submit_solution_inner cfg who order_id sols payee s, base + transform_weight steps has_program).
End Submission.

(** *** The integrity test *)

Definition TRIE_OVERHEAD_PER_KEY : Z := (8 + 2) * 15 * 33.

(** The maximal encoded size of an entry, for each storage item settlement
    touches. *)
Record StorageSizes := mkStorageSizes {
  size_job_orders : Z; size_job_specs : Z; size_proposer_orders : Z; size_order_top_solvers : Z;
  size_order_front_runner : Z; size_account : Z; size_solvers : Z; size_open_orders : Z; size_total_issuance : Z;
  size_next_order_id : Z; size_orders_expiring_at : Z; size_order_payee_requirements : Z; size_order_payees : Z;
  size_order_solutions : Z; size_block_number : Z
}.

Context (sz : StorageSizes).
#[local] Abbreviation key x := (sat_u 64 (x sz + TRIE_OVERHEAD_PER_KEY)) (only parsing).
#[local] Notation "a ⊞ b" := (sat_u 64 (a + b)%Z) (at level 50, left associativity).

Definition claim_reward_proof_envelope : Z :=
  let winners := MAX_REWARD_WINNERS in
  key size_job_orders ⊞ key size_job_specs ⊞ key size_proposer_orders
  ⊞ Z.max (key size_order_top_solvers) (key size_order_front_runner)
  ⊞ sat_u 64 (key size_account * (winners ⊞ 1))%Z
  ⊞ sat_u 64 (key size_solvers * winners)%Z
  ⊞ key size_open_orders ⊞ key size_total_issuance.

Definition reclaim_order_proof_envelope : Z :=
  key size_job_orders ⊞ key size_proposer_orders ⊞ key size_account ⊞ key size_open_orders ⊞ key size_total_issuance.

Definition propose_job_proof_envelope : Z :=
  key size_job_orders ⊞ key size_job_specs ⊞ key size_proposer_orders ⊞ key size_account ⊞ key size_next_order_id
  ⊞ key size_open_orders ⊞ key size_orders_expiring_at ⊞ key size_order_payee_requirements
  ⊞ (size_block_number sz + TRIE_OVERHEAD_PER_KEY)%Z.

Definition submit_solution_proof_envelope : Z :=
  key size_job_orders ⊞ key size_job_specs ⊞ key size_solvers ⊞ key size_order_solutions
  ⊞ Z.max (key size_order_top_solvers) (key size_order_front_runner)
  ⊞ sat_u 64 (key size_orders_expiring_at * 2)%Z
  ⊞ key size_order_payee_requirements ⊞ key size_order_payees
  ⊞ (size_block_number sz + TRIE_OVERHEAD_PER_KEY)%Z.

(** The loop's entries: the declared weights at the limits, with their floors. *)
Definition checked_weights : list (Weight * Z) :=
  let n := QuantumMaxNodes in let e := QuantumMaxEdges in
  [(propose_job_weight n e QuantumMaxBidMiners 8, PROPOSE_JOB_PROOF_FLOOR);
   (propose_job_with_payee_requirement_weight n e QuantumMaxBidMiners 8, PROPOSE_JOB_PROOF_FLOOR);
   (claim_reward_weight, CLAIM_REWARD_PROOF_FLOOR);
   (reclaim_order_weight, RECLAIM_ORDER_PROOF_FLOOR);
   (submit_solution_weight n e QuantumMaxSolutions + transform_weight QuantumMaxTransformSteps true, SUBMIT_SOLUTION_PROOF_FLOOR);
   (submit_solution_with_payee_weight n e QuantumMaxSolutions + transform_weight QuantumMaxTransformSteps true,
    SUBMIT_SOLUTION_PROOF_FLOOR)].

Definition check_claim_reward_weight : bool :=
  (MAX_REWARD_WINNERS =? 32)%Z &&
  (claim_reward_proof_envelope <=? CLAIM_REWARD_PROOF_FLOOR)%Z &&
  (reclaim_order_proof_envelope <=? RECLAIM_ORDER_PROOF_FLOOR)%Z &&
  (submit_solution_proof_envelope <=? SUBMIT_SOLUTION_PROOF_FLOOR)%Z &&
  (propose_job_proof_envelope <=? PROPOSE_JOB_PROOF_FLOOR)%Z &&
  forallb (fun c : Weight * Z =>
    (c.2 <=? proof_size c.1)%Z && bool_decide (c.1 ≤ normal_max_extrinsic) && bool_decide (c.1 ≤ normal_max)) checked_weights.
End Charges.
