(* ===== verification/Runtime.v ===== *)
(** * The composed runtime

    Models how [runtime/src/lib.rs] composes the repository's pallets (the
    [#[frame_support::runtime]] module, in the order of the pallet indices) with
    the configurations of [runtime/src/configs]: one ledger, one clock and one
    event log shared by all pallets, the emission controller as the reward
    payment of the proof of work, the stored programs as the mempool's virtual
    machine, the latest qblock as the registry's candidate, the Foundation as
    the privileged origin, and the election round as the admission pallet's
    removal hook.

    Storage is the pallets' own without the ledger (world [unit]); a call loads
    a pallet's state with the shared ledger, runs the handler and stores the
    result.  The SDK's pallets are behind the interfaces of the components. *)

From S2P Require Import Prelude Validation Frame RuntimeParams Weights Difficulty Ising QuantumPow QuantumPowProps MempoolCore Mempool MempoolProps MempoolSettlement MinerRegistry Template Emission StakingRewards Faucet SlashPolicy Admission Governance ElectionRound GenesisPresets Xqvm RuntimeConfig XqvmAdapter.

(** ** Calls, events and errors of the runtime *)

Inductive xqvm_call :=
  | StoreProgram (bytecode : list Z)
  | Execute (hash : H256) (calldata : list Z) (output_slots step_limit : Z)
  | RemoveProgram (hash : H256)
  | EvictProgram (hash : H256).
Inductive faucet_call :=
  | Mint (who : AccountId) (amount : Balance)
  | SetAuthority (authority : option AccountId)
  | Disable.
Inductive registry_call :=
  | SetDescriptor (descriptor : NodeDescriptorInput)
  | ClearDescriptor
  | Participate (q : Z) (k : MinerKind) (budget : option Z).
Inductive slash_call :=
  | DiscretionarySlash (stash : AccountId) (era fraction : Z)
  | SetLimits (per_motion cumulative window : Z).
Inductive template_call := DoSomething (something : Z) | CauseError.

(** [RuntimeCall]: the variants of the repository's pallets. *)
Inductive PalletCall :=
  | TemplateCall (c : template_call)
  | XqvmCall (c : xqvm_call)
  | MempoolCall (c : MempoolProps.call)
  | PowCall (c : QuantumPowProps.call)
  | FaucetCall (c : faucet_call)
  | RegistryCall (c : registry_call)
  | AdmissionCall (c : admission_call)
  | SlashCall (c : slash_call).

(** [RuntimeEvent] *)
Inductive RuntimeEvent :=
  | TemplateEv (e : TemplateEvent)
  | XqvmEv (e : XqvmEvent)
  | MempoolEv (e : MempoolEvent)
  | PowEv (e : PowEvent)
  | FaucetEv (e : FaucetEvent)
  | RegistryEv (e : RegistryEvent)
  | EmissionEv (e : EmissionEvent)
  | AdmissionEv (e : AdmissionEvent)
  | SlashEv (e : SlashEvent).

(** [RuntimeError] *)
Inductive RuntimeError :=
  | TemplateErr (e : TemplateError)
  | XqvmErr (e : XqvmError)
  | MempoolErr (e : MempoolError)
  | PowErr (e : PowError)
  | FaucetErr (e : FaucetError)
  | RegistryErr (e : RegistryError)
  | AdmissionErr (e : AdmissionError)
  | SlashErr (e : SlashError).

(** A pallet's dispatch error in the runtime. *)
Definition lift {E} (f : E -> RuntimeError) (e : DispatchError E) : DispatchError RuntimeError :=
  match e with
  | BadOrigin => BadOrigin
  | CurrencyError => CurrencyError
  | Module e => Module (f e)
  end.

Abbreviation rtresult := (result (DispatchError RuntimeError)).

(** ** The ledger *)

(** [pallet_balances]: holds are part of the reserved balance, the other
    operations do not touch them; only depositing creates money, and a transfer
    may burn the dust of a closed account. *)
Class BalancesLaws (C : Type) `{Currency C, Issuance C, Holds C} := {
  backing_reserved : forall c x, backing c x = reserved_balance c x;
  deposit_reserved : forall c who v x, reserved_balance (deposit_creating c who v).1 x = reserved_balance c x;
  reserve_on_hold : forall c c' who v x, reserve c who v = Some c' -> on_hold c' x = on_hold c x;
  unreserve_on_hold : forall c who v x, on_hold (unreserve c who v).1 x = on_hold c x;
  transfer_on_hold : forall c c' from to v x, transfer c from to v = Some c' -> on_hold c' x = on_hold c x;
  deposit_on_hold : forall c who v x, on_hold (deposit_creating c who v).1 x = on_hold c x;
  keep_alive_on_hold : forall c c' from to v x, transfer_keep_alive c from to v = Some c' -> on_hold c' x = on_hold c x;
  reserve_issuance : forall c c' who v, reserve c who v = Some c' -> total_issuance c' = total_issuance c;
  unreserve_issuance : forall c who v, total_issuance (unreserve c who v).1 = total_issuance c;
  transfer_issuance : forall c c' from to v, transfer c from to v = Some c' -> total_issuance c' <= total_issuance c;
  hold_issuance : forall c c' who v, hold c who v = Some c' -> total_issuance c' = total_issuance c;
  release_issuance : forall c c' who v actual, release c who v = Some (c', actual) -> total_issuance c' = total_issuance c
}.

Section Runtime.
Context `{UsizeWidth, DifficultyPrims, PowPrims} {R : Type} `{IsingPrims R}.
Context `{SpArithmetic, XqvmLib, MempoolPrims, EnsureProportion, PerbillTimes, DbWeight}.
(** Balances, staking and the multi-block election. *)
Context {C : Type} `{Currency C, Issuance C, Holds C}.
Context {S : Type} `{StakingOps S}.
Context {M : Type} `{MultiBlock M}.
(** [EmissionController::pot], the default builder, and the two hashes. *)
Context (pot : Z -> AccountId) (builder : AccountId).
Context (program_hash : list Z -> H256) (descriptor_hash : NodeDescriptorInput -> H256).

Record Runtime := mkRuntime {
  System_number : BlockNumber;
  System_parent_hash : list Z;
  System_events : list RuntimeEvent;
  Timestamp_now : Z;
  Balances : C;
  RtTemplate : option Z;
  RtXqvm : @XqvmState unit;
  RtMempool : @MempoolState unit;
  RtPow : @PowState unit;
  RtFaucetState : FaucetState;
  RtFaucetAuthority : option AccountId;
  RtFaucetVersion : Z;
  RtRegistry : @RegistryState unit;
  RtEmission : @EmissionState unit;
  RtAdmissionMode : AdmissionMode;
  RtApproved : gset AccountId;
  RtStaking : S;
  RtElection : @ElectionRound.Chain M;
  RtSlash : @SlashState unit
}.
#[export] Instance Runtime_expansion : Expansion Runtime := fun r =>
  mkRuntime (System_number r) (System_parent_hash r) (System_events r) (Timestamp_now r) (Balances r) (RtTemplate r)
    (RtXqvm r) (RtMempool r) (RtPow r) (RtFaucetState r) (RtFaucetAuthority r) (RtFaucetVersion r) (RtRegistry r)
    (RtEmission r) (RtAdmissionMode r) (RtApproved r) (RtStaking r) (RtElection r) (RtSlash r).
Implicit Types rt : Runtime.

(** ** A pallet inside the runtime *)

Class Pallet (P : Type) := {
  load : Runtime -> P;
  store : P -> Runtime -> Runtime
}.

Definition deposit_events {E} (f : E -> RuntimeEvent) (es : list E) rt : Runtime :=
  rt <| System_events $= (.++ (f <$> es)) |>.

#[export] Instance xqvm_pallet : Pallet (@XqvmState C) := {
  load rt := let s := RtXqvm rt in mkXqvmState (Programs s) (ProgramOwner s) (ProgramDeposit s) (Balances rt) [];
  store s rt := deposit_events XqvmEv (Xqvm.events s)
    (rt <| RtXqvm := mkXqvmState (Programs s) (ProgramOwner s) (ProgramDeposit s) tt [] |> <| Balances := ledger s |>)
}.

#[export] Instance mempool_pallet : Pallet (@MempoolState C) := {
  load rt := let s := RtMempool rt in
    mkMempoolState (JobSpecs s) (JobOrders s) (NextOrderId s) (OpenOrders s) (OrdersExpiringAt s) (NextExpiryBucket s)
      (OrderSolutions s) (OrderPayeeRequirements s) (OrderPayees s) (OrderFrontRunner s) (OrderTopSolvers s)
      (Solvers s) (ProposerOrders s) (OrderResults s) (System_number rt) (Balances rt) [];
  store s rt := deposit_events MempoolEv (Mempool.events s)
    (rt <| RtMempool := mkMempoolState (JobSpecs s) (JobOrders s) (NextOrderId s) (OpenOrders s) (OrdersExpiringAt s)
             (NextExpiryBucket s) (OrderSolutions s) (OrderPayeeRequirements s) (OrderPayees s) (OrderFrontRunner s)
             (OrderTopSolvers s) (Solvers s) (ProposerOrders s) (OrderResults s) 0 tt [] |>
        <| Balances := Mempool.world s |>)
}.

#[export] Instance emission_pallet : Pallet (@EmissionState C) := {
  load rt := let s := RtEmission rt in
    mkEmissionState (Enabled s) (StartAt s) (Routes s) (SubnetIssued s) (ScheduledIssued s) (FaucetBudget s)
      (FaucetIssued s) (Balances rt) [];
  store s rt := deposit_events EmissionEv (Emission.events s)
    (rt <| RtEmission := mkEmissionState (Enabled s) (StartAt s) (Routes s) (SubnetIssued s) (ScheduledIssued s)
             (FaucetBudget s) (FaucetIssued s) tt [] |> <| Balances := Emission.world s |>)
}.

(** The proof of work pays through the emission controller: its ledger is the
    controller's state. *)
#[export] Instance pow_pallet : Pallet (@PowState (@EmissionState C)) := {
  load rt := let s := RtPow rt in
    mkPowState (RegisteredTopologies s) (DefaultTopology s) (Difficulties s) (TopologyCurveC s) (MineableTopologies s)
      (Miners s) (BlockBestProof s) (LastProofBlock s) (LastProofBlockHash s) (BlockProofCount s) (QBlocks s)
      (QBlockCount s) (QBlockBlockById s) (QBlockIdByBlock s) (BlockRewardOverride s) (TargetProofBlocksOverride s)
      (System_number rt) (System_parent_hash rt) (load rt) [];
  store s rt := deposit_events PowEv (QuantumPow.events s)
    (store (QuantumPow.world s) (rt <| RtPow :=
       mkPowState (RegisteredTopologies s) (DefaultTopology s) (Difficulties s) (TopologyCurveC s)
         (MineableTopologies s) (Miners s) (BlockBestProof s) (LastProofBlock s) (LastProofBlockHash s)
         (BlockProofCount s) (QBlocks s) (QBlockCount s) (QBlockBlockById s) (QBlockIdByBlock s)
         (BlockRewardOverride s) (TargetProofBlocksOverride s) 0 [] tt [] |>))
}.

#[export] Instance faucet_pallet : Pallet (@Faucet C) := {
  load rt := mkFaucet (RtFaucetState rt) (RtFaucetAuthority rt) (RtFaucetVersion rt) (load rt) [];
  store f rt := deposit_events FaucetEv (faucet_events f)
    (store (Faucet.emissions f) (rt <| RtFaucetState := Faucet.State f |> <| RtFaucetAuthority := Faucet.Authority f |>
       <| RtFaucetVersion := Faucet.storage_version f |>))
}.

#[export] Instance registry_pallet : Pallet (@RegistryState C) := {
  load rt := let s := RtRegistry rt in
    mkRegistryState (NodeDescriptors s) (LatestParticipation s) (ParticipantsByQBlock s) (ParticipantCountByQBlock s)
      (System_number rt) (Balances rt) [];
  store s rt := deposit_events RegistryEv (MinerRegistry.events s)
    (rt <| RtRegistry := mkRegistryState (NodeDescriptors s) (LatestParticipation s) (ParticipantsByQBlock s)
             (ParticipantCountByQBlock s) 0 tt [] |> <| Balances := MinerRegistry.world s |>)
}.

#[export] Instance slash_pallet : Pallet (@SlashState S) := {
  load rt := let s := RtSlash rt in
    mkSlashState (MaxDiscretionarySlashPerMotion s) (MaxDiscretionarySlashCumulative s) (BudgetWindow s)
      (SlashHistory s) (RtStaking rt) [];
  store s rt := deposit_events SlashEv (SlashPolicy.events s)
    (rt <| RtSlash := mkSlashState (MaxDiscretionarySlashPerMotion s) (MaxDiscretionarySlashCumulative s)
             (BudgetWindow s) (SlashHistory s) tt [] |> <| RtStaking := staking s |>)
}.

#[export] Instance admission_pallet : Pallet (@AdmissionState (@ElectionRound.Chain M)) := {
  load rt := mkAdmissionState (RtAdmissionMode rt) (RtApproved rt) (RtElection rt) [];
  store s rt := deposit_events AdmissionEv (Admission.events s)
    (rt <| RtAdmissionMode := Mode s |> <| RtApproved := Approved s |> <| RtElection := rest s |>)
}.

#[export] Instance template_pallet : Pallet TemplateState := {
  load rt := mkTemplateState (RtTemplate rt) [];
  store s rt := deposit_events TemplateEv (template_events s) (rt <| RtTemplate := Something s |>)
}.

(** Run a handler of a pallet on the runtime. *)
Definition run_in {P} `{!Pallet P} {E} (err : E -> RuntimeError) (f : P -> result (DispatchError E) P) rt
    : rtresult Runtime :=
  s <-? rmap_err (lift err) (f (load rt));; Ok (store s rt).

(** ** Wiring *)

(** [type VM = XqvmAdapter] with [QuantumProgramSource] *)
Definition runtime_vm rt : QuantumVm :=
  XqvmAdapter (QuantumProgramSource (RtXqvm rt)) QuantumMaxTransformSteps MaxVmMemory.

(** [type RewardPayment = SubnetRewards<Runtime, ISING_SUBNET>] *)
Definition runtime_reward : MiningReward (@EmissionState C) := emission_reward pot ISING_SUBNET.
#[local] Existing Instance runtime_reward.

Abbreviation mempool_config := (runtime_mempool_config builder).
Abbreviation pow_config := (runtime_pow_config FoundationOrRoot).

(** ** Dispatch *)

Definition dispatch_template (o : Origin) (c : template_call) rt : rtresult Runtime :=
  run_in TemplateErr (match c with DoSomething v => do_something o v | CauseError => cause_error o end) rt.

Definition dispatch_xqvm (o : Origin) (c : xqvm_call) rt : rtresult Runtime :=
  run_in XqvmErr (match c with
    | StoreProgram bytecode => store_program runtime_xqvm_config program_hash o bytecode
    | Execute hash calldata slots limit => execute runtime_xqvm_config o hash calldata slots limit
    | RemoveProgram hash => remove_program o hash
    | EvictProgram hash => evict_program o hash
    end) rt.

Definition dispatch_mempool (o : Origin) (c : MempoolProps.call) rt : rtresult Runtime :=
  run_in MempoolErr (@MempoolProps.dispatch (runtime_vm rt) _ C _ mempool_config o c) rt.

Definition dispatch_pow (o : Origin) (c : QuantumPowProps.call) rt : rtresult Runtime :=
  run_in PowErr (QuantumPowProps.dispatch pow_config o c) rt.

Definition dispatch_faucet (o : Origin) (c : faucet_call) rt : rtresult Runtime :=
  run_in FaucetErr (match c with
    | Mint who amount => mint FoundationOrigin o who amount
    | SetAuthority authority => set_authority FoundationOrigin o authority
    | Disable => disable FoundationOrigin o
    end) rt.

Definition dispatch_registry (o : Origin) (c : registry_call) rt : rtresult Runtime :=
  run_in RegistryErr (match c with
    | SetDescriptor descriptor => set_descriptor runtime_registry_config descriptor_hash o descriptor
    | ClearDescriptor => clear_descriptor o
    | Participate q k budget => participate (RuntimeQBlockIds (RtPow rt)) o q k budget
    end) rt.

Definition dispatch_slash (o : Origin) (c : slash_call) rt : rtresult Runtime :=
  run_in SlashErr (match c with
    | DiscretionarySlash stash era fraction => discretionary_slash runtime_slash_config FoundationOrRoot o stash era fraction
    | SetLimits per_motion cumulative window => set_limits runtime_slash_config FoundationOrRoot o per_motion cumulative window
    end) rt.

(** [call.dispatch_bypass_filter(Root)]: dispatch of any runtime call as Root,
    with whether it succeeded. *)
Context (dispatch_root : RuntimeCall -> Runtime -> Runtime * bool).

Definition dispatch_admission (o : Origin) (c : admission_call) rt : rtresult Runtime :=
  match c with
  | CallApprove who => run_in AdmissionErr (approve FoundationOrigin Params.MaxAdmittedAuthorities o who) rt
  | CallRemove who => run_in AdmissionErr (remove FoundationOrigin (fun _ => ElectionRound.on_removal) o who) rt
  | CallAdvance mode => run_in AdmissionErr (advance FoundationOrigin (fun _ => false) o mode) rt
  | CallDispatchAsRoot call =>
      s <-? rmap_err (lift AdmissionErr) (dispatch_as_root FoundationOrigin dispatch_root o call
              (mkAdmissionState (RtAdmissionMode rt) (RtApproved rt) rt []));;
      Ok (deposit_events AdmissionEv (Admission.events s) (rest s))
  end.

Definition dispatch (o : Origin) (c : PalletCall) rt : rtresult Runtime :=
  match c with
  | TemplateCall c => dispatch_template o c rt
  | XqvmCall c => dispatch_xqvm o c rt
  | MempoolCall c => dispatch_mempool o c rt
  | PowCall c => dispatch_pow o c rt
  | FaucetCall c => dispatch_faucet o c rt
  | RegistryCall c => dispatch_registry o c rt
  | AdmissionCall c => dispatch_admission o c rt
  | SlashCall c => dispatch_slash o c rt
  end.

(** ** Blocks *)

Definition mempool_initialize rt : rtresult Runtime :=
  run_in MempoolErr (Mempool.on_initialize (System_number rt)) rt.
Definition pow_initialize rt : Runtime :=
  store (QuantumPow.on_initialize (System_number rt) (load (P := @PowState (@EmissionState C)) rt)) rt.
Definition emission_initialize rt : Runtime :=
  store (Emission.on_initialize runtime_emission_config pot (Timestamp_now rt / 1000) (load rt)) rt.

(** The [on_initialize] hooks in the order of the pallet indices: mempool (9),
    proof of work (10), emission controller (19).  The clock still shows the
    previous block's time. *)
Definition initialize_hooks rt : rtresult Runtime :=
  rt <-? mempool_initialize rt;; Ok (emission_initialize (pow_initialize rt)).

(** [Executive::initialize_block]: the system pallet starts the block, then the
    hooks run. *)
Definition initialize_block (parent : list Z) rt : rtresult Runtime :=
  initialize_hooks (rt <| System_number := System_number rt + 1 |> <| System_parent_hash := parent |>
    <| System_events := [] |>).

(** The [on_finalize] hooks: only the proof of work has one. *)
Definition finalize_block rt : Runtime :=
  store (QuantumPow.on_finalize pow_config (System_number rt) (load rt)) rt.

(** The timestamp inherent. *)
Definition set_timestamp (now : Z) rt : Runtime := rt <| Timestamp_now := now |>.
End Runtime.
