(* ===== verification/RuntimeApi.v ===== *)
(** * Runtime APIs

    The queries of [runtime/src/apis.rs] that read the repository's pallets, as
    functions of the composed runtime. *)

From S2P Require Import Prelude Validation PuzzleSpec Frame RuntimeParams Weights Difficulty Ising QuantumPow QuantumPowProps MempoolCore Mempool MempoolProps MempoolSettlement MinerRegistry Emission StakingRewards Governance GenesisPresets Xqvm RuntimeConfig XqvmAdapter SlashPolicy ElectionRound Runtime.

Section Apis.
Context `{UsizeWidth, DifficultyPrims, PowPrims} {R : Type} `{IsingPrims R}.
Context `{EnsureProportion}.
Context {C S M : Type}.
#[local] Abbreviation runtime := (@Runtime C S M).
Implicit Types rt : runtime.
(** The iteration order of a storage map's keys. *)
Context (iter_keys : gset H256 -> list H256).
#[local] Abbreviation pow_config := (runtime_pow_config FoundationOrRoot).
#[local] Abbreviation pow_at := (load (P := @PowState (@EmissionState C))).
#[local] Abbreviation mempool_at := (load (P := @MempoolState C)).
#[local] Abbreviation registry_at := (load (P := @RegistryState C)).

(** ** [QuantumPowApi] *)

Definition api_mining_snapshot (topology_hash : option H256) rt : option MiningSnapshot :=
  mining_snapshot pow_config topology_hash (pow_at rt).
Definition api_topology_meta (hash : H256) rt : option TopologyMeta := RegisteredTopologies (RtPow rt) !! hash.
Definition api_winning_solution (number : BlockNumber) rt : option (QBlock * Z) := qblock_with_nonce number (pow_at rt).
Definition api_latest_qblock_id rt : option Z := latest_qblock_id (RtPow rt).
Definition api_qblock_id_by_block (number : BlockNumber) rt : option Z := QBlockIdByBlock (RtPow rt) !! number.
Definition api_qblock_by_id (qblock_id : Z) rt : option (QBlock * Z) := qblock_with_nonce_by_id qblock_id (pow_at rt).
Definition api_qblock_by_block (number : BlockNumber) rt : option (QBlock * Z) := qblock_with_nonce number (pow_at rt).

(** [default_topology().map(..).unwrap_or_default()] *)
Definition api_current_difficulty rt : DifficultyConfig :=
  default difficulty_default
    ((fun h => current_difficulty_for pow_config h (System_number rt) (pow_at rt)) <$> DefaultTopology (RtPow rt)).
Definition api_current_hardness rt : DifficultyConfig :=
  default difficulty_default
    ((fun h => current_difficulty_for pow_config h (System_number rt) (pow_at rt)) <$> DefaultTopology (RtPow rt)).
Definition api_difficulty_for (topology_hash : H256) rt : option DifficultyConfig :=
  difficulty_for_api pow_config topology_hash (pow_at rt).
Definition api_mineable_topologies rt : list H256 := iter_keys (MineableTopologies (RtPow rt)).

(** ** [QuantumComputeMempoolApi] *)

Definition api_open_order_ids (start_after : option Z) (limit : Z) rt : list Z := open_order_ids start_after limit (mempool_at rt).
Definition api_job_order (order_id : Z) rt : option JobOrder := JobOrders (RtMempool rt) !! order_id.
Definition api_order_result (order_id : Z) rt : option StoredResult := OrderResults (RtMempool rt) !! order_id.
Definition api_order_top_solvers (order_id : Z) rt : list RankedSolver := top_solvers order_id (RtMempool rt).

(** ** [MinerRegistryApi] *)

Definition api_participants_by_qblock (q : Z) (start_after : option AccountId) (limit : Z) rt
    : list (AccountId * ParticipationRecord) := participants_by_qblock q start_after limit (registry_at rt).
Definition api_participant_count_by_qblock (q : Z) rt : Z := participant_count_by_qblock q (RtRegistry rt).
End Apis.
