(* ===== verification/CallWeights.v ===== *)
(** * The weight of every call

    The dispatch weight of each call of the repository's pallets (their
    [#[pallet::weight(..)]] attributes with the runtime's configuration) and of
    the hooks at the start of a block.  The SDK's own weights are parameters. *)

From stdpp Require Import strings.
From S2P Require Import Prelude Validation PuzzleSpec Frame RuntimeParams Weights Difficulty QuantumPow QuantumPowProps MempoolCore Mempool MempoolProps MinerRegistry Emission StakingRewards Faucet SlashPolicy Admission Xqvm RuntimeConfig Metering Runtime.

Section CallWeights.
Context `{PerbillTimes, DbWeight}.
Context {C S M : Type}.
(** [multi_block::WeightInfo::export_terminal] and [get_dispatch_info] of a Root call. *)
Context (export_terminal : Weight) (call_info : RuntimeCall -> Weight).
#[local] Open Scope weight_scope.
Implicit Types rt : @Runtime C S M.

(** [InvalidateAdmissionRound::weight], [RootFilterWeight] *)
Definition on_removal_weight : Weight := export_terminal + (reads 4 + writes 1) + from_parts 0 500.
Definition RootFilterWeight : Weight := from_parts 50000000 0.

Definition template_weight (c : template_call) : Weight :=
  match c with DoSomething _ => do_something_weight | CauseError => cause_error_weight end.

Definition xqvm_weight (c : xqvm_call) : Weight :=
  match c with
  | StoreProgram bytecode => store_program_declared bytecode
  | Execute _ _ _ step_limit => execute_declared step_limit
  | RemoveProgram _ => remove_program_declared
  | EvictProgram _ => evict_program_weight MaxProgramSize
  end.

Definition propose_job_with_payee_requirement_declared (params : IsingParams) (mode : JobMode) : Weight :=
  let '(b, t) := bid_dimensions mode in
  propose_job_with_payee_requirement_weight (len_u32 (p_nodes params)) (len_u32 (p_edges params)) b t.

Definition mempool_weight (c : MempoolProps.call) : Weight :=
  match c with
  | RegisterSolver _ => register_solver_bench
  | DeregisterSolver => deregister_solver_bench
  | RegisterJobSpec _ _ _ validation transform => register_job_spec_declared validation transform
  | ProposeJob _ params _ mode _ _ _ _ None => propose_job_declared params mode
  | ProposeJob _ params _ mode _ _ _ _ (Some _) => propose_job_with_payee_requirement_declared params mode
  | SubmitSolution _ _ None => submit_solution_declared
  | SubmitSolution _ _ (Some _) =>
      submit_solution_with_payee_weight QuantumMaxNodes QuantumMaxEdges QuantumMaxSolutions +
      transform_weight QuantumMaxTransformSteps true
  | ClaimReward _ => claim_reward_weight
  | ReclaimOrder _ => reclaim_order_weight
  | PurgeResult _ => purge_result_bench
  end.

Definition pow_weight (c : QuantumPowProps.call) rt : Weight :=
  match c with
  | RegisterMiner => register_miner_bench
  | DeregisterMiner => deregister_miner_bench
  | RegisterTopology ns es h j spin => register_topology_declared ns es h j spin
  | SetDefaultTopology _ => set_default_topology_bench
  | SetDifficulty _ _ => set_difficulty_bench
  | SetTopologyCurve _ _ => set_topology_curve_bench
  | SetBlockReward _ | SetTargetProofBlocks _ => reads 2 + writes 2
  | SubmitProof proof => submit_proof_declared proof (RtPow rt)
  | AddMineableTopology _ => add_mineable_topology_bench
  | RemoveMineableTopology _ => remove_mineable_topology_bench
  end.

Definition faucet_weight (c : faucet_call) : Weight :=
  match c with Mint _ _ => mint_weight | SetAuthority _ => set_authority_weight | Disable => disable_weight end.

Definition registry_weight (c : registry_call) : Weight :=
  match c with
  | SetDescriptor _ => set_descriptor_weight | ClearDescriptor => clear_descriptor_weight
  | Participate _ _ _ => participate_weight
  end.

Definition slash_weight (c : slash_call) : Weight :=
  match c with DiscretionarySlash _ _ _ => discretionary_slash_weight | SetLimits _ _ _ => set_limits_weight end.

Definition admission_weight (c : admission_call) : Weight :=
  match c with
  | CallApprove _ => approve_weight
  | CallRemove _ => remove_weight + on_removal_weight
  | CallAdvance _ => advance_weight
  | CallDispatchAsRoot call => dispatch_as_root_weight + RootFilterWeight + call_info call
  end.

Definition call_weight (c : PalletCall) rt : Weight :=
  match c with
  | TemplateCall c => template_weight c
  | XqvmCall c => xqvm_weight c
  | MempoolCall c => mempool_weight c
  | PowCall c => pow_weight c rt
  | FaucetCall c => faucet_weight c
  | RegistryCall c => registry_weight c
  | AdmissionCall c => admission_weight c
  | SlashCall c => slash_weight c
  end.

(** The part of a call's weight that is not the repository's: the SDK's export
    of the election for a removal, the inner call for a dispatch as Root. *)
Definition foreign_weight (c : PalletCall) : option Weight :=
  match c with
  | AdmissionCall (CallRemove _) => Some export_terminal
  | AdmissionCall (CallDispatchAsRoot call) => Some (call_info call)
  | _ => None
  end.

(** The lengths the calls' bounded vectors allow, and a step limit the pallet
    accepts. *)
Definition spec_bounded (spec : AllowedValueSpec) : Prop := allowed_value_input_count spec <= QuantumPowMaxAllowedValues.
Definition mode_bounded (mode : JobMode) : Prop :=
  match mode with
  | Open => True
  | Bid miners types =>
      (forall l, miners = Some l -> zlen l <= QuantumMaxBidMiners) /\ (forall l, types = Some l -> zlen l <= 8)
  end.

Definition call_bounded (c : PalletCall) rt : Prop :=
  match c with
  | XqvmCall (StoreProgram bytecode) => zlen bytecode <= MaxProgramSize
  | XqvmCall (Execute _ _ _ step_limit) => 0 <= step_limit <= MaxStepLimit
  | MempoolCall (ProposeJob _ params _ mode _ _ _ _ _) =>
      zlen (p_nodes params) <= QuantumMaxNodes /\ zlen (p_edges params) <= QuantumMaxEdges /\ mode_bounded mode
  | PowCall (RegisterTopology ns es h j spin) =>
      zlen ns <= QuantumPowMaxNodes /\ zlen es <= QuantumPowMaxEdges /\ spec_bounded h /\ spec_bounded j /\ spec_bounded spin
  | PowCall (SubmitProof proof) =>
      zlen (solutions proof) <= QuantumPowMaxSolutions /\
      forall topology, RegisteredTopologies (RtPow rt) !! proof_topology_hash proof = Some topology ->
        zlen (nodes topology) <= QuantumPowMaxNodes /\ zlen (edges topology) <= QuantumPowMaxEdges
  | _ => True
  end.

(** The hooks at the start of a block: the mempool's, for the orders it closed
    and the buckets it visited, the proof of work's with the reward it pays at
    the end of the block, and the controller's. *)
Definition hooks_weight (finalised buckets_visited : Z) : Weight :=
  expiry_work_weight finalised buckets_visited + (register_miner_bench + reward_weight) +
  accrue_weight (MaxSubnets runtime_emission_config).
End CallWeights.
