(* ===== verification/RuntimeProps.v ===== *)
(** * Invariants of the composed runtime

    The pallets share one ledger.  Every call of a pallet moves it by currency
    operations only, and the reserves by exactly what the pallet accounts for;
    so what all pallets have reserved stays covered together.  The relation
    [node_step] is the composed chain: blocks, calls, Root dispatches, and the
    SDK's pallets. *)

From S2P Require Import Prelude Validation Frame RuntimeParams Weights Difficulty Ising QuantumPow QuantumPowProps MempoolCore Mempool MempoolProps MempoolSettlement MinerRegistry Template Emission StakingRewards Faucet SlashPolicy Admission Governance ElectionRound GenesisPresets Xqvm RuntimeConfig XqvmAdapter Runtime.

(** ** Ledger moves *)

(** A relation between ledgers that every currency operation respects. *)
Class LedgerRel {W : Type} `{Currency W} (P : W -> W -> Prop) := {
  lr_refl : forall w, P w w;
  lr_trans : forall a b c, P a b -> P b c -> P a c;
  lr_reserve : forall w w' who v, reserve w who v = Some w' -> P w w';
  lr_unreserve : forall w who v, P w (unreserve w who v).1;
  lr_transfer : forall w w' from to v, transfer w from to v = Some w' -> P w w'
}.

Section LedgerMoves.
Context {W : Type} `{Currency W} (P : W -> W -> Prop) `{!LedgerRel P}.

Lemma mempool_moves `{QuantumVm, MempoolPrims} cfg o c (s s' : @MempoolState W) :
  MempoolProps.dispatch cfg o c s = Ok s' -> P (Mempool.world s) (Mempool.world s').
Proof.
  intros Hok. apply dispatch_book in Hok
    as [Hsame|who id p a m r dl w d s1 oid Hp Hsame|who id sols payee Hsub|o' id Hc|o' id Hc].
  - unfold book in Hsame. replace (Mempool.world s') with (Mempool.world s) by congruence. apply lr_refl.
  - apply do_propose_job_effect in Hp as (_ & _ & _ & _ & (c' & Hc' & Hw) & _). unfold book in Hsame.
    replace (Mempool.world s') with c' by congruence. by eapply lr_reserve.
  - apply submit_solution_inner_Ok in Hsub as (? & ? & ? & ? & ? & ? & ? & _ & _ & _ & _ & _ & _ & _ & _ & _ & Hrec).
    apply record_submission_effect in Hrec as (_ & _ & _ & Heq & _).
    replace (Mempool.world s') with (Mempool.world s) by congruence. apply lr_refl.
  - apply claim_reward_effect in Hc as (order & ps & w & s1 & _ & _ & _ & _ & Hun & Hpay & Hw & _).
    rewrite Hw. apply (lr_trans _ w); [replace w with (unreserve (Mempool.world s) (proposer order) (reward order)).1 by (by rewrite Hun); apply lr_unreserve|].
    eapply (rfold_Ok_ind _ (fun y => P w (Mempool.world y))); [| |exact Hpay]; [|apply lr_refl].
    intros acc [[x a] e] acc' _ Hacc Hp. unfold pay_winner in Hp. case_match; hinv; [done|].
    eapply lr_trans; [exact Hacc|].
    match goal with Ht : transfer _ _ _ _ = Some _ |- _ => eapply lr_trans; [by eapply lr_transfer, Ht|] end.
    case_match; apply lr_refl.
  - apply reclaim_order_effect in Hc as (order & w & _ & _ & _ & _ & Hun & Hw & _). rewrite Hw.
    replace w with (unreserve (Mempool.world s) (proposer order) (reward order)).1 by (by rewrite Hun). apply lr_unreserve.
Qed.

Lemma pow_moves `{UsizeWidth, DifficultyPrims, PowPrims} {R} `{IsingPrims R} cfg o c (s s' : @PowState W) :
  QuantumPowProps.dispatch cfg o c s = Ok s' -> P (QuantumPow.world s) (QuantumPow.world s').
Proof.
  intros Hok. destruct c; open_pow_call Hok; hinv; simpl; try (apply lr_refl).
  - by eapply lr_reserve.
  - apply lr_unreserve.
  - case_match; apply lr_refl.
  - repeat case_match; apply lr_refl.
  - repeat case_match; hinv; apply lr_refl.
  - repeat case_match; hinv; apply lr_refl.
Qed.

Lemma set_descriptor_moves `{UsizeWidth} cfg hash o input (s s' : @RegistryState W) :
  set_descriptor cfg hash o input s = Ok s' -> P (MinerRegistry.world s) (MinerRegistry.world s').
Proof.
  intros Hok. unfold set_descriptor, replace_descriptor in Hok. hinv. simpl in *.
  repeat case_match; hinv; [by eapply lr_reserve|apply lr_unreserve|apply lr_refl].
Qed.

Lemma clear_descriptor_moves o (s s' : @RegistryState W) :
  clear_descriptor o s = Ok s' -> P (MinerRegistry.world s) (MinerRegistry.world s').
Proof. intros Hok. unfold clear_descriptor in Hok. hinv. simpl. apply lr_unreserve. Qed.
End LedgerMoves.

(** ** The ledger under the emission controller *)

Section Ledger.
Context {C : Type} `{Currency C, Issuance C, Holds C, !BalancesLaws C}.

(** Currency operations leave the holds alone and create no money. *)
Definition currency_move (c c' : C) : Prop :=
  (forall x, on_hold c' x = on_hold c x) /\ total_issuance c' <= total_issuance c.

#[export] Instance currency_move_rel : LedgerRel currency_move.
Proof.
  split; unfold currency_move.
  - done.
  - intros a b c [E1 L1] [E2 L2]. split; [intros x; by rewrite E2|lia].
  - intros w w' who v Hr. split; [intros x; by eapply reserve_on_hold|by rewrite (reserve_issuance _ _ _ _ Hr)].
  - intros w who v. split; [intros x; apply unreserve_on_hold|by rewrite unreserve_issuance].
  - intros w w' from to v Ht. split; [intros x; by eapply transfer_on_hold|by eapply transfer_issuance].
Qed.

(** The same on the controller's state: only its ledger moves. *)
Definition emission_move (e e' : @EmissionState C) : Prop :=
  e' = e <| Emission.world := Emission.world e' |> /\ currency_move (Emission.world e) (Emission.world e').

#[export] Instance emission_move_rel : LedgerRel emission_move.
Proof.
  split; unfold emission_move; simpl.
  - intros [] ; split; [done|apply lr_refl].
  - intros a b c [E1 M1] [E2 M2]. split; [rewrite E2, E1; by destruct a|by eapply lr_trans].
  - intros [] e' who v (w & Hw & ->)%fmap_Some. split; [done|]. by eapply lr_reserve.
  - intros [] who v. simpl. pose proof (lr_unreserve (P := currency_move) world who v) as Hm.
    destruct (unreserve _ _ _); split; [done|]. exact Hm.
  - intros [] e' from to v (w & Hw & ->)%fmap_Some. split; [done|]. by eapply lr_transfer.
Qed.

(** What accrual and rewards do to the ledger: deposits, which touch neither
    reserves nor holds, and transfers out of a pot. *)
Definition free_move (c c' : C) : Prop :=
  forall x, reserved_balance c' x = reserved_balance c x /\ on_hold c' x = on_hold c x.

Lemma free_move_deposit c who v : free_move c (deposit_creating c who v).1.
Proof. intros x. split; [apply deposit_reserved|apply deposit_on_hold]. Qed.

Lemma free_move_trans a b c : free_move a b -> free_move b c -> free_move a c.
Proof. intros Hab Hbc x. destruct (Hab x), (Hbc x). split; congruence. Qed.

Lemma deposit_exact_moves who amount (s s' : @EmissionState C) :
  deposit_exact who amount s = Ok s' -> free_move (Emission.world s) (Emission.world s').
Proof.
  unfold deposit_exact. intros Hok. hinv. pose proof (free_move_deposit (Emission.world s) who amount) as Hmove.
  destruct (deposit_creating _ _ _). hinv. exact Hmove.
Qed.

Lemma accrue_route_moves `{SpArithmetic} pot total (s : @EmissionState C) r :
  free_move (Emission.world s) (Emission.world (accrue_route pot total s r)).
Proof.
  destruct r as [id share]. unfold accrue_route. case_match; [by intros x|].
  destruct (fund_subnet _ _ _ _) as [s1|e|] eqn:Hf; [|by intros x..].
  unfold fund_subnet in Hf. hinv. simpl. by eapply deposit_exact_moves.
Qed.

Lemma emission_on_initialize_moves `{SpArithmetic} cfg pot now (s : @EmissionState C) :
  free_move (Emission.world s) (Emission.world (Emission.on_initialize cfg pot now s)).
Proof.
  unfold Emission.on_initialize, accrue. destruct (_ || _); [by intros x|]. destruct (StartAt s); [|by intros x].
  destruct (entitlement _ _) as [total|]; [|by intros x]. generalize (Routes s) as l. intros l. revert s.
  induction l as [|r l IH]; intros s; [by intros x|]. simpl. eapply free_move_trans; [apply accrue_route_moves|apply IH].
Qed.

Lemma mint_faucet_moves who amount (s s' : @EmissionState C) :
  mint_faucet who amount s = Ok s' -> free_move (Emission.world s) (Emission.world s').
Proof. unfold mint_faucet. intros Hok. hinv. simpl. by eapply deposit_exact_moves. Qed.

Lemma subnet_pay_moves `{!IssuanceLaws C} pot subnet (s : @EmissionState C) who amount :
  free_move (Emission.world s) (Emission.world (subnet_pay pot subnet s who amount).1).
Proof.
  unfold subnet_pay. case_match; [by intros x|]. destruct (transfer_keep_alive _ _ _ _) as [w|] eqn:Ht; [|by intros x].
  intros x. simpl. split; [by eapply keep_alive_reserved|by eapply keep_alive_on_hold].
Qed.

(** The switch and the routes are set at genesis only. *)
Definition routing (s : @EmissionState C) := (Enabled s, Routes s).

Lemma deposit_exact_routing who amount (s s' : @EmissionState C) : deposit_exact who amount s = Ok s' -> routing s' = routing s.
Proof. unfold deposit_exact. intros Hok. hinv. destruct (deposit_creating _ _ _). by hinv. Qed.

Lemma emission_on_initialize_routing `{SpArithmetic} cfg pot now (s : @EmissionState C) :
  routing (Emission.on_initialize cfg pot now s) = routing s.
Proof.
  unfold Emission.on_initialize, accrue. destruct (_ || _); [done|]. destruct (StartAt s); [|done].
  destruct (entitlement _ _) as [total|]; [|done]. generalize (Routes s) as l. intros l. revert s.
  induction l as [|[id share] l IH]; intros s; [done|]. cbn [foldl]. rewrite IH. unfold accrue_route. case_match; [done|].
  destruct (fund_subnet _ _ _ _) as [s1|e|] eqn:Hf; [|done..]. unfold fund_subnet in Hf. hinv. match goal with Hd : deposit_exact _ _ _ = Ok _ |- _ => exact (deposit_exact_routing _ _ _ _ Hd) end.
Qed.

Lemma mint_faucet_routing who amount (s s' : @EmissionState C) : mint_faucet who amount s = Ok s' -> routing s' = routing s.
Proof. unfold mint_faucet. intros Hok. hinv. match goal with Hd : deposit_exact _ _ _ = Ok _ |- _ => exact (deposit_exact_routing _ _ _ _ Hd) end. Qed.

Lemma subnet_pay_routing pot subnet (s : @EmissionState C) who amount : routing (subnet_pay pot subnet s who amount).1 = routing s.
Proof. unfold subnet_pay. case_match; [done|]. by destruct (transfer_keep_alive _ _ _ _). Qed.
End Ledger.

(** ** The composed chain *)

Section Node.
Context `{UsizeWidth, DifficultyPrims, PowPrims} {R : Type} `{IsingPrims R}.
Context `{SpArithmetic, XqvmLib, MempoolPrims, EnsureProportion, PerbillTimes, DbWeight}.
Context {C : Type} `{Currency C, Issuance C, Holds C}.
Context {S : Type} `{StakingOps S}.
Context {M : Type} `{MultiBlock M}.
Context (pot : Z -> AccountId) (builder : AccountId).
Context (program_hash : list Z -> H256) (descriptor_hash : NodeDescriptorInput -> H256).
Context (dispatch_root : RuntimeCall -> @Runtime C S M -> @Runtime C S M * bool).
#[local] Abbreviation runtime := (@Runtime C S M).
#[local] Abbreviation dispatch := (Runtime.dispatch builder program_hash descriptor_hash dispatch_root).
#[local] Abbreviation mempool_at := (load (P := @MempoolState C)).
#[local] Abbreviation pow_at := (load (P := @PowState (@EmissionState C))).
#[local] Abbreviation emission_at := (load (P := @EmissionState C)).
#[local] Abbreviation registry_at := (load (P := @RegistryState C)).
#[local] Abbreviation xqvm_at := (load (P := @XqvmState C)).
#[local] Abbreviation slash_at := (load (P := @SlashState S)).
#[local] Instance reward_here : MiningReward (@EmissionState C) := runtime_reward pot.
Implicit Types rt : runtime.

(** The runtime between two steps, whether a block is being executed, and what
    the SDK's pallets have reserved of every account and issued in total. *)
Record Node := mkNode {
  node_rt : runtime;
  in_block : bool;
  sdk_reserved : AccountId -> Balance;
  sdk_issued : Balance
}.
#[export] Instance Node_expansion : Expansion Node := fun x =>
  mkNode (node_rt x) (in_block x) (sdk_reserved x) (sdk_issued x).

(** Arguments of the Rust types; the Root dispatch is a step of its own. *)
Definition call_typed (c : PalletCall) : Prop :=
  match c with
  | MempoolCall c => MempoolSettlement.call_typed (runtime_mempool_config builder) c
  | PowCall c => QuantumPowProps.call_typed c
  | SlashCall (DiscretionarySlash _ _ fraction) => 0 <= fraction
  | AdmissionCall (CallDispatchAsRoot _) => False
  | _ => True
  end.

(** A call of a pallet from any origin, or a move of the SDK's pallets: they
    change an account's reserve by what they account for themselves, leave the
    programs' holds alone, issue what they record, and never move the active
    era back. *)
Inductive act : Node -> Node -> Prop :=
  | act_call rt rt' sr si o c :
      call_typed c -> NextOrderId (RtMempool rt) + 1 < 2 ^ 64 -> dispatch o c rt = Ok rt' ->
      act (mkNode rt true sr si) (mkNode rt' true sr si)
  | act_sdk rt b sr sr' si si' c st ch evs a a' :
      (forall x, 0 <= sr' x) ->
      (forall x, reserved_balance c x - sr' x = reserved_balance (Balances rt) x - sr x) ->
      (forall x, on_hold c x = on_hold (Balances rt) x) ->
      total_issuance c - si' <= total_issuance (Balances rt) - si ->
      active_era (RtStaking rt) = Some a -> active_era st = Some a' -> a <= a' < 2 ^ 32 ->
      act (mkNode rt b sr si)
          (mkNode (rt <| Balances := c |> <| RtStaking := st |> <| RtElection := ch |> <| System_events := evs |>)
             b sr' si').

(** Blocks around the acts.  A Root dispatch runs the calls inside it and SDK
    code. *)
Inductive node_step : Node -> Node -> Prop :=
  | ns_initialize rt rt' sr si header :
      length header = 32%nat -> System_number rt + 2 < 2 ^ 32 ->
      initialize_block pot header rt = Ok rt' ->
      node_step (mkNode rt false sr si) (mkNode rt' true sr si)
  | ns_timestamp rt sr si now :
      Timestamp_now rt <= now < 2 ^ 64 ->
      node_step (mkNode rt true sr si) (mkNode (set_timestamp now rt) true sr si)
  | ns_act x y : act x y -> node_step x y
  | ns_root rt rt' sr sr' si si' o call :
      dispatch o (AdmissionCall (CallDispatchAsRoot call)) rt = Ok rt' ->
      rtc act (mkNode rt true sr si) (mkNode (dispatch_root call rt).1 true sr' si') ->
      node_step (mkNode rt true sr si) (mkNode rt' true sr' si')
  | ns_finalize rt sr si :
      node_step (mkNode rt true sr si) (mkNode (finalize_block pot rt) false sr si).

(** ** The invariant *)

(** An account's descriptor deposit. *)
Definition described {W} (who : Z) (s : @RegistryState W) : Z := default 0 (MinerRegistry.deposit <$> NodeDescriptors s !! who).

(** What everyone but the mempool has reserved of an account: miner deposits,
    descriptor deposits, program deposits, the SDK. *)
Definition claims (sr : Z -> Z) rt (who : Z) : Z :=
  deposited who (RtPow rt) + described who (RtRegistry rt) + on_hold (Balances rt) who + sr who.

(** The controller before its first accrual. *)
Record fresh (s : @EmissionState C) : Prop := {
  fr_enabled : Enabled s = true /\ StartAt s = None;
  fr_books : books s;
  fr_nothing : forall id, subnet_issued id s = 0;
  fr_faucet : FaucetIssued s <= FaucetBudget s
}.

Definition routes_valid (s : @EmissionState C) : Prop := valid_routes runtime_emission_config (Routes s) (Enabled s) = true.

Definition emission_inv (now : Z) (s : @EmissionState C) : Prop :=
  routes_valid s /\ (fresh s \/ exists start, on_schedule runtime_emission_config start now s).

(** The admission set is within its bound, and admission has not graduated. *)
Definition admission_ok rt : Prop :=
  Z.of_nat (size (RtApproved rt)) <= Params.MaxAdmittedAuthorities /\ RtAdmissionMode rt <> PermissionlessEligibility.

Definition clock rt : Z := Timestamp_now rt / 1000.

Record runtime_inv (K : Z) (x : Node) : Prop := {
  rv_mempool : MempoolSettlement.inv (mempool_at (node_rt x), claims (sdk_reserved x) (node_rt x));
  rv_miners : forall who m, Miners (RtPow (node_rt x)) !! who = Some m -> 0 <= QuantumPow.deposit m;
  rv_nodes : forall who d, NodeDescriptors (RtRegistry (node_rt x)) !! who = Some d -> descriptor_ok d;
  rv_xqvm : xqvm_inv runtime_xqvm_config program_hash (xqvm_at (node_rt x));
  rv_sdk : forall who, 0 <= sdk_reserved x who;
  rv_clock : 0 <= Timestamp_now (node_rt x) < 2 ^ 64;
  rv_emission : emission_inv (clock (node_rt x)) (emission_at (node_rt x));
  rv_issuance : off_books (emission_at (node_rt x)) - sdk_issued x <= K;
  rv_slash : slash_inv (slash_at (node_rt x));
  rv_admission : admission_ok (node_rt x)
}.

Context `{!CurrencyLaws C, !IssuanceLaws C, !HoldsLaws C, !BalancesLaws C}.
Context `{!SpArithmeticLaws, !MempoolPrimsLaws, !StakingLaws S, !EnsureProportionLaws}.

(** *** Framing *)

Lemma described_nonneg {W} who (s : @RegistryState W) :
  (forall y d, NodeDescriptors s !! y = Some d -> descriptor_ok d) -> 0 <= described who s.
Proof.
  intros Hok. unfold described. destruct (NodeDescriptors s !! who) as [d|] eqn:Hd; simpl; [|lia].
  by apply (Hok who d Hd).
Qed.

Lemma deposited_nonneg {W} who (s : @PowState W) :
  (forall y m, Miners s !! y = Some m -> 0 <= QuantumPow.deposit m) -> 0 <= deposited who s.
Proof. intros Hok. unfold deposited. destruct (Miners s !! who) as [m|] eqn:Hm; simpl; [by eapply Hok|lia]. Qed.

Lemma on_hold_nonneg rt who : xqvm_inv runtime_xqvm_config program_hash (xqvm_at rt) -> 0 <= on_hold (Balances rt) who.
Proof.
  intros [_ _ _ Hr Hh]. specialize (Hh who). simpl in Hh. rewrite Hh. unfold deposits_of. apply msum_nonneg.
  intros h [o d] Hz. unfold owned_deposit. simpl. case_decide; [|lia]. rewrite map_lookup_zip_with in Hz.
  destruct (ProgramOwner _ !! h), (ProgramDeposit _ !! h) eqn:E; simplify_eq/=. by eapply Hr.
Qed.

(** The mempool's invariant survives whatever else moves the ledger, as long
    as the reserves cover the claims as well as before. *)
Lemma mempool_covered sr sr' rt rt' :
  RtMempool rt' = RtMempool rt -> System_number rt' = System_number rt ->
  (forall x, 0 <= claims sr' rt' x) ->
  (forall x, reserved_balance (Balances rt) x - claims sr rt x <= reserved_balance (Balances rt') x - claims sr' rt' x) ->
  MempoolSettlement.inv (mempool_at rt, claims sr rt) -> MempoolSettlement.inv (mempool_at rt', claims sr' rt').
Proof.
  intros E1 E2 Hnn Hres Hinv.
  set (slack := fun x => reserved_balance (Balances rt') x - (reserved_balance (Balances rt) x - claims sr rt x)).
  assert (forall x, claims sr' rt' x <= slack x) as Hle by (intros x; specialize (Hres x); unfold slack; lia).
  assert (MempoolSettlement.inv (mempool_at rt', slack)) as [Hs Hr Ht Hv Hb Hn].
  { replace (mempool_at rt') with (mempool_at rt <| Mempool.world := Balances rt' |> <| Mempool.events := [] |>)
      by (simpl; by rewrite E1, E2).
    eapply (step_inv (runtime_mempool_config builder)); [done|exact Hinv|]. apply MempoolSettlement.step_runtime.
    - intros x. specialize (Hnn x). specialize (Hle x). lia.
    - intros x. unfold slack. simpl. lia. }
  split; try done. intros x. simpl in *. split; [apply Hnn|]. destruct (Hv x) as [_ Hx]. simpl in Hx. specialize (Hle x). lia.
Qed.

(** As long as the reserves move with the claims, in particular. *)
Lemma mempool_keeps sr sr' rt rt' :
  RtMempool rt' = RtMempool rt -> System_number rt' = System_number rt ->
  (forall x, 0 <= claims sr' rt' x) ->
  (forall x, reserved_balance (Balances rt') x - claims sr' rt' x = reserved_balance (Balances rt) x - claims sr rt x) ->
  MempoolSettlement.inv (mempool_at rt, claims sr rt) -> MempoolSettlement.inv (mempool_at rt', claims sr' rt').
Proof.
  intros E1 E2 Hnn Hres. apply mempool_covered; try done. intros x. specialize (Hres x). lia.
Qed.

Lemma reserves_cover K x who :
  runtime_inv K x ->
  owed who (mempool_at (node_rt x)) + claims (sdk_reserved x) (node_rt x) who <= reserved_balance (Balances (node_rt x)) who.
Proof. intros Hinv. apply (MempoolSettlement.inv_solvent _ (rv_mempool _ _ Hinv) who). Qed.

Lemma claims_nonneg K x who : runtime_inv K x -> 0 <= claims (sdk_reserved x) (node_rt x) who.
Proof. intros Hinv. apply (MempoolSettlement.inv_solvent _ (rv_mempool _ _ Hinv) who). Qed.

(** Every share of the reserve is covered on its own. *)
Lemma shares_cover K x who :
  runtime_inv K x -> let rt := node_rt x in
  0 <= owed who (mempool_at rt) /\ 0 <= deposited who (RtPow rt) /\ 0 <= described who (RtRegistry rt) /\
  0 <= on_hold (Balances rt) who /\ 0 <= sdk_reserved x who.
Proof.
  intros Hinv rt. split_and!.
  - apply owed_nonneg, (MempoolSettlement.inv_typed _ (rv_mempool _ _ Hinv)).
  - apply deposited_nonneg, Hinv.
  - apply described_nonneg, Hinv.
  - apply on_hold_nonneg, Hinv.
  - apply Hinv.
Qed.

(** The programs' holds are backed by the reserve. *)
Lemma programs_backed K x : runtime_inv K x -> backed (xqvm_at (node_rt x)).
Proof.
  intros Hinv who. simpl. rewrite backing_reserved. pose proof (reserves_cover _ _ who Hinv) as Hr.
  destruct (shares_cover _ _ who Hinv) as (H1' & H2' & H3' & H4' & H5'). unfold claims in Hr. simpl in *. lia.
Qed.

(** The schedule depends on the controller's counters only. *)
Definition counters (s : @EmissionState C) :=
  (Enabled s, StartAt s, Routes s, SubnetIssued s, ScheduledIssued s, FaucetBudget s, FaucetIssued s).

Lemma emission_inv_frame now (s s' : @EmissionState C) : counters s' = counters s -> emission_inv now s -> emission_inv now s'.
Proof.
  intros E [Hro Hs]. unfold counters in E.
  assert (FaucetIssued s <= FaucetBudget s -> FaucetIssued s' <= FaucetBudget s') as Hf.
  { intros Hle. replace (FaucetIssued s') with (FaucetIssued s) by congruence.
    by replace (FaucetBudget s') with (FaucetBudget s) by congruence. }
  split; [unfold routes_valid in *; congruence|]. destruct Hs as [[[E1 E2] [B1 B2 B3 B4] Hn Hb]|[start Hos]].
  - left. assert (forall id, subnet_issued id s' = subnet_issued id s) as Es
      by (intros id; unfold subnet_issued; f_equal; congruence).
    assert (Routes s' = Routes s) as ER by congruence.
    split; [split; congruence| |intros id; by rewrite Es|auto]. split; rewrite ?ER; try done.
    + replace (ScheduledIssued s') with (ScheduledIssued s) by congruence. rewrite B3. unfold routes_issued.
      f_equal. apply list_fmap_ext. intros i r _. by rewrite Es.
    + intros id. by rewrite Es.
  - right. exists start. eapply on_schedule_frame; [exact Hos|congruence..|]. apply Hf, Hos.
Qed.

Lemma routes_valid_frame (s s' : @EmissionState C) : routing s' = routing s -> routes_valid s -> routes_valid s'.
Proof. unfold routing, routes_valid. congruence. Qed.

Lemma off_books_frame (s s' : @EmissionState C) :
  counters s' = counters s -> total_issuance (Emission.world s') <= total_issuance (Emission.world s) ->
  off_books s' <= off_books s.
Proof.
  intros E Hle. unfold counters in E. unfold off_books. replace (ScheduledIssued s') with (ScheduledIssued s) by congruence.
  replace (FaucetIssued s') with (FaucetIssued s) by congruence. lia.
Qed.

(** A step that does not concern the mempool: its storage stays, and the
    reserves move with the claims. *)
Definition quiet (x y : Node) : Prop :=
  RtMempool (node_rt y) = RtMempool (node_rt x) /\ System_number (node_rt y) = System_number (node_rt x) /\
  forall z, reserved_balance (Balances (node_rt y)) z - claims (sdk_reserved y) (node_rt y) z =
            reserved_balance (Balances (node_rt x)) z - claims (sdk_reserved x) (node_rt x) z.

(** Anything that keeps the counters and covers the claims as well as before. *)
Lemma runtime_inv_covered K rt rt' b b' sr sr' si si' :
  runtime_inv K (mkNode rt b sr si) ->
  RtMempool rt' = RtMempool rt -> System_number rt' = System_number rt -> Timestamp_now rt' = Timestamp_now rt ->
  counters (emission_at rt') = counters (emission_at rt) ->
  total_issuance (Balances rt') - si' <= total_issuance (Balances rt) - si ->
  (forall x, reserved_balance (Balances rt) x - claims sr rt x <= reserved_balance (Balances rt') x - claims sr' rt' x) ->
  (forall who m, Miners (RtPow rt') !! who = Some m -> 0 <= QuantumPow.deposit m) ->
  (forall who d, NodeDescriptors (RtRegistry rt') !! who = Some d -> descriptor_ok d) ->
  xqvm_inv runtime_xqvm_config program_hash (xqvm_at rt') ->
  (forall who, 0 <= sr' who) -> slash_inv (slash_at rt') ->
  admission_ok rt' ->
  runtime_inv K (mkNode rt' b' sr' si').
Proof.
  intros Hinv E1 E2 E3 E4 Hti Hres Hm Hd Hx Hsr Hsl Had.
  assert (forall x, 0 <= claims sr' rt' x) as Hnn.
  { intros x. unfold claims. pose proof (deposited_nonneg x (RtPow rt') Hm). pose proof (described_nonneg x (RtRegistry rt') Hd).
    pose proof (on_hold_nonneg rt' x Hx). specialize (Hsr x). lia. }
  pose proof Hinv as [Hmp _ _ _ _ Hck Hem Hof _ _]. simpl in *.
  split; simpl; try done.
  - by eapply mempool_covered.
  - by rewrite E3.
  - unfold clock. rewrite E3. by eapply emission_inv_frame.
  - unfold off_books, counters in *. simpl in *.
    replace (ScheduledIssued (RtEmission rt')) with (ScheduledIssued (RtEmission rt)) by congruence.
    replace (FaucetIssued (RtEmission rt')) with (FaucetIssued (RtEmission rt)) by congruence. lia.
Qed.

(** A step of one component that keeps the counters and the claims' cover. *)
Lemma runtime_inv_keeps K rt rt' b b' sr sr' si si' :
  runtime_inv K (mkNode rt b sr si) ->
  RtMempool rt' = RtMempool rt -> System_number rt' = System_number rt -> Timestamp_now rt' = Timestamp_now rt ->
  counters (emission_at rt') = counters (emission_at rt) ->
  total_issuance (Balances rt') - si' <= total_issuance (Balances rt) - si ->
  (forall x, reserved_balance (Balances rt') x - claims sr' rt' x = reserved_balance (Balances rt) x - claims sr rt x) ->
  (forall who m, Miners (RtPow rt') !! who = Some m -> 0 <= QuantumPow.deposit m) ->
  (forall who d, NodeDescriptors (RtRegistry rt') !! who = Some d -> descriptor_ok d) ->
  xqvm_inv runtime_xqvm_config program_hash (xqvm_at rt') ->
  (forall who, 0 <= sr' who) -> slash_inv (slash_at rt') ->
  admission_ok rt' ->
  runtime_inv K (mkNode rt' b' sr' si') /\ quiet (mkNode rt b sr si) (mkNode rt' b' sr' si').
Proof.
  intros Hinv E1 E2 E3 E4 Hti Hres Hm Hd Hx Hsr Hsl Had. split; [|done].
  eapply runtime_inv_covered; try done. intros x. specialize (Hres x). lia.
Qed.

(** Programs are only looked up on the ledger through their holds. *)
Lemma xqvm_inv_frame (s s' : @XqvmState C) :
  (Programs s', ProgramOwner s', ProgramDeposit s') = (Programs s, ProgramOwner s, ProgramDeposit s) ->
  (forall x, on_hold (ledger s') x = on_hold (ledger s) x) ->
  xqvm_inv runtime_xqvm_config program_hash s -> xqvm_inv runtime_xqvm_config program_hash s'.
Proof.
  intros E Hh [A1 A2 A3 A4 A5]. injection E as E1 E2 E3. split; rewrite ?E1, ?E2, ?E3; try done.
  intros x. rewrite Hh, A5. unfold deposits_of. by rewrite E2, E3.
Qed.

(** *** Calls *)

Lemma run_in_Ok {P E} `{!Pallet P} (err : E -> RuntimeError) (f : P -> result (DispatchError E) P) rt rt' :
  run_in err f rt = Ok rt' -> exists s', f (load rt) = Ok s' /\ rt' = store s' rt.
Proof. unfold run_in. intros Hok. destruct (f (load rt)) as [s'| |]; simpl in Hok; simplify_eq. eauto. Qed.

Lemma template_keeps K o c rt rt' sr si :
  runtime_inv K (mkNode rt true sr si) -> dispatch_template o c rt = Ok rt' -> runtime_inv K (mkNode rt' true sr si) /\ quiet (mkNode rt true sr si) (mkNode rt' true sr si).
Proof.
  intros Hinv (s' & _ & ->)%run_in_Ok. pose proof Hinv as [_ Hm Hd Hx Hsr _ _ _ Hsl Had].
  by eapply runtime_inv_keeps.
Qed.

Lemma admission_keeps K o c rt rt' sr si :
  runtime_inv K (mkNode rt true sr si) -> call_typed (AdmissionCall c) ->
  dispatch_admission dispatch_root o c rt = Ok rt' -> runtime_inv K (mkNode rt' true sr si) /\ quiet (mkNode rt true sr si) (mkNode rt' true sr si).
Proof.
  intros Hinv Hty Hok. pose proof Hinv as [_ Hm Hd Hx Hsr _ _ _ Hsl Had].
  assert (exists s', admission_dispatch FoundationOrigin (fun _ => false) (fun _ => ElectionRound.on_removal)
    (fun _ c => (c, false)) Params.MaxAdmittedAuthorities o c (load rt) = Ok s' /\ rt' = store s' rt) as (s' & Hs & ->).
  { destruct c as [who|who|mode|call]; [..|done]; apply run_in_Ok in Hok as (s' & Hs & ->); by eauto. }
  destruct Had as [Hb Hmode]. apply admission_dispatch_inv in Hs as (Hb' & _ & Hm' & _); [|done].
  assert (admission_ok (store s' rt)) as Had'.
  { split; [done|]. intros E. destruct (decide (Mode (load rt) = Mode s')) as [E'|Hne]; [|by specialize (Hm' Hne E)].
    apply Hmode. transitivity (Mode s'); [exact E'|exact E]. }
  by eapply runtime_inv_keeps.
Qed.

Lemma slash_keeps K o c rt rt' sr si :
  runtime_inv K (mkNode rt true sr si) -> call_typed (SlashCall c) ->
  dispatch_slash o c rt = Ok rt' -> runtime_inv K (mkNode rt' true sr si) /\ quiet (mkNode rt true sr si) (mkNode rt' true sr si).
Proof.
  intros Hinv Hty (s' & Hs & ->)%run_in_Ok. pose proof Hinv as [_ Hm Hd Hx Hsr _ _ _ Hsl Had].
  assert (slash_step runtime_slash_config FoundationOrRoot (slash_at rt) s') as Hstep.
  { destruct c as [stash era fraction|pm cm w]; [by eapply ss_slash|by eapply ss_limits]. }
  apply slash_step_inv in Hstep as (a & Ha & Hr & Hok); [|done..].
  eapply runtime_inv_keeps; try done. by exists a.
Qed.

Lemma xqvm_reserves o c rt s' :
  xqvm_inv runtime_xqvm_config program_hash (xqvm_at rt) -> backed (xqvm_at rt) ->
  (match c with
   | StoreProgram bytecode => store_program runtime_xqvm_config program_hash o bytecode
   | Execute hash calldata slots limit => execute runtime_xqvm_config o hash calldata slots limit
   | RemoveProgram hash => remove_program o hash
   | EvictProgram hash => evict_program o hash
   end) (xqvm_at rt) = Ok s' ->
  total_issuance (ledger s') = total_issuance (Balances rt) /\
  forall x, reserved_balance (ledger s') x - on_hold (ledger s') x = reserved_balance (Balances rt) x - on_hold (Balances rt) x.
Proof.
  intros Hinv Hbk Hok.
  assert (forall hash owner r, do_remove hash owner (xqvm_at rt) = Ok r ->
    total_issuance (ledger r.1.1) = total_issuance (Balances rt) /\
    forall x, reserved_balance (ledger r.1.1) x - on_hold (ledger r.1.1) x = reserved_balance (Balances rt) x - on_hold (Balances rt) x) as Hrem.
  { intros hash owner r Hr. unfold do_remove in Hr. hinv.
    match goal with Hl : release _ _ ?v = Some ?p |- _ => destruct p as [c' actual]; set (d := v) in *; rename Hl into Hrel end.
    assert (0 <= d) as Hd.
    { unfold d. simpl. destruct (ProgramDeposit (RtXqvm rt) !! hash) eqn:E; simpl; [|lia]. by eapply (xi_range _ _ _ Hinv). }
    simpl. split; [by eapply release_issuance|]. intros x.
    destruct (release_best (Balances rt) owner d Hd) as (c'' & Hrel' & Hh); [specialize (Hbk owner); simpl in Hbk; lia|].
    simpl in Hrel. rewrite Hrel' in Hrel. simplify_eq. destruct (Hh x) as [Hh1 Hh2]. rewrite !backing_reserved in Hh2.
    rewrite Hh1, Hh2. clearbody d. simpl. case_decide; subst; lia. }
  destruct c as [bytecode|hash cd sl lim|hash|hash].
  - unfold store_program in Hok. hinv. simpl.
    match goal with Hc : hold _ _ _ = Some _ |- _ => rename Hc into Hhold end. split; [by eapply hold_issuance|].
    intros x. pose proof (hold_backing _ _ _ _ Hhold x) as Hb. rewrite !backing_reserved in Hb.
    rewrite Hb, (hold_on_hold _ _ _ _ Hhold). simpl. case_decide; lia.
  - unfold execute in Hok. hinv. destruct (run_error _); [done|]. case_match; [|done]. hinv. done.
  - unfold remove_program in Hok. hinv. by eapply Hrem.
  - unfold evict_program in Hok. hinv. by eapply Hrem.
Qed.

Lemma xqvm_keeps K o c rt rt' sr si :
  runtime_inv K (mkNode rt true sr si) -> dispatch_xqvm program_hash o c rt = Ok rt' -> runtime_inv K (mkNode rt' true sr si) /\ quiet (mkNode rt true sr si) (mkNode rt' true sr si).
Proof.
  intros Hinv (s' & Hs & ->)%run_in_Ok. pose proof Hinv as [_ Hm Hd Hx Hsr _ _ _ Hsl Had].
  pose proof (programs_backed _ _ Hinv) as Hbk. cbn [node_rt] in Hbk.
  assert (xqvm_inv runtime_xqvm_config program_hash s') as Hx'.
  { eapply xqvm_step_inv; [done|exact Hx|exact Hbk|]. destruct c; [by eapply xs_store|by eapply xs_execute|by eapply xs_remove|by eapply xs_evict]. }
  destruct (xqvm_reserves o c rt s' Hx Hbk) as [Hti Hres]; [by destruct c|].
  eapply runtime_inv_keeps; try done; simpl.
  - rewrite Hti. lia.
  - intros x. specialize (Hres x). unfold claims. simpl. lia.
  - by eapply xqvm_inv_frame; [| |exact Hx'].
Qed.

(** What a mempool call or hook leaves, stored and loaded again. *)
Lemma mempool_stores sr rt (s' : @MempoolState C) :
  MempoolSettlement.inv (s', claims sr rt) -> Mempool.block_number s' = System_number rt ->
  (forall x, on_hold (Mempool.world s') x = on_hold (Balances rt) x) -> (forall x, 0 <= claims sr rt x) ->
  MempoolSettlement.inv (mempool_at (store s' rt), claims sr (store s' rt)).
Proof.
  intros Hinv Hn Hh Hnn.
  assert (forall x, claims sr (store s' rt) x = claims sr rt x) as Hcl by (intros x; unfold claims; simpl; by rewrite Hh).
  replace (mempool_at (store s' rt)) with (s' <| Mempool.world := Mempool.world s' |> <| Mempool.events := [] |>)
    by (destruct s'; simpl in *; by rewrite Hn).
  eapply (step_inv (runtime_mempool_config builder)); [done|exact Hinv|]. apply MempoolSettlement.step_runtime.
  - intros x. by rewrite Hcl.
  - intros x. by rewrite Hcl.
Qed.

Lemma mempool_call_keeps K o c rt rt' sr si :
  runtime_inv K (mkNode rt true sr si) -> call_typed (MempoolCall c) -> NextOrderId (RtMempool rt) + 1 < 2 ^ 64 ->
  dispatch_mempool builder o c rt = Ok rt' -> runtime_inv K (mkNode rt' true sr si).
Proof.
  intros Hinv Hty Hid (s' & Hs & ->)%run_in_Ok. pose proof Hinv as [Hmp Hm Hd Hx Hsr Hck Hem Hof Hsl Had].
  destruct (@mempool_moves C _ currency_move _ (runtime_vm rt) _ _ _ _ _ _ Hs) as [Hh Hti]. simpl in Hh, Hti.
  assert (Mempool.block_number s' = System_number rt) as Hn.
  { apply dispatch_counters in Hs as [Hb _]; [exact Hb|]. apply Hmp. }
  split; simpl; try done.
  - apply mempool_stores; [|done|done|intros x; by apply (claims_nonneg K (mkNode rt true sr si))].
    eapply (step_inv (runtime_mempool_config builder)); [done|exact Hmp|]. by eapply (MempoolSettlement.step_call _ (runtime_vm rt)).
  - by eapply xqvm_inv_frame; [| |exact Hx].
  - by eapply emission_inv_frame; [|exact Hem].
  - eapply Z.le_trans; [|exact Hof]. apply Z.sub_le_mono_r. by apply off_books_frame.
Qed.

Lemma miners_deposits K rt b sr si : runtime_inv K (mkNode rt b sr si) -> deposits_inv (pow_at rt).
Proof.
  intros Hinv who m Hm. simpl in Hm. pose proof (reserves_cover _ _ who Hinv) as Hr.
  destruct (shares_cover _ _ who Hinv) as (H1' & H2' & H3' & H4' & H5'). simpl in *. unfold claims in Hr.
  assert (deposited who (RtPow rt) = QuantumPow.deposit m) as E by (unfold deposited; by rewrite Hm).
  split; [by eapply (rv_miners _ _ Hinv)|]. lia.
Qed.

Lemma pow_call_keeps K o c rt rt' sr si :
  runtime_inv K (mkNode rt true sr si) -> dispatch_pow o c rt = Ok rt' -> runtime_inv K (mkNode rt' true sr si) /\ quiet (mkNode rt true sr si) (mkNode rt' true sr si).
Proof.
  intros Hinv (s' & Hs & ->)%run_in_Ok. pose proof Hinv as [Hmp Hm Hd Hx Hsr Hck Hem Hof Hsl Had].
  destruct (pow_moves emission_move _ _ _ _ _ Hs) as [He [Hh Hti]]. simpl in He, Hh, Hti.
  pose proof (miners_deposits _ _ _ _ _ Hinv) as Hdep.
  pose proof (dispatch_reserves _ _ _ _ _ Hdep Hs) as Hres.
  eapply dispatch_deposits_inv in Hs as Hs'; [|apply _|done|exact Hdep].
  eapply runtime_inv_keeps; [exact Hinv|..]; simpl; try done.
  - unfold counters. rewrite He. done.
  - lia.
  - intros x. specialize (Hres x). unfold claims. simpl in *. rewrite Hh. unfold deposited in *. simpl in *. lia.
  - intros who m Hmm. by eapply Hs'.
  - by eapply xqvm_inv_frame; [| |exact Hx].
Qed.

(** Issuance and rewards: the free balances and the controller move. *)
Lemma emission_keeps K rt rt' b b' sr si :
  runtime_inv K (mkNode rt b sr si) ->
  RtMempool rt' = RtMempool rt -> System_number rt' = System_number rt -> Timestamp_now rt' = Timestamp_now rt ->
  free_move (Balances rt) (Balances rt') ->
  emission_inv (clock rt) (emission_at rt') -> off_books (emission_at rt') = off_books (emission_at rt) ->
  (forall who, QuantumPow.deposit <$> Miners (RtPow rt') !! who = QuantumPow.deposit <$> Miners (RtPow rt) !! who) ->
  (RtRegistry rt', RtXqvm rt', RtSlash rt', RtStaking rt', RtApproved rt', RtAdmissionMode rt') =
  (RtRegistry rt, RtXqvm rt, RtSlash rt, RtStaking rt, RtApproved rt, RtAdmissionMode rt) ->
  runtime_inv K (mkNode rt' b' sr si) /\ quiet (mkNode rt b sr si) (mkNode rt' b' sr si).
Proof.
  intros Hinv E1 E2 E3 Hfree Hem' Ho' Hdep E. injection E as E4 E5 E6 E7 E8 E9.
  pose proof Hinv as [Hmp Hm Hd Hx Hsr Hck Hem Hof Hsl Had]. cbn [node_rt sdk_reserved sdk_issued] in *.
  assert (forall x, claims sr rt' x = claims sr rt x) as Hcl.
  { intros x. unfold claims, deposited. rewrite Hdep, E4. by destruct (Hfree x) as [_ ->]. }
  split; [|split_and!; [done..|]; cbn [node_rt sdk_reserved]; intros x; rewrite Hcl; by destruct (Hfree x) as [-> _]].
  split; cbn [node_rt sdk_reserved sdk_issued]; unfold admission_ok; rewrite ?E4, ?E8, ?E9, ?E3; try done.
  - eapply mempool_keeps; [| | | |exact Hmp]; try done; intros x; rewrite Hcl; [by apply (claims_nonneg _ _ x Hinv)|].
    by destruct (Hfree x) as [-> _].
  - intros who m Hmm. specialize (Hdep who). rewrite Hmm in Hdep.
    destruct (Miners (RtPow rt) !! who) as [m'|] eqn:Hm'; simplify_eq/=. rewrite Hdep. by eapply Hm.
  - eapply xqvm_inv_frame; [| |exact Hx]; [simpl; by rewrite E5|]. intros x. apply Hfree.
  - unfold clock. by rewrite E3.
  - by rewrite Ho'.
  - destruct Hsl as (a & Ha & Hr & Hh). exists a. simpl in *. unfold histories_ok, history_of in *. simpl in *. by rewrite E6, E7.
Qed.

Lemma faucet_call_keeps K o c rt rt' sr si :
  runtime_inv K (mkNode rt true sr si) -> dispatch_faucet o c rt = Ok rt' -> runtime_inv K (mkNode rt' true sr si) /\ quiet (mkNode rt true sr si) (mkNode rt' true sr si).
Proof.
  intros Hinv (s' & Hs & ->)%run_in_Ok. pose proof Hinv as [Hmp Hm Hd Hx Hsr Hck Hem Hof Hsl Had].
  destruct c as [who amount|authority|].
  - unfold mint in Hs. hinv. match goal with Hmt : mint_faucet _ _ _ = Ok ?e |- _ => rename Hmt into Hmint; rename e into e' end.
    pose proof (mint_faucet_moves _ _ _ _ Hmint) as Hfree. simpl in Hfree.
    assert (emission_inv (clock rt) e' /\ off_books e' = off_books (emission_at rt)) as [Hem' Ho'].
    { pose proof Hmint as (_ & _ & Hb & Hbud & Ho & _)%mint_faucet_budget. split; [|exact Ho].
      destruct Hem as [Hro Hem]. split; [eapply routes_valid_frame; [by eapply mint_faucet_routing|exact Hro]|].
      destruct Hem as [[Hen [B1 B2 B3 B4] Hn Hf]|[start Hos]].
      - left. unfold mint_faucet, deposit_exact in Hmint. destruct (deposit_creating _ _ _). hinv. by split.
      - right. exists start. eapply (emission_step_on_schedule runtime_emission_config pot start (clock rt)); [done| |exact Hos].
        by eapply es_mint. }
    eapply emission_keeps; [exact Hinv|..]; try done. by eapply emission_inv_frame; [|exact Hem'].
  - unfold set_authority in Hs. hinv. by eapply runtime_inv_keeps.
  - unfold disable in Hs. hinv. by eapply runtime_inv_keeps.
Qed.

Lemma registry_call_keeps K o c rt rt' sr si :
  runtime_inv K (mkNode rt true sr si) -> dispatch_registry descriptor_hash o c rt = Ok rt' ->
  runtime_inv K (mkNode rt' true sr si) /\ quiet (mkNode rt true sr si) (mkNode rt' true sr si).
Proof.
  intros Hinv (s' & Hs & ->)%run_in_Ok. pose proof Hinv as [Hmp Hm Hd Hx Hsr Hck Hem Hof Hsl Had].
  set (others := fun x => reserved_balance (Balances rt) x - described x (RtRegistry rt)).
  assert (registry_inv others (registry_at rt)) as Hreg.
  { split; [exact Hd|]. intros who. pose proof (reserves_cover _ _ who Hinv) as Hr.
    destruct (shares_cover _ _ who Hinv) as (H1' & H2' & H3' & H4' & H5'). unfold others, claims, described in *. simpl in *. lia. }
  assert (registry_step runtime_registry_config descriptor_hash (registry_at rt) s') as Hstep.
  { destruct c; [by eapply rs_set|by eapply rs_clear|by eapply rs_participate]. }
  eapply registry_step_inv in Hstep as [Hok' Hcov]; [|done|exact Hreg].
  assert (currency_move (Balances rt) (MinerRegistry.world s')) as [Hh Hti].
  { change (Balances rt) with (MinerRegistry.world (registry_at rt)).
    destruct c as [descriptor| |q k budget]; [by eapply set_descriptor_moves; [apply _|]|by eapply clear_descriptor_moves; [apply _|]|].
    unfold participate in Hs. hinv. apply (lr_refl (P := currency_move)). }
  eapply runtime_inv_keeps; [exact Hinv|..]; simpl; try done.
  - lia.
  - intros x. destruct (Hcov x) as [_ Hx']. unfold claims, others, described in *. simpl. rewrite Hh. lia.
  - by eapply xqvm_inv_frame; [| |exact Hx].
Qed.

(** *** Acts and blocks *)

(** An act keeps the invariant; it is quiet, or a call of the mempool. *)
Lemma act_effect K x y : act x y -> runtime_inv K x ->
  runtime_inv K y /\ (quiet x y \/ exists o c rt', call_typed (MempoolCall c) /\
    NextOrderId (RtMempool (node_rt x)) + 1 < 2 ^ 64 /\ dispatch_mempool builder o c (node_rt x) = Ok rt' /\
    y = x <| node_rt := rt' |>).
Proof.
  intros Hact Hinv.
  assert (forall z, runtime_inv K z /\ quiet x z -> runtime_inv K z /\ (quiet x z \/ exists o c rt', call_typed (MempoolCall c) /\
    NextOrderId (RtMempool (node_rt x)) + 1 < 2 ^ 64 /\ dispatch_mempool builder o c (node_rt x) = Ok rt' /\
    z = x <| node_rt := rt' |>)) as Hq by naive_solver. destruct Hact as [rt rt' sr si o c Hty Hid Hok|rt b sr sr' si si' c st ch evs a a' Hsr' Hres Hh Hti Ha Ha' Hle].
  - destruct c as [c|c|c|c|c|c|c|c]; simpl in Hok.
    + by eapply Hq, template_keeps.
    + by eapply Hq, xqvm_keeps.
    + split; [by eapply mempool_call_keeps|]. right. by exists o, c, rt'.
    + by eapply Hq, pow_call_keeps.
    + by eapply Hq, faucet_call_keeps.
    + by eapply Hq, registry_call_keeps.
    + by eapply Hq, admission_keeps.
    + by eapply Hq, slash_keeps.
  - pose proof Hinv as [_ Hm Hd Hx _ _ _ _ Hsl Had].
    eapply Hq, runtime_inv_keeps; [exact Hinv|..]; try done; simpl.
    + intros x. unfold claims. simpl. rewrite Hh. specialize (Hres x). lia.
    + by eapply xqvm_inv_frame; [| |exact Hx].
    + change (slash_inv (slash_at rt <| staking := st |>)).
      eapply slash_step_inv; [..|exact Hsl|by eapply (ss_staking runtime_slash_config FoundationOrRoot)]; done.
Qed.

Lemma act_keeps K x y : act x y -> runtime_inv K x -> runtime_inv K y.
Proof. intros Hact Hinv. by eapply act_effect. Qed.

Lemma acts_keep K x y : rtc act x y -> runtime_inv K x -> runtime_inv K y.
Proof. induction 1 as [|x y z Hact _ IH]; [done|]. intros Hinv. by eapply IH, act_keeps. Qed.

(** The controller at the start of a block. *)
Lemma emission_block now (s : @EmissionState C) :
  0 <= now < 2 ^ 64 -> emission_inv now s ->
  let s' := Emission.on_initialize runtime_emission_config pot now s in
  emission_inv now s' /\ off_books s' = off_books s.
Proof.
  intros Hn [Hro Hs] s'. assert (routes_valid s') as Hro'
    by (eapply routes_valid_frame; [apply emission_on_initialize_routing|exact Hro]).
  enough ((fresh s' \/ exists start, on_schedule runtime_emission_config start now s') /\ off_books s' = off_books s) by by unfold emission_inv; naive_solver.
  subst s'. destruct Hs as [[[E1 E2] [B1 B2 B3 B4] Hz Hf]|[start Hos]]; simpl.
  - unfold Emission.on_initialize, accrue. rewrite E1, E2. destruct (now =? 0) eqn:Hnow; simpl.
    { split; [|done]. by left. }
    split; [|done]. right. exists now. bool_to_prop. split; simpl; try done; [lia|].
    assert (entitled runtime_emission_config now now = 0) as He0 by (unfold entitled; by rewrite Z.sub_diag).
    unfold within. rewrite He0. apply Forall_forall. intros r Hr. simpl in Hr.
    destruct B2 as [Hsh _]. rewrite Forall_forall in Hsh. specialize (Hsh r Hr).
    rewrite mul_floor_spec by (done || lia). unfold subnet_issued. simpl. specialize (Hz r.1). unfold subnet_issued in Hz.
    rewrite Hz, Z.mul_0_r. done.
  - destruct (accrue_on_schedule runtime_emission_config pot start now now s) as [Hos' Ho]; [done|lia|exact Hos|].
    split; [right; by exists start|exact Ho].
Qed.

Lemma emission_inv_later now now' (s : @EmissionState C) : now <= now' -> emission_inv now s -> emission_inv now' s.
Proof.
  intros Hle [Hro Hs]. split; [done|]. destruct Hs as [Hf|[start [Hc Hr Hb Hw Hf]]]; [by left|]. right. exists start. split; [lia|done|done| |done].
  eapply within_mono; [done| |exact Hw]. split; [by apply entitled_nonneg|by apply entitled_mono].
Qed.

(** Paying a reward out of a pot. *)
Lemma emission_pays now subnet who amount (s : @EmissionState C) :
  emission_inv now s -> let s' := (subnet_pay pot subnet s who amount).1 in
  emission_inv now s' /\ off_books s' = off_books s.
Proof.
  intros [Hro Hs] s'. assert (routes_valid s') as Hro' by (eapply routes_valid_frame; [apply subnet_pay_routing|exact Hro]).
  enough ((fresh s' \/ exists start, on_schedule runtime_emission_config start now s') /\ off_books s' = off_books s) by by unfold emission_inv; naive_solver.
  subst s'. destruct Hs as [Hf|[start Hos]]; simpl.
  - unfold subnet_pay. destruct (_ || _); simpl; [split; [left; by destruct Hf as [? [] ? ?]; split|done]|].
    destruct (transfer_keep_alive _ _ _ _) as [w|] eqn:Ht; simpl; (split; [left; by destruct Hf as [? [] ? ?]; split|]); [|done].
    unfold off_books. simpl. by rewrite (keep_alive_issuance _ _ _ _ _ Ht).
  - destruct (emission_step_on_schedule runtime_emission_config pot start now now s (subnet_pay pot subnet s who amount).1) as [Hos' Ho];
      [done|by apply es_pay|exact Hos|]. split; [right; by exists start|exact Ho].
Qed.

(** Starting a block: the hooks of the mempool, the proof of work and the
    controller keep the invariant, and they always succeed. *)
Definition begin_block (header : list Z) rt : runtime :=
  rt <| System_number := System_number rt + 1 |> <| System_parent_hash := header |> <| System_events := [] |>.

Lemma mempool_initialize_keeps K rt rt' b b' sr si header :
  System_number rt + 2 < 2 ^ 32 -> runtime_inv K (mkNode rt b sr si) ->
  mempool_initialize (begin_block header rt) = Ok rt' -> runtime_inv K (mkNode rt' b' sr si).
Proof.
  intros Hn Hinv (s' & Hs & ->)%run_in_Ok. pose proof Hinv as [Hmp Hm Hd Hx Hsr Hck Hem Hof Hsl Had]. cbn [node_rt sdk_reserved sdk_issued] in *.
  assert (MempoolSettlement.inv (s', claims sr rt)) as Hmp'.
  { eapply (step_inv (runtime_mempool_config builder)); [done|exact Hmp|]. eapply MempoolSettlement.step_block; [exact Hn|exact Hs]. }
  pose proof Hmp as [Hsched _ _ _ [Hb0 _] _]. cbn [fst] in Hsched, Hb0.
  destruct (on_initialize_sched (mempool_at rt) s' Hsched Hb0 ltac:(simpl; lia) Hs) as (_ & _ & _ & Heq).
  assert (Mempool.world s' = Balances rt) as Hw by (simpl in *; congruence).
  assert (Mempool.block_number s' = System_number (begin_block header rt)) as Hb by (simpl in *; congruence).
  split; cbn [node_rt sdk_reserved sdk_issued]; try done.
  - eapply mempool_stores; [exact Hmp'|done|intros x; simpl; by rewrite Hw|intros x; by apply (claims_nonneg _ _ x Hinv)].
  - eapply xqvm_inv_frame; [| |exact Hx]; [done|]. intros x. simpl. by rewrite Hw.
  - by eapply emission_inv_frame; [|exact Hem].
  - unfold off_books in *. simpl in *. rewrite Hw. lia.
Qed.

Lemma pow_initialize_keeps K rt b sr si :
  runtime_inv K (mkNode rt b sr si) ->
  runtime_inv K (mkNode (pow_initialize rt) b sr si) /\ quiet (mkNode rt b sr si) (mkNode (pow_initialize rt) b sr si).
Proof.
  intros Hinv. pose proof Hinv as [_ Hm Hd Hx Hsr _ _ _ Hsl Had]. unfold pow_initialize, QuantumPow.on_initialize.
  case_match; by eapply runtime_inv_keeps.
Qed.

Lemma emission_initialize_keeps K rt b sr si :
  runtime_inv K (mkNode rt b sr si) ->
  runtime_inv K (mkNode (emission_initialize pot rt) b sr si) /\
  quiet (mkNode rt b sr si) (mkNode (emission_initialize pot rt) b sr si).
Proof.
  intros Hinv. pose proof (rv_emission _ _ Hinv) as Hem. pose proof (rv_clock _ _ Hinv) as Hck. cbn [node_rt] in *.
  destruct (emission_block (clock rt) (emission_at rt)) as [Hem3 Ho3].
  { unfold clock. split; [apply Z.div_pos; lia|]. apply Z.le_lt_trans with (Timestamp_now rt); [apply Z.div_le_upper_bound; lia|lia]. }
  { done. }
  pose proof (emission_on_initialize_moves runtime_emission_config pot (clock rt) (emission_at rt)) as Hfm.
  unfold emission_initialize. fold (clock rt). set (s' := Emission.on_initialize _ _ _ _) in *. clearbody s'.
  eapply emission_keeps; [exact Hinv|..]; try done. by eapply emission_inv_frame; [|exact Hem3].
Qed.

Lemma initialize_keeps K rt rt' sr si header :
  System_number rt + 2 < 2 ^ 32 -> runtime_inv K (mkNode rt false sr si) ->
  initialize_block pot header rt = Ok rt' -> runtime_inv K (mkNode rt' true sr si).
Proof.
  intros Hn Hinv Hok. apply rbind_Ok_inv in Hok as (rt1 & Hok1 & [= <-]).
  apply emission_initialize_keeps, pow_initialize_keeps. by eapply mempool_initialize_keeps.
Qed.

(** The invariant guarantees that the next block can be started. *)
Lemma initialize_total K rt b sr si header :
  runtime_inv K (mkNode rt b sr si) -> exists rt', initialize_block pot header rt = Ok rt'.
Proof.
  intros [[_ Hr Ht _ _ _] _ _ _ _ _ _ _ _ _]. cbn [fst node_rt] in *. unfold initialize_block, initialize_hooks, mempool_initialize, run_in.
  set (rt0 := begin_block header rt). fold (begin_block header rt) in *. fold rt0.
  destruct (on_initialize_total (System_number rt0) (mempool_at rt0)) as (s' & Hs' & _).
  { by eapply rank_inv_frame; [exact Hr|done|intros i; simpl; case_match]. }
  { exact Ht. }
  rewrite Hs'. simpl. eauto.
Qed.

(** Settling a block pays the winner through the controller. *)
Lemma on_finalize_world {W} `{MiningReward W} cfg n (s : @PowState W) :
  (forall who, QuantumPow.deposit <$> Miners (QuantumPow.on_finalize cfg n s) !! who = QuantumPow.deposit <$> Miners s !! who) /\
  (QuantumPow.world (QuantumPow.on_finalize cfg n s) = QuantumPow.world s \/
   exists who amount, QuantumPow.world (QuantumPow.on_finalize cfg n s) = (pay (QuantumPow.world s) who amount).1).
Proof.
  unfold QuantumPow.on_finalize. destruct (BlockBestProof s) as [r|]; [|by auto].
  destruct (pay _ _ _) as [w rw] eqn:Hpay. unfold next_qblock_id. simpl.
  split; [|right; exists (record_miner r), (block_reward cfg (s <| BlockBestProof := None |>)); change (QuantumPow.world s) with (QuantumPow.world (s <| BlockBestProof := None |>)); rewrite Hpay; by case_match].
  intros who. destruct (Miners s !! record_miner r) as [m|] eqn:Hm; simpl; [|done].
  destruct (decide (record_miner r = who)) as [<-|Hne]; [rewrite lookup_insert_eq, Hm; done|by rewrite lookup_insert_ne].
Qed.

Lemma finalize_effect K rt sr si :
  runtime_inv K (mkNode rt true sr si) -> runtime_inv K (mkNode (finalize_block pot rt) false sr si) /\
  quiet (mkNode rt true sr si) (mkNode (finalize_block pot rt) false sr si).
Proof.
  intros Hinv. pose proof (rv_emission _ _ Hinv) as Hem. cbn [node_rt] in Hem. unfold finalize_block.
  destruct (on_finalize_world (runtime_pow_config FoundationOrRoot) (System_number rt) (pow_at rt)) as [Hdep Hw].
  set (s' := QuantumPow.on_finalize _ _ _) in *.
  assert (free_move (Balances rt) (Emission.world (QuantumPow.world s')) /\
    emission_inv (clock rt) (QuantumPow.world s') /\ off_books (QuantumPow.world s') = off_books (emission_at rt)) as (Hf & Hem' & Ho).
  { destruct Hw as [->|(who & amount & ->)]; [done|].
    split; [exact (subnet_pay_moves pot ISING_SUBNET (emission_at rt) who amount)|].
    exact (emission_pays (clock rt) ISING_SUBNET who amount (emission_at rt) Hem). }
  eapply emission_keeps; [exact Hinv|..]; try done. by eapply emission_inv_frame; [|exact Hem'].
Qed.

Lemma timestamp_keeps K rt sr si now :
  Timestamp_now rt <= now < 2 ^ 64 -> runtime_inv K (mkNode rt true sr si) ->
  runtime_inv K (mkNode (set_timestamp now rt) true sr si).
Proof.
  intros Hn [Hmp Hm Hd Hx Hsr Hck Hem Hof Hsl Had]. cbn [node_rt sdk_reserved sdk_issued] in *.
  split; cbn [node_rt sdk_reserved sdk_issued]; try done.
  - simpl. lia.
  - unfold clock in *. simpl. eapply emission_inv_later; [|exact Hem]. apply Z.div_le_mono; lia.
Qed.

Lemma events_keep K rt b sr si evs :
  runtime_inv K (mkNode rt b sr si) -> runtime_inv K (mkNode (rt <| System_events := evs |>) b sr si).
Proof. intros Hinv. pose proof Hinv as [_ Hm Hd Hx Hsr _ _ _ Hsl Had]. by eapply runtime_inv_keeps. Qed.

Lemma root_dispatch_Ok o call rt rt' :
  dispatch o (AdmissionCall (CallDispatchAsRoot call)) rt = Ok rt' ->
  FoundationOrigin o = true /\ check call = Ok tt /\
  exists evs, rt' = (dispatch_root call rt).1 <| System_events := evs |>.
Proof.
  simpl. intros Hok. apply rbind_Ok_inv in Hok as (s & Hs & Hok).
  destruct (dispatch_as_root _ _ _ _ _) as [s1| |] eqn:Hd; simplify_eq/=. unfold dispatch_as_root in Hd. hinv.
  match goal with Hc : check call = Ok ?u |- _ => destruct u end. simpl in *. destruct (dispatch_root call rt) as [w ok].
  hinv. simpl. split_and!; [done|done|]. eexists. unfold deposit_events. reflexivity.
Qed.

Lemma node_step_keeps K x y : node_step x y -> runtime_inv K x -> runtime_inv K y.
Proof.
  intros Hstep Hinv. destruct Hstep as [rt rt' sr si header _ Hn Hok|rt sr si now Hnow|x y Hact|rt rt' sr sr' si si' o call Hok Hrun|rt sr si].
  - by eapply initialize_keeps.
  - by apply timestamp_keeps.
  - by eapply act_keeps.
  - apply root_dispatch_Ok in Hok as (_ & _ & evs & ->). apply events_keep. by eapply acts_keep.
  - by apply finalize_effect.
Qed.

(** ** Genesis *)

Lemma fresh_issued (s : @EmissionState C) : fresh s -> ScheduledIssued s = 0.
Proof.
  intros [_ [_ _ B3 _] Hz _]. rewrite B3. unfold routes_issued.
  assert (forall l, zsum ((fun r : Z * Z => subnet_issued r.1 s) <$> l) = 0) as Hl; [|apply Hl].
  induction l as [|r l IH]; [done|]. rewrite fmap_cons. unfold zsum in *. cbn [foldr]. rewrite IH, Hz. done.
Qed.

(** A runtime whose pallets have issued and reserved nothing yet. *)
Record runtime_genesis rt : Prop := {
  rg_mempool : MempoolSettlement.genesis (mempool_at rt);
  rg_pow : QuantumPowProps.genesis (pow_at rt) /\ Miners (RtPow rt) = ∅;
  rg_registry : NodeDescriptors (RtRegistry rt) = ∅;
  rg_xqvm : Programs (RtXqvm rt) = ∅ /\ ProgramOwner (RtXqvm rt) = ∅ /\ ProgramDeposit (RtXqvm rt) = ∅;
  rg_holds : forall x, on_hold (Balances rt) x = 0;
  rg_clock : Timestamp_now rt = 0;
  rg_emission : routes_valid (emission_at rt) /\ fresh (emission_at rt) /\ FaucetIssued (RtEmission rt) = 0;
  rg_slash : slash_inv (slash_at rt);
  rg_admission : admission_ok rt
}.

(** Everything reserved and issued at genesis is the SDK's. *)
Definition genesis_node rt : Node := mkNode rt false (reserved_balance (Balances rt)) (total_issuance (Balances rt)).

Lemma genesis_keeps rt : runtime_genesis rt -> runtime_inv 0 (genesis_node rt).
Proof.
  intros [Hmp [Hpw Hmi] Hrg (E1 & E2 & E3) Hh Hck (Hro & Hem & Hfi) Hsl Had].
  assert (forall x, claims (reserved_balance (Balances rt)) rt x = reserved_balance (Balances rt) x) as Hcl.
  { intros x. unfold claims, deposited, described. rewrite Hmi, Hrg, !lookup_empty, Hh. simpl. lia. }
  split; cbn [genesis_node node_rt sdk_reserved sdk_issued]; try done.
  - pose proof (MempoolSettlement.genesis_inv _ Hmp) as Hinv.
    assert (mempool_at rt = mempool_at rt <| Mempool.world := Balances rt |> <| Mempool.events := [] |>) as E by done.
    rewrite E. eapply (step_inv (runtime_mempool_config builder)); [done|exact Hinv|].
    apply MempoolSettlement.step_runtime; intros x; rewrite Hcl; [apply reserved_nonneg|done].
  - intros who m. by rewrite Hmi, lookup_empty.
  - intros who d. by rewrite Hrg, lookup_empty.
  - split; simpl; rewrite ?E1, ?E2, ?E3; intros *; rewrite ?lookup_empty; try done.
  - intros who. apply reserved_nonneg.
  - rewrite Hck. lia.
  - split; [done|by left].
  - unfold off_books. rewrite (fresh_issued _ Hem). simpl. lia.
Qed.

End Node.
