(* ===== verification/RuntimeUpgrade.v ===== *)
(** * Runtime upgrades

    Models what a runtime upgrade runs on the composed chain: the [Migrations]
    of [runtime/src/lib.rs], the [SingleBlockMigrations] of
    [runtime/src/configs/mod.rs] and the [on_runtime_upgrade] hooks of the
    repository's pallets in the order of their indices, as the [Executive] type
    composes them, each with the checks that [TryRuntime::on_runtime_upgrade] of
    [runtime/src/apis.rs] runs around it.

    During an upgrade storage is bytes of an older layout, so the chain is the
    runtime's state with the storage versions and the bytes behind the maps
    that changed layout; [before] is what the runtime that wrote them reads of
    it, and [visible] what the new one reads. *)

From S2P Require Import Prelude Validation PuzzleSpec Frame RuntimeParams Weights Difficulty Ising QuantumPow QuantumPowProps PowMigration MempoolCore Mempool MempoolProps MempoolSettlement MinerRegistry Template Emission StakingRewards Faucet SlashPolicy ElectionData Admission Governance RuntimeGuards ElectionRound GenesisPresets Xqvm RuntimeConfig XqvmAdapter UpgradeChecks Runtime RuntimeProps.

(** ** Steps in sequence *)

(** One [OnRuntimeUpgrade]: the migration, and the checks around it with what
    the first notes for the second. *)
Record Step (U : Type) := mkStep {
  run : U -> tryresult U;
  Noted : Type;
  pre : U -> tryresult Noted;
  post : Noted -> U -> tryresult unit
}.
Arguments run {U} s u : rename.
Arguments Noted {U} s : rename.
Arguments pre {U} s u : rename.
Arguments post {U} s n u : rename.

Section Sequence.
Context {U : Type}.
Implicit Types (s t : Step U) (l : list (Step U)) (u : U).

(** [OnRuntimeUpgrade] of a tuple. *)
Definition run_all l u : tryresult U := rfold (fun u s => run s u) u l.

(** [try_on_runtime_upgrade]: of one step, and of a tuple. *)
Definition try_step u s : tryresult U :=
  noted <-? pre s u;;
  u <-? run s u;;
  post s noted u;;?
  Ok u.
Definition try_all l u : tryresult U := rfold try_step u l.

(** The checks only observe. *)
Lemma try_step_runs u s u' : try_step u s = Ok u' -> run s u = Ok u'.
Proof. unfold try_step. intros Hok. hinv. congruence. Qed.

Lemma try_all_runs l u u' : try_all l u = Ok u' -> run_all l u = Ok u'.
Proof.
  unfold try_all, run_all. revert u. induction l as [|s l IH]; intros u; [done|]. cbn.
  intros (u1 & ->%try_step_runs & Hl)%rbind_Ok_inv. cbn. by apply IH.
Qed.

(** A step settles: what it reaches it leaves alone. *)
Record settles s (fin : U -> Prop) : Prop := {
  settle_reached : forall u u', run s u = Ok u' -> fin u';
  settle_fixed : forall u, fin u -> run s u = Ok u
}.

(** A sequence settles when no step undoes what an earlier one reached. *)
Inductive settling : list (Step U) -> (U -> Prop) -> Prop :=
  | settling_nil : settling [] (fun _ => True)
  | settling_cons s fin l D :
      settles s fin -> Forall (fun t => forall u u', run t u = Ok u' -> fin u -> fin u') l -> settling l D ->
      settling (s :: l) (fun u => fin u /\ D u).

Lemma settling_reached l D u u' : settling l D -> run_all l u = Ok u' -> D u'.
Proof.
  intros Hs. revert u. induction Hs as [|s fin l D Hsettle Hkeep _ IH]; intros u Hrun; [done|]. cbn in Hrun.
  apply rbind_Ok_inv in Hrun as (u1 & Hrun & Hrest). split; [|by eapply IH].
  eapply (rfold_Ok_ind _ fin); [| |exact Hrest]; [|by eapply settle_reached].
  intros v t v' Ht Hv Hok. exact (proj1 (Forall_forall _ _) Hkeep t Ht v v' Hok Hv).
Qed.

Lemma settling_fixed l D u : settling l D -> D u -> run_all l u = Ok u.
Proof.
  unfold run_all. intros Hs. induction Hs as [|s fin l D Hsettle _ _ IH]; [done|]. intros [Hd HD]. cbn.
  rewrite (settle_fixed _ _ Hsettle u Hd). cbn. by apply IH.
Qed.

(** Running a settling sequence again changes nothing. *)
Lemma settling_idempotent l D u u' : settling l D -> run_all l u = Ok u' -> run_all l u' = Ok u'.
Proof. intros Hs Hrun. eapply settling_fixed; [exact Hs|]. by eapply settling_reached. Qed.
End Sequence.

(** ** The ledger *)

(** What [InitializeReviveAccount] uses of the SDK: [System::account_exists] and
    [Balances::mint_into]. *)
Class MintInto (C : Type) := {
  account_exists : C -> AccountId -> bool;
  mint_into : C -> AccountId -> Balance -> option C
}.

(** Minting at least the minimum balance succeeds unless the issuance
    overflows, creates the account and issues the amount; it touches neither
    reserves nor holds.  Unreserving neither creates nor removes accounts. *)
Class MintIntoLaws (C : Type) `{Currency C, Issuance C, Holds C, MintInto C} := {
  mint_succeeds : forall c who, total_issuance c + Params.EXISTENTIAL_DEPOSIT < 2 ^ 128 ->
    is_Some (mint_into c who Params.EXISTENTIAL_DEPOSIT);
  mint_creates : forall c c' who v, account_exists c who = false -> 0 < v -> mint_into c who v = Some c' ->
    account_exists c' who = true;
  mint_issuance : forall c c' who v, mint_into c who v = Some c' -> total_issuance c' = total_issuance c + v;
  mint_reserved : forall c c' who v x, mint_into c who v = Some c' -> reserved_balance c' x = reserved_balance c x;
  mint_on_hold : forall c c' who v x, mint_into c who v = Some c' -> on_hold c' x = on_hold c x;
  unreserve_exists : forall c who v x, account_exists (unreserve c who v).1 x = account_exists c x
}.

(** ** The upgrade of the composed chain *)

Section Upgrade.
Context `{UsizeWidth, DifficultyPrims, PowPrims} {R : Type} `{IsingPrims R}.
Context `{SpArithmetic, XqvmLib, MempoolPrims, EnsureProportion, PerbillTimes, DbWeight}.
Context {C : Type} `{Currency C, Issuance C, Holds C, MintInto C}.
Context {S : Type} `{StakingOps S}.
Context {M : Type} `{MultiBlock M}.
(** A stored descriptor's bytes, decoded at the current layout and at the one of
    the registry's version 1. *)
Context {Raw : Type} (decode_descriptor decode_old : Raw -> option NodeDescriptor).
Context (builder revive_account : AccountId).
#[local] Abbreviation runtime := (@Runtime C S M).
#[local] Abbreviation mempool_at := (load (P := @MempoolState C)).
#[local] Abbreviation pow_at := (load (P := @PowState (@EmissionState C))).
#[local] Abbreviation emission_at := (load (P := @EmissionState C)).
#[local] Abbreviation faucet_at := (load (P := @Faucet C)).
#[local] Abbreviation mempool_cfg := (runtime_mempool_config builder).
Implicit Types rt : runtime.

(** Storage during an upgrade. *)
Record Storage := mkStorage {
  chain : runtime;
  RegistryVersion : Z;
  RawDescriptors : list (AccountId * Raw);
  OffencesVersion : Z;
  MaxNominatorsCount : option Z;
  MempoolVersion : Z;
  PowVersion : Z;
  RawQBlocks : gmap BlockNumber StoredQBlock;
  OldDifficulty : option DifficultyConfig;
  WinnerStreak : bool;
  FaucetStateStored : bool;
  EmissionVersion : Z
}.
#[export] Instance Storage_expansion : Expansion Storage := fun u =>
  mkStorage (chain u) (RegistryVersion u) (RawDescriptors u) (OffencesVersion u) (MaxNominatorsCount u)
    (MempoolVersion u) (PowVersion u) (RawQBlocks u) (OldDifficulty u) (WinnerStreak u) (FaucetStateStored u)
    (EmissionVersion u).
Implicit Types u : Storage.

(** What the runtime reads: entries that do not decode read as absent. *)
Definition visible u : runtime :=
  (chain u) <| RtPow $= fun s => s <| QBlocks := omap decode_v5 (RawQBlocks u) |> |>
    <| RtRegistry $= fun s => s <| NodeDescriptors := omap decode_descriptor (list_to_map (RawDescriptors u)) |> |>.

(** A record as it was stored: at version 1 in the old layout. *)
Definition stored_descriptor u (raw : Raw) : option NodeDescriptor :=
  if RegistryVersion u =? 1 then decode_old raw else decode_descriptor raw.

(** What the runtime before the upgrade reads of the same bytes: its records
    and qblocks are in the layouts it wrote them in, whatever these are. *)
Definition before u : runtime :=
  (chain u) <| RtPow $= fun s => s <| QBlocks := meaning (default 0 (DefaultTopology s)) <$> RawQBlocks u |> |>
    <| RtRegistry $= fun s => s <| NodeDescriptors := omap (stored_descriptor u) (list_to_map (RawDescriptors u)) |> |>.

Lemma visible_balances u : Balances (visible u) = Balances (chain u).
Proof. done. Qed.

(** The storage behind a runtime at given versions of the registry, the mempool
    and the proof of work, with its descriptors and qblocks in given layouts. *)
Definition storage_of (encode : NodeDescriptor -> Raw) (layout : QBlock -> StoredQBlock) (registry mempool pow : Z) rt : Storage :=
  mkStorage rt registry (prod_map id encode <$> map_to_list (NodeDescriptors (RtRegistry rt))) 0 None mempool pow
    (layout <$> QBlocks (RtPow rt)) None (pow <? POW_STORAGE_VERSION) true VERSION.

Lemma before_storage encode layout registry mempool pow rt :
  let u := storage_of encode layout registry mempool pow rt in
  (forall d, stored_descriptor u (encode d) = Some d) ->
  map_Forall (fun _ q => meaning (default 0 (DefaultTopology (RtPow rt))) (layout q) = q) (QBlocks (RtPow rt)) ->
  before u = rt.
Proof.
  intros u Hdec Hlay. unfold before.
  assert (omap (stored_descriptor u) (list_to_map (M := gmap AccountId Raw) (RawDescriptors u)) = NodeDescriptors (RtRegistry rt)) as ->.
  { subst u. cbn [RawDescriptors storage_of]. rewrite list_to_map_fmap, list_to_map_to_list. apply map_eq. intros n. rewrite lookup_omap, lookup_fmap.
    destruct (NodeDescriptors (RtRegistry rt) !! n) as [d|]; [|done]. cbn. apply Hdec. }
  subst u. cbn [chain RawQBlocks storage_of].
  assert (meaning (default 0 (DefaultTopology (RtPow rt))) <$> (layout <$> QBlocks (RtPow rt)) = QBlocks (RtPow rt)) as E.
  { apply map_eq. intros n. rewrite !lookup_fmap. destruct (QBlocks (RtPow rt) !! n) as [q|] eqn:Hq; [|done].
    cbn. f_equal. exact (Hlay n q Hq). }
  destruct rt as [? ? ? ? ? ? ? ? [] ? ? ? [] ? ? ? ? ? ?]. cbn in *. unfold update_field. cbn. by rewrite E.
Qed.

Lemma storage_of_keys encode layout registry mempool pow rt :
  NoDup (RawDescriptors (storage_of encode layout registry mempool pow rt)).*1.
Proof.
  cbn. rewrite <- list_fmap_compose. rewrite (list_fmap_ext _ fst) by (by intros ? []). apply NoDup_fst_map_to_list.
Qed.

(** *** The runtime's migrations *)

Definition migrate_registry u : tryresult Storage :=
  let '(version, records, c) := MigrateToV2 decode_descriptor (RegistryVersion u) (RawDescriptors u) (Balances (chain u)) in
  Ok (u <| RegistryVersion := version |> <| RawDescriptors := records |> <| chain $= fun rt => rt <| Balances := c |> |>).

Definition migrate_revive u : tryresult Storage :=
  c <-? initialize_revive_account account_exists mint_into revive_account (Balances (chain u));;
  Ok (u <| chain $= fun rt => rt <| Balances := c |> |>).

(** The versioned migration checks itself only when it ran. *)
Definition MigrateToV2_step : Step Storage := {|
  run := migrate_registry;
  pre u := Ok (RegistryVersion u =? 1);
  post (ran : bool) u := if ran then registry_post_upgrade (RawDescriptors u) else Ok tt
|}.
Definition InitializeReviveAccount : Step Storage := {|
  run := migrate_revive;
  pre _ := Ok tt;
  post _ _ := Ok tt
|}.
Definition InitializeOffences : Step Storage := {|
  run u := Ok (u <| OffencesVersion $= initialize_offences |>);
  pre _ := Ok tt;
  post _ u := offences_post_upgrade (OffencesVersion u)
|}.
Definition InitializeStakingLimits : Step Storage := {|
  run u := Ok (u <| MaxNominatorsCount $= initialize_staking_limits |>);
  pre u := Ok (staking_limits_pre_upgrade (MaxNominatorsCount u));
  post before u := staking_limits_post_upgrade before (MaxNominatorsCount u)
|}.

Definition Migrations : list (Step Storage) := [MigrateToV2_step; InitializeReviveAccount; InitializeOffences].
Definition SingleBlockMigrations : list (Step Storage) := [InitializeStakingLimits].

(** *** The pallets' hooks *)

Definition upgrade_mempool u : Storage :=
  let rt := chain u in
  let r := @Mempool.on_runtime_upgrade (runtime_vm rt) _ C mempool_cfg (MempoolVersion u) (mempool_at rt) in
  u <| MempoolVersion := r.1 |> <| chain := store r.2 rt |>.

(** The proof of work's storage as its migration sees it. *)
Definition pow_storage u : @Upgrading (@EmissionState C) :=
  mkUpgrading (pow_at (chain u)) (RawQBlocks u) (OldDifficulty u) (WinnerStreak u).

Definition upgrade_pow u : Storage :=
  let r := pow_runtime_upgrade (PowVersion u) (pow_storage u) in
  u <| PowVersion := r.1 |> <| RawQBlocks := raw_qblocks r.2 |> <| OldDifficulty := old_difficulty r.2 |>
    <| WinnerStreak := winner_streak r.2 |> <| chain := store (items r.2) (chain u) |>.

(** Closing a legacy faucet writes its state. *)
Definition upgrade_faucet u : Storage :=
  let f := faucet_at (chain u) in
  u <| FaucetStateStored := FaucetStateStored u || (storage_version f <? 1) |>
    <| chain := store (faucet_runtime_upgrade (FaucetStateStored u) f) (chain u) |>.

Definition upgrade_emission u : Storage :=
  let rt := chain u in
  let r := Emission.on_runtime_upgrade runtime_emission_config (Timestamp_now rt / 1000) (EmissionVersion u) (emission_at rt) in
  u <| EmissionVersion := r.1 |> <| chain := store r.2 rt |>.

Definition QuantumComputeMempool : Step Storage := {|
  run u := Ok (upgrade_mempool u);
  pre u := Ok (mempool_pre_upgrade (MempoolVersion u));
  post before u := mempool_post_upgrade mempool_cfg before (MempoolVersion u) (mempool_at (chain u))
|}.
Definition QuantumPow_step : Step Storage := {|
  run u := Ok (upgrade_pow u);
  pre u := Ok (pow_pre_upgrade (PowVersion u) (pow_storage u));
  post noted u := pow_post_upgrade noted (PowVersion u) (pow_storage u)
|}.
Definition FaucetOps : Step Storage := {|
  run u := Ok (upgrade_faucet u);
  pre u := Ok (faucet_pre_upgrade (FaucetStateStored u) (faucet_at (chain u)));
  post noted u := faucet_post_upgrade noted (faucet_at (chain u))
|}.
Definition EmissionController : Step Storage := {|
  run u := Ok (upgrade_emission u);
  pre u := emission_pre_upgrade runtime_emission_config (Timestamp_now (chain u) / 1000) (EmissionVersion u) (emission_at (chain u));
  post noted u := emission_post_upgrade runtime_emission_config noted (EmissionVersion u) (emission_at (chain u))
|}.

(** The repository's pallets with a hook, at indices 9, 10, 11 and 19. *)
Definition AllPallets : list (Step Storage) := [QuantumComputeMempool; QuantumPow_step; FaucetOps; EmissionController].

(** [Executive::execute_on_runtime_upgrade] *)
Definition upgrade_steps : list (Step Storage) := Migrations ++ SingleBlockMigrations ++ AllPallets.
Definition execute_on_runtime_upgrade u : tryresult Storage := run_all upgrade_steps u.

(** [Executive::try_runtime_upgrade] with all checks: around every step, then
    the pallets' state checks. *)
Definition try_runtime_upgrade u : tryresult Storage :=
  u <-? try_all upgrade_steps u;;
  emission_try_state runtime_emission_config (emission_at (chain u));;?
  admission_try_state Params.MaxAdmittedAuthorities (fun _ => false) (load (P := @AdmissionState (@ElectionRound.Chain M)) (chain u));;?
  Ok u.
(** ** Upgrading again *)

(** A pallet's storage at rest carries no ledger, clock or events; storing
    what was loaded then changes nothing. *)
Definition mempool_at_rest rt : Prop := Mempool.block_number (RtMempool rt) = 0 /\ Mempool.events (RtMempool rt) = [].
Definition emission_at_rest rt : Prop := Emission.events (RtEmission rt) = [].
Definition pow_at_rest rt : Prop :=
  QuantumPow.block_number (RtPow rt) = 0 /\ parent_hash (RtPow rt) = [] /\ QuantumPow.events (RtPow rt) = [].

Lemma deposit_no_events {E} (f : E -> RuntimeEvent) rt : deposit_events f [] rt = rt.
Proof. unfold deposit_events, update_field. rewrite fmap_nil, app_nil_r. by destruct rt. Qed.

Lemma store_mempool rt : mempool_at_rest rt -> store (mempool_at rt) rt = rt.
Proof.
  unfold mempool_at_rest. destruct rt as [n ph ev now c t x m p fs fa fv rg em mo ap st el sl], m as [? ? ? ? ? ? ? ? ? ? ? ? ? ? ? [] ?].
  simpl. intros [-> ->]. by rewrite deposit_no_events.
Qed.

Lemma store_emission rt : emission_at_rest rt -> store (emission_at rt) rt = rt.
Proof.
  unfold emission_at_rest. destruct rt as [n ph ev now c t x m p fs fa fv rg em mo ap st el sl], em as [? ? ? ? ? ? ? [] ?].
  simpl. intros ->. by rewrite deposit_no_events.
Qed.

Lemma store_pow rt : pow_at_rest rt -> emission_at_rest rt -> store (pow_at rt) rt = rt.
Proof.
  intros Hp He. unfold store at 1, pow_pallet. cbn [QuantumPow.world load]. fold (emission_at rt).
  replace (rt <| RtPow := _ |>) with rt.
  - rewrite store_emission by done. apply deposit_no_events.
  - destruct rt as [n ph ev now c t x m p fs fa fv rg em mo ap st el sl], p. unfold pow_at_rest in Hp. cbn in *. destruct Hp as (-> & -> & ->). by destruct world.
Qed.

Lemma store_faucet rt : emission_at_rest rt -> store (faucet_at rt) rt = rt.
Proof.
  intros He. unfold store at 1, faucet_pallet. cbn [Faucet.emissions load]. fold (emission_at rt).
  replace (rt <| RtFaucetState := _ |> <| RtFaucetAuthority := _ |> <| RtFaucetVersion := _ |>) with rt by (by destruct rt).
  rewrite store_emission by done. apply deposit_no_events.
Qed.

(** What each step has reached. *)
Definition registry_reached u : Prop := RegistryVersion u <> 1.
Definition revive_reached u : Prop := account_exists (Balances (chain u)) revive_account = true.
Definition offences_reached u : Prop := OffencesVersion u <> 0.
Definition limits_reached u : Prop := is_Some (MaxNominatorsCount u).
Definition mempool_reached u : Prop := STORAGE_VERSION <= MempoolVersion u /\ mempool_at_rest (chain u).
Definition pow_reached u : Prop := POW_STORAGE_VERSION <= PowVersion u /\ pow_at_rest (chain u) /\ emission_at_rest (chain u).
Definition faucet_reached u : Prop := 1 <= RtFaucetVersion (chain u) /\ emission_at_rest (chain u).
Definition emission_reached u : Prop :=
  (VERSION <= EmissionVersion u \/
   rebased_start runtime_emission_config (Timestamp_now (chain u) / 1000) (emission_at (chain u)) = None) /\
  emission_at_rest (chain u).

Context `{!CurrencyLaws C, !IssuanceLaws C, !HoldsLaws C, !BalancesLaws C, !MintIntoLaws C}.

Lemma registry_settles : settles MigrateToV2_step registry_reached.
Proof.
  split; cbn; unfold registry_reached, migrate_registry, MigrateToV2.
  - intros u u'. destruct (RegistryVersion u =? 1) eqn:E; cbn; intros [= <-]; cbn; bool_to_prop; lia.
  - intros u Hv. rewrite (proj2 (Z.eqb_neq _ _)) by done. by destruct u as [[] ].
Qed.

Lemma revive_settles : settles InitializeReviveAccount revive_reached.
Proof.
  split; cbn; unfold revive_reached, migrate_revive, initialize_revive_account.
  - intros u u'. destruct (account_exists _ _) eqn:E; cbn; [by intros [= <-]|].
    destruct (mint_into _ _ _) as [c|] eqn:Hm; cbn; [|done]. intros [= <-]. cbn. by eapply mint_creates; [exact E| |exact Hm].
  - intros u ->. by destruct u as [[] ].
Qed.

Lemma offences_settles : settles InitializeOffences offences_reached.
Proof.
  split; cbn; unfold offences_reached, initialize_offences.
  - intros u u' [= <-]. cbn. destruct (OffencesVersion u =? 0) eqn:E; bool_to_prop; lia.
  - intros u Hv. destruct u. cbn in Hv. unfold update_field. cbn. by rewrite (proj2 (Z.eqb_neq _ _)).
Qed.

Lemma limits_settles : settles InitializeStakingLimits limits_reached.
Proof.
  split; cbn; unfold limits_reached.
  - intros u u' [= <-]. cbn. destruct (MaxNominatorsCount u); by eexists.
  - intros u [n E]. destruct u. cbn in E. unfold update_field. cbn. by rewrite E.
Qed.

Lemma mempool_settles : settles QuantumComputeMempool mempool_reached.
Proof.
  split; cbn; unfold mempool_reached, upgrade_mempool, Mempool.on_runtime_upgrade.
  - intros u u' [= <-]. destruct (STORAGE_VERSION <=? MempoolVersion u) eqn:Hv; cbn; bool_to_prop; done.
  - intros u [Hv Hr]. rewrite (proj2 (Z.leb_le _ _)) by done. cbn [fst snd]. rewrite store_mempool by done. by destruct u.
Qed.

Lemma pow_settles : settles QuantumPow_step pow_reached.
Proof.
  split; cbn; unfold pow_reached, upgrade_pow, pow_runtime_upgrade.
  - intros u u' [= <-]. destruct (POW_STORAGE_VERSION <=? PowVersion u) eqn:Hv; cbn; bool_to_prop; done.
  - intros u (Hv & Hp & He). rewrite (proj2 (Z.leb_le _ _)) by done. cbn [fst snd pow_storage items raw_qblocks old_difficulty winner_streak].
    rewrite store_pow by done. by destruct u.
Qed.

Lemma faucet_settles : settles FaucetOps faucet_reached.
Proof.
  split; cbn; unfold faucet_reached, upgrade_faucet, faucet_runtime_upgrade.
  - intros u u' [= <-]. cbn. destruct (RtFaucetVersion (chain u) <? 1) eqn:Hv; [|cbn; bool_to_prop; done].
    by destruct (_ && _).
  - intros u (Hv & He). cbn [load faucet_pallet storage_version]. rewrite (proj2 (Z.ltb_ge _ _)) by done.
    change (mkFaucet _ _ _ _ _) with (faucet_at (chain u)). rewrite store_faucet by done. rewrite orb_false_r. by destruct u.
Qed.

Lemma emission_settles : settles EmissionController emission_reached.
Proof.
  split; cbn; unfold emission_reached, upgrade_emission, Emission.on_runtime_upgrade.
  - intros u u' [= <-]. destruct (VERSION <=? EmissionVersion u) eqn:Hv; cbn; [bool_to_prop; by split; [left|]|].
    destruct (rebased_start _ _ _) as [start|] eqn:Hs; cbn; [by split; [left|]|]. split; [right|done]. exact Hs.
  - intros u (Hor & He). destruct (VERSION <=? EmissionVersion u) eqn:Hv; cbn [fst snd].
    { rewrite store_emission by done. by destruct u. }
    bool_to_prop. destruct Hor as [Hor| ->]; [lia|]. cbn [fst snd]. rewrite store_emission by done. by destruct u.
Qed.

(** ** What the hooks touch *)

Lemma mempool_upgrade_frame (vm : QuantumVm) cfg version (s : @MempoolState C) :
  let s' := (Mempool.on_runtime_upgrade cfg version s).2 in
  Mempool.world s' = Mempool.world s /\ Mempool.events s' = Mempool.events s /\ Mempool.block_number s' = Mempool.block_number s.
Proof.
  assert (forall s : @MempoolState C, let s' := index_open_orders_for_expiry s in
    Mempool.world s' = Mempool.world s /\ Mempool.events s' = Mempool.events s /\ Mempool.block_number s' = Mempool.block_number s) as Hindex.
  { clear s. intros s. unfold index_open_orders_for_expiry. cbn. generalize (bucket_order (OpenOrders s)) as l. intros l.
    revert s. induction l as [|id l IH]; intros s; [done|]. cbn [foldl]. destruct (JobOrders s !! id) as [order|]; [|apply IH].
    case_bool_decide; cbn [negb]; [|apply IH]. apply (IH (schedule_expiry _ _ s)). }
  unfold Mempool.on_runtime_upgrade. cbv zeta. destruct (_ <=? version); [done|]. cbn [snd].
  set (s1 := if version <? 2 then _ else s).
  assert (Mempool.world s1 = Mempool.world s /\ Mempool.events s1 = Mempool.events s /\ Mempool.block_number s1 = Mempool.block_number s) as (<- & <- & <-).
  { subst s1. destruct (version <? 2); [|done]. unfold insert_default_ising_spec, insert_job_spec. cbn.
    destruct (vm_validate_programs None None); [done..]. }
  destruct (version <? 3); [apply Hindex|done].
Qed.

Lemma pow_upgrade_frame {W} version (u : @Upgrading W) :
  let s' := items (pow_runtime_upgrade version u).2 in
  QuantumPow.world s' = QuantumPow.world (items u) /\ QuantumPow.events s' = QuantumPow.events (items u) /\
  QuantumPow.block_number s' = QuantumPow.block_number (items u) /\ parent_hash s' = parent_hash (items u) /\
  (2 <= version -> Miners s' = Miners (items u)).
Proof.
  unfold pow_runtime_upgrade. cbv zeta. destruct (_ <=? version); [done|]. cbn [snd remove_winner_streak].
  destruct (version =? 2) eqn:?, (version <? 3) eqn:?, (version <? 5) eqn:?, (version =? 4) eqn:?; bool_to_prop; try lia; cbn;
    try (destruct (DefaultTopology (items u)); done); split_and!; try done; lia.
Qed.

(** A pallet's emissions at rest. *)
Definition emission_stored rt : @EmissionState unit :=
  let s := RtEmission rt in
  mkEmissionState (Enabled s) (StartAt s) (Routes s) (SubnetIssued s) (ScheduledIssued s) (FaucetBudget s) (FaucetIssued s) tt [].

Lemma upgrade_mempool_touches u : exists m, chain (upgrade_mempool u) = (chain u) <| RtMempool := m |>.
Proof.
  unfold upgrade_mempool. cbv zeta. cbn [chain]. 
  destruct (mempool_upgrade_frame (runtime_vm (chain u)) mempool_cfg (MempoolVersion u) (mempool_at (chain u))) as (Ew & Ee & _).
  destruct (Mempool.on_runtime_upgrade _ _ _) as [v s]. cbn in *. rewrite Ew, Ee, deposit_no_events.
  match goal with |- context [_ <| RtMempool := ?m |>] => exists m end. by destruct (chain u).
Qed.

Lemma upgrade_pow_touches u : exists p,
  chain (upgrade_pow u) = (chain u) <| RtPow := p |> <| RtEmission := emission_stored (chain u) |> /\
  (2 <= PowVersion u -> Miners p = Miners (RtPow (chain u))).
Proof.
  unfold upgrade_pow. cbv zeta. cbn [chain]. destruct (pow_upgrade_frame (PowVersion u) (pow_storage u)) as (Ew & Ee & _ & _ & Em).
  destruct (pow_runtime_upgrade _ _) as [v s]. cbn in *. rewrite Ew, Ee. cbn [Emission.events]. rewrite !deposit_no_events.
  match goal with |- context [_ <| RtPow := ?p |>] => exists p end. split; [by destruct (chain u)|exact Em].
Qed.

Lemma upgrade_faucet_touches u : exists st a v,
  chain (upgrade_faucet u) = (chain u) <| RtFaucetState := st |> <| RtFaucetAuthority := a |> <| RtFaucetVersion := v |>
    <| RtEmission := emission_stored (chain u) |>.
Proof.
  unfold upgrade_faucet, faucet_runtime_upgrade. cbv zeta. cbn [chain]. 
  destruct (storage_version _ <? 1); [destruct (_ && _)|]; cbn; cbn [Emission.events]; rewrite !deposit_no_events;
    match goal with |- context [_ <| RtFaucetState := ?st |>] => exists st end;
    match goal with |- context [_ <| RtFaucetAuthority := ?a |>] => exists a end;
    match goal with |- context [_ <| RtFaucetVersion := ?v |>] => exists v end; by destruct (chain u).
Qed.

Lemma upgrade_emission_touches u : exists start,
  chain (upgrade_emission u) = (chain u) <| RtEmission := (emission_stored (chain u)) <| StartAt := start |> |> /\
  (VERSION <= EmissionVersion u -> start = StartAt (RtEmission (chain u))).
Proof.
  unfold upgrade_emission, Emission.on_runtime_upgrade. cbv zeta. cbn [chain].
  destruct (VERSION <=? EmissionVersion u) eqn:Hv; bool_to_prop; [|destruct (rebased_start _ _ _)]; cbn; cbn [Emission.events]; rewrite !deposit_no_events;
    match goal with |- context [_ <| RtEmission := mkEmissionState _ ?start _ _ _ _ _ _ _ |>] => exists start end;
    (split; [by destruct (chain u)|]); done || lia.
Qed.

(** The ledger is only the migrations' business. *)
Lemma hooks_keep_ledger u :
  Balances (chain (upgrade_mempool u)) = Balances (chain u) /\ Balances (chain (upgrade_pow u)) = Balances (chain u) /\
  Balances (chain (upgrade_faucet u)) = Balances (chain u) /\ Balances (chain (upgrade_emission u)) = Balances (chain u).
Proof.
  destruct (upgrade_mempool_touches u) as (m & ->), (upgrade_pow_touches u) as (p & -> & _),
    (upgrade_faucet_touches u) as (? & ? & ? & ->), (upgrade_emission_touches u) as (start & -> & _). done.
Qed.

(** No step undoes what an earlier one reached. *)
Ltac kept :=
  intros u u'; cbn [run InitializeOffences InitializeStakingLimits QuantumComputeMempool QuantumPow_step FaucetOps EmissionController];
  intros [= <-];
  rewrite ?(proj1 (hooks_keep_ledger u)), ?(proj1 (proj2 (hooks_keep_ledger u))),
    ?(proj1 (proj2 (proj2 (hooks_keep_ledger u)))), ?(proj2 (proj2 (proj2 (hooks_keep_ledger u))));
  unfold mempool_at_rest, pow_at_rest, emission_at_rest;
  try (destruct (upgrade_pow_touches u) as (? & -> & _));
  try (destruct (upgrade_faucet_touches u) as (? & ? & ? & ->));
  try (destruct (upgrade_emission_touches u) as (? & -> & _));
  cbn; tauto.

Lemma upgrade_settles : exists reached, settling upgrade_steps reached.
Proof.
  eexists. unfold upgrade_steps. cbn [app Migrations SingleBlockMigrations AllPallets].
  apply settling_cons; [apply registry_settles| |].
  { unfold registry_reached. repeat apply Forall_cons_2; try apply Forall_nil_2; try kept.
    intros u u'. cbn. unfold migrate_revive. intros Hrun. hinv. cbn. done. }
  apply settling_cons; [apply revive_settles|unfold revive_reached; repeat apply Forall_cons_2; try apply Forall_nil_2; kept|].
  apply settling_cons; [apply offences_settles|unfold offences_reached; repeat apply Forall_cons_2; try apply Forall_nil_2; kept|].
  apply settling_cons; [apply limits_settles|unfold limits_reached; repeat apply Forall_cons_2; try apply Forall_nil_2; kept|].
  apply settling_cons; [apply mempool_settles|unfold mempool_reached; repeat apply Forall_cons_2; try apply Forall_nil_2; kept|].
  apply settling_cons; [apply pow_settles|unfold pow_reached; repeat apply Forall_cons_2; try apply Forall_nil_2; kept|].
  apply settling_cons; [apply faucet_settles|unfold faucet_reached; repeat apply Forall_cons_2; try apply Forall_nil_2; kept|].
  apply settling_cons; [apply emission_settles|apply Forall_nil_2|apply settling_nil].
Qed.

(** Running the upgrade again, with the same code, changes nothing. *)
Lemma upgrade_idempotent u u' : execute_on_runtime_upgrade u = Ok u' -> execute_on_runtime_upgrade u' = Ok u'.
Proof. destruct upgrade_settles as [reached Hs]. by apply settling_idempotent with reached. Qed.

(** ** The checks around the upgrade *)

(** What a pallet stores it loads again. *)
Lemma load_store_emission (s : @EmissionState C) rt : Emission.events s = [] -> emission_at (store s rt) = s.
Proof. intros E. destruct s. cbn in *. by subst. Qed.

Lemma load_store_mempool (s : @MempoolState C) rt :
  Mempool.events s = [] -> Mempool.block_number s = System_number rt -> mempool_at (store s rt) = s.
Proof. intros E1 E2. destruct s. cbn in *. by subst. Qed.

Lemma load_store_pow (s : @PowState (@EmissionState C)) rt :
  QuantumPow.events s = [] -> QuantumPow.block_number s = System_number rt -> parent_hash s = System_parent_hash rt ->
  Emission.events (QuantumPow.world s) = [] -> pow_at (store s rt) = s.
Proof. intros E1 E2 E3 E4. destruct s as [? ? ? ? ? ? ? ? ? ? ? ? ? ? ? ? ? ? [] ?]. cbn in *. by subst. Qed.

(** A storage an upgrade can start from: the Revive account exists or can be
    created, the plain spec is in place unless the mempool is wiped, and the
    proof of work's data is of its version and carried over. *)
Record upgrade_input u : Prop := {
  ur_revive : revive_reached u \/ total_issuance (Balances (chain u)) + Params.EXISTENTIAL_DEPOSIT < 2 ^ 128;
  ur_offences : OffencesVersion u = 0 \/ OffencesVersion u = 1;
  ur_spec : 2 <= MempoolVersion u -> is_Some (JobSpecs (RtMempool (chain u)) !! default_ising_spec_id mempool_cfg);
  ur_pow : 2 <= PowVersion u <= POW_STORAGE_VERSION;
  ur_layout : map_Forall (fun _ q => layout_of (PowVersion u) q) (RawQBlocks u);
  ur_streak : PowVersion u = POW_STORAGE_VERSION -> WinnerStreak u = false;
  ur_version : EmissionVersion u <= VERSION
}.

(** It is ready when the pallets' state checks pass too. *)
Record upgrade_ready u : Prop := {
  ur_input : upgrade_input u;
  ur_emission : emission_try_state runtime_emission_config (emission_at (chain u)) = Ok tt;
  ur_admission : admission_ok (chain u)
}.

Context `{!SpArithmeticLaws, !MempoolPrimsLaws}.

Lemma migrate_records_frame records (c : C) :
  let c' := foldl (migrate_record decode_descriptor) c records in
  total_issuance c' = total_issuance c /\ forall x, account_exists c' x = account_exists c x.
Proof.
  cbv zeta. revert c. induction records as [|[who raw] records IH]; intros c; [done|]. cbn [foldl].
  assert (total_issuance (migrate_record decode_descriptor c (who, raw)) = total_issuance c /\
    forall x, account_exists (migrate_record decode_descriptor c (who, raw)) x = account_exists c x) as [Ei Ex].
  { unfold migrate_record. cbn. destruct (decode_descriptor raw); [|done]. split; [apply unreserve_issuance|]. intros x. apply unreserve_exists. }
  destruct (IH (migrate_record decode_descriptor c (who, raw))) as [-> He]. split; [done|]. intros x. by rewrite He.
Qed.

Lemma registry_passes u : upgrade_ready u -> exists u', try_step u MigrateToV2_step = Ok u' /\ upgrade_ready u'.
Proof.
  intros [[] ur_emission0 ur_admission0]. unfold try_step. cbn. unfold migrate_registry, MigrateToV2. destruct (RegistryVersion u =? 1) eqn:Hv; cbn.
  - eexists. split; [done|].
    destruct (migrate_records_frame (RawDescriptors u) (Balances (chain u))) as [Ei Ex].
    (split; [split|..]); cbn; try done. unfold revive_reached. cbn. rewrite Ex, Ei. done.
  - eexists. split; [done|]. (split; [split|..]); done.
Qed.

Lemma revive_passes u : upgrade_ready u -> exists u', try_step u InitializeReviveAccount = Ok u' /\ upgrade_ready u'.
Proof.
  intros [[] ur_emission0 ur_admission0]. unfold try_step. cbn. unfold migrate_revive, initialize_revive_account.
  destruct (account_exists (Balances (chain u)) revive_account) eqn:He; cbn.
  - eexists. split; [done|]. (split; [split|..]); done.
  - destruct ur_revive0 as [Hr|Hi]; [unfold revive_reached in Hr; congruence|].
    destruct (mint_succeeds _ revive_account Hi) as [c Hc]. rewrite Hc. cbn. eexists. split; [done|]. (split; [split|..]); cbn; try done.
    left. unfold revive_reached. cbn. by eapply mint_creates; [exact He| |exact Hc].
Qed.

Lemma offences_passes u : upgrade_ready u -> exists u', try_step u InitializeOffences = Ok u' /\ upgrade_ready u'.
Proof.
  intros [[] ur_emission0 ur_admission0]. unfold try_step. cbn. rewrite (proj2 (offences_checked _)) by done. cbn. eexists. split; [done|]. (split; [split|..]); cbn; try done.
  unfold initialize_offences. destruct (_ =? 0); [by right|done].
Qed.

Lemma limits_passes u : upgrade_ready u -> exists u', try_step u InitializeStakingLimits = Ok u' /\ upgrade_ready u'.
Proof.
  intros [[] ur_emission0 ur_admission0]. unfold try_step. cbn. rewrite staking_limits_checked. cbn. eexists. split; [done|]. (split; [split|..]); done.
Qed.

Lemma runtime_seeds_plain_spec rt : @vm_validate_programs (runtime_vm rt) None None = Ok tt.
Proof. done. Qed.

Lemma mempool_passes u : upgrade_ready u -> exists u', try_step u QuantumComputeMempool = Ok u' /\ upgrade_ready u'.
Proof.
  intros [[] ur_emission0 ur_admission0]. unfold try_step. cbn [pre run post QuantumComputeMempool rbind].
  set (v := MempoolVersion u). set (s := mempool_at (chain u)).
  assert (if v <? 2 then @vm_validate_programs (runtime_vm (chain u)) None None = Ok tt
          else is_Some (JobSpecs s !! default_ising_spec_id mempool_cfg)) as Hspec.
  { destruct (v <? 2) eqn:Hv; bool_to_prop; [apply runtime_seeds_plain_spec|]. by apply ur_spec0. }
  pose proof (@mempool_upgrade_checked (runtime_vm (chain u)) _ C mempool_cfg _ v s Hspec) as Hpost. cbv zeta in Hpost.
  destruct (mempool_upgrade_frame (runtime_vm (chain u)) mempool_cfg v s) as (Ew & Ee & En).
  destruct (upgrade_mempool_touches u) as (m & Em).
  assert (mempool_at (chain (upgrade_mempool u)) = (@Mempool.on_runtime_upgrade (runtime_vm (chain u)) _ C mempool_cfg v s).2) as El.
  { unfold upgrade_mempool. cbn [chain]. by apply load_store_mempool. }
  rewrite El. change (MempoolVersion (upgrade_mempool u)) with (@Mempool.on_runtime_upgrade (runtime_vm (chain u)) _ C mempool_cfg v s).1.
  rewrite Hpost. cbn [rbind]. eexists. split; [done|]. (split; [split|..]); rewrite ?Em; try done.
  - unfold revive_reached in *. by rewrite Em.
  - intros _. unfold mempool_post_upgrade in Hpost. hinv. rewrite <- Em.
    match goal with Hs : JobSpecs _ !! _ = Some _ |- _ => rewrite <- El in Hs; cbn in Hs |- * end. eauto.
Qed.

(** The upgrade leaves every stored qblock in the current layout. *)
Lemma pow_upgrade_layout {W} version (u : @Upgrading W) :
  2 <= version <= POW_STORAGE_VERSION -> map_Forall (fun _ q => layout_of version q) (raw_qblocks u) ->
  map_Forall (fun _ q => layout_of POW_STORAGE_VERSION q) (raw_qblocks (pow_runtime_upgrade version u).2).
Proof.
  unfold POW_STORAGE_VERSION. intros Hv Hlay.
  assert (version = 2 \/ version = 3 \/ version = 4 \/ version = 5 \/ version = 6) as [->|[->|[->|[->| ->]]]] by lia;
    unfold pow_runtime_upgrade; cbn; unfold translate; try done; intros n q; rewrite ?lookup_fmap;
    try (intros (x & Hx & ->)%fmap_Some; specialize (Hlay n x Hx); destruct x; cbn in *; lia).
  intros Hq. specialize (Hlay n q Hq). destruct q; cbn in *; lia.
Qed.

Lemma current_layout_read default_topology (m : gmap BlockNumber StoredQBlock) :
  map_Forall (fun _ q => layout_of POW_STORAGE_VERSION q) m -> omap decode_v5 m = meaning default_topology <$> m.
Proof.
  intros Hlay. apply map_eq. intros n. rewrite lookup_omap, lookup_fmap. destruct (m !! n) as [q|] eqn:Hq; [|done].
  specialize (Hlay n q Hq). unfold POW_STORAGE_VERSION in Hlay. destruct q; cbn in *; [lia|lia|done].
Qed.

(** At the current version nothing happens, and the check passes. *)
Lemma pow_current_checked {W} (u : @Upgrading W) :
  map_Forall (fun _ q => layout_of POW_STORAGE_VERSION q) (raw_qblocks u) -> winner_streak u = false ->
  pow_post_upgrade (pow_pre_upgrade POW_STORAGE_VERSION u) POW_STORAGE_VERSION u = Ok tt.
Proof.
  intros Hlay Hs. unfold pow_post_upgrade, pow_pre_upgrade. rewrite Z.leb_refl, Hs. cbn [negb ensure rbind].
  cbn. rewrite (current_layout_read 0 _ Hlay), map_size_fmap, Z.eqb_refl. done.
Qed.

(** The new runtime reads every qblock the old one had. *)
Lemma pow_upgrade_reads {W} version (u : @Upgrading W) :
  2 <= version <= POW_STORAGE_VERSION -> map_Forall (fun _ q => layout_of version q) (raw_qblocks u) ->
  omap decode_v5 (raw_qblocks (pow_runtime_upgrade version u).2) =
    meaning (default 0 (DefaultTopology (items u))) <$> raw_qblocks u.
Proof.
  intros Hv Hlay. destruct (decide (version = POW_STORAGE_VERSION)) as [->|Hne]; [by apply current_layout_read|].
  by apply (upgrade_keeps_history version u); [lia|].
Qed.

(** The outcome of the check on any chain up to the current version. *)
Lemma pow_check_exact {W} on_chain (u : @Upgrading W) :
  on_chain <= POW_STORAGE_VERSION -> (2 <= on_chain -> map_Forall (fun _ q => layout_of on_chain q) (raw_qblocks u)) ->
  (on_chain = POW_STORAGE_VERSION -> winner_streak u = false) ->
  let r := pow_runtime_upgrade on_chain u in
  pow_post_upgrade (pow_pre_upgrade on_chain u) r.1 r.2 =
    if decide (2 <= on_chain \/ raw_qblocks u = ∅) then Ok tt else Err QBlocksNotPreserved.
Proof.
  intros Hv Hlay Hs. cbv zeta. destruct (decide (on_chain = POW_STORAGE_VERSION)) as [->|Hne].
  { rewrite decide_True by (by left). unfold pow_runtime_upgrade. rewrite Z.leb_refl. apply pow_current_checked; auto. by apply Hlay. }
  destruct (decide (2 <= on_chain)) as [Hge|Hge].
  { rewrite decide_True by auto. apply pow_upgrade_checked; [lia|auto]. }
  case_decide as Hd; [|apply pow_wipe_fails_check; [lia|]].
  - destruct Hd as [?|Hd]; [done|]. apply pow_empty_wipe_passes; [lia|done].
  - assert (size (raw_qblocks u) <> 0%nat) as Hz by (intros ?%map_size_empty_iff; auto). lia.
Qed.

Lemma pow_passes u : upgrade_ready u -> exists u', try_step u QuantumPow_step = Ok u' /\ upgrade_ready u'.
Proof.
  intros [[] ur_emission0 ur_admission0]. unfold try_step. cbn [pre run post QuantumPow_step rbind].
  set (r := pow_runtime_upgrade (PowVersion u) (pow_storage u)).
  destruct (pow_upgrade_frame (PowVersion u) (pow_storage u)) as (Ew & Ee & En & Eh & _). fold r in Ew, Ee, En, Eh.
  assert (pow_storage (upgrade_pow u) = r.2) as El.
  { transitivity (mkUpgrading (items r.2) (raw_qblocks r.2) (old_difficulty r.2) (winner_streak r.2)); [|by destruct r.2].
    unfold pow_storage at 1. f_equal. apply (load_store_pow (items r.2) (chain u)); [done..|by rewrite Ew]. }
  assert (r.1 = POW_STORAGE_VERSION /\ winner_streak r.2 = false) as [Ev Es].
  { subst r. unfold pow_runtime_upgrade. destruct (_ <=? PowVersion u) eqn:Hv; bool_to_prop; [|done].
    assert (PowVersion u = POW_STORAGE_VERSION) by lia. auto. }
  rewrite El. change (PowVersion (upgrade_pow u)) with r.1.
  assert (pow_post_upgrade (pow_pre_upgrade (PowVersion u) (pow_storage u)) r.1 r.2 = Ok tt) as ->.
  { destruct (decide (PowVersion u = POW_STORAGE_VERSION)) as [E|Hne]; [|apply pow_upgrade_checked; [lia|done]].
    subst r. unfold pow_runtime_upgrade. rewrite E, Z.leb_refl. rewrite E in ur_layout0. apply pow_current_checked; auto. }
  cbn [rbind]. eexists. split; [done|]. destruct (upgrade_pow_touches u) as (p & Ep & _). (split; [split|..]); rewrite ?Ep; try done.
  - unfold revive_reached in *. by rewrite Ep.
  - change (PowVersion (upgrade_pow u)) with r.1. rewrite Ev. done.
  - change (PowVersion (upgrade_pow u)) with r.1. change (RawQBlocks (upgrade_pow u)) with (raw_qblocks r.2). rewrite Ev.
    by apply pow_upgrade_layout.
Qed.

Lemma faucet_passes u : upgrade_ready u -> exists u', try_step u FaucetOps = Ok u' /\ upgrade_ready u'.
Proof.
  intros [[] ur_emission0 ur_admission0]. unfold try_step. cbn [pre run post FaucetOps rbind].
  assert (faucet_post_upgrade (faucet_pre_upgrade (FaucetStateStored u) (faucet_at (chain u))) (faucet_at (chain (upgrade_faucet u))) = Ok tt) as ->.
  { rewrite <- (faucet_upgrade_checked (FaucetStateStored u) (faucet_at (chain u))). unfold faucet_post_upgrade. done. }
  cbn [rbind]. eexists. split; [done|]. destruct (upgrade_faucet_touches u) as (st & a & v & Ef). (split; [split|..]); rewrite ?Ef; try done.
  unfold revive_reached in *. by rewrite Ef.
Qed.

(** Issuance that passed the check is a [u128], so the rebase is computable. *)
Lemma checked_issued (s : @EmissionState C) :
  emission_try_state runtime_emission_config s = Ok tt -> 0 <= ScheduledIssued s < 2 ^ 128.
Proof.
  unfold emission_try_state. intros Hok. hinv. bool_to_prop.
  match goal with Hf : rfold _ _ _ = Ok ?total, E : ?total = ScheduledIssued s |- _ =>
    rewrite <- E; revert Hf end. clear.
  intros Hf. eapply (rfold_Ok_ind _ (fun total => 0 <= total < 2 ^ 128)); [|done|exact Hf].
  intros acc r acc' _ _. cbn. destruct (checked_u _ _) as [y|] eqn:Hc; [|done]. intros [= <-].
  apply checked_u_Some in Hc as [-> Hc]. exact Hc.
Qed.

Lemma rebase_computable now (s : @EmissionState C) :
  0 <= ScheduledIssued s < 2 ^ 128 -> is_Some (rebased_start runtime_emission_config now s).
Proof.
  intros Hi. unfold rebased_start. destruct (StartAt s) as [start|]; [|done]. destruct (_ || _); [done|].
  rewrite mul_rational_down_spec by (done || lia).
  assert (checked_u 128 (ScheduledIssued s * YEAR_SECONDS / AnnualEmission runtime_emission_config) =
    Some (ScheduledIssued s * YEAR_SECONDS / AnnualEmission runtime_emission_config)) as ->; [|done].
  apply checked_u_Some. split; [done|]. unfold in_u.
  assert (0 < AnnualEmission runtime_emission_config) as Ha by done.
  assert (YEAR_SECONDS <= AnnualEmission runtime_emission_config) as Hy by done.
  split; [apply Z.div_pos; [|done]; apply Z.mul_nonneg_nonneg; [lia|done]|].
  apply Z.div_lt_upper_bound; [done|]. nia.
Qed.

Lemma emission_passes u : upgrade_ready u -> exists u', try_step u EmissionController = Ok u' /\ upgrade_ready u'.
Proof.
  intros [[] ur_emission0 ur_admission0]. unfold try_step. cbn [pre run post EmissionController rbind].
  set (now := Timestamp_now (chain u) / 1000). set (s := emission_at (chain u)).
  destruct (rebase_computable now s (checked_issued s ur_emission0)) as [start Hs].
  assert (exists noted, emission_pre_upgrade runtime_emission_config now (EmissionVersion u) s = Ok noted) as [noted Hn].
  { unfold emission_pre_upgrade. fold s in ur_emission0. rewrite ur_emission0. cbn [rbind]. rewrite Hs. destruct (_ <? _); cbn; eauto. }
  pose proof (emission_upgrade_checked runtime_emission_config now (EmissionVersion u) s noted ur_version0 Hn) as Hpost. cbv zeta in Hpost.
  rewrite Hn. cbn [rbind]. set (r := Emission.on_runtime_upgrade runtime_emission_config now (EmissionVersion u) s) in *.
  assert (Emission.events r.2 = []) as Ee.
  { subst r. unfold Emission.on_runtime_upgrade. destruct (_ <=? _); [done|]. by rewrite Hs. }
  assert (emission_at (chain (upgrade_emission u)) = r.2) as El by (by apply (load_store_emission r.2 (chain u))).
  rewrite El. change (EmissionVersion (upgrade_emission u)) with r.1. rewrite Hpost. cbn [rbind]. eexists. split; [done|].
  destruct (upgrade_emission_touches u) as (st & Eu & _). (split; [split|..]); rewrite ?El; try done; try (rewrite Eu; done).
  - unfold revive_reached in *. by rewrite Eu.
  - change (EmissionVersion (upgrade_emission u)) with r.1. subst r. unfold Emission.on_runtime_upgrade.
    destruct (VERSION <=? EmissionVersion u); [done|]. by rewrite Hs.
  - unfold emission_post_upgrade in Hpost. destruct noted as [[[? ?] ?] ?]. hinv. done.
Qed.

(** On a storage that is ready every check of every step passes, and the
    upgrade is the one without the checks. *)
Lemma upgrade_passes u : upgrade_ready u ->
  exists u', try_runtime_upgrade u = Ok u' /\ execute_on_runtime_upgrade u = Ok u' /\ upgrade_ready u'.
Proof.
  intros Hready. destruct (rfold_total try_step upgrade_ready upgrade_steps u) as (u' & Hrun & Hr); [|done|].
  - intros v s Hs Hv. unfold upgrade_steps, Migrations, SingleBlockMigrations, AllPallets in Hs. cbn [app] in Hs.
    rewrite !elem_of_cons in Hs. destruct Hs as [->|[->|[->|[->|[->|[->|[->|[->|[]%not_elem_of_nil]]]]]]]];
      eauto using registry_passes, revive_passes, offences_passes, limits_passes, mempool_passes, pow_passes, faucet_passes, emission_passes.
  - exists u'. split_and!; [|by apply try_all_runs|done]. unfold try_runtime_upgrade, try_all. rewrite Hrun. cbn [rbind].
    rewrite (ur_emission _ Hr). destruct (ur_admission _ Hr) as [Hb Hm]. unfold admission_try_state. cbn.
    rewrite (proj2 (Z.leb_le _ _)), bool_decide_false by done. done.
Qed.

(** ** The invariants across the upgrade *)

Context (program_hash : list Z -> H256).
#[local] Abbreviation inv := (runtime_inv program_hash).

(** The invariant reads a runtime through its pallets. *)
Definition same_view rt rt' : Prop :=
  mempool_at rt' = mempool_at rt /\ emission_at rt' = emission_at rt /\
  load (P := @XqvmState C) rt' = load rt /\ load (P := @SlashState S) rt' = load rt /\
  Miners (RtPow rt') = Miners (RtPow rt) /\ NodeDescriptors (RtRegistry rt') = NodeDescriptors (RtRegistry rt) /\
  (Timestamp_now rt', RtApproved rt', RtAdmissionMode rt') = (Timestamp_now rt, RtApproved rt, RtAdmissionMode rt).

Lemma same_view_inv K rt rt' b sr si : same_view rt rt' -> inv K (mkNode rt b sr si) -> inv K (mkNode rt' b sr si).
Proof.
  intros (E1 & E2 & E3 & E4 & E5 & E6 & E7) []. injection E7 as E7 E8 E9. cbn [node_rt sdk_reserved sdk_issued] in *.
  assert (Balances rt' = Balances rt) as E by exact (f_equal Emission.world E2).
  split; cbn [node_rt sdk_reserved sdk_issued]; unfold claims, deposited, described, clock, admission_ok in *;
    rewrite ?E1, ?E2, ?E3, ?E4, ?E5, ?E6, ?E7, ?E8, ?E9, ?E; done.
Qed.

(** What the account costs. *)
Definition revive_cost u : Balance :=
  if account_exists (Balances (chain u)) revive_account then 0 else Params.EXISTENTIAL_DEPOSIT.

(** The current layout adds fields behind those of the old one: what decodes in
    the current layout decodes in the old one, to the same deposit. *)
Context (layout_extends : forall raw d, decode_descriptor raw = Some d ->
  exists d', decode_old raw = Some d' /\ MinerRegistry.deposit d' = MinerRegistry.deposit d).

Lemma stored_described u who :
  described who (RtRegistry (before u)) =
  match list_to_map (M := gmap AccountId Raw) (RawDescriptors u) !! who with
  | Some raw => seen_deposit (stored_descriptor u) raw
  | None => 0
  end.
Proof.
  unfold described, seen_deposit. cbn. rewrite lookup_omap. destruct (list_to_map _ !! who) as [raw|]; [|done]. cbn. by destruct (stored_descriptor u raw).
Qed.

(** The migration never releases more than what a record stood for. *)
Lemma seen_stored u raw :
  0 <= seen_deposit (stored_descriptor u) raw ->
  0 <= seen_deposit decode_descriptor raw <= seen_deposit (stored_descriptor u) raw.
Proof.
  unfold seen_deposit, stored_descriptor. destruct (decode_descriptor raw) as [d|] eqn:Hd; [|simpl; lia].
  case_match; [|simpl in *; lia]. destruct (layout_extends raw d Hd) as (d' & -> & E). simpl. lia.
Qed.

Lemma migrate_on_hold records (c : C) x : on_hold (foldl (migrate_record decode_descriptor) c records) x = on_hold c x.
Proof.
  revert c. induction records as [|[who raw] records IH]; intros c; [done|]. cbn [foldl]. rewrite IH. unfold migrate_record. cbn.
  destruct (decode_descriptor raw); [apply unreserve_on_hold|done].
Qed.

(** What the registry's migration gives back of an account's reserve. *)
Definition released u (who : AccountId) : Balance :=
  if RegistryVersion u =? 1
  then default 0 (seen_deposit decode_descriptor <$> list_to_map (M := gmap AccountId Raw) (RawDescriptors u) !! who) else 0.

(** Draining the registry drops every claim and releases those it can read. *)
Lemma migrate_registry_inv K u u' b sr si :
  NoDup (RawDescriptors u).*1 -> inv K (mkNode (before u) b sr si) -> migrate_registry u = Ok u' ->
  inv K (mkNode (visible u') b sr si) /\
  (forall x, reserved_balance (Balances (chain u')) x = reserved_balance (Balances (chain u)) x - released u x).
Proof.
  intros Hnd Hinv. unfold migrate_registry, MigrateToV2, released. destruct (RegistryVersion u =? 1) eqn:Hv; cbn [InnerMigrateToV2].
  2:{ intros [= <-]. split; [|intros x; cbn; lia]. eapply same_view_inv; [|exact Hinv]. unfold same_view, visible, before. cbn.
      split_and!; try done. apply map_eq. intros n. rewrite !lookup_omap. unfold stored_descriptor. by rewrite Hv. }
  intros [= <-].
  assert (forall who raw, (who, raw) ∈ RawDescriptors u ->
    0 <= seen_deposit decode_descriptor raw <= reserved_balance (Balances (chain u)) who /\
    seen_deposit decode_descriptor raw <= seen_deposit (stored_descriptor u) raw) as Hseen.
  { intros who raw Hin. pose proof (reserves_cover _ K _ who Hinv) as Hc. pose proof (shares_cover _ K _ who Hinv) as (P1 & P2 & P3 & P4 & P5).
    cbn [node_rt sdk_reserved] in *. unfold claims in Hc. rewrite stored_described in Hc, P3.
    rewrite (proj1 (elem_of_list_to_map _ _ _ Hnd) Hin) in Hc, P3. pose proof (seen_stored u raw P3). cbn in *. lia. }
  destruct (migration_exact decode_descriptor (RawDescriptors u) (Balances (chain u)) Hnd (fun who raw Hin => proj1 (Hseen who raw Hin))) as [_ Hex]. cbn in Hex.
  destruct (migrate_records_frame (RawDescriptors u) (Balances (chain u))) as [Ei _].
  split; [|intros x; cbn; specialize (Hex x); destruct (list_to_map (RawDescriptors u) !! x); destruct Hex as [-> _]; cbn; lia].
  eapply (runtime_inv_covered builder program_hash K (before u)); try done; try apply Hinv.
  - cbn. by rewrite Ei.
  - intros x. unfold claims, deposited. rewrite stored_described.
    match goal with |- context [described x (RtRegistry ?rt')] => assert (described x (RtRegistry rt') = 0) as -> by (unfold described; cbn; by rewrite omap_empty, lookup_empty) end.
    cbn. rewrite migrate_on_hold. specialize (Hex x).
    destruct (list_to_map (RawDescriptors u) !! x) as [raw|] eqn:Hx; destruct Hex as [-> _]; [|lia].
    apply elem_of_list_to_map_2 in Hx. destruct (Hseen x raw Hx). lia.
  - eapply xqvm_inv_frame; [| |apply Hinv]; [done|]. intros x. cbn. by rewrite migrate_on_hold.
Qed.

Lemma migrate_revive_inv K u u' b sr si :
  inv K (mkNode (visible u) b sr si) -> migrate_revive u = Ok u' ->
  inv K (mkNode (visible u') b sr (si + revive_cost u)) /\
  total_issuance (Balances (chain u')) = total_issuance (Balances (chain u)) + revive_cost u /\
  (forall x, reserved_balance (Balances (chain u')) x = reserved_balance (Balances (chain u)) x).
Proof.
  intros Hinv. unfold migrate_revive, initialize_revive_account, revive_cost.
  destruct (account_exists (Balances (chain u)) revive_account); cbn.
  { intros [= <-]. rewrite !Z.add_0_r. split; [|done]. eapply same_view_inv; [|exact Hinv]. done. }
  destruct (mint_into _ _ _) as [c|] eqn:Hm; cbn; [|done]. intros [= <-].
  split; [|split; [by apply mint_issuance in Hm|intros x; exact (mint_reserved _ _ _ _ x Hm)]].
  destruct (runtime_inv_keeps builder program_hash K (visible u) (visible (u <| chain $= fun rt => rt <| Balances := c |> |>))
    b b sr sr si (si + Params.EXISTENTIAL_DEPOSIT)) as [Hinv' _]; try done; try apply Hinv.
  - cbn. rewrite (mint_issuance _ _ _ _ Hm). lia.
  - intros x. unfold claims. cbn. by rewrite (mint_reserved _ _ _ _ x Hm), (mint_on_hold _ _ _ _ x Hm).
  - eapply xqvm_inv_frame; [| |apply Hinv]; [done|]. intros x. cbn. exact (mint_on_hold _ _ _ _ x Hm).
Qed.

Lemma hooks_same_view u :
  (3 <= MempoolVersion u -> same_view (visible u) (visible (upgrade_mempool u))) /\
  (2 <= PowVersion u -> same_view (visible u) (visible (upgrade_pow u))) /\
  same_view (visible u) (visible (upgrade_faucet u)) /\
  (VERSION <= EmissionVersion u -> same_view (visible u) (visible (upgrade_emission u))).
Proof.
  split_and!.
  - intros Hv. destruct (mempool_upgrade_frame (runtime_vm (chain u)) mempool_cfg (MempoolVersion u) (mempool_at (chain u))) as (Ew & Ee & _).
    destruct (upgrade_mempool_touches u) as (m & Em). 
    assert ((@Mempool.on_runtime_upgrade (runtime_vm (chain u)) _ C mempool_cfg (MempoolVersion u) (mempool_at (chain u))).2 = mempool_at (chain u)) as Es.
    { unfold Mempool.on_runtime_upgrade. destruct (_ <=? MempoolVersion u); [done|].
      by rewrite (proj2 (Z.ltb_ge _ 2)), (proj2 (Z.ltb_ge _ 3)) by lia. }
    unfold same_view, visible, upgrade_mempool. cbv zeta. rewrite Es. done.
  - intros Hv. destruct (upgrade_pow_touches u) as (p & Ep & Em). unfold same_view, visible. rewrite Ep. cbn. rewrite (Em Hv). done.
  - destruct (upgrade_faucet_touches u) as (st & a & v & Ef). unfold same_view, visible. rewrite Ef. done.
  - intros Hv. destruct (upgrade_emission_touches u) as (st & Ee & Es). unfold same_view, visible. rewrite Ee, (Es Hv). done.
Qed.

(** An upgrade of a chain whose mempool and emission controller keep their data
    keeps the invariant, and issues the Revive account's deposit at most. *)
Lemma upgrade_keeps_inv K u u' b sr si :
  NoDup (RawDescriptors u).*1 -> 3 <= MempoolVersion u -> 2 <= PowVersion u -> VERSION <= EmissionVersion u ->
  inv K (mkNode (before u) b sr si) -> execute_on_runtime_upgrade u = Ok u' ->
  inv K (mkNode (visible u') b sr (si + revive_cost u)) /\
  total_issuance (Balances (chain u')) = total_issuance (Balances (chain u)) + revive_cost u /\
  (forall x, reserved_balance (Balances (chain u')) x = reserved_balance (Balances (chain u)) x - released u x).
Proof.
  intros Hnd Hm Hp He Hinv Hrun. unfold execute_on_runtime_upgrade, run_all, upgrade_steps in Hrun.
  cbn [Migrations SingleBlockMigrations AllPallets app rfold run MigrateToV2_step InitializeReviveAccount InitializeOffences
    InitializeStakingLimits QuantumComputeMempool QuantumPow_step FaucetOps EmissionController rbind] in Hrun.
  apply rbind_Ok_inv in Hrun as (u1 & H1' & Hrun). apply rbind_Ok_inv in Hrun as (u2 & H2' & Hrun). injection Hrun as <-.
  destruct (migrate_registry_inv K u u1 b sr si Hnd Hinv H1') as [Hinv1 Hr1].
  destruct (migrate_revive_inv K u1 u2 b sr si Hinv1 H2') as (Hinv2 & Hi & Hr2).
  assert (revive_cost u1 = revive_cost u /\ total_issuance (Balances (chain u1)) = total_issuance (Balances (chain u)) /\
    MempoolVersion u2 = MempoolVersion u /\ PowVersion u2 = PowVersion u /\ EmissionVersion u2 = EmissionVersion u) as (Ec & Ei & Em & Ep & Ee).
  { assert (MempoolVersion u1 = MempoolVersion u /\ PowVersion u1 = PowVersion u /\ EmissionVersion u1 = EmissionVersion u) as (<- & <- & <-).
    { unfold migrate_registry in H1'. destruct (MigrateToV2 _ _ _ _) as [[? ?] ?]. by injection H1' as <-. }
    split_and!; [| |unfold migrate_revive in H2'; by hinv..];
      unfold migrate_registry, MigrateToV2 in H1'; destruct (RegistryVersion u =? 1); injection H1' as <-; try done;
      destruct (migrate_records_frame (RawDescriptors u) (Balances (chain u))) as [Er Ex];
      [unfold revive_cost; cbn; by rewrite Ex|exact Er]. }
  rewrite Ec in *. rewrite Ei in Hi. clear Hinv Hinv1 H1' H2'.
  set (u3 := u2 <| OffencesVersion $= initialize_offences |>) in *. set (u4 := u3 <| MaxNominatorsCount $= initialize_staking_limits |>) in *.
  set (u5 := upgrade_mempool u4). set (u6 := upgrade_pow u5). set (u7 := upgrade_faucet u6).
  assert (Balances (chain (upgrade_emission u7)) = Balances (chain u2)) as Eb.
  { rewrite (proj2 (proj2 (proj2 (hooks_keep_ledger u7)))). unfold u7, u6, u5.
    by rewrite (proj1 (proj2 (proj2 (hooks_keep_ledger _)))), (proj1 (proj2 (hooks_keep_ledger _))), (proj1 (hooks_keep_ledger _)). }
  rewrite Eb. split_and!; [|done|intros x; by rewrite Hr2, Hr1].
  - eapply same_view_inv; [apply (proj2 (proj2 (proj2 (hooks_same_view u7)))); by rewrite <- Ee in He|].
    eapply same_view_inv; [apply (proj1 (proj2 (proj2 (hooks_same_view u6))))|].
    eapply same_view_inv; [apply (proj1 (proj2 (hooks_same_view u5))); by rewrite <- Ep in Hp|].
    eapply same_view_inv; [apply (proj1 (hooks_same_view u4)); by rewrite <- Em in Hm|]. exact Hinv2.
Qed.

(** Nothing is left of an old registry. *)
Lemma upgrade_drains u u' :
  execute_on_runtime_upgrade u = Ok u' -> RegistryVersion u = 1 -> NodeDescriptors (RtRegistry (visible u')) = ∅.
Proof.
  intros Hrun Hv. unfold execute_on_runtime_upgrade, run_all, upgrade_steps in Hrun.
  cbn [Migrations SingleBlockMigrations AllPallets app rfold run MigrateToV2_step InitializeReviveAccount InitializeOffences
    InitializeStakingLimits QuantumComputeMempool QuantumPow_step FaucetOps EmissionController rbind] in Hrun.
  apply rbind_Ok_inv in Hrun as (u1 & H1' & Hrun). apply rbind_Ok_inv in Hrun as (u2 & H2' & Hrun). injection Hrun as <-.
  assert (RawDescriptors u2 = []) as E.
  { unfold migrate_revive in H2'. hinv. unfold migrate_registry, MigrateToV2 in H1'. rewrite Hv in H1'. by injection H1' as <-. }
  cbn. rewrite E. apply omap_empty.
Qed.

(** A registry at another version keeps its records. *)
Lemma upgrade_keeps_descriptors u u' :
  execute_on_runtime_upgrade u = Ok u' -> RegistryVersion u <> 1 ->
  NodeDescriptors (RtRegistry (visible u')) = NodeDescriptors (RtRegistry (before u)).
Proof.
  intros Hrun Hv. unfold execute_on_runtime_upgrade, run_all, upgrade_steps in Hrun.
  cbn [Migrations SingleBlockMigrations AllPallets app rfold run MigrateToV2_step InitializeReviveAccount InitializeOffences
    InitializeStakingLimits QuantumComputeMempool QuantumPow_step FaucetOps EmissionController rbind] in Hrun.
  apply rbind_Ok_inv in Hrun as (u1 & H1' & Hrun). apply rbind_Ok_inv in Hrun as (u2 & H2' & Hrun). injection Hrun as <-.
  assert (RawDescriptors u2 = RawDescriptors u) as E.
  { unfold migrate_revive in H2'. hinv. unfold migrate_registry, MigrateToV2 in H1'. rewrite (proj2 (Z.eqb_neq _ _) Hv) in H1'. by injection H1' as <-. }
  cbn. rewrite E. apply map_eq. intros n. rewrite !lookup_omap. unfold stored_descriptor. by rewrite (proj2 (Z.eqb_neq _ _) Hv).
Qed.

(** The new runtime reads the qblocks of the old one. *)
Lemma upgrade_keeps_qblocks u u' :
  execute_on_runtime_upgrade u = Ok u' -> 2 <= PowVersion u <= POW_STORAGE_VERSION ->
  map_Forall (fun _ q => layout_of (PowVersion u) q) (RawQBlocks u) ->
  QBlocks (RtPow (visible u')) = QBlocks (RtPow (before u)).
Proof.
  intros Hrun Hv Hlay. unfold execute_on_runtime_upgrade, run_all, upgrade_steps in Hrun.
  cbn [Migrations SingleBlockMigrations AllPallets app rfold run MigrateToV2_step InitializeReviveAccount InitializeOffences
    InitializeStakingLimits QuantumComputeMempool QuantumPow_step FaucetOps EmissionController rbind] in Hrun.
  apply rbind_Ok_inv in Hrun as (u1 & H1' & Hrun). apply rbind_Ok_inv in Hrun as (u2 & H2' & Hrun). injection Hrun as <-.
  assert (PowVersion u2 = PowVersion u /\ RawQBlocks u2 = RawQBlocks u /\
    DefaultTopology (RtPow (chain u2)) = DefaultTopology (RtPow (chain u))) as (Ev & Er & Ed).
  { unfold migrate_revive in H2'. hinv. unfold migrate_registry in H1'. destruct (MigrateToV2 _ _ _ _) as [[? ?] ?]. by injection H1' as <-. }
  set (u4 := u2 <| OffencesVersion $= initialize_offences |> <| MaxNominatorsCount $= initialize_staking_limits |>) in *.
  destruct (upgrade_mempool_touches u4) as (m & Em).
  pose proof (pow_upgrade_reads (PowVersion u2) (pow_storage (upgrade_mempool u4))) as Hq. rewrite Ev in Hq.
  cbn [visible RtPow QBlocks] in *.
  transitivity (omap decode_v5 (raw_qblocks (pow_runtime_upgrade (PowVersion u) (pow_storage (upgrade_mempool u4))).2)).
  { cbn. by rewrite Ev. }
  rewrite Hq; [|done|cbn; by rewrite Er]. cbn. rewrite Er. f_equal. f_equal. f_equal. fold u4. rewrite <- Ed. 
  change (DefaultTopology (RtPow (chain (upgrade_mempool u4))) = DefaultTopology (RtPow (chain u2))). by rewrite Em.
Qed.
End Upgrade.
