(* ===== verification/RuntimeRefinement.v ===== *)
(** * The composed runtime refines its pallets

    Seen from the compute mempool or the proof of work, the composed chain is a
    chain of that pallet alone, in which the rest of the runtime moves balances.
    So the theorems about arbitrary runs of these pallets hold of the runtime. *)

From S2P Require Import Prelude Validation Frame RuntimeParams Weights Difficulty Ising QuantumPow QuantumPowProps MempoolCore Mempool MempoolProps MempoolSettlement MinerRegistry Template Emission StakingRewards Faucet SlashPolicy Admission Governance ElectionRound GenesisPresets Xqvm RuntimeConfig XqvmAdapter Runtime RuntimeProps.

Section Views.
Context `{UsizeWidth, DifficultyPrims, PowPrims} {R : Type} `{IsingPrims R}.
Context `{SpArithmetic, XqvmLib, MempoolPrims, EnsureProportion, PerbillTimes, DbWeight}.
Context {C : Type} `{Currency C, Issuance C, Holds C}.
Context {S : Type} `{StakingOps S}.
Context {M : Type} `{MultiBlock M}.
Context (pot : Z -> AccountId) (builder : AccountId).
Context (program_hash : list Z -> H256) (descriptor_hash : NodeDescriptorInput -> H256).
Context (dispatch_root : RuntimeCall -> @Runtime C S M -> @Runtime C S M * bool).
#[local] Abbreviation runtime := (@Runtime C S M).
#[local] Abbreviation node := (@Node C S M).
#[local] Abbreviation mempool_at := (load (P := @MempoolState C)).
#[local] Abbreviation pow_at := (load (P := @PowState (@EmissionState C))).
#[local] Abbreviation runtime_inv := (runtime_inv program_hash).
#[local] Abbreviation act := (act builder program_hash descriptor_hash dispatch_root).
#[local] Abbreviation node_step := (node_step pot builder program_hash descriptor_hash dispatch_root).
#[local] Instance reward_here : MiningReward (@EmissionState C) := runtime_reward pot.
Implicit Types rt : runtime.
Implicit Types x y : node.
Context `{!CurrencyLaws C, !IssuanceLaws C, !HoldsLaws C, !BalancesLaws C}.
Context `{!SpArithmeticLaws, !MempoolPrimsLaws, !StakingLaws S, !EnsureProportionLaws}.

(** ** The mempool *)

#[local] Abbreviation mp_step := (MempoolSettlement.step (runtime_mempool_config builder)).

Definition mempool_view x := (mempool_at (node_rt x), claims (sdk_reserved x) (node_rt x)).

(** From a pallet state that agrees with the node up to ledger and log. *)
Lemma mempool_reaches K y (s : @MempoolState C) others :
  runtime_inv K y -> mempool_at (node_rt y) = s <| Mempool.world := Balances (node_rt y) |> <| Mempool.events := [] |> ->
  (forall z, reserved_balance (Balances (node_rt y)) z - claims (sdk_reserved y) (node_rt y) z =
             reserved_balance (Mempool.world s) z - others z) ->
  mp_step (s, others) (mempool_view y).
Proof.
  intros Hinv E Hres. unfold mempool_view. rewrite E. apply MempoolSettlement.step_runtime; [|done].
  intros z. by eapply claims_nonneg.
Qed.

Lemma quiet_view K x y : runtime_inv K y -> quiet x y -> mp_step (mempool_view x) (mempool_view y).
Proof. intros Hinv (E1 & E2 & Hres). eapply mempool_reaches; [done| |exact Hres]. simpl. by rewrite E1, E2. Qed.

(** A call of the mempool, with the programs stored at that time. *)
Lemma mempool_call_view K x o c rt' :
  RuntimeProps.call_typed builder (MempoolCall c) -> NextOrderId (RtMempool (node_rt x)) + 1 < 2 ^ 64 ->
  dispatch_mempool builder o c (node_rt x) = Ok rt' -> runtime_inv K x -> runtime_inv K (x <| node_rt := rt' |>) ->
  rtc mp_step (mempool_view x) (mempool_view (x <| node_rt := rt' |>)).
Proof.
  intros Hty Hid (s' & Hs & ->)%run_in_Ok Hinv Hinv'.
  destruct (@mempool_moves C _ currency_move _ (runtime_vm (node_rt x)) _ _ _ _ _ _ Hs) as [Hh _]. simpl in Hh.
  assert (Mempool.block_number s' = System_number (node_rt x)) as Hn.
  { apply dispatch_counters in Hs as [Hb _]; [exact Hb|]. apply (rv_mempool _ _ _ Hinv). }
  eapply rtc_l; [eapply (MempoolSettlement.step_call _ (runtime_vm (node_rt x))); [exact Hid|exact Hty|exact Hs]|].
  apply rtc_once. eapply mempool_reaches; [exact Hinv'| |].
  - destruct s'. simpl in *. by rewrite Hn.
  - intros z. unfold claims. simpl. by rewrite Hh.
Qed.

Lemma act_mempool K x y : act x y -> runtime_inv K x -> rtc mp_step (mempool_view x) (mempool_view y).
Proof.
  intros Hact Hinv. destruct (act_effect pot builder program_hash descriptor_hash dispatch_root K x y Hact Hinv) as [Hinv' [Hq|(o & c & rt' & Hty & Hid & Hok & ->)]].
  - apply rtc_once. by eapply quiet_view.
  - by eapply mempool_call_view.
Qed.

Lemma acts_mempool K x y : rtc act x y -> runtime_inv K x -> rtc mp_step (mempool_view x) (mempool_view y).
Proof.
  induction 1 as [|x y z Hact _ IH]; intros Hinv; [done|]. etrans; [by eapply act_mempool|].
  apply IH. by eapply (act_keeps pot).
Qed.

Lemma mempool_block_view K rt rt' b sr si header :
  System_number rt + 2 < 2 ^ 32 -> runtime_inv K (mkNode rt b sr si) ->
  mempool_initialize (begin_block header rt) = Ok rt' -> runtime_inv K (mkNode rt' true sr si) ->
  rtc mp_step (mempool_view (mkNode rt b sr si)) (mempool_view (mkNode rt' true sr si)).
Proof.
  intros Hn Hinv (s' & Hs & ->)%run_in_Ok Hinv1.
  pose proof (rv_mempool _ _ _ Hinv) as [Hsched _ _ _ [Hb0 _] _]. cbn [fst node_rt] in Hsched, Hb0.
  destruct (on_initialize_sched (mempool_at rt) s' Hsched Hb0 ltac:(simpl; lia) Hs) as (_ & _ & _ & Heq).
  assert (Mempool.block_number s' = System_number rt + 1) as Hb by (simpl in *; congruence).
  assert (Mempool.world s' = Balances rt) as Hw by (simpl in *; congruence).
  apply rtc_l with (s', claims sr rt).
  - exact (MempoolSettlement.step_block _ (mempool_at rt) s' (claims sr rt) Hn Hs).
  - apply rtc_once. eapply mempool_reaches; [exact Hinv1|..]; clear - Hb Hw.
    + destruct s'. simpl in *. by rewrite Hb.
    + intros z. unfold claims. simpl. by rewrite Hw.
Qed.

Lemma initialize_mempool K rt rt' sr si header :
  System_number rt + 2 < 2 ^ 32 -> runtime_inv K (mkNode rt false sr si) -> initialize_block pot header rt = Ok rt' ->
  rtc mp_step (mempool_view (mkNode rt false sr si)) (mempool_view (mkNode rt' true sr si)).
Proof.
  intros Hn Hinv Hok. apply rbind_Ok_inv in Hok as (rt1 & Hok1 & [= <-]).
  pose proof (mempool_initialize_keeps builder _ _ _ _ _ true _ _ _ Hn Hinv Hok1) as Hinv1.
  pose proof (mempool_block_view _ _ _ _ _ _ _ Hn Hinv Hok1 Hinv1) as Hv1. clear Hok1.
  destruct (pow_initialize_keeps builder _ _ _ _ _ _ Hinv1) as [Hinv2 Hq2].
  destruct (emission_initialize_keeps pot builder _ _ _ _ _ _ Hinv2) as [Hinv3 Hq3].
  etrans; [exact Hv1|]. eapply rtc_l; [exact (quiet_view _ _ _ Hinv2 Hq2)|]. apply rtc_once.
  exact (quiet_view _ _ _ Hinv3 Hq3).
Qed.

Lemma node_step_mempool K x y : node_step x y -> runtime_inv K x -> rtc mp_step (mempool_view x) (mempool_view y).
Proof.
  intros Hstep Hinv. pose proof (node_step_keeps pot builder program_hash descriptor_hash dispatch_root K x y Hstep Hinv) as Hinv'.
  destruct Hstep as [rt rt' sr si header _ Hn Hok|rt sr si now Hnow|x y Hact|rt rt' sr sr' si si' o call Hok Hrun|rt sr si].
  - by eapply initialize_mempool.
  - apply rtc_once. eapply quiet_view; [exact Hinv'|]. done.
  - by eapply act_mempool.
  - apply root_dispatch_Ok in Hok as (_ & _ & evs & ->). etrans; [by eapply acts_mempool|].
    apply rtc_once. eapply quiet_view; [exact Hinv'|]. done.
  - apply rtc_once. eapply quiet_view; [exact Hinv'|]. by eapply (finalize_effect pot builder).
Qed.

(** ** The proof of work *)

#[local] Abbreviation pw_step := (QuantumPowProps.step (runtime_pow_config FoundationOrRoot)).

(** The pallet's chain inside a node, with the headers and accepted proofs it
    has seen. *)
Definition pow_view (hs : gmap Z (list Z)) (acc : list ProofRecord) x : @QuantumPowProps.chain (@EmissionState C) :=
  QuantumPowProps.mkChain (pow_at (node_rt x)) (in_block x) hs acc.

Lemma pow_reaches K y (s : @PowState (@EmissionState C)) hs acc :
  runtime_inv K y ->
  pow_at (node_rt y) = s <| QuantumPow.world := load (node_rt y) |> <| QuantumPow.events := [] |> ->
  pw_step (QuantumPowProps.mkChain s (in_block y) hs acc) (pow_view hs acc y).
Proof.
  intros Hinv E. unfold pow_view. rewrite E. apply QuantumPowProps.step_runtime. intros who.
  pose proof (reserves_cover _ _ _ who Hinv) as Hr. destruct (shares_cover _ _ _ who Hinv) as (H1' & H2' & H3' & H4' & H5').
  assert (deposited who s = deposited who (RtPow (node_rt y))) as Hd.
  { apply (f_equal Miners) in E. simpl in E. unfold deposited. by rewrite E. }
  unfold claims in Hr. simpl in *. lia.
Qed.

(** The proof of work's storage and its view of the system pallet. *)
Definition pow_same rt rt' : Prop :=
  RtPow rt' = RtPow rt /\ System_number rt' = System_number rt /\ System_parent_hash rt' = System_parent_hash rt.

Lemma pow_same_view K x y hs acc :
  runtime_inv K y -> in_block y = in_block x -> pow_same (node_rt x) (node_rt y) ->
  pw_step (pow_view hs acc x) (pow_view hs acc y).
Proof.
  intros Hinv Eb (E1 & E2 & E3). unfold pow_view at 1. rewrite <- Eb. eapply pow_reaches; [done|].
  simpl. by rewrite E1, E2, E3.
Qed.

Lemma pow_on_finalize_parent cfg n (s : @PowState (@EmissionState C)) :
  QuantumPow.parent_hash (QuantumPow.on_finalize cfg n s) = QuantumPow.parent_hash s.
Proof.
  unfold QuantumPow.on_finalize. destruct (BlockBestProof s); [|done]. destruct (pay _ _ _) as [w rw].
  unfold next_qblock_id. simpl. by case_match.
Qed.

(** What a step of the pallet leaves, stored and loaded again. *)
Lemma pow_stores rt (s : @PowState (@EmissionState C)) :
  QuantumPow.block_number s = System_number rt -> QuantumPow.parent_hash s = System_parent_hash rt ->
  pow_at (store s rt) = s <| QuantumPow.world := load (store s rt) |> <| QuantumPow.events := [] |>.
Proof. intros E1 E2. destruct s. simpl in *. by rewrite E1, E2. Qed.

Lemma act_pow K x y hs acc :
  act x y -> runtime_inv K x -> exists acc', rtc pw_step (pow_view hs acc x) (pow_view hs acc' y).
Proof.
  intros Hact Hinv. pose proof (act_keeps pot builder program_hash descriptor_hash dispatch_root K x y Hact Hinv) as Hinv'.
  assert (in_block y = in_block x -> pow_same (node_rt x) (node_rt y) ->
    exists acc', rtc pw_step (pow_view hs acc x) (pow_view hs acc' y)) as Hsame.
  { intros Eb Es. exists acc. apply rtc_once. by eapply pow_same_view. }
  destruct Hact as [rt rt' sr si o c Hty Hid Hok|rt b sr sr' si si' c st ch evs a a' Hsr' Hres Hh Hti Ha Ha' Hle]; [|by apply Hsame].
  destruct c as [c|c|c|c|c|c|c|c]; simpl in Hok;
    try (apply run_in_Ok in Hok as (s' & Hs & ->)); try (apply Hsame; [done|]; by clear).
  - exists (acc ++ accepted_by (runtime_pow_config FoundationOrRoot) o c (pow_at rt)).
    apply rtc_l with (QuantumPowProps.mkChain s' true hs (acc ++ accepted_by (runtime_pow_config FoundationOrRoot) o c (pow_at rt))).
    + replace s' with (apply_call (runtime_pow_config FoundationOrRoot) o c (pow_at rt)) by (unfold apply_call; by rewrite Hs).
      exact (QuantumPowProps.step_call _ (pow_at rt) hs acc o c Hty).
    + apply rtc_once. apply dispatch_round_fields in Hs. eapply (pow_reaches K (mkNode _ true sr si)); [exact Hinv'|].
      apply pow_stores; unfold round_fields in Hs; simpl in Hs; congruence.
  - apply Hsame; [done|]. destruct c as [who|who|mode|call]; [..|done]; apply run_in_Ok in Hok as (s' & _ & ->); by clear.
Qed.

Lemma acts_pow K x y hs acc :
  rtc act x y -> runtime_inv K x -> exists acc', rtc pw_step (pow_view hs acc x) (pow_view hs acc' y).
Proof.
  intros Hacts. revert acc. induction Hacts as [x|x y z Hact _ IH]; intros acc Hinv; [by exists acc|].
  destruct (act_pow K x y hs acc Hact Hinv) as [acc1 H1']. destruct (IH acc1) as [acc2 H2'].
  { by eapply (act_keeps pot). }
  exists acc2. by etrans.
Qed.

Lemma initialize_pow K rt rt' sr si header hs acc :
  length header = 32%nat -> System_number rt + 2 < 2 ^ 32 -> runtime_inv K (mkNode rt' true sr si) ->
  initialize_block pot header rt = Ok rt' ->
  rtc pw_step (pow_view hs acc (mkNode rt false sr si))
    (pow_view (<[System_number rt := header]> hs) [] (mkNode rt' true sr si)).
Proof.
  intros Hl Hn Hinv Hok. apply rbind_Ok_inv in Hok as (rt1 & (m & _ & ->)%run_in_Ok & [= <-]).
  eapply rtc_l; [apply QuantumPowProps.step_start; [exact Hl|simpl; lia]|].
  apply rtc_once. apply (pow_reaches K (mkNode _ true sr si)); [exact Hinv|]. clear Hinv. cbn [node_rt].
  unfold emission_initialize. set (e := Emission.on_initialize _ _ _ _). clearbody e.
  unfold pow_initialize, QuantumPow.on_initialize. simpl. by case_match.
Qed.

Lemma finalize_pow K rt sr si hs acc :
  runtime_inv K (mkNode (finalize_block pot rt) false sr si) ->
  rtc pw_step (pow_view hs acc (mkNode rt true sr si)) (pow_view hs acc (mkNode (finalize_block pot rt) false sr si)).
Proof.
  intros Hinv. eapply rtc_l; [exact (QuantumPowProps.step_finalize _ (pow_at rt) hs acc)|].
  apply rtc_once. apply (pow_reaches K (mkNode _ false sr si)); [exact Hinv|].
  apply pow_stores; [apply QuantumPowProps.on_finalize_block|apply pow_on_finalize_parent].
Qed.

Lemma node_step_pow K x y hs acc :
  node_step x y -> runtime_inv K x -> exists hs' acc', rtc pw_step (pow_view hs acc x) (pow_view hs' acc' y).
Proof.
  intros Hstep Hinv. pose proof (node_step_keeps pot builder program_hash descriptor_hash dispatch_root K x y Hstep Hinv) as Hinv'.
  destruct Hstep as [rt rt' sr si header Hl Hn Hok|rt sr si now Hnow|x y Hact|rt rt' sr sr' si si' o call Hok Hrun|rt sr si].
  - eexists _, _. by eapply initialize_pow.
  - exists hs, acc. apply rtc_once. by eapply pow_same_view; [exact Hinv'|..].
  - exists hs. by eapply act_pow.
  - apply root_dispatch_Ok in Hok as (_ & _ & evs & ->). destruct (acts_pow _ _ _ hs acc Hrun Hinv) as [acc' Hr].
    exists hs, acc'. eapply rtc_r; [exact Hr|]. by eapply pow_same_view; [exact Hinv'|..].
  - exists hs, acc. by eapply finalize_pow.
Qed.

(** ** Reachable nodes *)

Lemma node_run_inv rt x : runtime_genesis rt -> rtc node_step (genesis_node rt) x -> runtime_inv 0 x.
Proof.
  intros Hg%(genesis_keeps builder program_hash). induction 1 as [|x y z Hstep _ IH]; [done|].
  apply IH. by eapply node_step_keeps.
Qed.

Lemma mempool_steps_reachable p q :
  MempoolSettlement.reachable (runtime_mempool_config builder) p -> rtc mp_step p q ->
  MempoolSettlement.reachable (runtime_mempool_config builder) q.
Proof. intros Hp. induction 1 as [|x y z Hs _ IH]; [done|]. apply IH. by eapply MempoolSettlement.reach_step. Qed.

Lemma pow_steps_reachable p q :
  QuantumPowProps.reachable (runtime_pow_config FoundationOrRoot) p -> rtc pw_step p q ->
  QuantumPowProps.reachable (runtime_pow_config FoundationOrRoot) q.
Proof. intros Hp. induction 1 as [|x y z Hs _ IH]; [done|]. apply IH. by eapply QuantumPowProps.reach_step. Qed.

Lemma node_mempool_reachable rt x :
  runtime_genesis rt -> rtc node_step (genesis_node rt) x ->
  MempoolSettlement.reachable (runtime_mempool_config builder) (mempool_view x).
Proof.
  intros Hg Hx. eapply mempool_steps_reachable.
  { eapply MempoolSettlement.reach_step; [apply MempoolSettlement.reach_genesis, (rg_mempool _ Hg)|].
    eapply (mempool_reaches 0 (genesis_node rt)); [by apply (genesis_keeps builder)|done|].
    intros z. destruct Hg as [_ [_ Hmi] Hrg _ Hh _ _ _ _]. cbn [genesis_node node_rt sdk_reserved].
    unfold claims, deposited, described. rewrite Hmi, Hrg, !lookup_empty, Hh. simpl. lia. }
  remember (genesis_node rt) as g eqn:Eg. assert (runtime_inv 0 g) as Hinv by (subst; by apply (genesis_keeps builder)). clear Eg.
  induction Hx as [|x y z Hs _ IH]; [done|]. etrans; [by eapply node_step_mempool|]. apply IH. by eapply node_step_keeps.
Qed.

Lemma node_pow_reachable rt x :
  runtime_genesis rt -> rtc node_step (genesis_node rt) x ->
  exists hs acc, QuantumPowProps.reachable (runtime_pow_config FoundationOrRoot) (pow_view hs acc x).
Proof.
  intros Hg Hx. assert (runtime_inv 0 (genesis_node rt)) as Hinv by by apply (genesis_keeps builder).
  assert (exists hs acc, QuantumPowProps.reachable (runtime_pow_config FoundationOrRoot) (pow_view hs acc (genesis_node rt))) as Hr.
  { exists ∅, []. apply QuantumPowProps.reach_genesis, (rg_pow _ Hg). }
  clear Hg. induction Hx as [|x y z Hs _ IH]; [done|]. apply IH; [by eapply node_step_keeps|].
  destruct Hr as (hs & acc & Hr). destruct (node_step_pow _ _ _ hs acc Hs Hinv) as (hs' & acc' & Hst).
  exists hs', acc'. by eapply pow_steps_reachable.
Qed.

(** What every step of the pallet's chain keeps, the runtime keeps. *)
Lemma node_pow_keeps (P : @PowState (@EmissionState C) -> Prop) rt x :
  (forall a b, pw_step a b -> P (QuantumPowProps.st a) -> P (QuantumPowProps.st b)) ->
  runtime_genesis rt -> rtc node_step (genesis_node rt) x -> P (pow_at rt) -> P (pow_at (node_rt x)).
Proof.
  intros Hstep Hg Hx HP. assert (runtime_inv 0 (genesis_node rt)) as Hinv by by apply (genesis_keeps builder).
  assert (P (pow_at (node_rt (genesis_node rt)))) as HP' by exact HP. clear Hg HP.
  induction Hx as [|x y z Hs _ IH]; [done|]. apply IH; [by eapply node_step_keeps|].
  destruct (node_step_pow _ _ _ ∅ [] Hs Hinv) as (hs & acc & Hst).
  assert (forall a b, rtc pw_step a b -> P (QuantumPowProps.st a) -> P (QuantumPowProps.st b)) as Hrtc.
  { induction 1 as [|a b c Hab _ IHr]; [done|]. intros Ha. by eapply IHr, Hstep. }
  exact (Hrtc _ _ Hst HP').
Qed.
End Views.
