(* ===== verification/RuntimeOrigins.v ===== *)
(** * The origin matrix of the runtime

    Who may make which call of the repository's pallets, as one table, and that
    the handlers enforce exactly it: a call is refused with [BadOrigin] when and
    only when the table does not admit the origin. *)

From S2P Require Import Prelude Validation PuzzleSpec Packed Energy Diversity Frame RuntimeParams Weights Difficulty Ising QuantumPow QuantumPowProps MempoolCore Mempool MempoolProps MinerRegistry Template Emission StakingRewards Faucet SlashPolicy Admission Governance ElectionRound GenesisPresets Xqvm RuntimeConfig XqvmAdapter Runtime.

(** ** Code without origin checks *)

(** The computation may fail, but not because of who asked. *)
Definition unguarded {E A} (m : result (DispatchError E) A) : Prop := m <> Err BadOrigin.

Lemma unguarded_bind {E A B} (m : result (DispatchError E) A) (f : A -> result (DispatchError E) B) :
  unguarded m -> (forall a, m = Ok a -> unguarded (f a)) -> unguarded (rbind m f).
Proof. unfold unguarded. destruct m; simpl; [intros _ Hf; by apply Hf|congruence|done]. Qed.
Lemma unguarded_Ok {E A} (a : A) : unguarded (E := E) (Ok a).
Proof. done. Qed.
Lemma unguarded_Panic {E A} : unguarded (E := E) (A := A) Panic.
Proof. done. Qed.
Lemma unguarded_Module {E A} (e : E) : unguarded (A := A) (Err (Module e)).
Proof. done. Qed.
Lemma unguarded_Currency {E A} : unguarded (E := E) (A := A) (Err CurrencyError).
Proof. done. Qed.
Lemma unguarded_require {E} b (e : E) : unguarded (require b e).
Proof. by destruct b. Qed.
Lemma unguarded_some_or {E A} (o : option A) (e : E) : unguarded (some_or o e).
Proof. by destruct o. Qed.
Lemma unguarded_ok_or {E A} (o : option A) : unguarded (E := E) (ok_or o CurrencyError).
Proof. by destruct o. Qed.
Lemma unguarded_map {E F A} (f : F -> DispatchError E) (m : result F A) :
  (forall e, f e <> BadOrigin) -> unguarded (rmap_err f m).
Proof. unfold unguarded. destruct m; simpl; congruence. Qed.
Lemma unguarded_fold {E A B} (f : A -> B -> result (DispatchError E) A) a l :
  (forall a b, unguarded (f a b)) -> unguarded (rfold f a l).
Proof.
  intros Hf. revert a. induction l as [|b l IH]; intros a; [done|]. simpl.
  apply unguarded_bind; [apply Hf|intros; apply IH].
Qed.
Lemma unguarded_mapM {E A B} (f : A -> result (DispatchError E) B) l :
  (forall a, unguarded (f a)) -> unguarded (rmapM f l).
Proof.
  intros Hf. induction l as [|a l IH]; [done|]. simpl. apply unguarded_bind; [apply Hf|]. intros b _.
  by apply unguarded_bind.
Qed.
Lemma unguarded_or_panic {E A} (o : option A) : unguarded (E := E) (or_panic o).
Proof. by destruct o. Qed.

(** An origin check in front of unguarded code. *)
Lemma guarded {E A B} (m : result (DispatchError E) A) (f : A -> result (DispatchError E) B) ok :
  (m = Err BadOrigin <-> ok = false) -> (forall a, unguarded (f a)) -> rbind m f = Err BadOrigin <-> ok = false.
Proof.
  intros <- Hf. destruct m as [a|e|]; simpl; [|split; congruence|split; congruence].
  specialize (Hf a). unfold unguarded in Hf. split; congruence.
Qed.

Lemma signed_guard {E} o : @ensure_signed E o = Err BadOrigin <-> match o with Signed _ => true | _ => false end = false.
Proof. by destruct o. Qed.
Lemma root_guard {E} o : @ensure_root E o = Err BadOrigin <-> match o with Root => true | _ => false end = false.
Proof. by destruct o. Qed.
Lemma origin_guard {E} f o : @ensure_origin E f o = Err BadOrigin <-> f o = false.
Proof. unfold ensure_origin. by destruct (f o). Qed.

Ltac unguarded_step :=
  first
    [ apply unguarded_Ok | apply unguarded_Module | apply unguarded_Currency | apply unguarded_Panic | apply unguarded_require
    | apply unguarded_some_or | apply unguarded_ok_or | apply unguarded_or_panic
    | apply unguarded_bind; [|intros ? _]
    | apply unguarded_map; intros []; done
    | apply unguarded_fold; intros ? ?
    | apply unguarded_mapM; intros ?
    | progress cbv beta zeta
    | match goal with |- unguarded (match ?x with _ => _ end) => destruct x end
    | match goal with |- unguarded (if ?x then _ else _) => destruct x end
    | match goal with |- unguarded (let '(_, _) := ?x in _) => destruct x end ].
Ltac unguarded := repeat unguarded_step; try done.

Section Matrix.
Context `{UsizeWidth, DifficultyPrims, PowPrims} {R : Type} `{IsingPrims R}.
Context `{SpArithmetic, XqvmLib, MempoolPrims, EnsureProportion, PerbillTimes, DbWeight}.
Context {C : Type} `{Currency C, Issuance C, Holds C}.
Context {S : Type} `{StakingOps S}.
Context {M : Type} `{MultiBlock M}.
Context (builder : AccountId).
Context (program_hash : list Z -> H256) (descriptor_hash : NodeDescriptorInput -> H256).
Context (dispatch_root : RuntimeCall -> @Runtime C S M -> @Runtime C S M * bool).
#[local] Abbreviation runtime := (@Runtime C S M).
#[local] Abbreviation dispatch := (Runtime.dispatch builder program_hash descriptor_hash dispatch_root).
Implicit Types rt : runtime.

Definition is_signed (o : Origin) : bool := match o with Signed _ => true | _ => false end.
Definition is_root (o : Origin) : bool := match o with Root => true | _ => false end.
(** The stored faucet key, or the Foundation. *)
Definition is_minter (authority : option AccountId) (o : Origin) : bool :=
  match o with Signed who => bool_decide (authority = Some who) | _ => false end || FoundationOrigin o.

(** The table. *)
Definition authorised (o : Origin) (c : PalletCall) rt : bool :=
  match c with
  | TemplateCall _ => is_signed o
  | XqvmCall (EvictProgram _) => is_root o
  | XqvmCall _ => is_signed o
  | MempoolCall (RegisterJobSpec _ _ _ _ _) => is_root o
  | MempoolCall _ => is_signed o
  | PowCall (RegisterTopology _ _ _ _ _ | SetDefaultTopology _ | SetDifficulty _ _ | SetTopologyCurve _ _
            | AddMineableTopology _ | RemoveMineableTopology _) => is_root o
  | PowCall (SetBlockReward _ | SetTargetProofBlocks _) => FoundationOrRoot o
  | PowCall _ => is_signed o
  | FaucetCall (Mint _ _ | Disable) => is_minter (RtFaucetAuthority rt) o
  | FaucetCall (SetAuthority _) => FoundationOrigin o
  | RegistryCall _ => is_signed o
  | AdmissionCall (CallAdvance FoundationOnly) =>
      if bool_decide (RtAdmissionMode rt = FixedTestnet) then FoundationOrigin o else true
  | AdmissionCall (CallAdvance PermissionlessEligibility) =>
      if bool_decide (RtAdmissionMode rt = FoundationOnly) then is_signed o else true
  | AdmissionCall (CallAdvance FixedTestnet) => true
  | AdmissionCall _ => FoundationOrigin o
  | SlashCall _ => FoundationOrRoot o
  end.

Lemma run_in_guard {P E} `{!Pallet P} (err : E -> RuntimeError) (f : P -> result (DispatchError E) P) rt ok :
  (f (load rt) = Err BadOrigin <-> ok = false) -> run_in err f rt = Err BadOrigin <-> ok = false.
Proof.
  intros <-. unfold run_in. destruct (f (load rt)) as [s|[]|]; simpl; split; congruence.
Qed.

Lemma template_matrix o c rt : dispatch_template o c rt = Err BadOrigin <-> authorised o (TemplateCall c) rt = false.
Proof.
  apply run_in_guard. destruct c; (eapply guarded; [apply signed_guard|intros ?]); unguarded.
Qed.

Lemma xqvm_matrix o c rt : dispatch_xqvm program_hash o c rt = Err BadOrigin <-> authorised o (XqvmCall c) rt = false.
Proof.
  apply run_in_guard. destruct c; (eapply guarded; [apply signed_guard || apply root_guard|intros ?]); unfold do_remove; unguarded.
Qed.

Lemma pow_matrix o c rt : dispatch_pow o c rt = Err BadOrigin <-> authorised o (PowCall c) rt = false.
Proof.
  apply run_in_guard. destruct c; cbn [QuantumPowProps.dispatch];
    (eapply guarded; [apply signed_guard || apply root_guard || apply origin_guard|intros ?]);
    unfold check_spec, canonicalize_spec, check_proof, accept_proof, validate_proof; unguarded.
Qed.

Lemma registry_matrix o c rt : dispatch_registry descriptor_hash o c rt = Err BadOrigin <-> authorised o (RegistryCall c) rt = false.
Proof.
  apply run_in_guard. destruct c; (eapply guarded; [apply signed_guard|intros ?]);
    unfold validate_and_store_descriptor, validate_and_store_v1, validate_and_store_v2, replace_descriptor;
    repeat first [unguarded_step|unfold nonempty_opt].
Qed.

Lemma slash_matrix o c rt : dispatch_slash o c rt = Err BadOrigin <-> authorised o (SlashCall c) rt = false.
Proof.
  apply run_in_guard. destruct c; (eapply guarded; [apply origin_guard|intros ?]); unfold check_fractions, record_motion; unguarded.
Qed.

Lemma is_minter_spec o rt : mint_origin FoundationOrigin o (load rt) = is_minter (RtFaucetAuthority rt) o.
Proof.
  unfold mint_origin, is_minter. f_equal. unfold ensure_faucet_authority. cbn [load faucet_pallet Faucet.Authority].
  destruct o; try (apply bool_decide_eq_false; by intros [? ?]).
  destruct (bool_decide (RtFaucetAuthority rt = _)); [by apply bool_decide_eq_true|].
  apply bool_decide_eq_false. by intros [? ?].
Qed.

Lemma unguarded_emission {A} (m : result (DispatchError EmissionError) A) : unguarded m -> unguarded (rmap_err lift_emission_error m).
Proof. unfold unguarded. by destruct m as [|[]|]. Qed.

Lemma faucet_matrix o c rt : dispatch_faucet o c rt = Err BadOrigin <-> authorised o (FaucetCall c) rt = false.
Proof.
  apply run_in_guard. destruct c; simpl; rewrite <- ?is_minter_spec; (eapply guarded; [apply origin_guard|intros ?]);
    repeat first [apply unguarded_emission; unfold mint_faucet, deposit_exact|unguarded_step].
Qed.

Lemma unguarded_transform source budget mem hash sols : unguarded (transform source budget mem hash sols).1.
Proof.
  unfold transform. repeat case_match; try done. simpl.
  match goal with |- unguarded (transform_loop _ _ ?p _ _ _).1 => rename p into prog end.
  generalize (@nil (list Z)) 0. induction sols as [|sol sols IH]; intros acc used; [done|]. simpl.
  destruct (0 <? _); [|done]. simpl. destruct (run_error _) as [e|]; [by destruct e|].
  assert (unguarded (check_outputs (zlen sol) (outputs (run mem (sat_u 64 (budget - used)) 1 [RVecInt sol] prog)))) as Hc
    by (unfold check_outputs; unguarded).
  destruct (check_outputs _ _) as [spins|e|]; [apply IH|intros [= ->]; by apply Hc|done].
Qed.

Lemma unguarded_ranking order_id r who e (s : @MempoolState C) : unguarded (update_ranking order_id r who e s).
Proof. unfold update_ranking. unguarded. Qed.

Lemma unguarded_submission `{QuantumVm} cfg who id sols payee (s : @MempoolState C) :
  (forall a b c d e, unguarded (vm_transform_solutions a b c d e).1) -> unguarded (submit_solution_inner cfg who id sols payee s).
Proof.
  intros Hvm. unfold submit_solution_inner, check_payee, evaluate_submission, record_submission, score_solution.
  repeat first [apply Hvm|apply unguarded_ranking|unguarded_step].
Qed.

Lemma unguarded_proposal `{QuantumVm} cfg who id p a m r dl w d (s : @MempoolState C) :
  unguarded (do_propose_job cfg who id p a m r dl w d s).
Proof. unfold do_propose_job, ensure_valid_mode, ensure_valid_resolution. unguarded. Qed.

Lemma mempool_matrix o c rt : dispatch_mempool builder o c rt = Err BadOrigin <-> authorised o (MempoolCall c) rt = false.
Proof.
  apply run_in_guard. destruct c; cbn [MempoolProps.dispatch]; repeat case_match;
    (eapply guarded; [apply signed_guard || apply root_guard|intros ?]);
    repeat first [apply unguarded_transform|apply unguarded_proposal|apply unguarded_submission; intros; apply unguarded_transform|unguarded_step
                 |unfold ensure_valid_mode, ensure_valid_resolution, compute_payouts, winner_summaries_from_payouts, pay_winner].
Qed.

Lemma admission_matrix o c rt :
  dispatch_admission dispatch_root o c rt = Err BadOrigin <-> authorised o (AdmissionCall c) rt = false.
Proof.
  destruct c as [who|who|mode|call]; simpl.
  - apply run_in_guard. eapply guarded; [apply origin_guard|intros ?]. unguarded.
  - apply run_in_guard. eapply guarded; [apply origin_guard|intros ?]. unguarded.
  - apply run_in_guard. unfold advance. simpl. destruct (RtAdmissionMode rt), mode; simpl; try (split; congruence).
    + eapply guarded; [apply origin_guard|intros ?]. unguarded.
    + destruct o; simpl; split; congruence.
  - unfold dispatch_as_root, ensure_origin. destruct (FoundationOrigin o); simpl; [|done]. split; [|done].
    destruct (check call) as [|[]|]; simpl; try done. by destruct (dispatch_root call rt).
Qed.

(** The handlers enforce the table. *)
Lemma dispatch_matrix o c rt : dispatch o c rt = Err BadOrigin <-> authorised o c rt = false.
Proof.
  destruct c; cbn [Runtime.dispatch];
    [apply template_matrix|apply xqvm_matrix|apply mempool_matrix|apply pow_matrix|apply faucet_matrix
    |apply registry_matrix|apply admission_matrix|apply slash_matrix].
Qed.
End Matrix.
