(* ===== verification/RuntimeTotal.v ===== *)
(** * No call panics

    Every call of the repository's pallets returns a new state or an error, in
    every state the composed runtime reaches: an [expect], an index or a division
    that could abort the block is never reached in a bad case. *)

From S2P Require Import Prelude Validation PuzzleSpec Packed Float Energy Gse Diversity Frame RuntimeParams Weights Difficulty Ising QuantumPow QuantumPowProps MempoolCore Mempool MempoolProps MempoolSettlement MinerRegistry Template Emission StakingRewards Faucet SlashPolicy Admission Governance ElectionRound GenesisPresets Xqvm RuntimeConfig XqvmAdapter Runtime RuntimeProps RuntimeRefinement.

Lemma require_no_panic {E} b (e : E) : require b e <> Panic.
Proof. by destruct b. Qed.
Lemma some_or_no_panic {E A} (o : option A) (e : E) : some_or o e <> Panic.
Proof. by destruct o. Qed.
Lemma signed_no_panic {E} o : @ensure_signed E o <> Panic.
Proof. by destruct o. Qed.
Lemma root_no_panic {E} o : @ensure_root E o <> Panic.
Proof. by destruct o. Qed.
Lemma origin_no_panic {E} f o : @ensure_origin E f o <> Panic.
Proof. unfold ensure_origin. by destruct (f o). Qed.

Create HintDb calm.
#[export] Hint Resolve require_no_panic some_or_no_panic ok_or_no_panic signed_no_panic root_no_panic origin_no_panic
  bits_per_value_no_panic TopologyIndex.new_no_panic energy_of_solution_no_panic : calm.

(** One step through code that cannot panic. *)
Ltac calm_step :=
  first
    [ discriminate
    | solve [auto with calm nocore]
    | apply rbind_no_panic; [|intros ? ?]
    | apply rmap_err_no_panic
    | apply rfold_no_panic; intros ? ? ?
    | apply rmapM_no_panic; intros ? ?
    | progress cbv beta zeta
    | match goal with |- (match ?x with _ => _ end) <> Panic => destruct x eqn:? end ].
Ltac calm := repeat calm_step.

Lemma mean_abs_unit_no_panic spec : mean_abs_unit spec <> Panic.
Proof. unfold mean_abs_unit, discrete_mean_abs. calm. Qed.

Lemma check_spec_no_panic spec : check_spec spec <> Panic.
Proof. unfold check_spec. pose proof (bits_per_value_no_panic spec). calm. done. Qed.

Lemma nonempty_opt_no_panic b e : nonempty_opt b e <> Panic.
Proof. by destruct b; [apply require_no_panic|]. Qed.

Lemma root_check_no_panic call : check call <> Panic.
Proof.
  assert (forall depth remaining, allowed call depth remaining <> Panic) as Ha; [|apply rbind_no_panic; [apply Ha|done]].
  induction call as [call IH] using RuntimeCall_tree_ind. intros depth remaining. rewrite allowed_unfold.
  repeat case_match; try done. apply rfold_no_panic. intros r c Hc. by apply IH.
Qed.
#[export] Hint Resolve mean_abs_unit_no_panic check_spec_no_panic nonempty_opt_no_panic root_check_no_panic : calm.

(** ** The mempool *)

Section Mempool.
Context `{QuantumVm, MempoolPrims} {W : Type} `{Currency W}.
Context (cfg : MempoolConfig).
Implicit Types s : @MempoolState W.

Lemma evaluate_submission_no_panic id order who transformed s :
  MaxSolutions cfg < 2 ^ 31 -> evaluate_submission cfg id order who transformed s <> Panic.
Proof.
  intros Hmax. unfold evaluate_submission. set (p := ising_params order).
  apply rbind_no_panic; [calm|]. intros topology Htop.
  assert (TopologyIndex.new (p_nodes p) (p_edges p) = Ok topology) as Htop' by (destruct (TopologyIndex.new _ _); simpl in Htop; congruence).
  apply rbind_no_panic; [calm|]. intros _ _. apply rbind_no_panic; [calm|]. intros u Hlen%require_Ok. bool_to_prop.
  apply rbind_no_panic.
  { apply rfold_no_panic. intros [[valid best] index] x _. unfold score_solution.
    apply rbind_no_panic; [|intros; calm]. apply rmap_err_no_panic. rewrite (energy_indexed_agrees _ _ _ _ _ _ Htop'). calm. }
  intros [[valid best] index] Hsc. apply score_loop_scored in Hsc as (_ & _ & Hle & Hall & Hbest); [|done].
  apply rbind_no_panic; [calm|]. intros _ Hne%require_Ok. bool_to_prop. destruct valid as [|v valid]; [done|]. set (V := v :: valid) in *.
  destruct Hbest as (x & Hx & _). pose proof (admitted_solution_set _ _ _ Hall) as Hset.
  assert (0 < zlen (p_nodes p)) as Hn.
  { apply Forall_cons in Hall as [(e & (Hws & _) & _) _]. destruct Hws as [Hne' _ _ _ _ _ _]. unfold zlen. destruct (p_nodes p); [done|simpl; lia]. }
  do 2 (apply rbind_no_panic; [calm|intros _ _]).
  match goal with |- context [select_from_best V index ?t] =>
    destruct (select_from_best_total _ V index t Hset) as (sel & -> & Hg & Hl) end; [by eapply lookup_lt_Some|].
  cbn [rmap_err rbind].
  assert (exists selected, rmapM (fun i => or_panic (E := DispatchError MempoolError) (V !! i)) sel = Ok selected /\
    solution_set (zlen (p_nodes p)) selected /\ (length selected <= length V)%nat) as (selected & -> & Hset' & Hlen').
  { apply greedy_from_NoDup in Hg as (_ & Hlt & _). rewrite Forall_forall in Hlt.
    exists (omap (V !!.) sel). split_and!.
    - apply rmapM_Ok. clear -Hlt. induction sel as [|i sel IH]; [constructor|].
      destruct (lookup_lt_is_Some_2 V i) as [y Hy]; [apply Hlt; set_solver|]. cbn [omap list_omap]. rewrite Hy.
      constructor; [by rewrite Hy|]. apply IH. intros j Hj. apply Hlt. set_solver.
    - apply Forall_forall. intros y (i & _ & Hi)%list_elem_of_omap. unfold solution_set in Hset. rewrite Forall_forall in Hset.
      by apply Hset, (list_elem_of_lookup_2 _ i).
    - transitivity (length sel); [|lia]. clear. induction sel as [|i sel IH]; [done|]. cbn [omap list_omap].
      case_match; simpl; lia. }
  cbn [rbind]. apply rbind_no_panic; [calm|]. intros _ _. apply rbind_no_panic; [|intros; calm].
  apply rmap_err_no_panic. eapply calculate_diversity_no_panic; [exact Hset'|done|]. unfold zlen in *. lia.
Qed.

Lemma record_submission_no_panic id order who info payee selected best diversity s :
  Forall (fun x => zlen x <= MaxNodes cfg) selected -> zlen selected <= MaxSolutions cfg ->
  record_submission cfg id order who info payee selected best diversity s <> Panic.
Proof.
  intros Hn Hl. unfold record_submission. apply rbind_no_panic.
  - rewrite (proj2 (Z.leb_le _ _) Hl), andb_true_r.
    replace (forallb _ selected) with true; [done|]. symmetry. apply forallb_forall. intros x Hx%list_elem_of_In.
    rewrite Forall_forall in Hn. by apply Z.leb_le, Hn.
  - intros _ _. cbv zeta. match goal with |- (let '(_, _) := ?x in _) <> Panic => destruct x end.
    apply rbind_no_panic; [|intros; calm]. unfold update_ranking. calm.
Qed.

Lemma submit_solution_no_panic who id sols payee s :
  MaxSolutions cfg < 2 ^ 31 -> params_typed cfg s -> (forall a b c d e, (vm_transform_solutions a b c d e).1 <> Panic) ->
  submit_solution_inner cfg who id sols payee s <> Panic.
Proof.
  intros Hmax Hty Hvm. unfold submit_solution_inner.
  apply rbind_no_panic; [calm|intros info _]. apply rbind_no_panic; [calm|intros _ _].
  apply rbind_no_panic; [calm|intros order Ho%some_or_Ok]. apply rbind_no_panic; [calm|intros spec _].
  do 4 (apply rbind_no_panic; [unfold check_payee; calm|intros ? _]).
  apply rbind_no_panic; [apply Hvm|intros tr _].
  apply rbind_no_panic; [by apply evaluate_submission_no_panic|]. intros [[selected best] diversity] He.
  apply evaluate_submission_sound in He as (_ & Hall & _ & Hl & _).
  apply record_submission_no_panic; [|done]. eapply Forall_impl; [exact Hall|].
  intros x (_ & e & (Hws & _) & _). unfold zlen. rewrite (ws_solution _ _ _ _ _ Hws). apply (Hty _ _ Ho).
Qed.

Lemma claim_reward_no_panic o id s others :
  inv (s, others) -> (forall a b c d, vm_validate_result a b c d <> Panic) -> claim_reward o id s <> Panic.
Proof.
  intros [_ Hrank Hty _ _ _] Hvm. unfold claim_reward.
  apply rbind_no_panic; [calm|intros who _]. apply rbind_no_panic; [calm|intros order Ho%some_or_Ok].
  apply rbind_no_panic; [calm|intros spec _]. do 2 (apply rbind_no_panic; [calm|intros ? _]).
  apply rbind_no_panic; [calm|intros ? Hc%require_Ok]. bool_to_prop. simpl in *.
  destruct (ri_order _ Hrank id order Ho) as (Hrk & _ & Hcount).
  destruct (compute_payouts_fair id order s Hrk) as (ps & -> & Hfair & _); [intros He%Hcount; lia|by eapply Hty|].
  cbn [rbind]. unfold winner_summaries_from_payouts. rewrite (proj2 (Z.leb_le _ _) (proj2 (fp_count _ _ _ Hfair))). cbn [rbind].
  apply rbind_no_panic; [apply Hvm|intros ? _]. destruct (unreserve _ _ _). unfold pay_winner. calm.
Qed.

Lemma mempool_no_panic o c s others :
  MaxSolutions cfg < 2 ^ 31 -> params_typed cfg s -> inv (s, others) ->
  (forall a b, vm_validate_programs a b <> Panic) -> (forall a b c d e, (vm_transform_solutions a b c d e).1 <> Panic) ->
  (forall a b c d, vm_validate_result a b c d <> Panic) ->
  MempoolProps.dispatch cfg o c s <> Panic.
Proof.
  intros Hmax Hty Hinv Hvp Hvt Hvr.
  destruct c as [ | | | ? ? ? ? ? ? ? ? [] |? ? []| | | ]; simpl; try (by eapply claim_reward_no_panic);
    unfold register_solver, deregister_solver, register_job_spec, insert_job_spec, propose_job, propose_job_with_payee_requirement,
      do_propose_job, ensure_valid_mode, ensure_valid_resolution, submit_solution, submit_solution_with_payee, reclaim_order, purge_result;
    repeat first [apply Hvp|by apply submit_solution_no_panic|calm_step].
Qed.
End Mempool.

(** ** The runtime *)

Section Total.
Context `{UsizeWidth, DifficultyPrims, PowPrims} {R : Type} `{IsingPrims R}.
Context `{SpArithmetic, XqvmLib, MempoolPrims, EnsureProportion, PerbillTimes, DbWeight}.
Context {C : Type} `{Currency C, Issuance C, Holds C}.
Context {S : Type} `{StakingOps S}.
Context {M : Type} `{MultiBlock M}.
Context (pot : Z -> AccountId) (builder : AccountId).
Context (program_hash : list Z -> H256) (descriptor_hash : NodeDescriptorInput -> H256).
Context (dispatch_root : RuntimeCall -> @Runtime C S M -> @Runtime C S M * bool).
#[local] Abbreviation runtime := (@Runtime C S M).
#[local] Abbreviation dispatch := (Runtime.dispatch builder program_hash descriptor_hash dispatch_root).
#[local] Abbreviation node_step := (node_step pot builder program_hash descriptor_hash dispatch_root).
#[local] Instance reward_here : MiningReward (@EmissionState C) := runtime_reward pot.
Implicit Types rt : runtime.
Context `{!CurrencyLaws C, !IssuanceLaws C, !HoldsLaws C, !BalancesLaws C}.
Context `{!SpArithmeticLaws, !MempoolPrimsLaws, !StakingLaws S, !EnsureProportionLaws}.
Context `{!IsingPrimsLaws R, !XqvmLibLaws}.

Lemma run_in_no_panic {P E} `{!Pallet P} (err : E -> RuntimeError) (f : P -> result (DispatchError E) P) rt :
  f (load rt) <> Panic -> run_in err f rt <> Panic.
Proof. unfold run_in. by destruct (f (load rt)). Qed.

Lemma transform_no_panic source budget mem hash sols : (transform source budget mem hash sols).1 <> Panic.
Proof.
  unfold transform. repeat case_match; try done. simpl.
  match goal with |- (transform_loop _ _ ?p _ _ _).1 <> Panic => rename p into prog end.
  generalize (@nil (list Z)) 0. induction sols as [|sol sols IH]; intros acc used; [done|]. simpl.
  destruct (0 <? _); [|done]. simpl. destruct (run_error _) as [e|]; [by destruct e|].
  assert (check_outputs (zlen sol) (outputs (run mem (sat_u 64 (budget - used)) 1 [RVecInt sol] prog)) <> Panic) as Hc
    by (unfold check_outputs; calm).
  destruct (check_outputs _ _) as [spins|e|]; [apply IH|done|done].
Qed.

Lemma execute_no_panic cfg o hash calldata slots limit (s : @XqvmState C) :
  0 <= slots -> execute cfg o hash calldata slots limit s <> Panic.
Proof.
  intros Hs. unfold execute. apply rbind_no_panic; [calm|intros who _]. do 2 (apply rbind_no_panic; [calm|intros ? _]).
  apply rbind_no_panic; [calm|intros ? Hle%require_Ok]. bool_to_prop.
  do 2 (apply rbind_no_panic; [calm|intros ? _]). destruct (run_error _); [done|].
  rewrite run_outputs, (proj2 (Z.leb_le _ _)) by done. done.
Qed.

Lemma pow_no_panic cfg o c (s : @PowState (@EmissionState C)) :
  topologies_wf s -> QuantumPowProps.call_typed c -> QuantumPowProps.dispatch cfg o c s <> Panic.
Proof.
  intros Hwf Hty. destruct c; cbn [QuantumPowProps.dispatch]; try (by apply submit_proof_no_panic);
    unfold register_miner, deregister_miner, register_topology, set_default_topology, set_difficulty, set_topology_curve,
      set_block_reward, set_target_proof_blocks, add_mineable_topology, remove_mineable_topology, canonicalize_spec; calm.
Qed.

(** The arguments of a call have the values their Rust types allow, as far as
    panics depend on it. *)
Definition args_typed (c : PalletCall) : Prop :=
  match c with
  | XqvmCall (Execute _ _ slots _) => 0 <= slots
  | PowCall c => QuantumPowProps.call_typed c
  | _ => True
  end.

(** No call of the composed runtime panics; the runtime's storage only has to
    hold the invariant, well-formed topologies and bounded models. *)
Lemma dispatch_no_panic K x o c :
  runtime_inv program_hash K x -> topologies_wf (RtPow (node_rt x)) ->
  params_typed (runtime_mempool_config builder) (load (P := @MempoolState C) (node_rt x)) ->
  args_typed c -> dispatch o c (node_rt x) <> Panic.
Proof.
  intros Hinv Hwf Hpt Hty. destruct c as [c|c|c|c|c|c|c|c]; cbn [Runtime.dispatch].
  - apply run_in_no_panic. destruct c; unfold do_something, cause_error; calm.
  - apply run_in_no_panic. destruct c; [..|by apply execute_no_panic| |]; unfold store_program, remove_program, evict_program, do_remove; calm.
  - apply run_in_no_panic. eapply mempool_no_panic; [done|done|apply (rv_mempool _ _ _ Hinv)|..]; simpl; try done.
    + intros a b. unfold validate_programs, validate_program. calm.
    + intros. apply transform_no_panic.
  - apply run_in_no_panic. by apply pow_no_panic.
  - apply run_in_no_panic. destruct c; unfold mint, set_authority, disable, mint_faucet, deposit_exact; calm.
  - apply run_in_no_panic. destruct c; unfold set_descriptor, clear_descriptor, participate, replace_descriptor,
      validate_and_store_descriptor, validate_and_store_v1, validate_and_store_v2, validate_node_identity, validate_miners, validate_miner,
      validate_system_info, validate_gpu, validate_runtime, nonempty; calm.
  - destruct c as [who|who|mode|call]; simpl.
    + apply run_in_no_panic. unfold approve. calm.
    + apply run_in_no_panic. unfold remove. calm.
    + apply run_in_no_panic. unfold advance. calm.
    + apply rbind_no_panic; [|done]. apply rmap_err_no_panic. unfold dispatch_as_root.
      do 2 (apply rbind_no_panic; [calm|intros ? _]). by destruct (dispatch_root _ _).
  - apply run_in_no_panic. destruct c; unfold discretionary_slash, set_limits, check_fractions, record_motion; calm.
Qed.

(** The topologies stay well-formed along the chain. *)
Lemma node_topologies_wf rt x :
  runtime_genesis rt -> topologies_wf (RtPow rt) -> rtc node_step (genesis_node rt) x -> topologies_wf (RtPow (node_rt x)).
Proof.
  intros Hg Hwf Hx. apply (node_pow_keeps pot builder program_hash descriptor_hash dispatch_root topologies_wf rt x); [|done..].
  intros a b Hs Ha. by eapply step_topologies_wf; [|exact Ha|exact Hs].
Qed.
End Total.
