(* ===== verification/Instances.v ===== *)
(** * Concrete instances of the interfaces

    Simple functions for everything that lives outside the repository (hashes,
    the generator, [libm], the ledgers, the virtual machine, staking and the
    election), which satisfy the documented behaviour the theorems assume.  The
    witnesses evaluate them. *)

From S2P Require Import Prelude Validation PuzzleSpec Packed Float Energy Gse Diversity Ising SolutionReport Difficulty Frame RuntimeParams Weights QuantumPow MempoolCore Mempool Emission SlashPolicy Admission Governance ElectionRound Xqvm RuntimeConfig Runtime RuntimeUpgrade.

(** ** Primitives *)

#[export] Instance counting_rng : RngCore Z := fun r => (wrap_u 32 r, r + 1).
#[export] Instance counting_rng_laws : RngCoreLaws Z.
Proof. intros r. apply wrap_u_range. lia. Qed.

#[export] Instance toy_ising : IsingPrims Z := {
  blake3 := fun msg => to_be_bytes 32 (zsum msg);
  chacha_from_seed := fun seed => zsum seed
}.
#[export] Instance toy_ising_laws : IsingPrimsLaws Z.
Proof. split; [intros; apply to_be_bytes_length|intros; apply to_be_bytes_range|apply _]. Qed.

#[export] Instance toy_difficulty : DifficultyPrims := {
  difficulty_libm := exact_libm (fun x => x) (fun x _ => x);
  blake3_seed := fun seed n => to_be_bytes 32 (zsum seed + n)
}.
#[export] Instance toy_difficulty_laws : DifficultyPrimsLaws.
Proof. split; [intros; apply to_be_bytes_length|intros; apply to_be_bytes_range]. Qed.

#[export] Instance toy_pow : PowPrims := {
  blake2_256 := fun msg => to_be_bytes 32 (zsum msg);
  account_digest := fun who => to_be_bytes 32 who;
  topology_digest := fun ns es h j sp => to_be_bytes 32 (zsum ns + zsum h + zsum j + zsum sp);
  finalize_seed := fun parent who n => to_be_bytes 32 (zsum parent + who + n)
}.

(** Exact arithmetic. *)
#[export] Instance exact_arithmetic : SpArithmetic := {
  mul_floor := fun share x => share * x / BILLION;
  perbill_add := fun a b => Z.min (a + b) BILLION;
  mul_rational_down := fun a b c => if c =? 0 then None else checked_u 128 (a * b / c)
}.
#[export] Instance exact_arithmetic_laws : SpArithmeticLaws.
Proof.
  split; simpl; [done..|]. intros a b c _ _ Hc. by rewrite (proj2 (Z.eqb_neq c 0)) by lia.
Qed.

#[export] Existing Instances Ledger.currency Ledger.currency_laws Ledger.issuance Ledger.issuance_laws.

(** Rewards paid from account 0 of the ledger. *)
#[export] Instance ledger_reward : MiningReward Ledger.t := fun c who amount =>
  match Ledger.do_keep_alive c 0 who amount with
  | Some c' => (c', amount)
  | None => (c, 0)
  end.
#[export] Instance ledger_reward_laws : MiningRewardLaws Ledger.t.
Proof.
  split; intros w who amount; unfold pay, ledger_reward.
  - intros x. destruct (Ledger.do_keep_alive _ _ _ _) eqn:Ht; [|done]. by apply (keep_alive_reserved (C := Ledger.t) w t 0 who amount).
  - intros Ha. case_match; simpl; lia.
Qed.

#[export] Existing Instance wasm32.

(** ** A virtual machine *)

(** Every byte string is a program that copies its inputs to its outputs. *)
#[export] Instance echo_vm : XqvmLib := {
  Program := list Z;
  decode := fun bytes => Some bytes;
  code := fun _ => [Target; OtherInstruction 0];
  verify := fun _ => None;
  run := fun _ limit slots calldata _ =>
    mkVmRun None (Z.min limit 1) (take (Z.to_nat slots) (calldata ++ replicate (Z.to_nat slots) (ROther 0)))
}.
#[export] Instance echo_vm_laws : XqvmLibLaws.
Proof.
  split; simpl.
  - intros. lia.
  - intros mem limit slots calldata p Hs. unfold zlen. rewrite length_take, length_app, length_replicate. lia.
Qed.

(** Holds are the reserved part of the ledger. *)
#[export] Instance ledger_holds : Holds Ledger.t := {
  on_hold := Ledger.held_of;
  backing := Ledger.held_of;
  hold := Ledger.do_reserve;
  release := fun c who v => Some ((Ledger.do_unreserve c who v).1, Z.min v (Ledger.held_of c who))
}.
#[export] Instance ledger_holds_laws : HoldsLaws Ledger.t.
Proof.
  split.
  - intros c c' who v Hh x. exact (reserve_reserved (C := Ledger.t) c c' who v Hh x).
  - intros c c' who v Hh x. exact (reserve_reserved (C := Ledger.t) c c' who v Hh x).
  - intros c who v Hv _. eexists. split; [done|]. intros x. split; exact (unreserve_reserved (C := Ledger.t) c who v Hv x).
Qed.

(** ** The mempool's hash and bucket order *)

#[export] Instance ex_prims : MempoolPrims := {
  spec_hash := fun name _ _ _ => zsum name;
  bucket_order := elements
}.
#[export] Instance ex_prims_laws : MempoolPrimsLaws.
Proof. intros X. reflexivity. Qed.

(** ** SDK pallets *)

(** A staking pallet with an era and a queue of scheduled slashes. *)
Definition toy_staking : Type := Z * gmap Z (list bool).
#[export] Instance toy_staking_ops : StakingOps toy_staking := {
  active_era st := Some st.1;
  exposure_total _ _ _ := Some 100;
  unapplied_len st era := length <$> st.2 !! era;
  unapplied st era := default [] (st.2 !! era);
  manual_slash st who era fraction :=
    Some (st.1, <[era + 3 := default [] (st.2 !! (era + 3)) ++ [true]]> st.2)
}.
#[export] Instance toy_staking_laws : StakingLaws toy_staking.
Proof. intros st st' who era fraction [= <-]. reflexivity. Qed.

(** An election pallet that counts its polls and exports fixed winners. *)
Definition toy_mbe : Type := option Z * list (AccountId * Z).
#[export] Instance toy_multi_block : MultiBlock toy_mbe := {
  current_phase m := match m.1 with
    | Some k => if k <? 2 then Snapshot (1 - k) else if k <? 302 then UnsignedPhase (301 - k) else OtherPhase
    | None => OtherPhase end;
  round_status m := (fun _ => None) <$> m.1;
  force_rotate m := Some (None, m.2);
  start_round m := match m.1 with Some _ => Err 1 | None => Ok (Some 0, m.2) end;
  elect_page page m := match m.1 with Some _ => ((None, m.2), Ok m.2) | None => (m, Err 0) end;
  round_duration := 302;
  poll m := (Z.succ <$> m.1, m.2)
}.
Lemma toy_polls n ws : Nat.iter n poll (Some 0, ws) = (Some (Z.of_nat n), ws) :> toy_mbe.
Proof. induction n as [|n IH]; [done|]. rewrite Nat.iter_succ, IH. unfold poll, toy_multi_block. simpl. do 2 f_equal. lia. Qed.

#[export] Instance toy_multi_block_laws : MultiBlockLaws toy_mbe.
Proof.
  split.
  - intros [[k|] ws] Hm; [discriminate|]. exists (Some 0, ws), 1. split_and!; [reflexivity|by eexists|reflexivity].
  - intros m. exists (None, m.2). split; reflexivity.
  - intros [[k|] ws] m' sup; simpl; [intros [= <- _]; reflexivity|discriminate].
  - intros [[k|] ws] m' n Hs; [discriminate|]. injection Hs as <-. rewrite toy_polls. by eexists.
  - intros [[k|] ws] m' n Hs Hn; [discriminate|]. injection Hs as <-. rewrite toy_polls. simpl.
    assert (302 <= Z.of_nat n) by exact Hn. rewrite !(proj2 (Z.ltb_ge _ _)) by lia. reflexivity.
Qed.

#[export] Existing Instances exact_proportion exact_proportion_laws.

(** ** Weights *)

#[export] Instance nearest_perbill : PerbillTimes := fun share x => (share * x + (BILLION - 1) / 2) / BILLION.
#[export] Instance nearest_perbill_laws : PerbillTimesLaws.
Proof.
  intros share x Hs Hx. unfold perbill_times, nearest_perbill.
  pose proof (Z.div_mod (share * x + (BILLION - 1) / 2) BILLION ltac:(done)) as Hd.
  pose proof (Z.mod_pos_bound (share * x + (BILLION - 1) / 2) BILLION ltac:(done)) as Hm.
  unfold BILLION in *. change ((1000000000 - 1) / 2) with 499999999 in *. lia.
Qed.
(** [RocksDbWeight] *)
#[export] Instance rocks_db : DbWeight := { db_read := 25000000; db_write := 100000000 }.
#[export] Instance rocks_db_laws : DbWeightLaws.
Proof. split; split; discriminate. Qed.

(** ** A ledger with holds inside the reserves *)

Module Vault.
Record t := mk { base : Ledger.t; held : gmap Z Z }.

Definition on_hold_of (c : t) (who : Z) : Z := Z.max 0 (default 0 (held c !! who)).
Definition with_base (c : t) (b : Ledger.t) : t := mk b (held c).

#[export] Instance currency : Currency t := {
  free_balance c := Ledger.free_of (base c);
  reserved_balance c := Ledger.held_of (base c);
  reserve c who v := with_base c <$> Ledger.do_reserve (base c) who v;
  unreserve c who v := let '(b, rest) := Ledger.do_unreserve (base c) who v in (with_base c b, rest);
  transfer c from to v := with_base c <$> Ledger.do_transfer (base c) from to v
}.
(** Everything on the books. *)
Definition positive (x : Z) : Z := Z.max 0 x.
Definition issued (b : Ledger.t) : Z := msum id (Ledger.free b) + msum positive (Ledger.held b).

Lemma issued_free b m who v :
  issued (Ledger.mk (<[who := v]> (Ledger.free b)) m) = v - Ledger.free_of b who + issued (Ledger.mk (Ledger.free b) m).
Proof. unfold issued. simpl. rewrite Ledger.msum_free. unfold Ledger.free_of. lia. Qed.

Lemma issued_held b m who v :
  0 <= v -> issued (Ledger.mk m (<[who := v]> (Ledger.held b))) = v - Ledger.held_of b who + issued (Ledger.mk m (Ledger.held b)).
Proof.
  intros Hv. unfold issued. cbn [Ledger.free Ledger.held]. rewrite msum_insert. unfold Ledger.held_of.
  destruct (Ledger.held b !! who); unfold positive; simpl; lia.
Qed.

#[export] Instance issuance : Issuance t := {
  total_issuance c := issued (base c);
  minimum_balance := 1;
  deposit_creating c who v := let '(b, i) := Ledger.do_deposit (base c) who v in (with_base c b, i);
  transfer_keep_alive c from to v := with_base c <$> Ledger.do_keep_alive (base c) from to v
}.
#[export] Instance holds : Holds t := {
  on_hold := on_hold_of;
  backing c := Ledger.held_of (base c);
  hold c who v := (fun b => mk b (<[who := on_hold_of c who + v]> (held c))) <$> Ledger.do_reserve (base c) who v;
  release c who v :=
    let actual := Z.min v (on_hold_of c who) in
    if actual <=? Ledger.held_of (base c) who
    then Some (mk (Ledger.do_unreserve (base c) who actual).1 (<[who := on_hold_of c who - actual]> (held c)), actual)
    else None
}.

#[export] Instance currency_laws : CurrencyLaws t.
Proof.
  split; simpl.
  - intros c who. exact (reserved_nonneg (C := Ledger.t) (base c) who).
  - intros c c' who v (b & Hb & ->)%fmap_Some. exact (reserve_reserved (C := Ledger.t) _ _ _ _ Hb).
  - intros c who v Hv. exact (unreserve_reserved (C := Ledger.t) (base c) who v Hv).
  - intros c who v Hv. exact (unreserve_rest (C := Ledger.t) (base c) who v Hv).
  - intros c who v Hv. exact (unreserve_free (C := Ledger.t) (base c) who v Hv).
  - intros c who v x. exact (unreserve_free_other (C := Ledger.t) (base c) who v x).
  - intros c c' from to v (b & Hb & ->)%fmap_Some. exact (transfer_reserved (C := Ledger.t) _ _ _ _ _ Hb).
  - intros c c' from to v (b & Hb & ->)%fmap_Some. exact (transfer_credited (C := Ledger.t) _ _ _ _ _ Hb).
  - intros c c' from to v x (b & Hb & ->)%fmap_Some. exact (transfer_free_other (C := Ledger.t) _ _ _ _ _ x Hb).
Qed.

Lemma transfer_issued b b' from to v : Ledger.do_transfer b from to v = Some b' -> issued b' = issued b.
Proof.
  unfold Ledger.do_transfer. intros Hb. repeat case_match; simplify_eq/=; [done|].
  unfold issued. simpl. rewrite !Ledger.msum_free, lookup_insert_ne by done. unfold Ledger.free_of. lia.
Qed.

#[export] Instance issuance_laws : IssuanceLaws t.
Proof.
  split; simpl.
  - intros c who v Hv. rewrite issued_free. unfold issued. simpl. lia.
  - intros c who v Hv. exact (deposit_free (C := Ledger.t) (base c) who v Hv).
  - intros c c' from to v (b & Hb & ->)%fmap_Some. unfold Ledger.do_keep_alive in Hb. case_match; [|done]. by eapply transfer_issued.
  - intros c c' from to v (b & Hb & ->)%fmap_Some. exact (keep_alive_reserved (C := Ledger.t) _ _ _ _ _ Hb).
  - intros c c' from to v (b & Hb & ->)%fmap_Some. exact (keep_alive_free (C := Ledger.t) _ _ _ _ _ Hb).
Qed.

Lemma on_hold_set b m who v x : 0 <= v -> on_hold_of (mk b (<[who := v]> m)) x = if decide (x = who) then v else on_hold_of (mk b m) x.
Proof.
  intros Hv. unfold on_hold_of. simpl. case_decide; [subst; rewrite lookup_insert_eq; simpl; lia|by rewrite lookup_insert_ne].
Qed.

Lemma vault_hold_nonneg c x : 0 <= on_hold_of c x.
Proof. unfold on_hold_of. lia. Qed.

#[export] Instance holds_laws : HoldsLaws t.
Proof.
  split; simpl.
  - intros c c' who v (b & Hb & ->)%fmap_Some x. assert (0 <= v) by (unfold Ledger.do_reserve in Hb; case_match eqn:E; [bool_to_prop; lia|done]).
    pose proof (vault_hold_nonneg c who). rewrite on_hold_set by lia. by case_decide; subst.
  - intros c c' who v (b & Hb & ->)%fmap_Some. exact (reserve_reserved (C := Ledger.t) _ _ _ _ Hb).
  - intros c who v Hv Hle. rewrite (proj2 (Z.leb_le _ _) Hle). eexists. split; [done|]. intros x.
    pose proof (vault_hold_nonneg c who). split.
    + rewrite on_hold_set by lia. by case_decide; subst.
    + etrans; [exact (unreserve_reserved (C := Ledger.t) (base c) who (Z.min v (on_hold_of c who)) ltac:(lia) x)|].
      simpl. case_decide; subst; lia.
Qed.

#[export] Instance balances_laws : BalancesLaws t.
Proof.
  assert (forall b b' who v, Ledger.do_reserve b who v = Some b' -> issued b' = issued b) as Hri.
  { intros b b' who v Hb. unfold Ledger.do_reserve in Hb. case_match eqn:E; simplify_eq/=. bool_to_prop.
    rewrite issued_free, issued_held by (unfold Ledger.held_of; lia). unfold issued. simpl. lia. }
  assert (forall b who v, issued (Ledger.do_unreserve b who v).1 = issued b) as Hui.
  { intros b who v. simpl. rewrite issued_free, issued_held by lia. unfold issued. simpl. lia. }
  split; simpl; try done.
  - intros c c' who v x (b & Hb & ->)%fmap_Some. done.
  - intros c c' from to v x (b & Hb & ->)%fmap_Some. done.
  - intros c c' from to v x (b & Hb & ->)%fmap_Some. done.
  - intros c c' who v (b & Hb & ->)%fmap_Some. by eapply Hri.
  - intros c who v. apply Hui.
  - intros c c' from to v (b & Hb & ->)%fmap_Some. simpl. by rewrite (transfer_issued _ _ _ _ _ Hb).
  - intros c c' who v (b & Hb & ->)%fmap_Some. by eapply Hri.
  - intros c c' who v actual. case_match; [|done]. intros [= <- _]. simpl. apply Hui.
Qed.

(** An account exists while it has anything. *)
#[export] Instance mint : MintInto t := {
  account_exists c who := negb (Ledger.free_of (base c) who + Ledger.held_of (base c) who =? 0);
  mint_into c who v := if issued (base c) + v <? 2 ^ 128 then Some (with_base c (Ledger.do_deposit (base c) who v).1) else None
}.
#[export] Instance mint_laws : MintIntoLaws t.
Proof.
  split; cbn [account_exists mint_into mint total_issuance issuance reserved_balance currency on_hold holds].
  - intros c who Hi. rewrite (proj2 (Z.ltb_lt _ _)) by done. eauto.
  - intros c c' who v He Hv. case_match; [|done]. intros [= <-]. cbn. unfold Ledger.free_of in *. cbn. rewrite lookup_insert_eq. cbn.
    apply negb_false_iff, Z.eqb_eq in He. apply negb_true_iff, Z.eqb_neq. change (Ledger.held_of (Ledger.mk _ ?h) who) with (Ledger.held_of (Ledger.mk (Ledger.free (base c)) h) who).
    unfold Ledger.held_of in *. cbn. lia.
  - intros c c' who v. case_match; [|done]. intros [= <-]. cbn. rewrite issued_free. unfold issued. cbn. lia.
  - intros c c' who v x. case_match; [|done]. by intros [= <-].
  - intros c c' who v x. case_match; [|done]. by intros [= <-].
  - intros c who v x. cbn. unfold Ledger.free_of, Ledger.held_of. cbn. destruct (decide (x = who)) as [->|Hne].
    + rewrite !lookup_insert_eq. cbn. do 2 f_equal. lia.
    + by rewrite !lookup_insert_ne.
Qed.
End Vault.
