(* ===== verification/CompositionTheorems.v ===== *)
(** * Theorems about the composed runtime

    What holds of the pallets together: on one ledger, through arbitrary runs
    of blocks, calls from any origin, Root dispatches and the SDK's pallets. *)

From S2P Require Import Prelude Validation PuzzleSpec Frame RuntimeParams Weights Difficulty Ising QuantumPow QuantumPowProps MempoolCore Mempool MempoolProps MempoolSettlement MinerRegistry Template Emission StakingRewards Faucet SlashPolicy Admission Governance ElectionRound GenesisPresets PowMigration RuntimeGuards RuntimeIdentity ElectionData Xqvm RuntimeConfig XqvmAdapter UpgradeChecks Runtime RuntimeApi RuntimeProps RuntimeUpgrade RuntimeRefinement RuntimeOrigins RuntimeTotal Instances.

Section Composition.
Context `{UsizeWidth, DifficultyPrims, PowPrims} {R : Type} `{IsingPrims R}.
Context `{SpArithmetic, XqvmLib, MempoolPrims, EnsureProportion, PerbillTimes, DbWeight}.
Context {C : Type} `{Currency C, Issuance C, Holds C}.
Context {S : Type} `{StakingOps S}.
Context {M : Type} `{MultiBlock M}.
Context (pot : Z -> AccountId) (builder : AccountId).
Context (program_hash : list Z -> H256) (descriptor_hash : NodeDescriptorInput -> H256).
Context (dispatch_root : RuntimeCall -> @Runtime C S M -> @Runtime C S M * bool).
#[local] Abbreviation runtime := (@Runtime C S M).
#[local] Abbreviation node := (@Node C S M).
#[local] Abbreviation mempool_at := (load (P := @MempoolState C)).
#[local] Abbreviation xqvm_at := (load (P := @XqvmState C)).
#[local] Abbreviation emission_at := (load (P := @EmissionState C)).
#[local] Abbreviation dispatch := (Runtime.dispatch builder program_hash descriptor_hash dispatch_root).
#[local] Abbreviation node_step := (node_step pot builder program_hash descriptor_hash dispatch_root).
#[local] Instance reward_here : MiningReward (@EmissionState C) := runtime_reward pot.
Implicit Types rt : runtime.
Implicit Types x y : node.

(** The nodes reachable from a genesis. *)
Definition node_reachable x : Prop := exists rt, runtime_genesis rt /\ rtc node_step (genesis_node rt) x.

Context `{!CurrencyLaws C, !IssuanceLaws C, !HoldsLaws C, !BalancesLaws C}.
Context `{!SpArithmeticLaws, !MempoolPrimsLaws, !StakingLaws S, !EnsureProportionLaws}.

Lemma node_reachable_inv x : node_reachable x -> runtime_inv program_hash 0 x.
Proof. intros (rt & Hg & Hx). by eapply node_run_inv. Qed.

(** ** Refunds *)

(** Unreserving at most what is reserved returns all of it. *)
Lemma unreserve_full (c : C) who v :
  0 <= v <= reserved_balance c who -> free_balance (unreserve c who v).1 who = free_balance c who + v.
Proof. intros Hv. rewrite unreserve_free by lia. f_equal. lia. Qed.

Lemma shares_within K x who : runtime_inv program_hash K x -> let rt := node_rt x in
  0 <= owed who (mempool_at rt) /\ 0 <= deposited who (RtPow rt) <= reserved_balance (Balances rt) who /\
  0 <= described who (RtRegistry rt) <= reserved_balance (Balances rt) who.
Proof.
  intros Hinv rt. pose proof (reserves_cover _ _ _ who Hinv) as Hr.
  destruct (shares_cover _ _ _ who Hinv) as (H1' & H2' & H3' & H4' & H5'). unfold claims in Hr. subst rt. simpl in *. lia.
Qed.

Lemma deregister_refunds K x who m :
  runtime_inv program_hash K x -> Miners (RtPow (node_rt x)) !! who = Some m ->
  exists rt', dispatch (Signed who) (PowCall DeregisterMiner) (node_rt x) = Ok rt' /\
    free_balance (Balances rt') who = free_balance (Balances (node_rt x)) who + QuantumPow.deposit m.
Proof.
  intros Hinv Hm. destruct (shares_within _ _ who Hinv) as (_ & Hd & _). unfold deposited in Hd. rewrite Hm in Hd. simpl in Hd.
  cbn [Runtime.dispatch]. unfold dispatch_pow, run_in. cbn [QuantumPowProps.dispatch]. unfold deregister_miner. simpl. rewrite Hm. simpl.
  eexists. split; [reflexivity|]. simpl.
  rewrite <- (unreserve_full (Balances (node_rt x)) who (QuantumPow.deposit m) Hd). by destruct (unreserve _ _ _).
Qed.

Lemma clear_refunds K x who d :
  runtime_inv program_hash K x -> NodeDescriptors (RtRegistry (node_rt x)) !! who = Some d ->
  exists rt', dispatch (Signed who) (RegistryCall ClearDescriptor) (node_rt x) = Ok rt' /\
    free_balance (Balances rt') who = free_balance (Balances (node_rt x)) who + MinerRegistry.deposit d.
Proof.
  intros Hinv Hm. destruct (shares_within _ _ who Hinv) as (_ & _ & Hd). unfold described in Hd. rewrite Hm in Hd. simpl in Hd.
  simpl. unfold dispatch_registry, run_in, clear_descriptor. simpl. rewrite Hm. simpl. eexists. split; [reflexivity|]. simpl.
  by rewrite <- (unreserve_full (Balances (node_rt x)) who (MinerRegistry.deposit d) Hd).
Qed.

Lemma remove_releases K x who h :
  runtime_inv program_hash K x -> ProgramOwner (RtXqvm (node_rt x)) !! h = Some who ->
  exists rt' dep, dispatch (Signed who) (XqvmCall (RemoveProgram h)) (node_rt x) = Ok rt' /\
    ProgramDeposit (RtXqvm (node_rt x)) !! h = Some dep /\ Programs (RtXqvm rt') !! h = None /\
    on_hold (Balances rt') who = on_hold (Balances (node_rt x)) who - dep /\
    reserved_balance (Balances rt') who = reserved_balance (Balances (node_rt x)) who - dep.
Proof.
  intros Hinv Ho. pose proof (rv_xqvm _ _ _ Hinv) as Hx. pose proof (programs_backed _ _ _ Hinv) as Hbk.
  destruct (do_remove_exact _ _ h who (xqvm_at (node_rt x)) Hx Hbk Ho) as (s' & size & dep & Hrem & _ & Hdep & Hnone & Hh).
  assert (remove_program (Signed who) h (xqvm_at (node_rt x)) = Ok (Xqvm.emit (ProgramRemoved h who dep) s')) as Hok.
  { unfold remove_program. simpl. rewrite Ho. simpl. rewrite Z.eqb_refl. simpl. simpl in Hrem. by rewrite Hrem. }
  destruct (xqvm_reserves program_hash (Signed who) (RemoveProgram h) _ _ Hx Hbk Hok) as [_ Hres].
  exists (store (Xqvm.emit (ProgramRemoved h who dep) s') (node_rt x)), dep.
  cbn [Runtime.dispatch]. unfold dispatch_xqvm, run_in. rewrite Hok. split_and!; try done.
  specialize (Hres who). simpl in *. lia.
Qed.

Lemma reclaim_refunds K x id order :
  runtime_inv program_hash K x -> JobOrders (RtMempool (node_rt x)) !! id = Some order ->
  status order = Expired -> solution_count order = 0 ->
  exists rt', dispatch (Signed (proposer order)) (MempoolCall (ReclaimOrder id)) (node_rt x) = Ok rt' /\
    free_balance (Balances rt') (proposer order) = free_balance (Balances (node_rt x)) (proposer order) + reward order.
Proof.
  intros Hinv Ho Hs Hc.
  destruct (reclaim_order_refunds (claims (sdk_reserved x) (node_rt x)) id order (mempool_at (node_rt x))) as (s' & Hok & Hf & _);
    [apply (rv_mempool _ _ _ Hinv)|done..|].
  exists (store s' (node_rt x)). split; [|exact Hf]. cbn [Runtime.dispatch]. unfold dispatch_mempool, run_in.
  cbn [MempoolProps.dispatch]. by rewrite Hok.
Qed.

(** ** Theorems *)

(** C5.  Deposits come back in full.  In every node the runtime reaches, every
    account's reserve covers together what the mempool owes, its miner deposit,
    its descriptor deposit, its programs' deposits and what the SDK reserved;
    so deregistering, clearing a descriptor, removing a program and reclaiming
    an expired order without solutions always succeed and return the whole
    amount, whatever the other pallets have done to the ledger. *)
Theorem composed_deposits_returned x who :
  node_reachable x -> let rt := node_rt x in
  owed who (mempool_at rt) + deposited who (RtPow rt) + described who (RtRegistry rt) +
    deposits_of who (RtXqvm rt) + sdk_reserved x who <= reserved_balance (Balances rt) who /\
  (forall m, Miners (RtPow rt) !! who = Some m ->
     exists rt', dispatch (Signed who) (PowCall DeregisterMiner) rt = Ok rt' /\
       free_balance (Balances rt') who = free_balance (Balances rt) who + QuantumPow.deposit m) /\
  (forall d, NodeDescriptors (RtRegistry rt) !! who = Some d ->
     exists rt', dispatch (Signed who) (RegistryCall ClearDescriptor) rt = Ok rt' /\
       free_balance (Balances rt') who = free_balance (Balances rt) who + MinerRegistry.deposit d) /\
  (forall h, ProgramOwner (RtXqvm rt) !! h = Some who ->
     exists rt' dep, dispatch (Signed who) (XqvmCall (RemoveProgram h)) rt = Ok rt' /\
       ProgramDeposit (RtXqvm rt) !! h = Some dep /\ Programs (RtXqvm rt') !! h = None /\
       on_hold (Balances rt') who = on_hold (Balances rt) who - dep /\
       reserved_balance (Balances rt') who = reserved_balance (Balances rt) who - dep) /\
  (forall id order, JobOrders (RtMempool rt) !! id = Some order -> proposer order = who ->
     status order = Expired -> solution_count order = 0 ->
     exists rt', dispatch (Signed who) (MempoolCall (ReclaimOrder id)) rt = Ok rt' /\
       free_balance (Balances rt') who = free_balance (Balances rt) who + reward order).
Proof.
  intros Hinv%node_reachable_inv. split_and!.
  - pose proof (reserves_cover _ _ _ who Hinv) as Hr. unfold claims in Hr. pose proof (xi_held _ _ _ (rv_xqvm _ _ _ Hinv) who) as Hh.
    change (deposits_of who (RtXqvm (node_rt x))) with (deposits_of who (xqvm_at (node_rt x))). rewrite <- Hh. simpl in *. lia.
  - intros m. by eapply deregister_refunds.
  - intros d. by eapply clear_refunds.
  - intros h. by eapply remove_releases.
  - intros id order Ho <-. by eapply reclaim_refunds.
Qed.

(** C31.  Every token is accounted for.  In every node the runtime reaches,
    the total issuance is at most what genesis and the SDK issued plus the two
    counters of the emission controller; the scheduled counter is within the
    exact entitlement at the node's clock, and nothing before the schedule has
    started; the faucet's is within its budget. *)
Theorem composed_issuance_accounted x :
  node_reachable x -> let rt := node_rt x in let e := RtEmission rt in
  total_issuance (Balances rt) <= sdk_issued x + ScheduledIssued e + FaucetIssued e /\
  ScheduledIssued e <= match StartAt e with
    | Some start => entitled runtime_emission_config start (clock rt)
    | None => 0 end /\
  FaucetIssued e <= FaucetBudget e.
Proof.
  intros Hinv%node_reachable_inv. pose proof (rv_issuance _ _ _ Hinv) as Ho. unfold off_books in Ho. simpl in Ho.
  split_and!; [lia|..]; destruct (rv_emission _ _ _ Hinv) as [_ [Hf|[start Hos]]].
  - pose proof (fr_enabled _ Hf) as [_ Es]. simpl in Es. rewrite Es. pose proof (fresh_issued _ Hf) as E0. simpl in E0. lia.
  - pose proof (os_running _ _ _ _ Hos) as [_ Es]. simpl in Es. rewrite Es.
    exact (on_schedule_total runtime_emission_config start (clock (node_rt x)) _ ltac:(done) Hos).
  - exact (fr_faucet _ Hf).
  - exact (os_faucet _ _ _ _ Hos).
Qed.

(** C17.  The runtime refines its pallets.  Seen from the compute mempool and
    from the proof of work, every node the composed runtime reaches is a state
    that pallet reaches alone, with the runtime's configuration, the rest of the
    runtime moving balances only: what is proved of the pallets' chains holds
    of the runtime. *)
Theorem runtime_refines_pallets x :
  node_reachable x ->
  MempoolSettlement.reachable (runtime_mempool_config builder) (mempool_view x) /\
  exists hs acc, QuantumPowProps.reachable (runtime_pow_config FoundationOrRoot) (pow_view hs acc x).
Proof. intros (rt & Hg & Hx). split; [by eapply node_mempool_reachable|by eapply node_pow_reachable]. Qed.

(** C11.  The runtime never aborts.  In every node it reaches from well-formed
    topologies, the next block starts (all hooks return a state), and no call
    of the repository's pallets, from any origin, with arguments of the Rust
    types, panics. *)
Theorem runtime_never_aborts `{!IsingPrimsLaws R, !XqvmLibLaws} rt0 x :
  runtime_genesis rt0 -> topologies_wf (RtPow rt0) -> rtc node_step (genesis_node rt0) x ->
  (forall header, exists rt', initialize_block pot header (node_rt x) = Ok rt') /\
  (forall o c, args_typed c -> dispatch o c (node_rt x) <> Panic).
Proof.
  intros Hg Hwf Hx. assert (node_reachable x) as Hr by by exists rt0.
  pose proof (node_reachable_inv x Hr) as Hinv. split.
  - intros header. destruct x as [rt b sr si]. by eapply initialize_total.
  - intros o c Hty. eapply dispatch_no_panic; [done|done|exact Hinv|by eapply node_topologies_wf| |exact Hty].
    exact (reachable_params (runtime_mempool_config builder) _ ltac:(done) (node_mempool_reachable _ _ _ _ _ _ _ Hg Hx)).
Qed.

(** An order the API calls open: it still takes solutions. *)
Definition takes_solutions rt (id : Z) : Prop :=
  exists order, api_job_order id rt = Some order /\ status order = Opened /\ System_number rt < order_expiry order.
Definition after (cursor : option Z) (id : Z) : Prop := forall c, cursor = Some c -> c < id.

Lemma open_orders_page rt cursor limit :
  sched_inv (mempool_at rt) -> 0 <= limit ->
  let page := api_open_order_ids cursor limit rt in
  StronglySorted Z.le page /\ NoDup page /\ zlen page <= Z.min limit 1000 /\
  (forall id, id ∈ page -> takes_solutions rt id /\ after cursor id) /\
  (forall id, takes_solutions rt id -> after cursor id ->
     id ∈ page \/ zlen page = Z.min limit 1000 /\ Forall (fun i => i <= id) page).
Proof.
  intros Hinv Hl. unfold api_open_order_ids, open_order_ids. cbv zeta. set (l := filter _ _). set (n := Z.to_nat _).
  destruct (page_spec Z.le n l) as (Hs & Hin & Hn & Hnd & Hrest).
  assert (forall id, id ∈ l <-> takes_solutions rt id /\ after cursor id) as Hel.
  { intros id. unfold l. rewrite list_elem_of_filter, elem_of_elements, (si_set _ Hinv), andb_true_iff.
    unfold takes_solutions, after, api_job_order, is_expired, order_expiry. simpl.
    destruct (JobOrders (RtMempool rt) !! id) as [o|]; [|naive_solver].
    rewrite andb_true_iff, bool_decide_eq_true, negb_true_iff, Z.leb_gt. destruct cursor as [c|]; [rewrite Z.ltb_lt|]; naive_solver. }
  split_and!; [done|apply Hnd, NoDup_filter, NoDup_elements|unfold zlen; lia|intros id Hid; by apply Hel, Hin|].
  intros id H1' H2'. destruct (Hrest id) as [?|[Hlen ?]]; [by apply Hel|by left|right]. split; [unfold zlen; lia|done].
Qed.

(** C7.  The APIs tell a consistent story.  In every node the runtime reaches,
    the qblock ids are exactly [1] to the latest, by id and by block the same
    qblock is found; every mineable topology has its data and difficulty, and
    the default one's is the current difficulty; and the pages of open order
    ids list, sorted and without gaps, exactly the orders that still take
    solutions. *)
Theorem api_views_consistent (iter_keys : gset H256 -> list H256) rt0 x :
  (forall X, iter_keys X ≡ₚ elements X) ->
  runtime_genesis rt0 -> topology_inv (RtPow rt0) -> rtc node_step (genesis_node rt0) x -> let rt := node_rt x in
  (forall id, is_Some (api_qblock_by_id id rt) <-> exists latest, api_latest_qblock_id rt = Some latest /\ 1 <= id <= latest) /\
  (forall id q, api_qblock_by_id id rt = Some q <->
     exists n, api_qblock_id_by_block n rt = Some id /\ api_qblock_by_block n rt = Some q) /\
  (forall h, h ∈ api_mineable_topologies iter_keys rt -> is_Some (api_topology_meta h rt) /\ is_Some (api_difficulty_for h rt)) /\
  (forall h, DefaultTopology (RtPow rt) = Some h -> api_difficulty_for h rt = Some (api_current_difficulty rt)) /\
  (forall cursor limit, 0 <= limit -> let page := api_open_order_ids cursor limit rt in
     StronglySorted Z.le page /\ NoDup page /\ zlen page <= Z.min limit 1000 /\
     (forall id, id ∈ page -> takes_solutions rt id /\ after cursor id) /\
     (forall id, takes_solutions rt id -> after cursor id ->
        id ∈ page \/ zlen page = Z.min limit 1000 /\ Forall (fun i => i <= id) page)).
Proof.
  intros Hit Hg Htop Hx rt. assert (runtime_inv program_hash 0 x) as Hinv by by eapply node_run_inv.
  destruct (node_pow_reachable pot builder program_hash descriptor_hash dispatch_root rt0 x Hg Hx) as (hs & acc & Hr).
  destruct (reachable_index_inv _ _ Hr) as [Hc Hids Hi Hb _ _]. cbn [pow_view QuantumPowProps.st] in *.
  assert (topology_inv (load (P := @PowState (@EmissionState C)) rt)) as [Hmr Hdm _ _].
  { apply (node_pow_keeps pot builder program_hash descriptor_hash dispatch_root topology_inv rt0 x); [|done|done|by destruct Htop].
    intros a b Hs Ha. by eapply step_topology_inv. }
  assert (forall h, is_Some (RegisteredTopologies (RtPow rt) !! h) ->
    api_difficulty_for h rt = Some (current_difficulty_for (runtime_pow_config FoundationOrRoot) h (System_number rt)
      (load (P := @PowState (@EmissionState C)) rt))) as Hd.
  { intros h Hh. unfold api_difficulty_for, difficulty_for_api. by rewrite bool_decide_true. }
  assert (forall id q, api_qblock_by_id id rt = Some q <->
     exists n, api_qblock_id_by_block n rt = Some id /\ api_qblock_by_block n rt = Some q) as Hby.
  { intros id q. unfold api_qblock_by_id, qblock_with_nonce_by_id, api_qblock_id_by_block, api_qblock_by_block. rewrite bind_Some.
    split; intros (n & Hn & Hq); exists n; (split; [by apply Hi|done]). }
  split_and!.
  - intros id. unfold api_latest_qblock_id, latest_qblock_id. split.
    + intros [q (n & Hn%Hi & _)%Hby]. assert (1 <= id <= QBlockCount (RtPow rt)) as Hid by (apply Hids; eauto).
      rewrite (proj2 (Z.ltb_lt _ _)) by lia. eauto.
    + intros (latest & Hl & Hid). case_match eqn:Hlt; [|done]. injection Hl as <-. apply Hids in Hid as [n Hn].
      apply Hi in Hn as Hn'. destruct (proj2 (Hb n)) as [b Hbn]; [by eauto|]. eexists. apply Hby. exists n. split; [done|].
      unfold api_qblock_by_block, qblock_with_nonce. unfold rt. rewrite Hbn. reflexivity.
  - exact Hby.
  - intros h Hh. unfold api_mineable_topologies in Hh. rewrite Hit, elem_of_elements in Hh. apply Hmr in Hh.
    split; [exact Hh|]. rewrite Hd by done. eauto.
  - intros h Hh. rewrite Hd by (apply Hmr, Hdm, Hh). unfold api_current_difficulty. by rewrite Hh.
  - intros cursor limit Hl. apply open_orders_page; [|done]. apply (MempoolSettlement.inv_sched _ (rv_mempool _ _ _ Hinv)).
Qed.

(** *** The checks around an upgrade *)

Lemma emission_checked x : runtime_inv program_hash 0 x -> emission_try_state runtime_emission_config (emission_at (node_rt x)) = Ok tt.
Proof.
  intros Hinv. destruct (rv_emission _ _ _ Hinv) as [Hro Hs]. apply books_checked; [exact Hro|..].
  - destruct Hs as [Hf|[start Hos]]; [exact (fr_faucet _ Hf)|exact (os_faucet _ _ _ _ Hos)].
  - destruct Hs as [Hf|[start Hos]]; [exact (fr_books _ Hf)|exact (os_books _ _ _ _ Hos)].
  - destruct Hs as [Hf|[start Hos]]; [by rewrite (fresh_issued _ Hf)|].
    eapply Z.le_lt_trans; [exact (on_schedule_total runtime_emission_config start (clock (node_rt x)) _ ltac:(done) Hos)|].
    unfold entitled. apply Z.le_lt_trans with (AnnualEmission runtime_emission_config * (2 ^ 64 - 1) / YEAR_SECONDS); [|done].
    apply Z.div_le_mono; [done|]. apply Z.mul_le_mono_nonneg_l; [done|]. unfold sat_u. lia.
Qed.

Context `{MintInto C, !MintIntoLaws C} {Raw : Type} (decode_descriptor decode_old : Raw -> option NodeDescriptor) (revive_account : AccountId).
#[local] Abbreviation storage := (@Storage C S M Raw).
#[local] Abbreviation execute_upgrade := (execute_on_runtime_upgrade decode_descriptor builder revive_account).
#[local] Abbreviation try_upgrade := (try_runtime_upgrade decode_descriptor builder revive_account).
Implicit Types u : storage.

(** The registry's current layout adds fields behind those of version 1, so a
    record that decodes in it decodes in the old one too, to the same deposit. *)
Context (layout_extends : forall raw d, decode_descriptor raw = Some d ->
  exists d', decode_old raw = Some d' /\ MinerRegistry.deposit d' = MinerRegistry.deposit d).

(** C29.  A runtime upgrade keeps the chain.  Code that names the other of the
    two networks is never installed.  Run again, the migrations and
    hooks of any upgrade that succeeded change nothing.  And take a storage
    that its own runtime, in the layouts it wrote, reads as a node the runtime
    reaches, whose mempool and emission controller are at a version that keeps
    their data and whose qblocks are in the layout of their version.  Its
    upgrade issues exactly the Revive account's existential deposit, if that
    account is missing, and nothing else; the new runtime reads every qblock of
    the old one.  A registry at version 1 loses all its records: the deposit of
    a record that decodes in the current layout is released, and the deposit of
    a record that does not (the old layout's, by the migration's own comment)
    stays locked; no other reserve moves, and a registry at another version
    keeps its records.  Afterwards every account's reserve still covers all that
    the pallets and the SDK account for, and the invariants of the runtime
    (deposits, schedule, faucet budget, programs, slashes, admission) hold there
    and in every node the new runtime reaches from it. *)
Theorem runtime_upgrade_keeps_chain :
  (forall W runtime_version decode_spec_name unchecked own other code (w : W) v,
     (own, other) ∈ [(MAINNET_VERSION, TESTNET_VERSION); (TESTNET_VERSION, MAINNET_VERSION)] ->
     runtime_version code = Some v -> decode_spec_name v = Some (spec_name other) ->
     guarded_set_code runtime_version decode_spec_name (spec_name own) unchecked code w = Err RUNTIME_IDENTITY_MISMATCH) /\
  (forall u u', execute_upgrade u = Ok u' -> execute_upgrade u' = Ok u') /\
  forall x u u',
    node_reachable x -> before decode_descriptor decode_old u = node_rt x -> NoDup (RawDescriptors u).*1 ->
    3 <= MempoolVersion u -> 2 <= PowVersion u <= POW_STORAGE_VERSION ->
    map_Forall (fun _ q => layout_of (PowVersion u) q) (RawQBlocks u) ->
    Emission.VERSION <= EmissionVersion u -> execute_upgrade u = Ok u' ->
    let cost := if account_exists (Balances (chain u)) revive_account then 0 else Params.EXISTENTIAL_DEPOSIT in
    let rt' := visible decode_descriptor u' in
    let record who := list_to_map (M := gmap AccountId Raw) (RawDescriptors u) !! who in
    total_issuance (Balances rt') = total_issuance (Balances (node_rt x)) + cost /\
    QBlocks (RtPow rt') = QBlocks (RtPow (node_rt x)) /\
    NodeDescriptors (RtRegistry rt') = (if decide (RegistryVersion u = 1) then ∅ else NodeDescriptors (RtRegistry (node_rt x))) /\
    (forall who, reserved_balance (Balances rt') who = reserved_balance (Balances (node_rt x)) who -
       (if decide (RegistryVersion u = 1)
        then match record who ≫= decode_descriptor with Some d => MinerRegistry.deposit d | None => 0 end else 0)) /\
    (forall who raw, record who = Some raw -> decode_descriptor raw = None ->
       reserved_balance (Balances rt') who = reserved_balance (Balances (node_rt x)) who) /\
    (forall who, owed who (mempool_at rt') + deposited who (RtPow rt') + described who (RtRegistry rt') +
       on_hold (Balances rt') who + sdk_reserved x who <= reserved_balance (Balances rt') who) /\
    (forall y, rtc node_step (mkNode rt' (in_block x) (sdk_reserved x) (sdk_issued x + cost)) y -> runtime_inv program_hash 0 y).
Proof.
  split; [intros W rv dn unchecked own other code w v Hpair Hv; by apply networks_refuse_each_other|].
  split; [exact (upgrade_idempotent decode_descriptor builder revive_account)|].
  intros x u u' Hinv%node_reachable_inv Hv Hnd Hm Hp Hlay He Hrun cost rt' record.
  assert (runtime_inv program_hash 0 (mkNode (before decode_descriptor decode_old u) (in_block x) (sdk_reserved x) (sdk_issued x))) as Hu
    by (rewrite Hv; by destruct x).
  destruct (upgrade_keeps_inv decode_descriptor decode_old builder revive_account program_hash layout_extends 0 u u' _ _ _
    Hnd Hm (proj1 Hp) He Hu Hrun) as (Hinv' & Hi & Hr).
  assert (forall who, reserved_balance (Balances rt') who = reserved_balance (Balances (node_rt x)) who -
    (if decide (RegistryVersion u = 1)
     then match record who ≫= decode_descriptor with Some d => MinerRegistry.deposit d | None => 0 end else 0)) as Hres.
  { intros who. rewrite <- Hv. etrans; [exact (Hr who)|]. f_equal. unfold released. fold (record who).
    destruct (decide (RegistryVersion u = 1)) as [->|Hne]; [|by rewrite (proj2 (Z.eqb_neq _ _) Hne)]. simpl.
    destruct (record who) as [raw|]; [|done]. unfold seen_deposit. simpl. by destruct (decode_descriptor raw). }
  split_and!.
  - rewrite <- Hv. exact Hi.
  - rewrite <- Hv. by eapply upgrade_keeps_qblocks.
  - case_decide; [by eapply upgrade_drains|]. rewrite <- Hv. by eapply upgrade_keeps_descriptors.
  - exact Hres.
  - intros who raw Hraw Hdec. rewrite (Hres who), Hraw. cbn. rewrite Hdec. case_decide; lia.
  - intros who. pose proof (reserves_cover program_hash 0 _ who Hinv') as Hc. unfold claims in Hc. cbn [node_rt sdk_reserved] in Hc. fold rt' in Hc. lia.
  - intros y Hy. eapply (rtc_ind_r (runtime_inv program_hash 0)); [exact Hinv'| |exact Hy]. intros a b _ Hab Ha. by eapply node_step_keeps.
Qed.

(** C37.  The checks around upgrades hold.  Take a storage that its own
    runtime, in the layouts it wrote, reads as a node the runtime reaches, and
    that an upgrade can start from: the Revive account exists or can be issued,
    the offences are at version 0 or 1, the plain spec is in place unless the
    mempool is wiped, and the proof of work is at a version from 2 on with its
    qblocks in that version's layout, to be re-encoded where it is an old one.
    Then [try_runtime_upgrade] passes every check of every step and the state
    checks after them, and gives what the upgrade without the checks gives.  The
    proof of work's own check, on any chain up to the current version, passes
    exactly when the version is at least 2 or there are no qblocks, and fails
    with [QBlocksNotPreserved] otherwise: for a chain wiped with qblocks in it.
    The offences' check passes from versions 0 and 1 only, and the integrity
    tests hold for the runtime's configuration. *)
Theorem upgrade_checks_pass x u :
  node_reachable x -> before decode_descriptor decode_old u = node_rt x -> upgrade_input builder revive_account u ->
  (exists u', try_upgrade u = Ok u' /\ execute_upgrade u = Ok u') /\
  (forall on_chain (p : @Upgrading C), on_chain <= POW_STORAGE_VERSION ->
     (2 <= on_chain -> map_Forall (fun _ q => layout_of on_chain q) (raw_qblocks p)) ->
     (on_chain = POW_STORAGE_VERSION -> winner_streak p = false) ->
     let r := pow_runtime_upgrade on_chain p in
     pow_post_upgrade (pow_pre_upgrade on_chain p) r.1 r.2 =
       if decide (2 <= on_chain \/ raw_qblocks p = ∅) then Ok tt else Err QBlocksNotPreserved) /\
  (forall version, offences_post_upgrade (initialize_offences version) = Ok tt <-> version = 0 \/ version = 1) /\
  emission_integrity_test runtime_emission_config && admission_integrity_test Params.MaxAdmittedAuthorities &&
    pow_integrity_test (runtime_pow_config FoundationOrRoot) && slash_integrity_test runtime_slash_config = true.
Proof.
  intros Hinv%node_reachable_inv Hv Hin. split_and!; [|apply pow_check_exact|apply offences_checked|reflexivity].
  destruct (upgrade_passes decode_descriptor builder revive_account u) as (u' & Ht & Hr & _); [|eauto].
  pose proof (emission_checked x Hinv) as Hem. pose proof (rv_admission _ _ _ Hinv) as Had. rewrite <- Hv in Hem, Had.
  split; [exact Hin|exact Hem|exact Had].
Qed.
End Composition.

(** C16.  The origin matrix is exact.  A call of any of the repository's
    pallets is refused with [BadOrigin] exactly when the table of who may do
    what does not admit the origin; so no privileged call succeeds from
    anywhere else.  The table is the code's: changing the block reward and the
    round length takes the Foundation or Root, although the comments on the
    runtime's [AdminOrigin] and on [set_block_reward] say it is not for Root;
    the theorem states this case by itself.  The Foundation is a motion with at
    least two thirds of its seats, which for the six seats of genesis is four
    votes; neither Root nor any account is it. *)
Theorem origin_matrix_exact `{UsizeWidth, DifficultyPrims, PowPrims} {R : Type} `{IsingPrims R, SpArithmetic, XqvmLib}
    `{MempoolPrims, EnsureProportion, !EnsureProportionLaws, PerbillTimes, DbWeight}
    {C : Type} `{Currency C, Issuance C, Holds C} {S : Type} `{StakingOps S} {M : Type} `{MultiBlock M}
    builder program_hash descriptor_hash (dispatch_root : RuntimeCall -> @Runtime C S M -> @Runtime C S M * bool) :
  (forall o c rt, Runtime.dispatch builder program_hash descriptor_hash dispatch_root o c rt = Err BadOrigin <-> authorised o c rt = false) /\
  (forall amount rt, Runtime.dispatch builder program_hash descriptor_hash dispatch_root Root (PowCall (SetBlockReward amount)) rt <> Err BadOrigin) /\
  (forall blocks rt, Runtime.dispatch builder program_hash descriptor_hash dispatch_root Root (PowCall (SetTargetProofBlocks blocks)) rt <> Err BadOrigin) /\
  (forall o, FoundationOrigin o = true <-> exists yes seats, o = Collective (Members yes seats) /\ 2 * seats <= 3 * yes) /\
  (forall yes, FoundationOrigin (Collective (Members yes 6)) = true <-> 4 <= yes).
Proof.
  split_and!; [apply dispatch_matrix|by intros ? ? ?%dispatch_matrix..|apply FoundationOrigin_iff|].
  intros yes. rewrite FoundationOrigin_iff. split; [intros (y & n & [= <- <-] & ?); lia|]. intros Hy. exists yes, 6. split; [done|lia].
Qed.

(** ** Witnesses *)

#[local] Existing Instances Vault.currency Vault.issuance Vault.holds Vault.currency_laws Vault.issuance_laws Vault.holds_laws Vault.balances_laws Vault.mint Vault.mint_laws.

Definition co_pot (subnet : Z) : AccountId := 900 + subnet.
Definition co_program_hash (b : list Z) : H256 := zsum b.
Definition co_descriptor_hash (_ : NodeDescriptorInput) : H256 := 5.
#[local] Abbreviation co_runtime := (@Runtime Vault.t toy_staking toy_mbe).
Definition co_root (_ : RuntimeCall) (rt : co_runtime) : co_runtime * bool := (rt, true).

(** A genesis with one funded account and an enabled schedule. *)
Definition co_genesis : co_runtime :=
  mkRuntime 0 [] [] 0 (Vault.mk (Ledger.mk {[ 7 := 1000 * Params.UNIT ]} ∅) ∅) None
    (mkXqvmState ∅ ∅ ∅ tt [])
    (mkMempoolState ∅ ∅ 0 ∅ ∅ 0 ∅ ∅ ∅ ∅ ∅ ∅ ∅ ∅ 0 tt [])
    (mkPowState ∅ None ∅ ∅ ∅ ∅ None 0 0 0 ∅ 0 ∅ ∅ None None 0 [] tt [])
    FaucetEnabled (Some 8) 1
    (mkRegistryState ∅ ∅ ∅ ∅ 0 tt [])
    (mkEmissionState true None [(ISING_SUBNET, BILLION)] ∅ 0 (10 * Params.UNIT) 0 tt [])
    FoundationOnly ∅ (10, ∅) (ElectionRound.mkChain (None, []) NotForcing None ∅ 0)
    (mkSlashState DEFAULT_PER_MOTION DEFAULT_CUMULATIVE 6 ∅ tt []).

#[local] Abbreviation co_dispatch := (Runtime.dispatch 3 co_program_hash co_descriptor_hash co_root).
#[local] Abbreviation co_step := (node_step co_pot 3 co_program_hash co_descriptor_hash co_root).
#[local] Abbreviation co_reached := (node_reachable co_pot 3 co_program_hash co_descriptor_hash co_root).

Definition co_at (rt : co_runtime) (b : bool) : @Node Vault.t toy_staking toy_mbe :=
  genesis_node co_genesis <| node_rt := rt |> <| in_block := b |>.
Lemma co_at_rt rt b : node_rt (co_at rt b) = rt.
Proof. reflexivity. Qed.
Definition co_block (rt : co_runtime) : co_runtime :=
  default rt (rok (initialize_block co_pot (replicate 32 1) rt)).
Definition co_call (who : Z) (c : PalletCall) (rt : co_runtime) : co_runtime := default rt (rok (co_dispatch (Signed who) c rt)).

(** Two blocks: in the first, account 7 registers as a miner, describes its
    node and stores a program, and the faucet mints; the second starts the
    schedule. *)
Definition co_start : co_runtime := set_timestamp 10000 (co_block co_genesis).
Definition co_mining : co_runtime := co_call 7 (PowCall RegisterMiner) co_start.
Definition co_described : co_runtime := co_call 7 (RegistryCall (SetDescriptor tiny_input)) co_mining.
Definition co_stored : co_runtime := co_call 7 (XqvmCall (StoreProgram [1; 2; 3])) co_described.
Definition co_first : co_runtime := co_call 8 (FaucetCall (Mint 9 Params.UNIT)) co_stored.
Definition co_second : co_runtime := co_block (finalize_block co_pot co_first).

Lemma co_call_step who c rt :
  RuntimeProps.call_typed 3 c -> NextOrderId (RtMempool rt) + 1 < 2 ^ 64 ->
  is_ok (co_dispatch (Signed who) c rt) = true -> co_step (co_at rt true) (co_at (co_call who c rt) true).
Proof.
  intros Hty Hid Hok. apply ns_act. unfold co_call, co_at. simpl. destruct (co_dispatch _ _ _) as [rt'| |] eqn:Hd; try done.
  exact (act_call _ _ _ _ rt rt' _ _ _ _ Hty Hid Hd).
Qed.

Lemma co_block_step rt :
  System_number rt + 2 < 2 ^ 32 -> is_ok (initialize_block co_pot (replicate 32 1) rt) = true ->
  co_step (co_at rt false) (co_at (co_block rt) true).
Proof.
  intros Hn Hok. unfold co_block, co_at. simpl. destruct (initialize_block _ _ _) as [rt'| |] eqn:Hd; try done.
  exact (ns_initialize _ _ _ _ _ rt rt' _ _ (replicate 32 1) eq_refl Hn Hd).
Qed.

Lemma co_time_step rt now : Timestamp_now rt <= now < 2 ^ 64 -> co_step (co_at rt true) (co_at (set_timestamp now rt) true).
Proof. intros Hn. by apply ns_timestamp. Qed.
Lemma co_final_step rt : co_step (co_at rt true) (co_at (finalize_block co_pot rt) false).
Proof. apply ns_finalize. Qed.

Lemma co_first_reached : rtc co_step (genesis_node co_genesis) (co_at co_first true).
Proof.
  apply rtc_l with (co_at (co_block co_genesis) true); [apply (co_block_step co_genesis); vm_compute; reflexivity|].
  apply rtc_l with (co_at co_start true);
    [apply (co_time_step (co_block co_genesis)); vm_compute; split; congruence|].
  apply rtc_l with (co_at co_mining true); [apply (co_call_step 7 (PowCall RegisterMiner) co_start); [exact I|vm_compute; reflexivity..]|].
  apply rtc_l with (co_at co_described true); [apply (co_call_step 7 (RegistryCall (SetDescriptor tiny_input)) co_mining); [exact I|vm_compute; reflexivity..]|].
  apply rtc_l with (co_at co_stored true); [apply (co_call_step 7 (XqvmCall (StoreProgram [1; 2; 3])) co_described); [exact I|vm_compute; reflexivity..]|].
  apply rtc_once. apply (co_call_step 8 (FaucetCall (Mint 9 Params.UNIT)) co_stored); [exact I|vm_compute; reflexivity..].
Qed.

Lemma co_second_reached : rtc co_step (genesis_node co_genesis) (co_at co_second true).
Proof.
  etrans; [exact co_first_reached|]. unfold co_second.
  apply rtc_l with (co_at (finalize_block co_pot co_first) false); [exact (co_final_step co_first)|].
  assert (is_ok (initialize_block co_pot (replicate 32 1) (finalize_block co_pot co_first)) = true) as Hok by (vm_compute; reflexivity).
  assert (System_number (finalize_block co_pot co_first) + 2 < 2 ^ 32) as Hn by (vm_compute; reflexivity).
  exact (rtc_once _ _ (co_block_step (finalize_block co_pot co_first) Hn Hok)).
Qed.

Lemma co_genesis_ok : runtime_genesis co_genesis.
Proof.
  split; simpl; try done.
  - split_and!; [reflexivity|split|done].
    + done.
    + split; simpl; [by apply NoDup_singleton|split; [by apply Forall_singleton|done]|done|]. intros id. unfold subnet_issued. simpl. by rewrite lookup_empty.
    + intros id. unfold subnet_issued. simpl. by rewrite lookup_empty.
    + done.
  - eexists. split; [reflexivity|]. split; [done|]. intros stash. unfold history_of. simpl. rewrite lookup_empty. simpl. split; simpl; try done; constructor.
Qed.

Lemma co_reached_first : co_reached (co_at co_first true).
Proof. exists co_genesis. split; [apply co_genesis_ok|apply co_first_reached]. Qed.

Lemma composed_deposits_returned_witness :
  reserved_balance (Balances co_first) 7 = 1201032000000 /\
  exists rt', co_dispatch (Signed 7) (PowCall DeregisterMiner) co_first = Ok rt' /\
    free_balance (Balances rt') 7 = free_balance (Balances co_first) 7 + Params.UNIT.
Proof.
  split; [vm_compute; reflexivity|].
  pose proof (composed_deposits_returned co_pot 3 co_program_hash co_descriptor_hash co_root (co_at co_first true) 7 co_reached_first) as Hd.
  cbv zeta in Hd. rewrite co_at_rt in Hd. destruct Hd as (_ & Hm & _).
  apply (Hm (QuantumPow.mkMinerInfo 1 Params.UNIT 0 0 0)). vm_compute. reflexivity.
Defined.

Lemma composed_issuance_accounted_witness :
  FaucetIssued (RtEmission co_second) = Params.UNIT /\ StartAt (RtEmission co_second) = Some 10 /\
  total_issuance (Balances co_second) <= 1000 * Params.UNIT + 0 + Params.UNIT.
Proof.
  split; [vm_compute; reflexivity|]. split; [vm_compute; reflexivity|].
  assert (co_reached (co_at co_second true)) as Hr by (exists co_genesis; split; [apply co_genesis_ok|apply co_second_reached]).
  pose proof (composed_issuance_accounted co_pot 3 co_program_hash co_descriptor_hash co_root (co_at co_second true) Hr) as Hi.
  cbv zeta in Hi. rewrite co_at_rt in Hi. destruct Hi as (Hle & _).
  replace (ScheduledIssued (RtEmission co_second)) with 0 in Hle by (vm_compute; reflexivity).
  replace (FaucetIssued (RtEmission co_second)) with Params.UNIT in Hle by (vm_compute; reflexivity). exact Hle.
Defined.

Lemma runtime_refines_pallets_witness :
  MempoolSettlement.reachable (runtime_mempool_config 3) (mempool_view (co_at co_first true)).
Proof.
  apply (runtime_refines_pallets co_pot 3 co_program_hash co_descriptor_hash co_root (co_at co_first true)).
  apply co_reached_first.
Defined.

Lemma runtime_never_aborts_witness :
  (exists rt', initialize_block co_pot [1] co_first = Ok rt') /\ co_dispatch Root (MempoolCall (ClaimReward 5)) co_first <> Panic.
Proof.
  destruct (runtime_never_aborts co_pot 3 co_program_hash co_descriptor_hash co_root co_genesis (co_at co_first true)) as [Hb Hc].
  - apply co_genesis_ok.
  - intros th t Ht. simpl in Ht. rewrite lookup_empty in Ht. discriminate.
  - apply co_first_reached.
  - rewrite co_at_rt in Hb, Hc. split; [apply Hb|apply (Hc Root (MempoolCall (ClaimReward 5)) I)].
Defined.

Lemma origin_matrix_exact_witness :
  co_dispatch (Signed 7) (AdmissionCall (CallApprove 9)) co_genesis = Err BadOrigin /\
  FoundationOrigin (Collective (Members 4 6)) = true /\ FoundationOrigin (Collective (Members 3 6)) = false.
Proof.
  destruct (origin_matrix_exact 3 co_program_hash co_descriptor_hash co_root) as (Hm & _ & Hv).
  split; [apply Hm; reflexivity|]. split; [apply Hv; lia|reflexivity].
Defined.

(** The first block continued: Root registers a topology and an easy
    difficulty, account 7 mines on it, and the block is finalized. *)
Definition mine_spec : AllowedValueSpec := SetSpec [-1000; 1000].
Definition mine_nodes : list Z := seqZ 0 16.
Definition mine_edges : list (Z * Z) := (fun i => (i, i + 1)) <$> seqZ 0 15.
Definition mine_hash : Z := hash_topology mine_nodes mine_edges mine_spec mine_spec mine_spec.
Definition mine_proof : QuantumProof :=
  mkQuantumProof mine_hash (derive_nonce (replicate 32 1) (account_to_bytes 7) [7]) [7] [[255; 255]] 0.
Definition co_root_call (c : PalletCall) (rt : co_runtime) : co_runtime := default rt (rok (co_dispatch Root c rt)).
Definition co_topology : co_runtime :=
  co_root_call (PowCall (RegisterTopology mine_nodes mine_edges mine_spec mine_spec mine_spec)) co_first.
Definition co_easy : co_runtime := co_root_call (PowCall (SetDifficulty mine_hash (mkDifficultyConfig 1 1000000 0))) co_topology.
Definition co_proved : co_runtime := co_call 7 (PowCall (SubmitProof mine_proof)) co_easy.
Definition co_mined : co_runtime := finalize_block co_pot co_proved.

Lemma co_root_step c rt :
  RuntimeProps.call_typed 3 c -> NextOrderId (RtMempool rt) + 1 < 2 ^ 64 ->
  is_ok (co_dispatch Root c rt) = true -> co_step (co_at rt true) (co_at (co_root_call c rt) true).
Proof.
  intros Hty Hid Hok. apply ns_act. unfold co_root_call, co_at. simpl. destruct (co_dispatch _ _ _) as [rt'| |] eqn:Hd; try done.
  exact (act_call _ _ _ _ rt rt' _ _ _ _ Hty Hid Hd).
Qed.

Lemma co_mined_reached : rtc co_step (genesis_node co_genesis) (co_at co_mined false).
Proof.
  etrans; [exact co_first_reached|].
  apply rtc_l with (co_at co_topology true).
  { apply (co_root_step (PowCall (RegisterTopology mine_nodes mine_edges mine_spec mine_spec mine_spec)) co_first);
      [|vm_compute; reflexivity..]. apply (bool_decide_unpack _). vm_compute. exact I. }
  apply rtc_l with (co_at co_easy true).
  { apply (co_root_step (PowCall (SetDifficulty mine_hash (mkDifficultyConfig 1 1000000 0))) co_topology); [exact I|vm_compute; reflexivity..]. }
  apply rtc_l with (co_at co_proved true).
  { apply (co_call_step 7 (PowCall (SubmitProof mine_proof)) co_easy); vm_compute; reflexivity. }
  exact (rtc_once _ _ (co_final_step co_proved)).
Qed.

Lemma co_reached_mined : co_reached (co_at co_mined false).
Proof. exists co_genesis. split; [apply co_genesis_ok|apply co_mined_reached]. Qed.

(** The mined block's storage as an older runtime wrote it: its qblock without
    the device time (version 4), its descriptor in the registry's old layout.
    Stored bytes are a descriptor and whether it has the current layout. *)
Abbreviation co_raw := (bool * NodeDescriptor)%type (only parsing).
Definition co_decode (raw : co_raw) : option NodeDescriptor := if raw.1 then Some raw.2 else None.
Definition co_decode_old (raw : co_raw) : option NodeDescriptor := Some raw.2.
Lemma co_layout_extends raw d : co_decode raw = Some d -> exists d', co_decode_old raw = Some d' /\ MinerRegistry.deposit d' = MinerRegistry.deposit d.
Proof. destruct raw as [[] d']; [|done]. intros [= ->]. by exists d. Qed.

Definition co_storage (mempool : Z) : @Storage Vault.t toy_staking toy_mbe co_raw :=
  storage_of (pair false) (StoredV4 ∘ v4_of_v5) 1 mempool 4 co_mined.
#[local] Abbreviation co_execute := (execute_on_runtime_upgrade (C := Vault.t) (S := toy_staking) (M := toy_mbe) co_decode 3 77).
Definition co_upgraded : @Storage Vault.t toy_staking toy_mbe co_raw := default (co_storage 3) (rok (co_execute (co_storage 3))).

Lemma co_before mempool : before co_decode co_decode_old (co_storage mempool) = node_rt (co_at co_mined false).
Proof.
  rewrite co_at_rt. apply before_storage; [done|].
  apply map_Forall_to_list. vm_compute. repeat constructor.
Qed.

Lemma co_layout mempool : map_Forall (fun _ q => layout_of (PowVersion (co_storage mempool)) q) (RawQBlocks (co_storage mempool)).
Proof. apply map_Forall_to_list. vm_compute. repeat constructor. Qed.

(** The qblock is read after the upgrade; the descriptor, whose bytes do not
    decode in the current layout, is gone while its deposit stays locked. *)
Lemma runtime_upgrade_keeps_chain_witness :
  co_execute co_upgraded = Ok co_upgraded /\
  total_issuance (Balances (chain co_upgraded)) = total_issuance (Balances co_mined) + Params.EXISTENTIAL_DEPOSIT /\
  QBlocks (RtPow (visible co_decode co_upgraded)) = QBlocks (RtPow co_mined) /\
  0 < described 7 (RtRegistry co_mined) /\ NodeDescriptors (RtRegistry (visible co_decode co_upgraded)) = ∅ /\
  reserved_balance (Balances (chain co_upgraded)) 7 = reserved_balance (Balances co_mined) 7.
Proof.
  assert (co_execute (co_storage 3) = Ok co_upgraded) as Hrun by (vm_compute; reflexivity).
  destruct (runtime_upgrade_keeps_chain co_pot 3 co_program_hash co_descriptor_hash co_root co_decode co_decode_old 77 co_layout_extends) as (_ & Hid & Hkeep).
  split; [exact (Hid _ _ Hrun)|].
  destruct (Hkeep (co_at co_mined false) (co_storage 3) co_upgraded co_reached_mined) as (Hi & Hq & Hd & _ & Hs & _).
  - apply co_before.
  - apply storage_of_keys.
  - vm_compute. discriminate.
  - vm_compute. split; discriminate.
  - apply co_layout.
  - vm_compute. discriminate.
  - exact Hrun.
  - assert (account_exists (Balances (chain (co_storage 3))) 77 = false) as E by (vm_compute; reflexivity).
    rewrite E, co_at_rt, visible_balances in Hi. rewrite co_at_rt in Hq.
    rewrite visible_balances, co_at_rt in Hs. split; [exact Hi|]. split; [exact Hq|]. split; [vm_compute; reflexivity|]. split; [exact Hd|].
    assert (exists raw, list_to_map (M := gmap AccountId co_raw) (RawDescriptors (co_storage 3)) !! 7 = Some raw /\ co_decode raw = None)
      as (raw & Hraw & Hdec) by (eexists; split; vm_compute; reflexivity).
    exact (Hs 7 raw Hraw Hdec).
Defined.

Lemma upgrade_checks_pass_witness :
  (exists u', try_runtime_upgrade (C := Vault.t) (S := toy_staking) (M := toy_mbe) co_decode 3 77 (co_storage 1) = Ok u') /\
  size (RawQBlocks (co_storage 1)) = 1%nat.
Proof.
  destruct (upgrade_checks_pass co_pot 3 co_program_hash co_descriptor_hash co_root co_decode co_decode_old 77 (co_at co_mined false) (co_storage 1) co_reached_mined) as ((u' & Hu & _) & _).
  - apply co_before.
  - split.
    + right. vm_compute. reflexivity.
    + left. reflexivity.
    + intros Hv. vm_compute in Hv. by contradict Hv.
    + vm_compute. split; discriminate.
    + apply co_layout.
    + intros Hv. vm_compute in Hv. discriminate.
    + vm_compute. discriminate.
  - split; [by exists u'|vm_compute; reflexivity].
Defined.

Lemma api_views_consistent_witness :
  api_open_order_ids None 10 co_mined = [] /\ api_latest_qblock_id co_mined = Some 1 /\
  is_Some (api_qblock_by_id 1 co_mined) /\ ~ is_Some (api_qblock_by_id 2 co_mined).
Proof.
  split; [vm_compute; reflexivity|].
  assert (api_latest_qblock_id co_mined = Some 1) as Hone by (vm_compute; reflexivity). split; [exact Hone|].
  destruct (api_views_consistent co_pot 3 co_program_hash co_descriptor_hash co_root elements co_genesis (co_at co_mined false)) as (Hq & _).
  - intros X. reflexivity.
  - apply co_genesis_ok.
  - clear Hone. split; simpl; set_solver.
  - apply co_mined_reached.
  - rewrite co_at_rt in Hq. split.
    + apply Hq. exists 1. split; [exact Hone|lia].
    + intros (latest & Hl & Hle)%Hq. rewrite Hone in Hl. injection Hl as <-. lia.
Defined.
