(* ===== verification/MempoolTheorems.v ===== *)
(** * Theorems about the compute mempool

    The properties of [pallets/quantum-compute-mempool] over arbitrary runs,
    each with a witness on a concrete run: two solvers compete for an order,
    which expires and is settled. *)

From S2P Require Import Prelude Validation Energy Diversity SolutionReport Frame Xqvm MempoolCore Mempool XqvmAdapter MempoolProps MempoolSettlement Instances.

(** ** Executable runs *)

#[export] Instance call_typed_dec cfg c : Decision (call_typed cfg c).
Proof. destruct c; simpl; apply _. Defined.

Section Runs.
Context `{QuantumVm, MempoolPrims} {W : Type} `{Currency W}.
Context (cfg : MempoolConfig).
#[local] Abbreviation state := (@MempoolState W).

(** One step of a run: a new block, or a call. *)
Definition run_op (s : state) (op : option (Origin * call)) : option state :=
  match op with
  | None =>
      if decide (block_number s + 2 < 2 ^ 32)
      then rok (on_initialize (block_number s + 1) (s <| block_number := block_number s + 1 |>)) else None
  | Some (o, c) =>
      if decide (NextOrderId s + 1 < 2 ^ 64 /\ call_typed cfg c) then rok (dispatch cfg o c s) else None
  end.

Definition run_ops (s : state) (ops : list (option (Origin * call))) : option state :=
  foldl (fun s op => s ≫= fun s => run_op s op) (Some s) ops.

Lemma run_ops_reachable ops s s' others :
  reachable cfg (s, others) -> run_ops s ops = Some s' -> reachable cfg (s', others).
Proof.
  unfold run_ops. revert s. induction ops as [|op ops IH]; intros s Hr; simpl; [by intros [= <-]|].
  destruct (run_op s op) as [s1|] eqn:Hop.
  - apply IH. eapply reach_step; [exact Hr|]. unfold run_op in Hop. destruct op as [[o c]|]; case_decide as Hd; try done.
    + destruct (dispatch cfg o c s) eqn:Hc; simplify_eq/=. destruct Hd. by eapply step_call.
    + destruct (on_initialize _ _) eqn:Hc; simplify_eq/=. by eapply step_block.
  - assert (forall l, foldl (fun (s : option state) op => s ≫= fun s => run_op s op) None l = None) as -> by (by induction l). done.
Qed.
End Runs.

(** ** A concrete run *)

Definition ex_vm : QuantumVm := XqvmAdapter (fun _ => None) 1000 1000.
#[local] Existing Instance ex_vm.

Definition ex_cfg : MempoolConfig := mkMempoolConfig 64 8 4 100 50 10 20 3 [1].
Definition ex_genesis : @MempoolState Ledger.t :=
  mkMempoolState ∅ ∅ 0 ∅ ∅ 0 ∅ ∅ ∅ ∅ ∅ ∅ ∅ ∅ 0 (Ledger.mk {[ 1 := 100; 7 := 50; 8 := 50 ]} ∅) [].
Definition ex_params : IsingParams := mkIsingParams [0; 1] [(0, 1)] [0; 0] [1000] None None (Some 1).

(** A specification, two solvers, and two orders in block one; one order gets
    two solutions in block two, the other none. *)
Definition ex_open_ops : list (option (Origin * call)) :=
  [None;
   Some (Root, RegisterJobSpec 3 [5] IsingFormulation None None);
   Some (Signed 7, RegisterSolver Cpu); Some (Signed 8, RegisterSolver Gpu);
   Some (Signed 1, ProposeJob 5 ex_params 15 Open (TopNEqual 2) 5 2 OnChainOnly None);
   Some (Signed 1, ProposeJob 5 ex_params 10 Open SingleBest 3 2 OnChainOnly None);
   None;
   Some (Signed 7, SubmitSolution 0 [[1; 1]] None); Some (Signed 8, SubmitSolution 0 [[1; -1]] None)].
Definition ex_open : MempoolState := default ex_genesis (run_ops ex_cfg ex_genesis ex_open_ops).
(** Two blocks later both orders have expired. *)
Definition ex_expired : MempoolState := default ex_genesis (run_ops ex_cfg ex_open [None; None]).
Definition ex_claimed : MempoolState :=
  default ex_genesis (rok (claim_reward (Signed 9) 0 ex_expired)).

Definition ex_others : Z -> Z := reserved_balance (world ex_genesis).

Lemma ex_open_reachable : reachable ex_cfg (ex_open, ex_others).
Proof.
  eapply (run_ops_reachable ex_cfg ex_open_ops ex_genesis); [|vm_compute; reflexivity].
  apply reach_genesis. by split.
Qed.

Lemma ex_expired_reachable : reachable ex_cfg (ex_expired, ex_others).
Proof.
  eapply (run_ops_reachable ex_cfg [None; None] ex_open); [apply ex_open_reachable|vm_compute; reflexivity].
Qed.

(** ** Theorems *)

Section Theorems.
Context `{QuantumVm, MempoolPrims} {W : Type} `{Currency W}.
Context (cfg : MempoolConfig).
#[local] Abbreviation state := (@MempoolState W).
Implicit Types s : state.

(** C1.  Settlement pays the whole reward by the order's rule.  In every
    reachable state, a claim that succeeds was on an order whose payouts add up
    to exactly its reward, are non-negative, go to distinct solvers with their
    own best energies, and leave a solver out only if every winner is at least
    as good.  They follow the rule ([by_rule]): [SingleBest] pays one solver,
    [TopNEqual n] and [TopNWeighted n] the best [n] there are, best first; rank
    [i] of [k] gets its share by weight (equal weights, or [k - i]) rounded
    down, and the leader in addition what rounding leaves, less than one unit
    per winner.  Every winner other than the proposer itself is credited exactly
    its payout, every registered winner's count of rewards grows by it, and the
    order is closed. *)
Theorem claim_pays_reward_in_full `{!CurrencyLaws W, !MempoolPrimsLaws} s others o id s' :
  0 <= MinReward cfg -> reachable cfg (s, others) -> claim_reward o id s = Ok s' ->
  exists order ps, JobOrders s !! id = Some order /\ compute_payouts id order s = Ok ps /\
    fair_payouts (reward order) (best_energies id s) ps /\
    by_rule (resolution order) (reward order) (best_energies id s) ps /\
    (forall w a e, (w, a, e) ∈ ps -> w <> proposer order ->
       free_balance (world s') w = free_balance (world s) w + a) /\
    (forall w a e info, (w, a, e) ∈ ps -> Solvers s !! w = Some info -> Solvers s' !! w = Some (earned info a)) /\
    (exists order', JobOrders s' !! id = Some order' /\ status order' = Closed).
Proof. intros Hm Hr. eapply claim_reward_pays, reachable_inv; done. Qed.

(** C2.  No open order is ever stranded.  In every reachable state the set of
    open orders is exact, and each of them waits in an expiry bucket that the
    cursor has not passed and that is not before the order's expiry. *)
Theorem open_orders_never_stranded `{!CurrencyLaws W, !MempoolPrimsLaws} s others :
  0 <= MinReward cfg -> reachable cfg (s, others) ->
  (forall id, id ∈ OpenOrders s <-> exists order, JobOrders s !! id = Some order /\ status order = Opened) /\
  (forall id order, JobOrders s !! id = Some order -> status order = Opened ->
     exists b, id ∈ orders_at b s /\ NextExpiryBucket s <= b /\ order_expiry order <= b).
Proof.
  intros Hm Hr. destruct (inv_sched _ (reachable_inv cfg _ Hm Hr)) as [_ Hopen Hset _ _].
  split; [apply Hset|apply Hopen].
Qed.

(** The reserves cover what is owed.  In every reachable state, every
    account's reserved balance covers the rewards of its unsettled orders on
    top of what the other pallets hold. *)
Theorem reserves_cover_open_rewards `{!CurrencyLaws W, !MempoolPrimsLaws} s others :
  0 <= MinReward cfg -> reachable cfg (s, others) ->
  (forall x, owed x s + others x <= reserved_balance (world s) x) /\
  (forall id order, JobOrders s !! id = Some order -> status order <> Closed ->
     (unreserve (world s) (proposer order) (reward order)).2 = 0).
Proof.
  intros Hm Hr. pose proof (reachable_inv cfg _ Hm Hr) as Hinv. split.
  - intros x. apply (inv_solvent _ Hinv x).
  - intros id order. apply (reserve_present others s id order (inv_solvent _ Hinv) (inv_typed _ Hinv)).
Qed.

(** C6.  Settlement can only fail outside the pallet.  In every reachable
    state, the specification of every order is registered; claiming an expired
    order that has solutions computes payouts and winners, and returns the
    virtual machine's own error (or panic) on those winners if it has one;
    otherwise the claim succeeds or fails in a currency transfer: the reserve is
    there and nothing else fails.  The runtime's adapter has no error of its
    own. *)
Theorem claim_fails_only_in_transfer `{!CurrencyLaws W, !MempoolPrimsLaws} s others who id order :
  0 <= MinReward cfg -> reachable cfg (s, others) ->
  JobOrders s !! id = Some order -> status order = Expired -> 0 < solution_count order ->
  (exists spec ps winners, JobSpecs s !! spec_id order = Some spec /\
     compute_payouts id order s = Ok ps /\ winner_summaries_from_payouts ps = Ok winners /\
     match vm_validate_result (spec_id order) (validation_program spec) (transform_program spec) winners with
     | Ok _ => is_ok (claim_reward (Signed who) id s) = true \/ claim_reward (Signed who) id s = Err CurrencyError
     | Err e => claim_reward (Signed who) id s = Err e
     | Panic => claim_reward (Signed who) id s = Panic
     end) /\
  (forall programs steps output sid v t ws,
     @vm_validate_result (XqvmAdapter programs steps output) sid v t ws = Ok tt).
Proof.
  intros Hm Hr Ho Hst Hc. split; [|done].
  eapply claim_reward_progress; try done; [by eapply reachable_inv|exact (reachable_specs cfg _ Hm Hr)].
Qed.

(** The proposer of an expired order without solutions always gets the
    reward back, and the order is closed. *)
Theorem reclaim_refunds_proposer `{!CurrencyLaws W, !MempoolPrimsLaws} s others id order :
  0 <= MinReward cfg -> reachable cfg (s, others) ->
  JobOrders s !! id = Some order -> status order = Expired -> solution_count order = 0 ->
  exists s', reclaim_order (Signed (proposer order)) id s = Ok s' /\
    free_balance (world s') (proposer order) = free_balance (world s) (proposer order) + reward order /\
    (exists order', JobOrders s' !! id = Some order' /\ status order' = Closed).
Proof. intros Hm Hr. by eapply reclaim_order_refunds, reachable_inv. Qed.

(** C8.  What an accepted submission is.  The solver is registered and
    eligible, the order is open and not past its expiry, and the recorded
    solutions are solutions the transform returned: each is a valid
    configuration of the order's model within its energy limit, the first one
    has the recorded energy, which is the least of all admissible ones
    submitted; the recorded diversity is the diversity of exactly the recorded
    solutions; the required count and diversity are met; and the energy is
    strictly below the solver's previous one. *)
Theorem accepted_submission_sound s who id sols payee s' :
  submit_solution_inner cfg who id sols payee s = Ok s' ->
  exists info order spec transformed selected best diversity,
    Solvers s !! who = Some info /\ JobOrders s !! id = Some order /\ JobSpecs s !! spec_id order = Some spec /\
    status order = Opened /\ block_number s < order_expiry order /\
    solver_is_eligible who (solver_type info) (mode order) = true /\
    (vm_transform_solutions (spec_id order) (validation_program spec) (transform_program spec) who sols).1
      = Ok transformed /\
    OrderSolutions s' !! (id, who) =
      Some (mkJobSolution who (solver_type info) selected best diversity (zlen selected) (block_number s)) /\
    let p := ising_params order in
    (exists x, head selected = Some x /\ admitted p x best) /\
    Forall (fun x => x ∈ transformed /\ exists e, admitted p x e /\ best <= e) selected /\
    (forall x e, x ∈ transformed -> admitted p x e -> best <= e) /\
    (forall n, p_min_solutions p = Some n -> n <= zlen selected) /\
    calculate_diversity selected = Ok diversity /\
    (forall n, p_min_diversity_milli p = Some n -> n <= diversity) /\
    (forall old, OrderSolutions s !! (id, who) = Some old -> best < sol_best_energy_milli old).
Proof.
  intros (info & order & spec & tr & selected & best & diversity & H1' & H2 & H3 & H4 & H5 & H6 & _ & H7 & He & Hrec)%submit_solution_inner_Ok.
  apply evaluate_submission_sound in He as (E1 & E2 & E3 & _ & E4 & E5 & E6 & E7).
  apply record_submission_effect in Hrec as (_ & ES & _).
  exists info, order, spec, tr, selected, best, diversity. split_and!; try done. rewrite ES. apply lookup_insert_eq.
Qed.

(** C9.  The ranking is right.  In every reachable state, the front runner (or
    the top-n list) of every order is exactly the best (the n best) of the
    energies the solvers have on record for it. *)
Theorem ranking_is_top_n `{!CurrencyLaws W, !MempoolPrimsLaws} s others id order :
  0 <= MinReward cfg -> reachable cfg (s, others) -> JobOrders s !! id = Some order ->
  rank_ok (resolution order) (best_energies id s) (OrderFrontRunner s !! id) (top_solvers id s) /\
  (solution_count order = 0 <-> best_energies id s = ∅).
Proof.
  intros Hm Hr Ho. destruct (ri_order _ (inv_rank _ (reachable_inv cfg _ Hm Hr)) id order Ho) as (? & _ & ?). done.
Qed.

(** C10.  Expiry is timely and bounded.  The work of a block expires only open
    orders whose expiry has passed and changes no other order; it settles at
    most eight orders and visits at most eight buckets; and unless one of these
    budgets is used up, the cursor has passed the current block and every order
    that is still open expires after it: nothing due is left. *)
Theorem expiry_work_due_and_bounded `{!CurrencyLaws W, !MempoolPrimsLaws} s others s' fin vis :
  let now := block_number s + 1 in
  0 <= MinReward cfg -> reachable cfg (s, others) -> now + 1 < 2 ^ 32 ->
  finalise_expired_orders now (s <| block_number := now |>) = Ok (s', fin, vis) ->
  expires_due now s s' /\
  fin <= MAX_FINALISED_ORDERS_PER_BLOCK /\ vis <= MAX_FINALISED_ORDERS_PER_BLOCK /\
  NextExpiryBucket s <= NextExpiryBucket s' /\
  (fin < MAX_FINALISED_ORDERS_PER_BLOCK -> vis < MAX_FINALISED_ORDERS_PER_BLOCK ->
   NextExpiryBucket s' = now + 1 /\
   forall id order, JobOrders s' !! id = Some order -> status order = Opened -> now < order_expiry order).
Proof.
  intros now Hm Hr Hn Hok. destruct (reachable_inv cfg _ Hm Hr) as [Hs _ _ _ [Hb _] _]. simpl in *.
  apply finalise_expired_orders_sched in Hok as (_ & Hdue & _ & Hc & Hf & Hv & Hend); try (done || (simpl; lia)).
  - split_and!; try done. intros. destruct Hend as [Hend|[Hend|Hend]]; [exact Hend|lia..].
  - eapply sched_inv_frame; [exact Hs|]. unfold sched_fields. simpl. do 2 f_equal. unfold now. lia.
Qed.

(** The block hook always succeeds: in a reachable state, the next block
    can be initialised. *)
Theorem block_hook_total `{!CurrencyLaws W, !MempoolPrimsLaws} s others :
  0 <= MinReward cfg -> reachable cfg (s, others) ->
  exists s', on_initialize (block_number s + 1) (s <| block_number := block_number s + 1 |>) = Ok s'.
Proof.
  intros Hm Hr. destruct (reachable_inv cfg _ Hm Hr) as [_ Hk Ht _ _ _].
  destruct (on_initialize_total (block_number s + 1) (s <| block_number := block_number s + 1 |>)) as (s' & Hs' & _);
    [by eapply rank_inv_frame; [done|done|intros i; simpl; case_match]|done|eauto].
Qed.

(** C12.  Orders only advance.  Through any step of a run, an order stays on
    the books with the same terms, its status moves only forward (open,
    expired, closed) without skipping expiry, and once it is no longer open it
    takes no more solutions. *)
Theorem orders_only_advance `{!CurrencyLaws W, !MempoolPrimsLaws} s s' others others' id order :
  0 <= MinReward cfg -> reachable cfg (s, others) -> step cfg (s, others) (s', others') ->
  JobOrders s !! id = Some order ->
  exists order', JobOrders s' !! id = Some order' /\ later order order'.
Proof.
  intros Hm Hr Hstep Ho. destruct (reachable_inv cfg _ Hm Hr) as [Hs _ _ _ [Hb _] _]. simpl in *.
  inversion Hstep as [? ? ? Hnow Hok|vm ? ? ? o c Hid Hty Hok|? ? ? w]; subst.
  - apply on_initialize_sched in Hok as (_ & Hdue & _); [|done|done|lia]. by eapply expires_due_later.
  - by eapply dispatch_later.
  - simpl. exists order. split; [done|apply later_refl].
Qed.
End Theorems.

(** ** Witnesses *)

(** The order of the concrete run that has solutions, and the one that has
    none. *)
Definition ex_order (id : Z) : JobOrder :=
  default (mkJobOrder 0 0 ex_params 0 Open SingleBest (mkOrderTiming 0 0) OnChainOnly Opened 0 None 0)
    (JobOrders ex_expired !! id).

Lemma claim_pays_reward_in_full_witness :
  exists order ps, JobOrders ex_expired !! 0 = Some order /\ compute_payouts 0 order ex_expired = Ok ps /\
    fair_payouts (reward order) (best_energies 0 ex_expired) ps /\
    by_rule (resolution order) (reward order) (best_energies 0 ex_expired) ps /\
    (forall w a e, (w, a, e) ∈ ps -> w <> proposer order ->
       free_balance (world ex_claimed) w = free_balance (world ex_expired) w + a) /\
    (forall w a e info, (w, a, e) ∈ ps -> Solvers ex_expired !! w = Some info ->
       Solvers ex_claimed !! w = Some (earned info a)) /\
    (exists order', JobOrders ex_claimed !! 0 = Some order' /\ status order' = Closed).
Proof.
  apply (claim_pays_reward_in_full ex_cfg ex_expired ex_others (Signed 9) 0 ex_claimed);
    [done|apply ex_expired_reachable|vm_compute; reflexivity].
Defined.

Lemma open_orders_never_stranded_witness :
  exists b, 0 ∈ orders_at b ex_open /\ NextExpiryBucket ex_open <= b.
Proof.
  destruct (open_orders_never_stranded ex_cfg ex_open ex_others) as [_ Hopen]; [done|apply ex_open_reachable|].
  assert (exists o, JobOrders ex_open !! 0 = Some o /\ status o = Opened) as (o & Ho & Hst)
    by (eexists; split; vm_compute; reflexivity).
  destruct (Hopen 0 o Ho Hst) as (b & H1 & H2 & _). exists b. split; assumption.
Defined.

Lemma reserves_cover_open_rewards_witness :
  owed 1 ex_open = 25 /\ owed 1 ex_open + ex_others 1 <= reserved_balance (world ex_open) 1.
Proof.
  split; [vm_compute; reflexivity|].
  apply (reserves_cover_open_rewards ex_cfg ex_open ex_others); [done|apply ex_open_reachable].
Defined.

Lemma claim_fails_only_in_transfer_witness :
  is_ok (claim_reward (Signed 9) 0 ex_expired) = true \/ claim_reward (Signed 9) 0 ex_expired = Err CurrencyError.
Proof.
  destruct (claim_fails_only_in_transfer ex_cfg ex_expired ex_others 9 0 (ex_order 0))
    as [(spec & ps & ws & _ & _ & _ & Hclaim) Hvm];
    [done|apply ex_expired_reachable|vm_compute; reflexivity..|].
  exact Hclaim.
Defined.

Lemma reclaim_refunds_proposer_witness :
  exists s', reclaim_order (Signed 1) 1 ex_expired = Ok s' /\
    free_balance (world s') 1 = free_balance (world ex_expired) 1 + 10.
Proof.
  destruct (reclaim_refunds_proposer ex_cfg ex_expired ex_others 1 (ex_order 1)) as (s' & Hok & Hf & _);
    [done|apply ex_expired_reachable|vm_compute; reflexivity..|].
  assert (proposer (ex_order 1) = 1 /\ reward (ex_order 1) = 10) as [E1 E2] by (vm_compute; split; reflexivity).
  rewrite E1 in Hok, Hf. rewrite E2 in Hf. exists s'. split; assumption.
Defined.

(** The state before the second submission of the run. *)
Definition ex_first : MempoolState :=
  default ex_genesis (run_ops ex_cfg ex_genesis (take 8 ex_open_ops)).

Lemma accepted_submission_sound_witness :
  exists selected best diversity,
    OrderSolutions ex_open !! (0, 8) = Some (mkJobSolution 8 Gpu selected best diversity (zlen selected) 2) /\
    exists x, head selected = Some x /\ admitted ex_params x best.
Proof.
  destruct (accepted_submission_sound ex_cfg ex_first 8 0 [[1; -1]] None ex_open)
    as (info & order & spec & tr & selected & best & diversity & Hi & Ho & _ & _ & _ & _ & _ & Hs & Hx & _);
    [vm_compute; reflexivity|].
  assert (info = mkSolverInfo 8 Gpu 1 0 0) as -> by (vm_compute in Hi; congruence).
  assert (ising_params order = ex_params) as E by (vm_compute in Ho; injection Ho as <-; reflexivity).
  assert (block_number ex_first = 2) as E2 by (vm_compute; reflexivity).
  rewrite E2 in Hs. cbv zeta in Hx. rewrite E in Hx. exists selected, best, diversity. split; assumption.
Defined.

Lemma ranking_is_top_n_witness :
  rank_ok (TopNEqual 2) (best_energies 0 ex_expired) (OrderFrontRunner ex_expired !! 0) (top_solvers 0 ex_expired).
Proof.
  apply (ranking_is_top_n ex_cfg ex_expired ex_others 0 (ex_order 0)); [done|apply ex_expired_reachable|vm_compute; reflexivity].
Defined.

Definition ex_before_expiry : MempoolState := default ex_genesis (run_ops ex_cfg ex_open [None]).

Lemma ex_before_expiry_reachable : reachable ex_cfg (ex_before_expiry, ex_others).
Proof. eapply (run_ops_reachable ex_cfg [None] ex_open); [apply ex_open_reachable|vm_compute; reflexivity]. Qed.

Lemma expiry_work_due_and_bounded_witness :
  expires_due 4 ex_before_expiry ex_expired /\ NextExpiryBucket ex_expired = 5 /\ none_due 4 ex_expired.
Proof.
  destruct (expiry_work_due_and_bounded ex_cfg ex_before_expiry ex_others ex_expired 2 1) as (Hd & _ & _ & _ & Hc);
    [done|apply ex_before_expiry_reachable|vm_compute; reflexivity|vm_compute; reflexivity|].
  split; [exact Hd|]. apply Hc; reflexivity.
Defined.

Lemma block_hook_total_witness :
  exists s', on_initialize 5 (ex_expired <| block_number := 5 |>) = Ok s'.
Proof. apply (block_hook_total ex_cfg ex_expired ex_others); [done|apply ex_expired_reachable]. Defined.

Lemma orders_only_advance_witness :
  exists order', JobOrders ex_expired !! 0 = Some order' /\ status order' = Expired.
Proof.
  assert (exists o, JobOrders ex_before_expiry !! 0 = Some o) as (o & Ho) by (eexists; vm_compute; reflexivity).
  destruct (orders_only_advance ex_cfg ex_before_expiry ex_expired ex_others ex_others 0 o) as (o' & Ho' & _).
  - done.
  - apply ex_before_expiry_reachable.
  - apply step_block; [vm_compute; reflexivity|vm_compute; reflexivity].
  - exact Ho.
  - exists o'. split; [exact Ho'|]. vm_compute in Ho'. injection Ho' as <-. reflexivity.
Defined.
