(* ===== verification/PowTheorems.v ===== *)
(** * Theorems about the proof-of-work pallet

    The properties of [pallets/quantum-pow] over arbitrary chains of blocks,
    each with a witness on a concrete chain: two miners register, submit proofs
    for a two-node topology, and the block is settled. *)

From S2P Require Import Prelude Validation PuzzleSpec Packed Float Energy Gse Diversity Ising SolutionReport Difficulty Frame QuantumPow QuantumPowProps PowMigration Instances.

(** ** Executable chains *)

#[export] Instance spec_typed_dec spec : Decision (spec_typed spec).
Proof. destruct spec; simpl; apply _. Defined.
#[export] Instance pow_call_typed_dec `{UsizeWidth} c : Decision (call_typed c).
Proof. destruct c; simpl; apply _. Defined.

Inductive chain_op := StartBlock (header : list Z) | Call (o : Origin) (c : call) | FinalizeBlock.

Section Runs.
Context `{UsizeWidth, DifficultyPrims, PowPrims} {R : Type} `{IsingPrims R}.
Context {W : Type} `{Currency W, MiningReward W}.
Context (cfg : PowConfig).

Definition run_op (x : @chain W) (op : chain_op) : option (@chain W) :=
  let 'mkChain s ex hs acc := x in
  match op, ex with
  | StartBlock header, false =>
      if decide (length header = 32%nat /\ block_number s + 1 < 2 ^ 32)
      then Some (mkChain (on_initialize (block_number s + 1)
                       (s <| block_number := block_number s + 1 |> <| parent_hash := header |>))
                    true (<[block_number s := header]> hs) [])
      else None
  | Call o c, true =>
      if decide (call_typed c)
      then Some (mkChain (apply_call cfg o c s) true hs (acc ++ accepted_by cfg o c s)) else None
  | FinalizeBlock, true => Some (mkChain (on_finalize cfg (block_number s) s) false hs acc)
  | _, _ => None
  end.

Lemma run_op_step x op y : run_op x op = Some y -> step cfg x y.
Proof.
  destruct x as [s ex hs acc], op, ex; simpl; try done.
  - case_decide as Hd; [|done]. intros [= <-]. destruct Hd. by apply step_start.
  - case_decide as Hd; [|done]. intros [= <-]. by apply step_call.
  - intros [= <-]. apply step_finalize.
Qed.

Definition run_ops (x : @chain W) (ops : list chain_op) : option (@chain W) :=
  foldl (fun x op => x ≫= fun x => run_op x op) (Some x) ops.

Lemma run_ops_rtc ops x y : run_ops x ops = Some y -> rtc (step cfg) x y.
Proof.
  unfold run_ops. revert x. induction ops as [|op ops IH]; intros x; simpl; [by intros [= ->]|].
  destruct (run_op x op) as [z|] eqn:Hop.
  - intros Hz. eapply rtc_l; [by eapply run_op_step|by apply IH].
  - assert (forall l, foldl (fun (x : option (@chain W)) op => x ≫= fun x => run_op x op) None l = None)
      as -> by (by induction l). done.
Qed.

Lemma reachable_rtc x y : reachable cfg x -> rtc (step cfg) x y -> reachable cfg y.
Proof. intros Hx Hxy. induction Hxy; [done|]. apply IHHxy. by eapply reach_step. Qed.
End Runs.

(** ** A concrete chain *)

Definition pow_cfg : PowConfig :=
  mkPowConfig 64 8 1 10 5 50 1 1000 (fun o => match o with Root => true | _ => false end)
    20 10 100 4 500 700 800.

Definition pow_genesis : @PowState Ledger.t :=
  mkPowState ∅ None ∅ ∅ ∅ ∅ None 0 0 0 ∅ 0 ∅ ∅ None None 0 []
    (Ledger.mk {[ 0 := 1000; 7 := 100; 8 := 100 ]} ∅) [].
Definition pow_genesis_chain : @chain Ledger.t := mkChain pow_genesis false ∅ [].

Definition pow_spec : AllowedValueSpec := SetSpec [-1000; 1000].
Definition pow_topology : Z := hash_topology [0; 1] [(0, 1)] pow_spec pow_spec pow_spec.
Definition pow_header : list Z := to_be_bytes 32 9.
Definition pow_nonce (who : Z) : Z := derive_nonce (h256_bytes 9) (account_to_bytes who) [who].
Definition pow_proof (who : Z) (packed : list Z) : QuantumProof :=
  mkQuantumProof pow_topology (pow_nonce who) [who] [packed] 0.

(** The first block: two miners register, Root registers a topology and an easy
    difficulty. *)
Definition pow_setup : list chain_op :=
  [StartBlock pow_header; Call (Signed 7) RegisterMiner; Call (Signed 8) RegisterMiner;
   Call Root (RegisterTopology [0; 1] [(0, 1)] pow_spec pow_spec pow_spec);
   Call Root (SetDifficulty pow_topology (mkDifficultyConfig 1 10000 0))].
Definition pow_ready : @chain Ledger.t := default pow_genesis_chain (run_ops pow_cfg pow_genesis_chain pow_setup).
(** Both miners submit a proof. *)
Definition pow_first : @chain Ledger.t :=
  default pow_genesis_chain (run_ops pow_cfg pow_ready [Call (Signed 7) (SubmitProof (pow_proof 7 [192]))]).
Definition pow_second : @chain Ledger.t :=
  default pow_genesis_chain (run_ops pow_cfg pow_first [Call (Signed 8) (SubmitProof (pow_proof 8 [64]))]).
(** The block is settled, and the next one started. *)
Definition pow_sealed : @chain Ledger.t :=
  default pow_genesis_chain (run_ops pow_cfg pow_second [FinalizeBlock]).
Definition pow_next : @chain Ledger.t :=
  default pow_genesis_chain (run_ops pow_cfg pow_sealed [StartBlock (to_be_bytes 32 77)]).

Lemma pow_genesis_ok : genesis pow_genesis.
Proof. by split. Qed.

Lemma pow_ready_rtc : rtc (step pow_cfg) pow_genesis_chain pow_ready.
Proof. apply (run_ops_rtc pow_cfg pow_setup). vm_compute. reflexivity. Qed.
Lemma pow_first_rtc : rtc (step pow_cfg) pow_ready pow_first.
Proof. apply (run_ops_rtc pow_cfg [Call (Signed 7) (SubmitProof (pow_proof 7 [192]))]). vm_compute. reflexivity. Qed.
Lemma pow_second_rtc : rtc (step pow_cfg) pow_first pow_second.
Proof. apply (run_ops_rtc pow_cfg [Call (Signed 8) (SubmitProof (pow_proof 8 [64]))]). vm_compute. reflexivity. Qed.
Lemma pow_next_rtc : rtc (step pow_cfg) pow_second pow_next.
Proof. apply (run_ops_rtc pow_cfg [FinalizeBlock; StartBlock (to_be_bytes 32 77)]). vm_compute. reflexivity. Qed.

Lemma pow_second_from_genesis : rtc (step pow_cfg) pow_genesis_chain pow_second.
Proof. etrans; [apply pow_ready_rtc|]. etrans; [apply pow_first_rtc|apply pow_second_rtc]. Qed.
Lemma pow_second_reachable : reachable pow_cfg pow_second.
Proof. eapply reachable_rtc; [apply reach_genesis, pow_genesis_ok|apply pow_second_from_genesis]. Qed.
Lemma pow_next_reachable : reachable pow_cfg pow_next.
Proof. eapply reachable_rtc; [apply pow_second_reachable|apply pow_next_rtc]. Qed.

(** ** Theorems *)

Section Theorems.
Context `{UsizeWidth, DifficultyPrims, PowPrims} {R : Type} `{IsingPrims R}.
Context {W : Type} `{Currency W, MiningReward W}.
Context (cfg : PowConfig).
#[local] Abbreviation state := (@PowState W).

(** C3.  What an accepted proof is.  The sender is a registered miner, the
    topology is registered and mineable, the nonce is derived from the seed of
    the round, the miner and the salt; every payload decodes to a configuration
    of the topology and is scored by its Ising energy under the fields and
    couplings the nonce generates; the best energy beats the active threshold;
    enough configurations beat it, and a team of distinct ones among them has
    the required diversity. *)
Theorem accepted_proof_sound o proof (s s' : state) :
  submit_proof cfg o proof s = Ok s' ->
  exists who topology h j scored v,
    o = Signed who /\ is_Some (Miners s !! who) /\
    RegisteredTopologies s !! proof_topology_hash proof = Some topology /\
    proof_topology_hash proof ∈ MineableTopologies s /\
    nonce proof = derive_nonce (h256_bytes (LastProofBlockHash s)) (account_to_bytes who) (salt proof) /\
    generate_ising_model (nonce proof) (nodes topology) (edges topology)
      (allowed_h_values topology) (allowed_j_values topology) = Ok (h, j) /\
    Forall2 (scores topology h j) (solutions proof) scored /\
    let d := current_difficulty_for cfg (proof_topology_hash proof) (block_number s) s in
    verdict d scored v /\
    min_solutions d <= valid_solution_count v /\ min_diversity_milli d <= diversity_milli v /\
    accept_proof who proof v s = Ok s'.
Proof. apply submit_proof_sound. Qed.

(** C4.  The best proof of a block wins it.  In any chain, a block accepts at
    most the configured number of proofs; a block without accepted proofs
    leaves the state alone; otherwise its qblock names the miner, salt, energy
    and topology of the first accepted proof of least energy. *)
Theorem best_proof_wins (s : state) hs acc :
  MaxProofsPerBlock cfg < 2 ^ 32 -> reachable cfg (mkChain s true hs acc) ->
  let s' := on_finalize cfg (block_number s) s in
  zlen acc <= Z.max 0 (MaxProofsPerBlock cfg) /\
  (acc = [] -> s' = s) /\
  (acc <> [] -> exists r q, first_best r acc /\ QBlocks s' !! block_number s = Some q /\
     qb_miner q = record_miner r /\ qb_salt q = record_salt r /\
     qb_energy_milli q = record_energy_milli r /\ qb_topology_hash q = record_topology_hash r).
Proof.
  intros Hmax Hr s'. destruct (reachable_best_inv cfg _ Hmax Hr) as (_ & Hle & Hbest). simpl in *.
  split; [done|]. destruct (BlockBestProof s) as [r|] eqn:Hb.
  - split; [destruct Hbest as ([] & ? & -> & _); done|]. intros _.
    destruct (on_finalize_settles cfg (block_number s) s r Hb) as (_ & _ & _ & Hq & _).
    do 2 eexists. split; [exact Hbest|]. split; [exact Hq|]. done.
  - split; [|done]. intros _. unfold s', on_finalize. by rewrite Hb.
Qed.


(** The nonce seed is the header hash of the last winning block.  While a
    block executes, the cached seed is the hash of the header of the last
    proof block (the genesis header before any win), so a nonce can not be
    prepared before that block was sealed. *)
Theorem nonce_seed_is_last_winner (s : state) hs acc :
  reachable cfg (mkChain s true hs acc) ->
  LastProofBlock s < block_number s /\
  exists header, hs !! LastProofBlock s = Some header /\ LastProofBlockHash s = from_be_bytes header.
Proof. intros (_ & _ & Hex & Hseed)%reachable_seed_inv. simpl in *. auto. Qed.

(** The qblock index is consistent.  In every chain the ids
    [1..QBlockCount] are assigned to the won blocks in block order; the two
    index maps are inverse to each other and cover exactly the stored
    qblocks. *)
Theorem qblock_index_consistent (x : @chain W) :
  reachable cfg x ->
  let s := st x in
  (forall id, is_Some (QBlockBlockById s !! id) <-> 1 <= id <= QBlockCount s) /\
  (forall id n, QBlockBlockById s !! id = Some n <-> QBlockIdByBlock s !! n = Some id) /\
  (forall n, is_Some (QBlocks s !! n) <-> is_Some (QBlockIdByBlock s !! n)) /\
  (forall i j n m, QBlockBlockById s !! i = Some n -> QBlockBlockById s !! j = Some m -> i < j -> n < m).
Proof. intros [_ ? ? ? _ ?]%reachable_index_inv. done. Qed.

(** No submission makes the runtime panic.  In every state a chain
    reaches, from well-formed topologies and with arguments of the Rust types,
    submitting any proof returns a new state or an error. *)
Theorem proof_submission_total `{!IsingPrimsLaws R} (x y : @chain W) o proof :
  1 <= MinNodes cfg -> topologies_wf (st x) -> rtc (step cfg) x y ->
  zlen (solutions proof) < 2 ^ 31 ->
  submit_proof cfg o proof (st y) <> Panic.
Proof.
  intros Hmin Hwf Hxy Hlen. apply submit_proof_no_panic; [done| |done].
  induction Hxy as [|x z y Hxz _ IH]; [done|]. apply IH. by eapply step_topologies_wf.
Qed.

(** The mineable whitelist is sound.  Whatever calls a chain executes,
    every mineable topology is registered, the default topology is mineable,
    and at most one other topology is. *)
Theorem whitelist_invariant (x y : @chain W) :
  topology_inv (st x) -> rtc (step cfg) x y -> topology_inv (st y).
Proof. intros Hinv Hxy. induction Hxy as [|x z y Hxz _ IH]; [done|]. apply IH. by eapply step_topology_inv. Qed.

(** A topology has one hash.  Reordering its nodes, its edges, the
    endpoints of an edge or the members of a value set does not change it. *)
Theorem topology_hash_canonical ns ms es fs h h' j j' sp sp' :
  ns ≡ₚ ms -> edges_equiv es fs ->
  spec_typed h -> spec_typed h' -> spec_equiv h h' ->
  spec_typed j -> spec_typed j' -> spec_equiv j j' ->
  spec_typed sp -> spec_typed sp' -> spec_equiv sp sp' ->
  hash_topology ns es h j sp = hash_topology ms fs h' j' sp'.
Proof. apply hash_topology_canonical. Qed.

(** The winning nonce can be re-derived.  A proof that is still the
    block's best after the remaining calls of the block is found afterwards in
    its qblock, with the nonce it was mined with. *)
Theorem winning_nonce_rederived o proof (s s1 : state) calls r n :
  let s2 := apply_calls cfg calls s1 in
  submit_proof cfg o proof s = Ok s1 -> BlockBestProof s2 = Some r ->
  o = Signed (record_miner r) -> record_salt r = salt proof ->
  exists q, qblock_with_nonce n (on_finalize cfg n s2) = Some (q, nonce proof) /\
    qb_salt q = salt proof /\ Signed (qb_miner q) = o.
Proof. apply winning_nonce. Qed.

(** Hardening is bounded.  After a win the threshold moves towards the
    winning energy by at least one energy unit (or the whole gap), by at most
    the cap of the curve, and never past the winner; the sampled rate behind
    the step is between 0.9 and 65 percent. *)
Theorem hardening_bounded active winning blocks curve seed target :
  in_s 64 (max_energy_milli active) -> in_s 64 winning -> winning < max_energy_milli active ->
  0 <= blocks -> 0 <= target < 2 ^ 32 ->
  let next := adjust_on_proof active winning blocks curve seed target in
  winning <= max_energy_milli next /\
  max_energy_milli active - max_energy_milli next <= max_hardening_delta curve /\
  Z.min MIN_ENERGY_DELTA_MILLI (max_energy_milli active - winning)
    <= max_energy_milli active - max_energy_milli next /\
  9 <= sample_adjustment_milli blocks seed target <= 650.
Proof.
  intros Ha Hw Hlt Hb Ht next. destruct (adjust_on_proof_step active winning blocks curve seed target) as (? & ? & ? & _); [done..|].
  by destruct (sample_adjustment_range blocks seed target Hb Ht) as (? & _).
Qed.

(** Easing is bounded.  A round keeps its stored difficulty until it is
    overdue; after that the threshold rises at most to the easy end of the
    curve, and the other requirements stay. *)
Theorem easing_bounded block base last epoch curve target :
  in_s 64 (max_energy_milli base) -> (forall c, curve = Some c -> in_s 64 (max_milli c)) -> 0 <= target ->
  let next := current_difficulty block base last epoch curve target in
  (block - last <= target -> next = base) /\
  max_energy_milli next <= Z.max (max_energy_milli base) (from_option max_milli (- 2 ^ 63) curve) /\
  min_solutions next = min_solutions base /\ min_diversity_milli next = min_diversity_milli base.
Proof.
  intros Hb Hc Ht next. split; [intros; by apply current_difficulty_on_time|]. by apply current_difficulty_bound.
Qed.

(** A miner's deposit comes back.  Whatever calls a chain executes, every
    registered miner's deposit stays reserved, and deregistering returns the
    whole of it to the free balance. *)
Theorem miner_deposit_returned `{!CurrencyLaws W, !MiningRewardLaws W} (x y : @chain W) who m s' :
  0 <= MinerDeposit cfg -> deposits_inv (st x) -> rtc (step cfg) x y ->
  Miners (st y) !! who = Some m -> deregister_miner (Signed who) (st y) = Ok s' ->
  0 <= deposit m <= reserved_balance (world (st y)) who /\
  free_balance (world s') who = free_balance (world (st y)) who + deposit m /\ Miners s' !! who = None.
Proof.
  intros Hdep Hinv Hxy Hm Hok.
  assert (deposits_inv (st y)) as Hy.
  { clear -Hinv Hxy Hdep CurrencyLaws0 MiningRewardLaws0.
    induction Hxy as [|x z y Hxz _ IH]; [done|]. apply IH. by eapply step_deposits_inv. }
  split; [by apply Hy|]. by eapply deregister_returns_deposit.
Qed.

End Theorems.

(** ** Witnesses *)

Lemma accepted_proof_sound_witness :
  exists scored v, verdict (mkDifficultyConfig 1 10000 0) scored v /\ length scored = 1%nat.
Proof.
  destruct (accepted_proof_sound pow_cfg (Signed 7) (pow_proof 7 [192]) (st pow_ready) (st pow_first))
    as (who & topology & h & j & scored & v & _ & _ & _ & _ & _ & _ & Hs & Hv & _);
    [vm_compute; reflexivity|].
  assert (current_difficulty_for pow_cfg pow_topology 1 (st pow_ready) = mkDifficultyConfig 1 10000 0) as E
    by (vm_compute; reflexivity).
  assert (block_number (st pow_ready) = 1) as Eb by (vm_compute; reflexivity).
  cbv zeta in Hv. rewrite Eb in Hv. cbn [pow_proof proof_topology_hash] in Hv. rewrite E in Hv.
  exists scored, v. split; [assumption|]. apply Forall2_length in Hs. symmetry. assumption.
Defined.

(** Both chains are inside a block. *)
Lemma pow_second_executing : mkChain (st pow_second) true (hashes pow_second) (accepted pow_second) = pow_second.
Proof. vm_compute. reflexivity. Qed.
Lemma pow_next_executing : mkChain (st pow_next) true (hashes pow_next) (accepted pow_next) = pow_next.
Proof. vm_compute. reflexivity. Qed.

Lemma best_proof_wins_witness :
  exists r q, first_best r (accepted pow_second) /\ QBlocks (st pow_sealed) !! 1 = Some q /\
    qb_miner q = record_miner r /\ length (accepted pow_second) = 2%nat.
Proof.
  destruct (best_proof_wins pow_cfg (st pow_second) (hashes pow_second) (accepted pow_second)) as (_ & _ & Hw).
  - reflexivity.
  - rewrite pow_second_executing. exact pow_second_reachable.
  - destruct Hw as (r & q & Hb & Hq & Hm & _); [vm_compute; discriminate|].
    assert (block_number (st pow_second) = 1) as Eb by (vm_compute; reflexivity). rewrite Eb in Hq.
    assert (on_finalize pow_cfg 1 (st pow_second) = st pow_sealed) as Es by (vm_compute; reflexivity).
    rewrite Es in Hq. exists r, q. split; [assumption|]. split; [assumption|]. split; [assumption|].
    vm_compute. reflexivity.
Defined.



Lemma nonce_seed_is_last_winner_witness :
  LastProofBlock (st pow_next) = 1 /\ LastProofBlock (st pow_next) < block_number (st pow_next).
Proof.
  split; [vm_compute; reflexivity|].
  apply (nonce_seed_is_last_winner pow_cfg (st pow_next) (hashes pow_next) (accepted pow_next)).
  rewrite pow_next_executing. exact pow_next_reachable.
Defined.

Lemma qblock_index_consistent_witness :
  QBlockCount (st pow_next) = 1 /\ is_Some (QBlockBlockById (st pow_next) !! 1).
Proof.
  destruct (qblock_index_consistent pow_cfg pow_next) as (Hids & _); [exact pow_next_reachable|].
  assert (QBlockCount (st pow_next) = 1) as E by (vm_compute; reflexivity).
  split; [assumption|]. apply Hids. rewrite E. split; vm_compute; discriminate.
Defined.

Lemma proof_submission_total_witness :
  submit_proof pow_cfg (Signed 8) (pow_proof 8 [1; 2; 3]) (st pow_second) <> Panic.
Proof.
  apply (proof_submission_total pow_cfg pow_genesis_chain pow_second).
  - vm_compute. discriminate.
  - intros th t Ht. vm_compute in Ht. discriminate.
  - exact pow_second_from_genesis.
  - reflexivity.
Defined.

Lemma whitelist_invariant_witness :
  topology_inv (st pow_second) /\ MineableTopologies (st pow_second) = {[ pow_topology ]}.
Proof.
  split; [|vm_compute; reflexivity].
  apply (whitelist_invariant pow_cfg pow_genesis_chain pow_second); [|exact pow_second_from_genesis].
  split; simpl; try done; intros ? Hin; exfalso; revert Hin; apply not_elem_of_empty.
Defined.

Lemma topology_hash_canonical_witness :
  hash_topology [0; 1; 2] [(0, 1); (1, 2)] pow_spec pow_spec pow_spec
  = hash_topology [2; 0; 1] [(2, 1); (1, 0)] (SetSpec [1000; -1000]) pow_spec pow_spec.
Proof.
  assert (spec_typed pow_spec /\ spec_typed (SetSpec [1000; -1000])) as [T1 T2]
    by (split; apply (bool_decide_unpack _); vm_compute; exact I).
  apply topology_hash_canonical; try exact T1; try exact T2; try reflexivity.
  - apply (Permutation_app_comm [0; 1] [2]).
  - apply perm_swap.
  - apply spec_equiv_set, perm_swap.
Defined.

Lemma winning_nonce_rederived_witness :
  exists q, qblock_with_nonce 1 (on_finalize pow_cfg 1 (st pow_first)) = Some (q, pow_nonce 7) /\
    qb_salt q = [7] /\ Signed (qb_miner q) = Signed 7.
Proof.
  apply (winning_nonce_rederived pow_cfg (Signed 7) (pow_proof 7 [192]) (st pow_ready) (st pow_first) []
    (default (mkProofRecord 0 0 0 [] 0 0) (BlockBestProof (st pow_first))) 1); vm_compute; reflexivity.
Defined.

Lemma hardening_bounded_witness :
  -4000 <= max_energy_milli (adjust_on_proof (mkDifficultyConfig 5 0 200) (-4000) 30
    (mkEnergyCurve (-100000) (-50000) 0) [1] 120).
Proof.
  destruct (hardening_bounded (mkDifficultyConfig 5 0 200) (-4000) 30 (mkEnergyCurve (-100000) (-50000) 0) [1] 120)
    as (Hw & _); [apply (bool_decide_unpack _); vm_compute; exact I..|].
  cbv zeta in Hw. assumption.
Defined.

Lemma easing_bounded_witness :
  max_energy_milli (current_difficulty 500 (mkDifficultyConfig 5 (-9000) 200) 100 10
    (Some (mkEnergyCurve (-100000) (-50000) (-1000))) 120) <= -1000.
Proof.
  destruct (easing_bounded 500 (mkDifficultyConfig 5 (-9000) 200) 100 10
    (Some (mkEnergyCurve (-100000) (-50000) (-1000))) 120) as (_ & Hle & _).
  - apply (bool_decide_unpack _). vm_compute. exact I.
  - intros c [= <-]. apply (bool_decide_unpack _). vm_compute. exact I.
  - discriminate.
  - cbv zeta in Hle. change (Z.max _ _) with (-1000) in Hle. assumption.
Defined.

Definition pow_left : @PowState Ledger.t :=
  default pow_genesis (rok (deregister_miner (Signed 8) (st pow_second))).

Lemma miner_deposit_returned_witness :
  free_balance (world pow_left) 8 = free_balance (world (st pow_second)) 8 + 5 /\ Miners pow_left !! 8 = None.
Proof.
  destruct (miner_deposit_returned pow_cfg pow_genesis_chain pow_second 8 (mkMinerInfo 1 5 1 0 0) pow_left) as (_ & Hf & Hm).
  - discriminate.
  - intros who m Hm. vm_compute in Hm. discriminate.
  - exact pow_second_from_genesis.
  - vm_compute. reflexivity.
  - vm_compute. reflexivity.
  - split; [exact Hf|exact Hm].
Defined.


