(* ===== verification/ValidationTheorems.v ===== *)
(** * Theorems about the validation library

    The properties of [crates/quantum-validation]: energies, packed payloads,
    value specifications, diversity and problem generation, each with a witness
    on a small problem. *)

From S2P Require Import Prelude Validation PuzzleSpec Packed Float Energy Gse Diversity Ising SolutionReport Difficulty Frame Instances.

Section Theorems.
Context `{UsizeWidth} {R : Type} `{IsingPrims R, !IsingPrimsLaws R}.

(** C23.  The energy is exact.  A returned energy is the Ising energy of a
    well-shaped problem and fits 64 bits; on every well-shaped problem of
    32-bit weights with fewer than [2^32] terms one is returned; no input
    panics. *)
Theorem energy_exact solution h edges j nodes :
  (forall e, energy_of_solution solution h edges j nodes = Ok e ->
     well_shaped nodes solution h edges j /\ e = ising_energy nodes solution h edges j /\ in_s 64 e) /\
  (well_shaped nodes solution h edges j -> Forall (in_s 32) h -> Forall (in_s 32) j ->
   zlen h + zlen j < 2 ^ 32 ->
   energy_of_solution solution h edges j nodes = Ok (ising_energy nodes solution h edges j)) /\
  energy_of_solution solution h edges j nodes <> Panic.
Proof.
  split; [apply energy_of_solution_sound|]. split; [apply energy_of_solution_complete|].
  apply energy_of_solution_no_panic.
Qed.

(** C24.  The validation report is exact.  For a problem with nodes and 32-bit
    weights, a report is returned; it says valid exactly when the problem is
    well shaped and its weights are allowed, which is when it lists no error;
    and then it carries the Ising energy and a rate between 0 and 100
    percent. *)
Theorem validation_report_exact spins nodes edges h j allowed_h allowed_j :
  nodes <> [] -> Forall (in_s 32) h -> Forall (in_s 32) j -> zlen h + zlen j < 2 ^ 32 ->
  exists r, validate_solution spins nodes edges h j allowed_h allowed_j = Ok r /\
    (valid r = true <-> well_shaped nodes spins h edges j /\
                        weights_allowed nodes edges h j allowed_h allowed_j) /\
    (valid r = true <-> errors r = []) /\
    (valid r = true -> energy_milli r = ising_energy nodes spins h edges j /\
                       0 <= satisfaction_rate_milli r <= 1000).
Proof. apply validate_solution_report. Qed.

(** C25.  Packing round-trips.  Values a specification allows are packed to
    the announced number of bytes, and unpacking returns them. *)
Theorem packed_roundtrip spec b spins :
  spec_typed spec -> bits_per_value spec = Ok b -> packable b spins ->
  Forall (in_s 32) spins -> Forall (allowed spec) spins ->
  exists packed, pack_solution spins spec = Ok packed /\ zlen packed = (zlen spins * b + 7) / 8 /\
    unpack_solution packed (zlen spins) spec = Ok spins.
Proof. apply pack_unpack_roundtrip. Qed.

(** Unpacking is safe.  Whatever bytes a miner sends, unpacking never
    panics on a graph of representable size, and what it returns has one value
    per node, all of them allowed. *)
Theorem unpack_sound packed n spec :
  spec_typed spec -> 0 <= n -> n * 32 + 7 < 2 ^ usize_bits ->
  unpack_solution packed n spec <> Panic /\
  (Forall (in_u 8) packed -> forall spins, unpack_solution packed n spec = Ok spins ->
     zlen spins = n /\ Forall (allowed spec) spins).
Proof.
  intros Ht Hn Hsz. split; [by apply unpack_solution_no_panic|]. intros Hp spins. by apply unpack_solution_Ok.
Qed.

(** C28.  Diverse selection follows the documented strategy: it starts from a
    most distant pair and keeps adding a candidate whose distance to the
    selection is maximal, until the target count is reached. *)
Theorem select_diverse_farthest_first k solutions target :
  solution_set k solutions -> (2 <= target < length solutions)%nat ->
  exists sel, select_diverse solutions target = Ok sel /\ length sel = target /\
    greedy (dist solutions) (length solutions) sel.
Proof. apply select_diverse_greedy. Qed.

(** Diversity is the rounded mean of the pairwise distances, normalised
    by the number of spins, in thousandths; the distance is blind to a global
    flip, so no set of solutions scores above 500. *)
Theorem diversity_at_most_half n solutions :
  solution_set n solutions -> 2 <= zlen solutions -> 0 < n < 2 ^ 32 ->
  zlen (pair_distances solutions) * n * MILLI_SCALE < 2 ^ 63 ->
  let total := zsum (pair_distances solutions) in
  let weight := zlen (pair_distances solutions) * n in
  calculate_diversity solutions = Ok ((total * MILLI_SCALE + weight / 2) / weight) /\
  0 <= (total * MILLI_SCALE + weight / 2) / weight <= 500.
Proof. apply calculate_diversity_value. Qed.

(** Every nonce yields a problem.  On a well-formed topology with usable
    value specifications, generation succeeds, with one allowed field per node
    and one allowed coupling per edge. *)
Theorem ising_model_allowed nonce nodes edges allowed_h allowed_j bh bj :
  nodes <> [] -> NoDup nodes -> TopologyIndex.edges_known nodes edges ->
  spec_typed allowed_h -> bits_per_value allowed_h = Ok bh ->
  spec_typed allowed_j -> bits_per_value allowed_j = Ok bj ->
  exists h j, generate_ising_model nonce nodes edges allowed_h allowed_j = Ok (h, j) /\
    length h = length nodes /\ length j = length edges /\
    Forall (allowed allowed_h) h /\ Forall (allowed allowed_j) j.
Proof. apply generate_ising_model_total. Qed.
End Theorems.

(** ** Edge cases *)

(** A report on an empty problem aborts: the shape check passes with zero
    nodes, and the energy of an empty problem is an error the code unwraps. *)
Lemma empty_problem_panics : validate_solution [] [] [] [] [] None None = Panic.
Proof. vm_compute. reflexivity. Qed.

(** Two solutions without spins divide by zero. *)
Lemma empty_solutions_panic : calculate_diversity [[]; []] = Panic.
Proof. vm_compute. reflexivity. Qed.

(** ** Witnesses *)

(** The premises of a witness are decidable. *)
Ltac check := apply (bool_decide_unpack _); vm_compute; exact I.

Definition tri_nodes : list Z := [4; 7; 9].
Definition tri_edges : list (Z * Z) := [(4, 7); (7, 9)].

Lemma tri_well_shaped : well_shaped tri_nodes [1; -1; 1] [500; 0; -500] tri_edges [1000; -1000].
Proof.
  split; try discriminate; try reflexivity.
  - check.
  - repeat constructor; check.
  - repeat constructor; check.
Qed.

Lemma energy_exact_witness :
  energy_of_solution [1; -1; 1] [500; 0; -500] tri_edges [1000; -1000] tri_nodes = Ok 0.
Proof.
  destruct (energy_exact [1; -1; 1] [500; 0; -500] tri_edges [1000; -1000] tri_nodes) as (_ & Hc & _).
  rewrite Hc; [vm_compute; reflexivity|apply tri_well_shaped|repeat constructor; vm_compute; discriminate
    |repeat constructor; vm_compute; discriminate|reflexivity].
Defined.

Lemma validation_report_exact_witness :
  exists r, validate_solution [1; -1; 1] tri_nodes tri_edges [500; 0; -500] [1000; -1000] None (Some [-1000; 1000]) = Ok r /\
    valid r = true.
Proof.
  destruct (validation_report_exact [1; -1; 1] tri_nodes tri_edges [500; 0; -500] [1000; -1000] None
    (Some [-1000; 1000])) as (r & Hr & Hv & _);
    [discriminate|repeat constructor; vm_compute; discriminate|repeat constructor; vm_compute; discriminate|reflexivity|].
  exists r. split; [exact Hr|]. apply Hv. split; [apply tri_well_shaped|]. split; [discriminate|].
  intros a [= <-]. repeat constructor; check.
Defined.

Lemma packed_roundtrip_witness :
  exists packed, pack_solution [1000; -1000; 1000] (SetSpec [-1000; 1000]) = Ok packed /\ zlen packed = 1 /\
    unpack_solution packed 3 (SetSpec [-1000; 1000]) = Ok [1000; -1000; 1000].
Proof.
  apply (packed_roundtrip (SetSpec [-1000; 1000]) 1 [1000; -1000; 1000]).
  - repeat constructor; vm_compute; discriminate.
  - vm_compute. reflexivity.
  - vm_compute. reflexivity.
  - repeat constructor; vm_compute; discriminate.
  - repeat constructor; simpl; check.
Defined.

Lemma unpack_sound_witness :
  unpack_solution [255] 3 (IntegerRange (-1000) 1000) <> Panic.
Proof.
  apply (unpack_sound [255] 3 (IntegerRange (-1000) 1000)); [repeat constructor; vm_compute; discriminate|discriminate|reflexivity].
Defined.

Definition four_solutions : list (list Z) := [[1; 1; 1; 1]; [1; 1; 1; -1]; [1; 1; -1; -1]; [1; -1; 1; 1]].

Lemma four_solutions_set : solution_set 4 four_solutions.
Proof. repeat constructor; check. Qed.

Lemma select_diverse_farthest_first_witness :
  exists sel, select_diverse four_solutions 3 = Ok sel /\ length sel = 3%nat /\ greedy (dist four_solutions) 4 sel.
Proof.
  apply (select_diverse_farthest_first 4 four_solutions 3); [apply four_solutions_set|split; repeat constructor].
Defined.

Lemma diversity_at_most_half_witness :
  exists d, calculate_diversity four_solutions = Ok d /\ 0 <= d <= 500.
Proof.
  eexists. apply (diversity_at_most_half 4 four_solutions); [apply four_solutions_set|discriminate|split; reflexivity|reflexivity].
Defined.

Lemma ising_model_allowed_witness :
  exists h j, generate_ising_model 5 tri_nodes tri_edges (IntegerRange (-2) 2) (SetSpec [-1000; 1000]) = Ok (h, j) /\
    length h = 3%nat /\ length j = 2%nat.
Proof.
  destruct (ising_model_allowed 5 tri_nodes tri_edges (IntegerRange (-2) 2) (SetSpec [-1000; 1000]) 3 1)
    as (h & j & Hg & Hh & Hj & _).
  - discriminate.
  - check.
  - repeat constructor; check.
  - repeat constructor; vm_compute; discriminate.
  - vm_compute. reflexivity.
  - repeat constructor; vm_compute; discriminate.
  - vm_compute. reflexivity.
  - exists h, j. split; [exact Hg|]. split; [exact Hh|exact Hj].
Defined.
