(* ===== verification/EmissionTheorems.v ===== *)
(** * Theorems about the emission controller and the faucet

    The properties of [pallets/emission-controller] and [pallets/faucet-ops]
    over arbitrary runs, with witnesses on a ledger with two subnets. *)

From S2P Require Import Prelude Frame Emission Faucet Instances.

Section Theorems.
Context `{SpArithmetic, !SpArithmeticLaws} {W : Type} `{Currency W, Issuance W, !IssuanceLaws W}.
Context (cfg : EmissionConfig) (pot : Z -> AccountId).

(** Emission follows the schedule.  Whatever blocks, faucet mints and
    reward payments a run executes, the scheduled issuance never exceeds the
    exact entitlement of the elapsed time, the books of the subnets stay
    balanced, the faucet stays within its budget, and the total issuance moves
    only by what the two counters record. *)
Theorem emission_follows_schedule start now now' s s' :
  0 <= AnnualEmission cfg -> on_schedule cfg start now s ->
  rtc (emission_step cfg pot) (now, s) (now', s') ->
  ScheduledIssued s' <= AnnualEmission cfg * sat_u 64 (now' - start) / YEAR_SECONDS /\
  ScheduledIssued s' = routes_issued (Routes s') s' /\
  FaucetIssued s' <= FaucetBudget s' /\
  total_issuance (world s') - total_issuance (world s) =
    (ScheduledIssued s' - ScheduledIssued s) + (FaucetIssued s' - FaucetIssued s).
Proof.
  intros Ha Hos Hrun. destruct (emission_run_on_schedule cfg pot start _ _ Ha Hrun Hos) as [Hos' Ho]. simpl in *.
  split_and!; [by apply on_schedule_total|apply Hos'|apply Hos'|]. unfold off_books in Ho. lia.
Qed.

(** The rebase resumes the schedule.  The upgrade moves the start so
    that it neither jumps nor stalls: at the upgrade the entitlement is at most
    what was issued, and one second later it has reached it. *)
Theorem rebase_resumes_schedule now (s : @EmissionState W) start start' elapsed :
  0 < AnnualEmission cfg -> Enabled s = true -> StartAt s = Some start -> 0 < ScheduledIssued s ->
  rebased_start cfg now s = Some (Some start') ->
  elapsed = ScheduledIssued s * YEAR_SECONDS / AnnualEmission cfg -> elapsed <= now < 2 ^ 64 ->
  start' = now - elapsed /\
  AnnualEmission cfg * (now - start') / YEAR_SECONDS <= ScheduledIssued s <=
  AnnualEmission cfg * (now + 1 - start') / YEAR_SECONDS.
Proof. by apply rebased_start_resumes. Qed.

(** Paying a mining reward mints nothing.  The miner gets the reported
    amount, at most what was requested, out of the subnet's pot, which keeps
    its existential deposit; the total issuance and the schedule stay. *)
Theorem mining_reward_conserves_issuance subnet s who requested :
  let r := subnet_pay pot subnet s who requested in
  0 <= requested -> free_balance (world s) (pot subnet) < 2 ^ 128 ->
  0 <= r.2 <= requested /\ total_issuance (world r.1) = total_issuance (world s) /\
  ScheduledIssued r.1 = ScheduledIssued s /\
  (0 < r.2 -> free_balance (world r.1) who = free_balance (world s) who + r.2 /\
     minimum_balance (C := W) <= free_balance (world r.1) (pot subnet)).
Proof. by apply subnet_pay_conserves. Qed.

(** C34.  The faucet's fuse is final.  Once the faucet is not enabled, no
    sequence of calls and runtime upgrades mints anything or enables it again,
    and a blown fuse stays blown. *)
Theorem faucet_fuse_is_final foundation (f f' : @Faucet W) :
  State f <> FaucetEnabled -> rtc (faucet_step foundation) f f' ->
  State f' <> FaucetEnabled /\ emissions f' = emissions f /\
  (State f = PermanentlyDisabled -> State f' = PermanentlyDisabled).
Proof. intros Hne Hrun. by apply (faucet_fuse foundation). Qed.
End Theorems.

(** ** Witnesses *)

(** Two units a second, split 60 to 40 between the pots 101 and 102. *)
Definition em_cfg : EmissionConfig := mkEmissionConfig (2 * YEAR_SECONDS) 4.
Definition em_pot (subnet : Z) : AccountId := 100 + subnet.
Definition em_start : @EmissionState Ledger.t :=
  mkEmissionState true (Some 1000) [(1, 600000000); (2, 400000000)] ∅ 0 50 0 (Ledger.mk ∅ ∅) [].
(** A block after ten seconds, a mint, a payment, a block after a hundred. *)
Definition em_ten : @EmissionState Ledger.t := on_initialize em_cfg em_pot 1010 em_start.
Definition em_minted : @EmissionState Ledger.t := default em_start (rok (mint_faucet 7 30 em_ten)).
Definition em_paid : @EmissionState Ledger.t := (subnet_pay em_pot 1 em_minted 8 5).1.
Definition em_hundred : @EmissionState Ledger.t := on_initialize em_cfg em_pot 1100 em_paid.

Lemma em_run : rtc (emission_step em_cfg em_pot) (1000, em_start) (1100, em_hundred).
Proof.
  eapply (rtc_l _ _ (1010, em_ten)); [apply (es_block em_cfg em_pot 1000 1010 em_start); lia|].
  eapply (rtc_l _ _ (1010, em_minted)); [apply (es_mint _ _ 1010 7 30); vm_compute; reflexivity|].
  eapply (rtc_l _ _ (1010, em_paid)); [apply (es_pay _ _ 1010 1 8 5)|].
  apply rtc_once. apply (es_block em_cfg em_pot 1010 1100 em_paid). lia.
Qed.

Lemma em_start_on_schedule : on_schedule em_cfg 1000 1000 em_start.
Proof.
  split; [discriminate|split; reflexivity| |unfold within; apply (bool_decide_unpack _); vm_compute; exact I|discriminate].
  split; [apply (bool_decide_unpack _); vm_compute; exact I| |reflexivity|].
  - split; [|discriminate]. repeat constructor; discriminate.
  - intros id. unfold subnet_issued. simpl. by rewrite lookup_empty.
Qed.

Lemma emission_follows_schedule_witness :
  ScheduledIssued em_hundred = 200 /\ total_issuance (world em_hundred) = 230 /\
  ScheduledIssued em_hundred <= 2 * YEAR_SECONDS * 100 / YEAR_SECONDS.
Proof.
  split; [vm_compute; reflexivity|]. split; [vm_compute; reflexivity|].
  apply (emission_follows_schedule em_cfg em_pot 1000 1000 1100 em_start em_hundred);
    [discriminate|apply em_start_on_schedule|apply em_run].
Defined.

Lemma rebase_resumes_schedule_witness :
  rebased_start em_cfg 5000 em_hundred = Some (Some 4900) /\
  AnnualEmission em_cfg * (5000 - 4900) / YEAR_SECONDS <= ScheduledIssued em_hundred.
Proof.
  split; [vm_compute; reflexivity|].
  destruct (rebase_resumes_schedule em_cfg 5000 em_hundred 1000 4900 100) as (_ & Hle & _); [vm_compute; reflexivity..|split; lia|].
  exact Hle.
Defined.

Lemma mining_reward_conserves_issuance_witness :
  (subnet_pay em_pot 1 em_minted 8 5).2 = 5 /\ total_issuance (world em_paid) = total_issuance (world em_minted).
Proof.
  split; [vm_compute; reflexivity|].
  destruct (mining_reward_conserves_issuance em_pot 1 em_minted 8 5) as (_ & Hi & _); [discriminate|vm_compute; reflexivity|].
  exact Hi.
Defined.

Definition em_faucet (state : FaucetState) : @Faucet Ledger.t := mkFaucet state (Some 7) 1 em_minted [].
Definition em_root (o : Origin) : bool := match o with Root => true | _ => false end.

Lemma faucet_fuse_is_final_witness :
  exists f', disable em_root (Signed 7) (em_faucet FaucetEnabled) = Ok f' /\
    State (faucet_runtime_upgrade true f') = PermanentlyDisabled.
Proof.
  eexists. split; [vm_compute; reflexivity|].
  eapply (faucet_fuse_is_final em_root); [|apply rtc_once, fs_upgrade|reflexivity]. discriminate.
Defined.
