(* ===== verification/GovernanceTheorems.v ===== *)
(** * Theorems about slashing limits and the Root-call filter

    The properties of [pallets/slash-policy] over arbitrary runs, and of the
    filter the Foundation's Root calls pass in [pallets/validator-admission]. *)

From S2P Require Import Prelude Frame SlashPolicy Admission Instances.

(** C35.  The slash budget holds.  After any run of slashes, limit changes and
    eras, an accepted slash is within the per-motion limit the council has set,
    which is never above five percent, is charged in full to every budget window
    it falls into, and leaves the stash within the
    cumulative limit of the selected window, which is never above ten percent;
    other stashes are not charged. *)
Theorem slash_budget_respected `{SpArithmetic, !SpArithmeticLaws} {S : Type} `{StakingOps S, !StakingLaws S} cfg council s0 s o stash era fraction s' active :
  0 < BondingDuration cfg -> MaxBudgetWindow cfg < 2 ^ 32 ->
  slash_inv s0 -> rtc (slash_step cfg council) s0 s ->
  active_era (staking s) = Some active -> 0 <= fraction ->
  discretionary_slash cfg council o stash era fraction s = Ok s' ->
  0 < fraction <= MaxDiscretionarySlashPerMotion s /\ MaxDiscretionarySlashPerMotion s <= MAX_PER_MOTION /\
  (forall from, retained_from cfg active <= from <= active ->
     charged_from from (history_of stash s') = charged_from from (history_of stash s) + fraction) /\
  charged_from (budget_from active s) (history_of stash s') <= MaxDiscretionarySlashCumulative s /\
  MaxDiscretionarySlashCumulative s <= MAX_CUMULATIVE /\
  (forall x, x <> stash -> history_of x s' = history_of x s).
Proof.
  intros Hbd HM Hinv Hrun Hact Hf Hok.
  destruct (slash_run_inv cfg council s0 s Hbd HM Hinv Hrun) as (a & Ha & Hr & Hh).
  rewrite Hact in Ha. injection Ha as <-. by eapply discretionary_slash_budget in Hok as (_ & ?).
Qed.

(** C36.  The Root filter is exact.  It accepts a call tree exactly when it has
    at most 256 calls, is at most eight levels deep, and no call that moves
    vested funds, slashes, writes raw storage, or is an unknown utility call
    occurs in it, however deeply it is wrapped. *)
Theorem root_filter_exact call :
  check call = Ok tt <->
  calls_in call <= 256 /\ forall n c, inside n c call -> forbidden c = false /\ (n <= 8)%nat.
Proof.
  unfold check. split.
  - intros (r & Hr & _)%rbind_Ok_inv. apply allowed_sound in Hr as (-> & Hle & Hin); [|lia..].
    split; [lia|]. intros n c Hc. destruct (Hin n c Hc). split; [done|lia].
  - intros [Hle Hin]. rewrite allowed_complete; [done|lia|done|].
    intros n c Hc. destruct (Hin n c Hc). split; [done|lia].
Qed.

(** ** Witnesses *)

Definition gov_cfg : SlashConfig := mkSlashConfig 4 8 2.
Definition gov_council (o : Origin) : bool := match o with Root => true | _ => false end.
Definition gov_start : @SlashState toy_staking :=
  mkSlashState DEFAULT_PER_MOTION DEFAULT_CUMULATIVE 6 ∅ (10, ∅) [].
Definition gov_once : @SlashState toy_staking :=
  default gov_start (rok (discretionary_slash gov_cfg gov_council Root 7 10 5000000 gov_start)).
Definition gov_twice : @SlashState toy_staking :=
  default gov_start (rok (discretionary_slash gov_cfg gov_council Root 7 9 8000000 gov_once)).

Lemma gov_run : rtc (slash_step gov_cfg gov_council) gov_start gov_once.
Proof. apply rtc_once, (ss_slash _ _ Root 7 10 5000000); [discriminate|vm_compute; reflexivity]. Qed.

Lemma gov_start_inv : slash_inv gov_start.
Proof.
  exists 10. split; [reflexivity|]. split; [split; [discriminate|reflexivity]|].
  intros stash. unfold history_of. simpl. rewrite lookup_empty. split; constructor.
Qed.

Lemma slash_budget_respected_witness :
  charged_from 5 (history_of 7 gov_twice) = 13000000 /\
  8000000 <= MaxDiscretionarySlashPerMotion gov_once /\
  charged_from (budget_from 10 gov_once) (history_of 7 gov_twice) <= MaxDiscretionarySlashCumulative gov_once.
Proof.
  split; [vm_compute; reflexivity|].
  destruct (slash_budget_respected gov_cfg gov_council gov_start gov_once Root 7 9 8000000 gov_twice 10)
    as ([_ Hpm] & _ & _ & Hle & _);
    [reflexivity|reflexivity|exact gov_start_inv|exact gov_run|vm_compute; reflexivity|discriminate|vm_compute; reflexivity|].
  split; [exact Hpm|exact Hle].
Defined.
