(* ===== verification/RegistryTheorems.v ===== *)
(** * Theorems about the miner registry

    The properties of [pallets/miner-registry] over arbitrary runs. *)

From S2P Require Import Prelude Frame MinerRegistry Instances.

(** Descriptor deposits are exact.  After any run of the pallet's calls,
    every stored descriptor is well formed, every account's reserve is its
    descriptor's deposit on top of what other pallets hold, and clearing a
    descriptor succeeds and returns the whole deposit. *)
Theorem registry_deposit_exact `{UsizeWidth} {W : Type} `{Currency W, !CurrencyLaws W} cfg hash others s0 s :
  registry_inv others s0 -> rtc (registry_step cfg hash) s0 s ->
  (forall who d, NodeDescriptors s !! who = Some d -> descriptor_ok d) /\
  (forall who, default 0 (deposit <$> NodeDescriptors s !! who) + others who = reserved_balance (world s) who) /\
  (forall who d, NodeDescriptors s !! who = Some d ->
     exists s', clear_descriptor (Signed who) s = Ok s' /\ NodeDescriptors s' !! who = None /\
       free_balance (world s') who = free_balance (world s) who + deposit d).
Proof.
  intros Hinv0 Hrun. pose proof (registry_run_inv cfg hash others s0 s Hinv0 Hrun) as Hinv.
  split_and!; [apply Hinv|intros who; apply Hinv|].
  intros who d Hd. destruct (clear_descriptor_returns others who s d Hinv Hd) as (s' & ? & ? & ? & _). eauto.
Qed.

(** Pages of participants are exact.  A page is sorted without
    duplicates, holds at most 1000 records, only participants after the cursor,
    and skips none: a participant after the cursor that is not on the page
    comes after everyone on it, and the page is full.  So paging with the last
    account of each page visits every participant of a qblock exactly once. *)
Theorem participants_pages_exact {W : Type} q cursor limit (s : @RegistryState W) :
  0 < limit ->
  let page := participants_by_qblock q cursor limit s in
  StronglySorted entry_le page /\ NoDup page.*1 /\ zlen page <= Z.min limit 1000 /\
  Forall (fun e => participants q s !! e.1 = Some e.2 /\ forall c, cursor = Some c -> c < e.1) page /\
  (forall who r, participants q s !! who = Some r -> (forall c, cursor = Some c -> c < who) ->
     (who, r) ∈ page \/ zlen page = Z.min limit 1000 /\ Forall (fun e => e.1 <= who) page).
Proof. apply participants_page. Qed.

(** One account can be counted twice in a qblock.  Clearing the descriptor
    forgets the latest participation, so the account registers again and
    participates again in the same qblock: the counter says two, the index
    holds one participant. *)
Theorem participant_counted_twice :
  exists s, double_count_run funded = Ok s /\ participant_count_by_qblock 1 s = 2 /\ size (participants 1 s) = 1%nat.
Proof. eexists. split_and!; vm_compute; reflexivity. Qed.

(** ** Witnesses *)

Definition reg_cfg : RegistryConfig := mkRegistryConfig 10 1.
Definition reg_hash (_ : NodeDescriptorInput) : H256 := 0.
Definition reg_set : @RegistryState Ledger.t :=
  default funded (rok (set_descriptor reg_cfg reg_hash (Signed 7) tiny_input funded)).

Lemma reg_run : rtc (registry_step reg_cfg reg_hash) funded reg_set.
Proof. apply rtc_once, (rs_set _ _ (Signed 7) tiny_input). vm_compute. reflexivity. Qed.

Lemma funded_inv : registry_inv (fun _ => 0) funded.
Proof.
  split.
  - intros who d Hd. simpl in Hd. rewrite lookup_empty in Hd. discriminate.
  - intros who. split; [reflexivity|]. simpl. unfold Ledger.held_of. simpl. by rewrite !lookup_empty.
Qed.

Lemma registry_deposit_exact_witness :
  default 0 (deposit <$> NodeDescriptors reg_set !! 7) = 12 /\ reserved_balance (world reg_set) 7 = 12.
Proof.
  destruct (registry_deposit_exact reg_cfg reg_hash (fun _ => 0) funded reg_set funded_inv reg_run) as (_ & Hres & _).
  assert (default 0 (deposit <$> NodeDescriptors reg_set !! 7) = 12) as E by (vm_compute; reflexivity).
  split; [assumption|]. specialize (Hres 7). rewrite E in Hres. symmetry. assumption.
Defined.

(** Three participants of the qblock 5. *)
Definition reg_three : @RegistryState Ledger.t :=
  funded <| ParticipantsByQBlock := {[ 5 := {[ 7 := mkParticipationRecord 5 Cpu None 1;
    8 := mkParticipationRecord 5 Cpu None 1; 9 := mkParticipationRecord 5 Cpu None 2 ]} ]} |>.

Lemma participants_pages_exact_witness :
  (participants_by_qblock 5 (Some 7) 1 reg_three).*1 = [8] /\
  NoDup (participants_by_qblock 5 (Some 7) 1 reg_three).*1.
Proof.
  split; [vm_compute; reflexivity|].
  destruct (participants_pages_exact 5 (Some 7) 1 reg_three) as (_ & Hnd & _); [reflexivity|]. exact Hnd.
Defined.
