(* ===== verification/XqvmTheorems.v ===== *)
(** * Theorems about stored programs and transforms

    The properties of [pallets/xqvm] over arbitrary runs, and of the mempool's
    transform adapter. *)

From S2P Require Import Prelude Validation Frame Xqvm MempoolCore Mempool XqvmAdapter Instances.

(** C39.  Stored programs are verified and fully backed.  After any run of the
    pallet's calls from a state whose holds the ledger covers, every stored program decodes, passes the verifier, is
    within the shape bounds and is stored under its hash; every account's hold
    is the sum of its programs' deposits; and removing a program releases
    exactly what was taken for it. *)
Theorem xqvm_programs_verified `{XqvmLib} {C : Type} `{Holds C, !HoldsLaws C} cfg hash_of s0 s :
  xqvm_inv cfg hash_of s0 -> backed s0 -> rtc (xqvm_step cfg hash_of) s0 s ->
  (forall h b, Programs s !! h = Some b -> Xqvm.admitted cfg hash_of h b) /\
  (forall x, on_hold (ledger s) x = deposits_of x s) /\
  (forall h owner, ProgramOwner s !! h = Some owner ->
     exists s' size dep, do_remove h owner s = Ok (s', size, dep) /\
       ProgramDeposit s !! h = Some dep /\ Programs s' !! h = None /\
       on_hold (ledger s') owner = on_hold (ledger s) owner - dep).
Proof.
  intros Hinv0 Hbk0 Hrun. destruct (xqvm_run_inv cfg hash_of s0 s Hinv0 Hbk0 Hrun) as [Hinv Hbk].
  split_and!; [apply Hinv|apply Hinv|].
  intros h owner Ho. destruct (do_remove_exact cfg hash_of h owner s Hinv Hbk Ho) as (s' & size & dep & ? & _ & ? & ? & ?). eauto 10.
Qed.

(** C40.  Transforms are metered and well typed.  Whatever the program does,
    the steps charged to a submission stay within its budget; and a transformed
    submission has, for every solution in order, a vector of spins of the same
    length. *)
Theorem transform_metered_and_typed `{XqvmLib, !XqvmLibLaws} source budget mem hash sols :
  0 <= budget < 2 ^ 64 ->
  0 <= (transform source budget mem (Some hash) sols).2 <= budget /\
  (forall out, (transform source budget mem (Some hash) sols).1 = Ok out ->
     Forall2 (fun sol l => spins_of_len (zlen sol) l) sols out).
Proof.
  intros Hb. unfold transform. destruct (source hash) as [bytes|]; [|split; [simpl; lia|done]].
  destruct (decode bytes) as [program|]; [|split; [simpl; lia|done]]. split.
  - apply transform_loop_steps; [done|lia|lia].
  - intros out (new & -> & Hf)%transform_loop_Ok. done.
Qed.

(** ** Witnesses *)

Definition xq_cfg : XqvmConfig := mkXqvmConfig 10 1 100 8 4 8 4 1000 1000.
Definition xq_hash (b : list Z) : H256 := zsum b.
Definition xq_start : @XqvmState Ledger.t := mkXqvmState ∅ ∅ ∅ (Ledger.mk {[ 7 := 100 ]} ∅) [].
Definition xq_stored : @XqvmState Ledger.t :=
  default xq_start (rok (store_program xq_cfg xq_hash (Signed 7) [1; 2; 3] xq_start)).

Lemma xq_run : rtc (xqvm_step xq_cfg xq_hash) xq_start xq_stored.
Proof. apply rtc_once, (xs_store _ _ (Signed 7) [1; 2; 3]). vm_compute. reflexivity. Qed.

Lemma xq_start_inv : xqvm_inv xq_cfg xq_hash xq_start.
Proof.
  split; simpl.
  - intros h b Hb. rewrite lookup_empty in Hb. discriminate.
  - intros h. by rewrite !lookup_empty.
  - intros h. by rewrite !lookup_empty.
  - intros h d Hd. rewrite lookup_empty in Hd. discriminate.
  - intros x. unfold on_hold. simpl. unfold Ledger.held_of. simpl. rewrite lookup_empty. reflexivity.
Qed.

Lemma xqvm_programs_verified_witness :
  Xqvm.admitted xq_cfg xq_hash 6 [1; 2; 3] /\ on_hold (ledger xq_stored) 7 = 13.
Proof.
  destruct (xqvm_programs_verified xq_cfg xq_hash xq_start xq_stored xq_start_inv (fun x => Z.le_refl _) xq_run) as (Ha & _).
  split; [|vm_compute; reflexivity]. apply Ha. vm_compute. reflexivity.
Defined.

Lemma transform_metered_and_typed_witness :
  (transform (fun _ => Some []) 5 100 (Some 1) [[1; -1]; [1; 1]]).1 = Ok [[1; -1]; [1; 1]] /\
  0 <= (transform (fun _ => Some []) 5 100 (Some 1) [[1; -1]; [1; 1]]).2 <= 5.
Proof.
  split; [vm_compute; reflexivity|]. apply transform_metered_and_typed. lia.
Defined.
