(* ===== verification/ElectionTheorems.v ===== *)
(** * Theorems about elections and late reports

    The voter snapshot of [validator_onboarding.rs], the election rounds of
    [election.rs] together with the admission pallet, and the report guard of
    [slashing.rs], each with a concrete run. *)

From S2P Require Import Prelude Frame BoundedHeap RuntimeParams Slashing Admission ElectionRound ElectionData Instances.

(** ** The voter snapshot *)

Section SnapshotLemmas.
Context `{UsizeWidth} (weight_of : AccountId -> Z) (voter_size : Voter -> Z) (compact_size : Z -> Z).

(** What is known of the encoded sizes: they are not negative, a voter with an
    admissible vote list is small, a compact length takes up to five bytes. *)
Record sizes_ok : Prop := {
  voter_size_pos : forall v, 0 <= voter_size v;
  voter_size_small : forall v : Voter, zlen v.2 <= Params.MaxVotesPerVoter -> voter_size v <= 2 ^ 16;
  compact_size_range : forall n, 0 <= compact_size n <= 5
}.

(** Staking's quota: nobody nominates more than sixteen validators. *)
Definition quota_ok (st : ElectionState) : Prop :=
  Forall (fun n : AccountId * Nominations => zlen (targets n.2) <= Params.MaxVotesPerVoter) (Nominators st).

Lemma quota_votes st :
  quota_ok st -> Forall (fun v : Voter => zlen v.2 <= Params.MaxVotesPerVoter) (eligible_nominators weight_of st).
Proof.
  intros Hq. apply Forall_forall. intros v (n & Hn & Hv)%list_elem_of_omap.
  apply nominator_entry_Some in Hv as (_ & _ & _ & _ & ->). simpl.
  unfold quota_ok in Hq. rewrite Forall_forall in Hq. specialize (Hq n Hn).
  pose proof (length_filter (fun t => t ∈ candidates st) (targets n.2)). unfold zlen in *. lia.
Qed.

Lemma full_snapshot_length bounds st :
  Z.of_nat (size (Approved st)) <= Params.MaxAdmittedAuthorities ->
  zlen (full_snapshot weight_of bounds st) <= Z.max (snapshot_limit bounds) (zlen (self_voters weight_of (candidates st))) /\
  zlen (self_voters weight_of (candidates st)) <= Params.MaxAdmittedAuthorities /\
  snapshot_limit bounds <= Params.VoterSnapshotPerBlock.
Proof.
  intros Ha. pose proof (candidates_length st). pose proof (self_voters_length weight_of (candidates st)).
  split_and!.
  - unfold full_snapshot, zlen. rewrite length_app, length_take. lia.
  - unfold zlen. lia.
  - unfold snapshot_limit. destruct (count_bound bounds); lia.
Qed.

Lemma snapshot_size_bound bounds st n :
  sizes_ok -> quota_ok st -> Z.of_nat (size (Approved st)) <= Params.MaxAdmittedAuthorities ->
  snapshot_size voter_size compact_size (take n (full_snapshot weight_of bounds st)) < 2 ^ usize_bits.
Proof.
  intros [Hp Hs Hc] Hq Ha. destruct (full_snapshot_length bounds st Ha) as (Hl & Hself & Hlim).
  assert (Forall (fun x => 0 <= x <= 2 ^ 16) (voter_size <$> take n (full_snapshot weight_of bounds st))) as Hall.
  { apply Forall_fmap, Forall_forall. intros v Hv. simpl. split; [apply Hp|apply Hs].
    apply elem_of_take in Hv as (i & Hv%list_elem_of_lookup_2 & _).
    apply full_snapshot_elem in Hv as [(w & _ & _ & ->)%self_voters_spec|Hv]; [done|].
    pose proof (quota_votes st Hq) as Hqv. rewrite Forall_forall in Hqv. by apply Hqv. }
  assert (forall l, Forall (fun x => 0 <= x <= 2 ^ 16) l -> zsum l <= 2 ^ 16 * zlen l) as Hsum.
  { intros l. unfold zsum, zlen. induction 1; simpl; lia. }
  specialize (Hsum _ Hall). unfold snapshot_size.
  assert (zlen (voter_size <$> take n (full_snapshot weight_of bounds st)) <= zlen (full_snapshot weight_of bounds st))
    by (unfold zlen; rewrite length_fmap, length_take; lia).
  pose proof (Hc (zlen (take n (full_snapshot weight_of bounds st)))).
  unfold Params.VoterSnapshotPerBlock, Params.MaxAdmittedAuthorities in *.
  assert (2 ^ 32 <= 2 ^ usize_bits) by (destruct usize_bits_cases as [-> | ->]; lia). lia.
Qed.

Lemma snapshot_prefix bounds st :
  sizes_ok -> quota_ok st -> Z.of_nat (size (Approved st)) <= Params.MaxAdmittedAuthorities ->
  exists n, snapshot_voters weight_of voter_size compact_size bounds st = take n (full_snapshot weight_of bounds st) /\
    zlen (self_voters weight_of (candidates st)) <= Z.of_nat n /\
    match size_bound bounds with
    | None => n = length (full_snapshot weight_of bounds st)
    | Some b =>
        (Z.of_nat n = zlen (self_voters weight_of (candidates st)) \/
         snapshot_size voter_size compact_size (take n (full_snapshot weight_of bounds st)) <= b) /\
        forall m, (n < m <= length (full_snapshot weight_of bounds st))%nat ->
          b < snapshot_size voter_size compact_size (take m (full_snapshot weight_of bounds st))
    end.
Proof.
  intros Hsz Hq Ha. destruct (full_snapshot_length bounds st Ha) as (Hl & Hself & Hlim).
  set (full := full_snapshot weight_of bounds st) in *.
  assert (zlen (self_voters weight_of (candidates st)) <= zlen full) as Hle
    by (unfold full, full_snapshot, zlen; rewrite length_app; lia).
  unfold snapshot_voters. fold full. destruct (size_bound bounds) as [b|].
  - pose proof (snapshot_size_bound bounds st (length full) Hsz Hq Ha) as Hb. rewrite take_ge in Hb by done.
    assert (payload_of voter_size full = zsum (voter_size <$> full)) as ->.
    { unfold payload_of. rewrite sat_sum_eq; [done|apply Hsz|lia|].
      pose proof (compact_size_range Hsz (zlen full)). fold full in Hb. unfold snapshot_size in Hb. lia. }
    destruct (trim_voters_prefix voter_size compact_size (zlen (self_voters weight_of (candidates st))) b full)
      as (n & -> & Hn & Hfit & Hmax); [apply Hsz|apply Hsz|intros; by apply snapshot_size_bound| |unfold zlen in *; lia|].
    { unfold Params.VoterSnapshotPerBlock, Params.MaxAdmittedAuthorities in *. lia. }
    exists n. split_and!; [done|lia|done|done].
  - exists (length full). split_and!; [by rewrite take_ge|done|done].
Qed.
End SnapshotLemmas.

(** C18.  The voter snapshot is the reference.  For an admitted set within its
    bound and nominations within the quota, the scan of the nominators with a
    bounded heap always succeeds and gives every self vote followed by the
    nominators of highest stake (lower account first among equals), as many as
    the count bound leaves room for, cut to the longest prefix that fits the
    size bound but never below the self votes; the order in which storage
    yields the nominators does not matter. *)
Theorem voter_snapshot_is_top_stake `{UsizeWidth} weight_of voter_size compact_size bounds st :
  sizes_ok voter_size compact_size -> quota_ok st ->
  Z.of_nat (size (Approved st)) <= Params.MaxAdmittedAuthorities ->
  match count_bound bounds with Some b => 0 <= b | None => True end ->
  let self := self_voters weight_of (candidates st) in
  let full := self ++ take (Z.to_nat (snapshot_limit bounds - zlen self))
                        (merge_sort ranked (eligible_nominators weight_of st)) in
  exists n event,
    electing_voters weight_of voter_size compact_size bounds 0 st = Ok (take n full, event) /\
    zlen self <= Z.of_nat n /\
    match size_bound bounds with
    | None => n = length full
    | Some b =>
        (Z.of_nat n = zlen self \/ snapshot_size voter_size compact_size (take n full) <= b) /\
        forall m, (n < m <= length full)%nat -> b < snapshot_size voter_size compact_size (take m full)
    end /\
    forall l, Nominators st ≡ₚ l ->
      electing_voters weight_of voter_size compact_size bounds 0
        (mkElectionState (Approved st) (Validators st) (NextKeys st) l) = Ok (take n full, event).
Proof.
  intros Hsz Hq Ha Hb. unfold Params.MaxAdmittedAuthorities in Ha.
  destruct (snapshot_prefix weight_of voter_size compact_size bounds st Hsz Hq Ha) as (n & Hn & Hself & Hfit).
  exists n. eexists. split_and!.
  - rewrite electing_voters_snapshot by (try apply quota_votes; (done || lia)). by rewrite Hn.
  - done.
  - exact Hfit.
  - intros l Hl. set (st' := mkElectionState _ _ _ l).
    assert (quota_ok st') as Hq' by (unfold quota_ok, st' in *; simpl; by rewrite <- Hl).
    rewrite electing_voters_snapshot by (try apply quota_votes; (done || (simpl; lia))).
    assert (snapshot_voters weight_of voter_size compact_size bounds st' =
            snapshot_voters weight_of voter_size compact_size bounds st) as ->.
    { unfold snapshot_voters, st'. by rewrite (full_snapshot_order weight_of bounds st l Hl). }
    rewrite Hn. do 2 f_equal. unfold truncation.
    assert (zlen (eligible_nominators weight_of st') = zlen (eligible_nominators weight_of st)) as ->; [|done].
    unfold zlen. f_equal. apply Permutation_length. unfold eligible_nominators. simpl. by rewrite <- Hl.
Qed.

(** The voter snapshot is safe.  Whatever the bounds, every vote in a
    returned snapshot goes to an admitted validator with session keys; every
    such validator with stake votes for itself, and only for itself; nobody
    votes twice; and the snapshot has at most the larger of the count limit and
    the number of admitted validators. *)
Theorem voter_snapshot_safe `{UsizeWidth} weight_of voter_size compact_size bounds page st voters event :
  Z.of_nat (size (Approved st)) <= Params.MaxAdmittedAuthorities -> NoDup (Nominators st).*1 ->
  match count_bound bounds with Some b => 0 <= b | None => True end ->
  sizes_ok voter_size compact_size ->
  electing_voters weight_of voter_size compact_size bounds page st = Ok (voters, event) ->
  Forall (fun v : Voter => forall t, t ∈ v.2 -> t ∈ Approved st /\ t ∈ Validators st /\ t ∈ NextKeys st) voters /\
  (quota_ok st -> forall who, who ∈ candidates st -> 0 < weight_of who -> (who, weight_of who, [who]) ∈ voters) /\
  (forall v, v ∈ voters -> v.1.1 ∈ candidates st -> v.2 = [v.1.1]) /\
  NoDup voters.*1.*1 /\
  zlen voters <= Z.max (snapshot_limit bounds) Params.MaxAdmittedAuthorities.
Proof.
  intros Ha Hnd Hb Hsz Hok. apply electing_voters_Ok in Hok as ->; [|unfold Params.MaxAdmittedAuthorities in Ha; lia|done].
  destruct (full_snapshot_length weight_of bounds st Ha) as (Hl & Hs & Hlim).
  assert (exists k, snapshot_voters weight_of voter_size compact_size bounds st ++ k = full_snapshot weight_of bounds st) as [k Hk].
  { unfold snapshot_voters. destruct (size_bound bounds) as [b|]; [|exists []; by rewrite app_nil_r].
    edestruct (trim_voters_suffix voter_size compact_size) as [d Hd]. exists (reverse d).
    rewrite <- reverse_app, <- Hd. apply reverse_involutive. }
  assert (forall v, v ∈ snapshot_voters weight_of voter_size compact_size bounds st -> v ∈ full_snapshot weight_of bounds st) as Hsub
    by (intros v Hv; rewrite <- Hk; set_solver).
  split_and!.
  - apply Forall_forall. intros v Hv t Ht. apply candidates_spec. eapply full_snapshot_votes; [by apply Hsub|done].
  - intros Hq who Hw Hwt. destruct (snapshot_prefix weight_of voter_size compact_size bounds st Hsz Hq Ha) as (n & -> & Hn & _).
    unfold full_snapshot. rewrite take_app_ge by (unfold zlen in Hn; lia). apply elem_of_app. left.
    apply self_voters_spec. eauto.
  - intros v [Hv|Hv]%Hsub%full_snapshot_elem Hc.
    + by apply self_voters_spec in Hv as (who & _ & _ & ->).
    + by apply list_elem_of_omap in Hv as (n & _ & (_ & Hn & _ & _ & ->)%nominator_entry_Some).
  - pose proof (full_snapshot_NoDup weight_of bounds st Hnd) as Hfull. rewrite <- Hk, !fmap_app in Hfull.
    by apply NoDup_app in Hfull as [? _].
  - apply (f_equal zlen) in Hk. unfold zlen in *. rewrite length_app in Hk. lia.
Qed.

(** ** Rounds and removals *)

Section RoundLemmas.
Context {M : Type} `{MultiBlock M, !MultiBlockLaws M}.
Context (foundation : Origin -> bool) (graduation_ready : @Chain M -> bool).
Context (dispatch_root : RuntimeCall -> @Chain M -> @Chain M * bool) (MaxAuthorities : Z).

Abbreviation removal_hook := (fun (_ : gset AccountId) (c : @Chain M) => on_removal c).

(** What happens on a chain after the removal of [who]: any admission calls
    except approving [who] again, and any changes elsewhere. *)
Inductive unapproved_step (who : AccountId) : @AdmissionState (@Chain M) -> @AdmissionState (@Chain M) -> Prop :=
  | us_call o c s s' : c <> CallApprove who ->
      admission_dispatch foundation graduation_ready removal_hook dispatch_root MaxAuthorities o c s = Ok s' ->
      unapproved_step who s s'
  | us_chain s c : unapproved_step who s (s <| rest := c |>).

Lemma unapproved_stays who s s' :
  rtc (unapproved_step who) s s' -> who ∉ Admission.Approved s -> who ∉ Admission.Approved s'.
Proof.
  induction 1 as [|s s1 s2 Hstep _ IH]; intros Hno; [done|]. apply IH. clear IH.
  destruct Hstep as [o c s s' Hc Hok|s c]; [|done]. destruct c as [x|x|mode|call]; simpl in Hok.
  - unfold approve in Hok. hinv. simpl. assert (x <> who) by congruence. set_solver.
  - unfold remove in Hok. hinv. simpl. set_solver.
  - unfold advance in Hok. hinv. done.
  - unfold dispatch_as_root in Hok. hinv. destruct (dispatch_root _ _). hinv. done.
Qed.
End RoundLemmas.

(** C21.  A removed validator never wins.  Removing an admitted validator never
    fails in the election hook; it leaves no round or one that has yet to take
    its snapshot, from which no winners can be exported; and however the chain
    and the admitted set evolve afterwards, as long as the account is not
    approved again, no set of winners that the election returns contains it. *)
Theorem removed_validator_never_wins {M : Type} `{MultiBlock M, !MultiBlockLaws M}
    foundation graduation_ready dispatch_root MaxAuthorities o who (s : @AdmissionState (@Chain M)) :
  foundation o = true -> Mode s = FoundationOnly -> who ∈ Admission.Approved s ->
  exists s1, remove foundation (fun _ => on_removal) o who s = Ok s1 /\
    (round_status (mbe (rest s1)) = None \/
     elect (Admission.Approved s1) 0 (rest s1) = (rest s1, Err SnapshotNotReady)) /\
    forall s2 c supports,
      rtc (unapproved_step foundation graduation_ready dispatch_root MaxAuthorities who) s1 s2 ->
      elect (Admission.Approved s2) 0 (rest s2) = (c, Ok supports) ->
      who ∉ supports.*1 /\ ~ running c.
Proof.
  intros Ho Hm Hin. destruct (on_removal_fresh (rest s)) as (c1 & Hc1 & Hfresh & _).
  eexists. split_and!.
  - unfold remove, ensure_origin. rewrite Ho, Hm, (bool_decide_eq_true_2 (who ∈ _)) by done.
    cbn. rewrite Hc1. reflexivity.
  - simpl. destruct Hfresh as [Hf|(page & Hp)]; [by left|right]. unfold elect. by rewrite Hp.
  - intros s2 c supports Hrun He. apply elect_admitted in He as (Hadm & Hoff & _). split; [|done].
    intros ([w b] & -> & Hw)%list_elem_of_fmap. apply Hadm in Hw. simpl in Hrun.
    eapply unapproved_stays in Hrun; [done|]. simpl. set_solver.
Qed.

(** C22.  Elections come in time and are retried.  Unless eras are paused, every
    session rotation at or after the planning session leaves a round running,
    also when the last one was lost; it leaves a running round alone; and when a
    round is started there, and no more slots are missed until the election than
    the slack, whatever rotations happen in between, the round is still running
    at the election and neither of the provider's phase guards turns staking
    away. *)
Theorem elections_ready_in_time {M : Type} `{MultiBlock M, !MultiBlockLaws M, NetworkParams}
    (staking_new_session : Z -> @Chain M -> @Chain M * option (list AccountId)) new_index c :
  integrity_test = true -> in_u 32 Params.MinimumElectionSlack ->
  let c1 := (staking_new_session new_index c).1 in
  let c2 := (new_session staking_new_session new_index c).1 in
  ForceEra c1 <> ForceNone -> due c1 = true ->
  running c2 /\
  (running c1 -> c2 = c1) /\
  (~ running c1 -> forall es missed,
     Forall (quiet staking_new_session) es ->
     Z.of_nat (blocks_of es) + missed = planning_window -> missed <= Params.MinimumElectionSlack ->
     let c3 := foldl (window_step staking_new_session) c2 es in
     running c3 /\ forall approved, elect approved 0 c3 = elect_ready approved 0 c3).
Proof.
  intros Hi Hs c1 c2 Hf Hd. assert (c2 = maybe_start c1) as Hc2.
  { unfold c2, c1, new_session. by destruct (staking_new_session new_index c). }
  rewrite Hc2. split_and!.
  - by apply maybe_start_runs.
  - intros Hr. by apply maybe_start_keeps.
  - intros Hr es missed Hq Hb Hm. apply started_round_ready; try done. by eapply integrity_window.
Qed.

(** ** Late reports *)

(** C32.  The report guard is exact.  With staking's era bookkeeping in order,
    an offence is passed on exactly when its session falls into a known era
    whose deferred slash is still ahead, which is while the stake of that era is
    still bonded; any other report is refused before anything is recorded, and
    the unsigned submission refuses it as well. *)
Theorem report_guard_exact {W O Proof Opaque Membership : Type} (eras_of : W -> StakingEras) (session_index : O -> Z)
    historical_report (decode_proof : Opaque -> option Membership) proof_session
    (submit : Proof -> Membership -> W -> option W) reporters offence w active start :
  eras_ok (eras_of w) active start ->
  let pending := exists e, era_of_session (eras_of w) active start e (session_index offence) /\
                           active <= e + Params.SLASH_DEFER_ERAS in
  (pending -> report_offence eras_of session_index historical_report reporters offence w =
              historical_report reporters offence w) /\
  (~ pending ->
     report_offence eras_of session_index historical_report reporters offence w = Err (OtherOffenceError 0) /\
     forall proof opaque m, decode_proof opaque = Some m -> proof_session m = session_index offence ->
       submit_report_equivocation_unsigned_extrinsic eras_of decode_proof proof_session submit proof opaque w = None) /\
  (forall e, era_of_session (eras_of w) active start e (session_index offence) ->
     active <= e + Params.SLASH_DEFER_ERAS -> active < e + Params.BondingDuration).
Proof.
  intros Hok pending. pose proof (has_pending_slash_bucket_spec _ _ _ (session_index offence) Hok) as Hspec.
  unfold report_offence, submit_report_equivocation_unsigned_extrinsic. split_and!.
  - intros Hp. by rewrite (proj2 Hspec Hp).
  - intros Hn. destruct (has_pending_slash_bucket _ _) eqn:Hb; [by destruct Hn; apply Hspec|].
    split; [done|]. intros proof opaque m -> Hm. simpl. by rewrite Hm, Hb.
  - intros e _. unfold Params.SLASH_DEFER_ERAS, Params.BondingDuration. lia.
Qed.

(** ** Witnesses *)

Definition toy_weight (who : AccountId) : Z :=
  default 0 ((list_to_map [(1, 100); (2, 50); (10, 5); (11, 7); (12, 7); (13, 9)] : gmap Z Z) !! who).
Definition scale_voter (v : Voter) : Z := 41 + 32 * zlen v.2.
Definition scale_compact (n : Z) : Z := if n <? 64 then 1 else if n <? 16384 then 2 else 4.

Lemma toy_sizes : sizes_ok scale_voter scale_compact.
Proof.
  split; unfold scale_voter, scale_compact, Params.MaxVotesPerVoter, zlen.
  - intros v. lia.
  - intros v Hv. lia.
  - intros n. repeat case_match; lia.
Qed.

(** Three admitted accounts, one without session keys; a suppressed nominator,
    one that is itself a candidate, one without an admitted target, and three
    that count. *)
Definition toy_electorate : ElectionState := mkElectionState {[1; 2; 3]} {[1; 2; 3]} {[1; 2]}
  [(12, mkNominations [1; 2] false); (13, mkNominations [1] true); (10, mkNominations [1; 3] false);
   (1, mkNominations [2] false); (14, mkNominations [3] false); (11, mkNominations [2] false)].
Definition toy_bounds : DataProviderBounds := mkDataProviderBounds (Some 4) (Some 300).

Lemma voter_snapshot_is_top_stake_witness :
  electing_voters toy_weight scale_voter scale_compact toy_bounds 0 toy_electorate =
    Ok ([(1, 100, [1]); (2, 50, [2]); (11, 7, [2])], Some (ElectionVotersTruncated 5 3)) /\
  exists n event,
    electing_voters toy_weight scale_voter scale_compact toy_bounds 0 toy_electorate =
      Ok (take n (full_snapshot toy_weight toy_bounds toy_electorate), event) /\ 2 <= Z.of_nat n.
Proof.
  split; [vm_compute; reflexivity|].
  destruct (voter_snapshot_is_top_stake toy_weight scale_voter scale_compact toy_bounds toy_electorate)
    as (n & event & Hok & Hn & _); [exact toy_sizes| |vm_compute; discriminate|vm_compute; discriminate|].
  { unfold quota_ok. apply (bool_decide_unpack _). vm_compute. exact I. }
  exists n, event. split; [exact Hok|]. exact Hn.
Defined.

Lemma voter_snapshot_safe_witness : NoDup [1; 2; 11] /\ (1, 100, [1]) ∈ [(1, 100, [1]); (2, 50, [2]); (11, 7, [2])].
Proof.
  destruct (voter_snapshot_safe toy_weight scale_voter scale_compact toy_bounds 0 toy_electorate
    [(1, 100, [1]); (2, 50, [2]); (11, 7, [2])] (Some (ElectionVotersTruncated 5 3)))
    as (_ & Hself & _ & Hnd & _); [vm_compute; discriminate| |vm_compute; discriminate|exact toy_sizes|vm_compute; reflexivity|].
  { apply (bool_decide_unpack _). vm_compute. exact I. }
  split; [exact Hnd|]. apply (Hself ltac:(unfold quota_ok; apply (bool_decide_unpack _); vm_compute; exact I) 1).
  - apply (bool_decide_unpack _). vm_compute. exact I.
  - reflexivity.
Defined.

Definition toy_chain (m : toy_mbe) : @Chain toy_mbe := mkChain m NotForcing (Some 7) {[7 := 42]} 45.
Definition toy_foundation (o : Origin) : bool := match o with Collective (Members yes seats) => 2 * seats <=? 3 * yes | _ => false end.
Definition toy_admission : @AdmissionState (@Chain toy_mbe) :=
  mkAdmissionState FoundationOnly {[1; 2]} (toy_chain (Some 310, [(1, 10); (2, 20)])) [].

Lemma removed_validator_never_wins_witness :
  exists s1, remove toy_foundation (fun _ => on_removal) (Collective (Members 4 6)) 2 toy_admission = Ok s1 /\
    forall c supports,
      elect (Admission.Approved s1) 0 (toy_chain (Some 400, [(1, 30)])) = (c, Ok supports) -> 2 ∉ supports.*1.
Proof.
  destruct (removed_validator_never_wins toy_foundation (fun _ => false) (fun _ c => (c, true)) 64 (Collective (Members 4 6)) 2 toy_admission)
    as (s1 & Hok & _ & Hnever); [reflexivity|reflexivity|apply (bool_decide_unpack _); vm_compute; exact I|].
  exists s1. split; [exact Hok|]. intros c supports He.
  destruct (Hnever (s1 <| rest := toy_chain (Some 400, [(1, 30)]) |>) c supports) as [Hno _]; [|exact He|exact Hno].
  apply rtc_once. constructor.
Defined.

(** Staking that does nothing in a rotation. *)
Definition idle_staking (_ : Z) (c : @Chain toy_mbe) : @Chain toy_mbe * option (list AccountId) := (c, None).

Lemma elections_ready_in_time_witness :
  let c2 := (new_session idle_staking 46 (toy_chain (None, [(1, 10)]))).1 in
  let c3 := foldl (window_step idle_staking) c2 (replicate 2000 Block ++ [Rotation 47] ++ replicate 2000 Block) in
  running c3 /\ elect {[1]} 0 c3 = elect_ready {[1]} 0 c3.
Proof.
  intros c2 c3. destruct (@elections_ready_in_time toy_mbe _ _ mainnet_params idle_staking 46 (toy_chain (None, [(1, 10)])))
    as (_ & _ & Hready); [reflexivity|split; [discriminate|reflexivity]|discriminate|reflexivity|].
  destruct (Hready ltac:(intros [x Hx]; discriminate Hx)
    (replicate 2000 Block ++ [Rotation 47] ++ replicate 2000 Block) 800) as [Hr He];
    [|vm_compute; reflexivity|vm_compute; discriminate|].
  - apply Forall_app; split; [|apply Forall_app; split]; try (apply Forall_replicate; exact I).
    constructor; [|constructor]. intros c. split; reflexivity.
  - split; [exact Hr|exact (He {[1]})].
Defined.

Definition toy_eras : StakingEras :=
  mkStakingEras (Some 100) {[100 := 600]} [(72, 432); (73, 438); (99, 594); (100, 600)].

Lemma toy_eras_ok : eras_ok toy_eras 100 600.
Proof.
  split; [reflexivity|reflexivity| | |split; [discriminate|reflexivity]].
  - repeat constructor; simpl; lia.
  - repeat constructor; simpl; lia.
Qed.

(** Era 73 can still be reported in era 100, era 72 can not. *)
Lemma report_guard_exact_witness :
  report_offence (fun _ => toy_eras) (fun o => o) (fun _ _ w => Ok (w + 1)) [5] 440 0 = Ok 1 /\
  report_offence (fun _ => toy_eras) (fun o => o) (fun _ _ w => Ok (w + 1)) [5] 433 0 = Err (OtherOffenceError 0).
Proof.
  split.
  - destruct (report_guard_exact (fun _ : Z => toy_eras) (fun o : Z => o) (fun _ _ w => Ok (w + 1))
      (fun o : Z => Some o) (fun m => m) (fun (_ : Z) _ w => Some w) [5] 440 0 100 600 toy_eras_ok) as (Hp & _).
    apply Hp. exists 73. split; [|vm_compute; discriminate]. right. split; [lia|]. exists 438.
    split_and!; [apply (bool_decide_unpack _); vm_compute; exact I|lia|].
    intros e f Hin Hf. unfold toy_eras in Hin. simpl in Hin. set_unfold in Hin. naive_solver lia.
  - destruct (report_guard_exact (fun _ : Z => toy_eras) (fun o : Z => o) (fun _ _ w => Ok (w + 1))
      (fun o : Z => Some o) (fun m => m) (fun (_ : Z) _ w => Some w) [5] 433 0 100 600 toy_eras_ok) as (_ & Hn & _).
    apply Hn. intros (e & [[Hle _]|(_ & f & Hin & Hf & Hmax)] & Hd); [lia|].
    unfold toy_eras, Params.SLASH_DEFER_ERAS in *. simpl in Hin. set_unfold in Hin. naive_solver lia.
Defined.
