(* ===== verification/CryptoTheorems.v ===== *)
(** * Theorems about transaction signatures

    The envelope and secret-URI code of [crates/transaction-crypto-core] and
    the runtime's signature type of [crates/transaction-crypto], with a toy
    signature suite on which the witnesses run. *)

From S2P Require Import Prelude TxCrypto Bindings.

(** What the runtime's pair type promises: decoding undoes its byte view, the
    pairs produce well-formed parts, and signatures verify. *)
Class PairSchemeLaws `{Suite} (Public Signature Pair : Type) `{PairScheme Public Signature Pair} := {
  public_roundtrip : forall p : Public, decode_public (public_ref p) = Some p;
  signature_roundtrip : forall s : Signature, decode_signature (signature_ref s) = Some s;
  pair_parts : forall (k : Pair) m, is_bytes (signature_ref (pair_sign k m)) /\
    well_formed (mkEnvelope (public_ref (pair_public k)) (signature_ref (pair_sign k m)));
  pair_sign_verifies : forall (k : Pair) m, pair_verify (pair_sign k m) m (pair_public k) = true
}.

(** C26.  Envelopes have one shape and one encoding.  The constructor accepts
    exactly a public key and a signature of the fixed lengths whose padding is
    canonical; decoding never panics, accepts exactly the inputs that start with
    the encoding of such an envelope, and returns it, so that encoding and
    decoding is the identity. *)
Theorem envelope_codec_exact `{Suite, !SuiteLaws} :
  (forall p s e, is_bytes s -> envelope_new p s = Ok e <-> e = mkEnvelope p s /\ well_formed e) /\
  (forall input, is_bytes input -> decode_envelope input <> Panic /\
     forall e, decode_envelope input = Ok e <-> well_formed e /\ exists rest, input = encode_envelope e ++ rest) /\
  (forall e, is_bytes (encode_envelope e) -> well_formed e ->
     decode_envelope (encode_envelope e) = Ok e /\
     length (encode_envelope e) = (HYBRID_PUBLIC_LEN + HYBRID_SIGNATURE_LEN)%nat).
Proof.
  split_and!.
  - intros p s e. apply envelope_new_spec.
  - intros input Hb. split; [by apply decode_envelope_no_panic|]. intros e. by apply decode_envelope_spec.
  - intros e Hb Hwf. split.
    + apply decode_envelope_spec; [done|]. split; [done|]. exists []. by rewrite app_nil_r.
    + destruct Hwf as (Hp & Hs & _). unfold encode_envelope. rewrite length_app. lia.
Qed.

(** C38.  Signatures are bound to accounts.  What a seed signs carries the
    seed's public key and verifies, and nothing with a non-canonical padding
    verifies; the runtime accepts a signature for an account exactly when the
    account is the digest of the embedded key and the suite accepts it under
    that key, so a second key for an account is a digest collision; and a pair
    signs for its own account without ever panicking. *)
Theorem signature_bound_to_account `{Suite, !SuiteLaws} {Public Signature Pair : Type}
    `{PairScheme Public Signature Pair, !PairSchemeLaws Public Signature Pair} :
  (forall seed payload e, sign_payload_from_seed seed payload = Ok e ->
     public_key_from_seed seed = Ok (public e) /\ envelope_verify e payload = Ok true) /\
  (forall e m, is_bytes (signature e) -> length (signature e) = HYBRID_SIGNATURE_LEN ->
     envelope_verify e m = Ok true -> exists wire_len, canonical (signature e) wire_len) /\
  (forall (e : @HybridTxSignature Public Signature) msg signer,
     tx_verify e msg signer = true <->
     signer = blake2b_32 (ACCOUNT_ID_DOMAIN ++ public_ref (tx_public e)) /\
     pair_verify (tx_signature e) msg (tx_public e) = true) /\
  (forall (k : Pair) m, exists e, tx_sign k m = Ok e /\
     tx_verify e m (into_account (mkHybridTxPublic (pair_public k))) = true).
Proof.
  split_and!.
  - intros seed payload e (_ & _ & Hp & Hv)%sign_payload_spec. done.
  - intros e m Hb Hl. unfold envelope_verify.
    destruct (validate_signature_padding (signature e)) as [n|err|] eqn:Hn; [|done|done].
    intros _. exists n. by apply padding_Ok.
  - intros e msg signer. unfold tx_verify, tx_derived_account_id, account_id_from_public, account_id_from_public_bytes.
    case_bool_decide as Hd; simpl; split.
    + by intros ->.
    + by intros [_ ?].
    + done.
    + by intros [-> _].
  - intros k m. destruct (pair_parts k m) as [Hb Hwf]. exists (mkHybridTxSignature (pair_public k) (pair_sign k m)).
    unfold tx_sign. rewrite (proj2 (envelope_new_spec _ _ _ Hb) (conj eq_refl Hwf)). simpl.
    rewrite public_roundtrip, signature_roundtrip. simpl. split; [done|].
    unfold tx_verify, tx_derived_account_id, into_account. simpl. rewrite bool_decide_eq_true_2 by done.
    apply pair_sign_verifies.
Qed.

(** C14.  Secret URIs mean what they say, whatever the text is.  The text is
    split at its first three slashes into phrase and password; a phrase that
    starts, after white space, with 0x or 0X is the seed its 64 hex digits spell,
    and an invalid seed when they are not 64 hex digits; any other phrase with a
    slash in it, with or without a password, is refused as a derivation path; and
    every other phrase is a mnemonic with that password.  Reading never panics, a
    seed has 32 bytes, and the digits of any seed give that seed back. *)
Theorem secret_uri_exact `{Suite, !SuiteLaws} :
  (forall uri r, master_seed_from_secret_uri uri = r <-> uri_means uri r) /\
  (forall uri, master_seed_from_secret_uri uri <> Panic /\
     forall seed, master_seed_from_secret_uri uri = Ok seed -> length seed = MASTER_SEED_LEN) /\
  (forall ws ws' seed tail, is_bytes seed -> length seed = MASTER_SEED_LEN ->
     Forall (fun c => is_whitespace c = true) ws -> Forall (fun c => is_whitespace c = true) ws' ->
     tail = [] \/ (exists password, tail = [SLASH; SLASH; SLASH] ++ password) ->
     master_seed_from_secret_uri (ws ++ ([ZERO; LOWER_X] ++ seed_hex seed) ++ ws' ++ tail) = Ok seed).
Proof.
  split; [exact secret_uri_meaning|]. unfold master_seed_from_secret_uri. split.
  - intros uri. destruct (split_once _ uri) as [[phrase pw]|]; apply master_seed_from_phrase_length.
  - intros ws ws' seed tail Hb Hl Hw Hw' [->|[pw ->]]; pose proof (hex_phrase_slash ws ws' seed Hb Hw Hw') as Hno.
    + rewrite app_nil_r, split_once_none by done. by apply hex_phrase_read.
    + replace (ws ++ _ ++ ws' ++ _ ++ pw) with ((ws ++ ([ZERO; LOWER_X] ++ seed_hex seed) ++ ws') ++ [SLASH; SLASH; SLASH] ++ pw)
        by (by rewrite <- !app_assoc).
      rewrite split_once_slashes by done. by apply hex_phrase_read.
Qed.

(** A computation's value in another error type. *)
Definition same_result {E F A B} (f : A -> B) (m : result E A) (m' : result F B) : Prop :=
  match m, m' with Ok a, Ok b => b = f a | Err _, Err _ => True | _, _ => False end.

Lemma rmap_err_total {E F A} (f : E -> F) (m : result E A) : m <> Panic -> rmap_err f m <> Panic.
Proof. by destruct m. Qed.

Section Signers.
Context `{Suite, !SuiteLaws, !SuiteBytes, HexCrate, !HexCrateLaws}.

Lemma seed_uri_total uri : master_seed_from_secret_uri uri <> Panic /\
  forall seed, master_seed_from_secret_uri uri = Ok seed -> length seed = MASTER_SEED_LEN.
Proof. unfold master_seed_from_secret_uri. destruct (split_once _ uri) as [[phrase pw]|]; apply master_seed_from_phrase_length. Qed.

Lemma from_seed_total seed : from_seed seed <> Panic.
Proof.
  unfold from_seed. destruct (public_key_from_seed seed) as [pk|e|] eqn:Hp; cbn [rmap_err rbind]; [|done|by apply public_key_total in Hp].
  unfold public_key_from_seed, exact_array in Hp. case_decide as Hl; [|done]. by rewrite bool_decide_true.
Qed.

Lemma browser_total a b c :
  public_from_seed_impl a <> Panic /\ seed_from_mnemonic_impl a <> Panic /\
  account_id_from_public_impl a <> Panic /\ sign_payload_from_seed_impl a b <> Panic /\ verify_envelope_impl a b c <> Panic.
Proof.
  split_and!.
  - apply rbind_no_panic; [apply decode_hex_total|]. intros seed _. apply rbind_no_panic; [|done]. apply rmap_err_total, public_key_total.
  - apply rbind_no_panic; [|done]. apply rmap_err_total, seed_uri_total.
  - apply rbind_no_panic; [apply decode_hex_total|done].
  - apply rbind_no_panic; [apply decode_hex_total|]. intros seed _. apply rbind_no_panic; [apply decode_hex_total|].
    intros payload _. apply rbind_no_panic; [|done]. apply rmap_err_total, sign_total.
  - apply rbind_no_panic; [apply decode_hex_total|]. intros payload _. apply rbind_no_panic; [apply decode_hex_total|].
    intros eb Heb%decode_hex_Ok. apply rbind_no_panic; [apply decode_hex_total|]. intros account _. case_match; [done|].
    pose proof (decode_envelope_no_panic eb Heb) as Hn. destruct (decode_envelope eb) as [e| |] eqn:He; [|done..]. cbn [rmap_err rbind].
    apply rmap_err_total. by eapply account_and_verify_total.
Qed.

Lemma python_total a b c :
  py_public_from_seed a <> Panic /\ py_seed_from_mnemonic a <> Panic /\ py_account_id_from_public a <> Panic /\
  py_sign_payload_from_seed a b <> Panic /\ from_seed a <> Panic /\ from_mnemonic a <> Panic /\
  (is_bytes b -> py_verify_envelope a b c <> Panic).
Proof.
  split_and!.
  - apply rmap_err_total, public_key_total.
  - apply rmap_err_total, seed_uri_total.
  - unfold py_account_id_from_public. by case_match.
  - apply rbind_no_panic; [|done]. apply rmap_err_total, sign_total.
  - apply from_seed_total.
  - apply rbind_no_panic; [apply rmap_err_total, seed_uri_total|]. intros seed _. apply from_seed_total.
  - intros Hb. unfold py_verify_envelope. pose proof (decode_envelope_no_panic b Hb) as Hn.
    destruct (decode_envelope b) as [e| |] eqn:He; [|done..]. cbn [rmap_err rbind]. apply rmap_err_total. by eapply account_and_verify_total.
Qed.

Lemma verdicts_agree payload envelope account :
  is_bytes payload -> is_bytes envelope -> is_bytes account ->
  let py := py_verify_envelope payload envelope account in
  let js := verify_envelope_impl (encode_hex payload) (encode_hex envelope) (encode_hex account) in
  if decide (length account = ACCOUNT_ID_LEN) then same_result (fun b => b) py js
  else js = Err AccountIdMustBe32 /\ py = (_ <-? rmap_err Core (decode_envelope envelope);; Ok false).
Proof.
  intros Hp He Ha. cbv zeta. unfold verify_envelope_impl, py_verify_envelope. rewrite !decode_encode by done. cbn [rbind].
  pose proof (decode_envelope_no_panic envelope He) as Hn. case_decide as Hl.
  - rewrite bool_decide_true by done. cbn [negb]. destruct (decode_envelope envelope) as [e| |] eqn:Hd; [|done..]. cbn [rmap_err rbind].
    pose proof (account_and_verify_total envelope e account payload He Hd) as Hv. by destruct (account_and_verify e account payload).
  - rewrite bool_decide_false by done. split; [done|]. destruct (decode_envelope envelope) as [e| |]; [|done..]. cbn [rmap_err rbind].
    unfold account_and_verify. rewrite bool_decide_false; [done|]. intros <-. apply Hl. apply blake2b_length.
Qed.

Lemma signature_accepted seed payload envelope public account :
  py_sign_payload_from_seed seed payload = Ok envelope -> py_public_from_seed seed = Ok public ->
  py_verify_envelope payload envelope account = Ok (bool_decide (account = account_id_from_public_bytes public)).
Proof.
  unfold py_sign_payload_from_seed, py_public_from_seed, py_verify_envelope. intros Hs Hp.
  destruct (sign_payload_from_seed seed payload) as [e| |] eqn:Hse; [|done..]. injection Hs as <-.
  destruct (signed_verifies _ _ _ Hse) as [-> Hv]. cbn [rmap_err rbind].
  apply sign_payload_spec in Hse as (_ & _ & Hpk & _). rewrite Hpk in Hp. injection Hp as <-.
  unfold account_and_verify in *. fold (derived_account_id e). rewrite bool_decide_true in Hv by done.
  destruct (decide (account = derived_account_id e)) as [->|Hne]; [by rewrite !bool_decide_true, Hv|].
  by rewrite !bool_decide_false by congruence.
Qed.
End Signers.

(** C15.  Where the signers agree, and where not.  On hex strings and on bytes
    the browser's and Python's functions compute the same keys, seeds, envelopes
    and verdicts, or both refuse; a Python signer object signs what its seed
    signs; what either signs, Python accepts for the account of the seed's key
    and for no other account; and no function of either panics.  They differ in
    two places: for a public key of a wrong length the browser computes an
    account id and Python refuses, and for an account id of a wrong length the
    browser refuses and Python says, of an envelope it can decode, that it is
    not that account's. *)
Theorem bindings_agree `{Suite, !SuiteLaws, !SuiteBytes, HexCrate, !HexCrateLaws} :
  (forall seed, is_bytes seed -> same_result encode_hex (py_public_from_seed seed) (public_from_seed_impl (encode_hex seed))) /\
  (forall uri, same_result encode_hex (py_seed_from_mnemonic uri) (seed_from_mnemonic_impl uri)) /\
  (forall public, is_bytes public ->
     account_id_from_public_impl (encode_hex public) = Ok (encode_hex (account_id_from_public_bytes public)) /\
     py_account_id_from_public public =
       if decide (length public = HYBRID_PUBLIC_LEN) then Ok (account_id_from_public_bytes public)
       else Err (ExpectedPublicKey (length public))) /\
  (forall seed payload, is_bytes seed -> is_bytes payload ->
     same_result encode_hex (py_sign_payload_from_seed seed payload)
       (sign_payload_from_seed_impl (encode_hex seed) (encode_hex payload))) /\
  (forall payload envelope account, is_bytes payload -> is_bytes envelope -> is_bytes account ->
     let py := py_verify_envelope payload envelope account in
     let js := verify_envelope_impl (encode_hex payload) (encode_hex envelope) (encode_hex account) in
     if decide (length account = ACCOUNT_ID_LEN) then same_result (fun b => b) py js
     else js = Err AccountIdMustBe32 /\ py = (_ <-? rmap_err Core (decode_envelope envelope);; Ok false)) /\
  (forall seed signer payload, from_seed seed = Ok signer ->
     py_public_from_seed seed = Ok (signer_public signer) /\ signer_sign signer payload = py_sign_payload_from_seed seed payload) /\
  (forall seed payload envelope public account,
     py_sign_payload_from_seed seed payload = Ok envelope -> py_public_from_seed seed = Ok public ->
     py_verify_envelope payload envelope account = Ok (bool_decide (account = account_id_from_public_bytes public))) /\
  (forall a b c, public_from_seed_impl a <> Panic /\ seed_from_mnemonic_impl a <> Panic /\
     account_id_from_public_impl a <> Panic /\ sign_payload_from_seed_impl a b <> Panic /\ verify_envelope_impl a b c <> Panic) /\
  (forall a b c, py_public_from_seed a <> Panic /\ py_seed_from_mnemonic a <> Panic /\ py_account_id_from_public a <> Panic /\
     py_sign_payload_from_seed a b <> Panic /\ from_seed a <> Panic /\ from_mnemonic a <> Panic /\
     (is_bytes b -> py_verify_envelope a b c <> Panic)).
Proof.
  split_and!.
  - intros seed Hb. unfold public_from_seed_impl, py_public_from_seed. rewrite decode_encode by done. cbn [rbind].
    pose proof (public_key_total seed). by destruct (public_key_from_seed seed).
  - intros uri. unfold seed_from_mnemonic_impl, py_seed_from_mnemonic. destruct (seed_uri_total uri) as [Hn _].
    by destruct (master_seed_from_secret_uri uri).
  - intros p Hb. unfold account_id_from_public_impl, py_account_id_from_public. rewrite decode_encode by done. split; [done|].
    case_decide; [by rewrite bool_decide_true|by rewrite bool_decide_false].
  - intros seed payload Hs Hp. unfold sign_payload_from_seed_impl, py_sign_payload_from_seed. rewrite !decode_encode by done. cbn [rbind].
    pose proof (sign_total seed payload). by destruct (sign_payload_from_seed seed payload).
  - apply verdicts_agree.
  - intros seed signer payload Hok. unfold from_seed, py_public_from_seed in *. destruct (public_key_from_seed seed); [|done..].
    cbn [rmap_err rbind] in *. case_match; [done|]. by injection Hok as <-.
  - apply signature_accepted.
  - apply browser_total.
  - apply python_total.
Qed.

(** ** Witnesses *)

(** A suite of two-byte keys whose signature repeats one byte. *)
Definition toy_tag (key : bytes) (m : bytes) : Z := (zsum key + zsum m) mod 256.
Definition toy_wire (key m : bytes) : bytes := replicate 64 (toy_tag key m) ++ [0; 7].
Definition toy_sign (key m : bytes) : bytes := toy_wire key m ++ replicate 255 0.

#[export] Instance toy_suite : Suite := {
  HYBRID_PUBLIC_LEN := 2;
  HYBRID_SIGNATURE_LEN := 321;
  HYBRID_SECRET_LEN := 2;
  MIN_FALCON512_SIG_LEN := 1;
  keypair_from_seed := fun seed => Some ([zsum seed mod 256; 1], [zsum seed mod 256; 1]);
  sign_deterministic := fun sk m ctx => Some (66%nat, toy_sign sk m);
  composite_verify := fun pk m ctx sig => bool_decide (sig = toy_wire pk m);
  blake2b_32 := fun m => to_be_bytes 32 (zsum m);
  mnemonic_entropy := fun phrase => if bool_decide (phrase = [97; 98]) then Some [1] else None;
  seed_from_entropy := fun entropy pw => Some (replicate 64 (zsum pw mod 256))
}.

Lemma toy_tag_range key m : 0 <= toy_tag key m < 256.
Proof. apply Z.mod_pos_bound. lia. Qed.

Lemma toy_wire_length key m : length (toy_wire key m) = 66%nat.
Proof. unfold toy_wire. by rewrite length_app, length_replicate. Qed.

Lemma toy_sign_bytes key m : Forall (fun b => 0 <= b < 256) (toy_sign key m).
Proof.
  unfold toy_sign, toy_wire. rewrite !Forall_app. split_and!.
  - apply Forall_replicate, toy_tag_range.
  - repeat constructor; lia.
  - apply Forall_replicate. lia.
Qed.

#[export] Instance toy_suite_laws : SuiteLaws.
Proof.
  split.
  - unfold MIN_HYBRID_SIGNATURE_LEN, CLASSICAL_SIGNATURE_LEN, DELTA_LEN. simpl. lia.
  - intros seed sk pk [= <- <-]. split; reflexivity.
  - intros m. apply to_be_bytes_length.
  - intros entropy pw seed Hs. change (Some (replicate 64 (zsum pw mod 256)) = Some seed) in Hs.
    assert (seed = replicate 64 (zsum pw mod 256)) as -> by congruence. rewrite length_replicate. unfold MASTER_SEED_LEN. lia.
  - intros sk m ctx n out Hs. change (Some (66%nat, toy_sign sk m) = Some (n, out)) in Hs.
    assert (n = 66%nat /\ out = toy_sign sk m) as [-> ->] by (split; congruence). split_and!.
    + unfold toy_sign. by rewrite length_app, toy_wire_length, length_replicate.
    + apply toy_sign_bytes.
    + unfold toy_sign. rewrite drop_app_length' by (by rewrite toy_wire_length). by apply Forall_replicate.
  - intros seed sk pk m ctx n out [= <- <-] Hs.
    change (Some (66%nat, toy_sign [zsum seed mod 256; 1] m) = Some (n, out)) in Hs.
    assert (n = 66%nat /\ out = toy_sign [zsum seed mod 256; 1] m) as [-> ->] by (split; congruence).
    unfold composite_verify, toy_suite, toy_sign.
    rewrite take_app_length' by (by rewrite toy_wire_length). by apply bool_decide_eq_true_2.
Qed.

(** Pairs are keys; keys and signatures are their bytes. *)
#[export] Instance toy_pair : PairScheme (list Z) (list Z) Z := {
  public_ref := fun p => p;
  signature_ref := fun s => s;
  decode_public := fun b => Some b;
  decode_signature := fun b => Some b;
  pair_public := fun k => [k mod 256; 1];
  pair_sign := fun k m => toy_sign [k mod 256; 1] m;
  pair_verify := fun s m p => bool_decide (s = toy_sign p m)
}.
Lemma toy_sign_canonical key m : canonical (toy_sign key m) 66.
Proof.
  exists 0. split_and!; [reflexivity|reflexivity|]. unfold toy_sign.
  rewrite drop_app_length' by (by rewrite toy_wire_length). by apply Forall_replicate.
Qed.

#[export] Instance toy_pair_laws : PairSchemeLaws (list Z) (list Z) Z.
Proof.
  split; [reflexivity|reflexivity| |].
  - intros k m. split; [eapply Forall_impl; [apply toy_sign_bytes|]; unfold in_u; simpl; lia|].
    split_and!; [reflexivity| |exists 66%nat; apply toy_sign_canonical].
    unfold signature, signature_ref, toy_pair, pair_sign, toy_sign.
    by rewrite length_app, toy_wire_length, length_replicate.
  - intros k m. unfold pair_verify, pair_sign, pair_public, toy_pair. by apply bool_decide_eq_true_2.
Qed.

Definition toy_envelope : HybridTxSignatureBytes := mkEnvelope [9; 1] (toy_sign [9; 1] [5; 6]).

Lemma envelope_codec_exact_witness :
  decode_envelope (encode_envelope toy_envelope) = Ok toy_envelope /\
  length (encode_envelope toy_envelope) = 323%nat /\
  decode_envelope (encode_envelope toy_envelope ++ [1; 2; 3]) = Ok toy_envelope.
Proof.
  destruct (envelope_codec_exact (H := toy_suite)) as (_ & Hdec & Hround).
  assert (well_formed toy_envelope) as Hwf.
  { split; [reflexivity|]. split; [vm_compute; reflexivity|]. exists 66%nat. exact (toy_sign_canonical [9; 1] [5; 6]). }
  assert (is_bytes (encode_envelope toy_envelope)) as Hb.
  { apply (bool_decide_unpack _). vm_compute. exact I. }
  destruct (Hround toy_envelope Hb Hwf) as [Hd Hl]. split; [exact Hd|]. split; [exact Hl|].
  destruct (Hdec (encode_envelope toy_envelope ++ [1; 2; 3])) as [_ He].
  - apply (bool_decide_unpack _). vm_compute. exact I.
  - apply He. split; [exact Hwf|]. exists [1; 2; 3]. reflexivity.
Defined.

Lemma signature_bound_to_account_witness :
  envelope_verify toy_envelope [5; 6] = Ok true /\
  exists e, tx_sign 300 [1; 2; 3] = Ok e /\
    tx_verify e [1; 2; 3] (into_account (mkHybridTxPublic (pair_public 300))) = true.
Proof.
  destruct (signature_bound_to_account (H := toy_suite) (Public := list Z) (Signature := list Z) (Pair := Z))
    as (Hsign & _ & _ & Hpair).
  split; [|exact (Hpair 300 [1; 2; 3])].
  apply (Hsign (9 :: replicate 31 0) [5; 6] toy_envelope). vm_compute. reflexivity.
Defined.

(** A hex seed between blanks with a password, a derivation path with a
    password, a path without one, and hex digits that are too few. *)
Lemma secret_uri_exact_witness :
  master_seed_from_secret_uri ([32] ++ ([ZERO; LOWER_X] ++ seed_hex (replicate 32 171)) ++ [32] ++ [SLASH; SLASH; SLASH; 65]) =
    Ok (replicate 32 171) /\
  uri_means ([97; SLASH; SLASH; 98] ++ PASSWORD_MARK ++ [112; 119]) (Err UnsupportedDerivationPath) /\
  uri_means [97; 98; SLASH; SLASH; 48] (Err UnsupportedDerivationPath) /\
  uri_means [ZERO; UPPER_X; 57] (Err InvalidSeed) /\
  uri_means ([97; 98] ++ PASSWORD_MARK ++ [65]) (Ok (replicate 32 65)).
Proof.
  destruct (secret_uri_exact (H := toy_suite)) as (Hmeans & _ & Hhex). split.
  - apply (Hhex [32] [32] (replicate 32 171) [SLASH; SLASH; SLASH; 65]).
    + apply (bool_decide_unpack _). vm_compute. exact I.
    + reflexivity.
    + repeat constructor.
    + repeat constructor.
    + right. exists [65]. reflexivity.
  - repeat split; apply Hmeans; vm_compute; reflexivity.
Defined.

(** Pairs of hex digits, as the hex crate reads and writes them. *)
Fixpoint hex_pairs (s : list Z) : option (list Z) :=
  match s with
  | [] => Some []
  | a :: b :: s =>
      match hex_digit a, hex_digit b with
      | Ok hi, Ok lo => cons (hi * 16 + lo) <$> hex_pairs s
      | _, _ => None
      end
  | _ => None
  end.
#[export] Instance toy_hex : HexCrate := { hex_encode := seed_hex; hex_decode := hex_pairs }.

#[export] Instance toy_hex_laws : HexCrateLaws.
Proof.
  split.
  - intros b Hb. simpl. induction Hb as [|x b Hx _ IH]; [done|]. destruct (nibbles x Hx) as (Hh & Hl & He).
    change (seed_hex (x :: b)) with (hex_char (x / 16) :: hex_char (x mod 16) :: seed_hex b). cbn [hex_pairs].
    rewrite !hex_digit_char, IH by done. simpl. by rewrite He.
  - cbn [hex_decode toy_hex]. fix IH 1. intros [|a [|c s]] b; cbn [hex_pairs]; [intros [= <-]; constructor|done|].
    destruct (hex_digit a) as [hi| |] eqn:Ha; [|done..]. destruct (hex_digit c) as [lo| |] eqn:Hc; [|done..].
    destruct (hex_pairs s) as [t|] eqn:Ht; [|done]. intros [= <-]. apply hex_digit_Ok in Ha, Hc.
    constructor; [unfold in_u; lia|by apply (IH s)].
Qed.

#[export] Instance toy_suite_bytes : SuiteBytes (H := toy_suite).
Proof.
  split.
  - intros seed sk pk [= <- <-]. repeat constructor; unfold in_u; simpl; try lia; apply Z.mod_pos_bound; lia.
  - intros m. exact (to_be_bytes_range 32 (zsum m)).
Qed.

Definition nines : list Z := 9 :: replicate 31 0.
Lemma bindings_agree_witness :
  py_verify_envelope [5; 6] (encode_envelope toy_envelope) (account_id_from_public_bytes [9; 1]) = Ok true /\
  same_result encode_hex (Ok (encode_envelope toy_envelope) : result QuipSignerError _)
    (sign_payload_from_seed_impl (encode_hex nines) (encode_hex [5; 6])).
Proof.
  destruct bindings_agree as (_ & _ & _ & Hsign & _ & _ & Hacc & _).
  assert (py_sign_payload_from_seed nines [5; 6] = Ok (encode_envelope toy_envelope)) as Hs by (vm_compute; reflexivity).
  split.
  - rewrite (Hacc nines [5; 6] (encode_envelope toy_envelope) [9; 1]); [|exact Hs|vm_compute; reflexivity]. by rewrite bool_decide_true.
  - rewrite <- Hs. apply Hsign; apply (bool_decide_unpack _); vm_compute; exact I.
Defined.
