(* ===== verification/GenesisTheorems.v ===== *)
(** * Theorems about genesis

    What an exported mainnet genesis is and that the other pallets accept it,
    and what an accepted allocation plan is. *)

From stdpp Require Import strings.
From S2P Require Import Prelude Frame RuntimeParams Xqvm MempoolCore Mempool RuntimeConfig XqvmAdapter Emission StakingRewards Faucet Admission MainnetAllocation GenesisPresets Instances.

Open Scope Z_scope.

Section Genesis.
Context `{GenesisHashes, GenesisKeys}.

(** What the checks before the construction of the patch have established. *)
Record plan_facts (inputs : MainnetInputs) (authorities : list Authority) (funding : GenesisFunding) : Prop := {
  pf_council : length (council inputs) = 6%nat /\ NoDup (council inputs);
  pf_stashes : authorities.*1.*1 = stash <$> validators inputs;
  pf_validators : length (stash <$> validators inputs) = 5%nat /\ NoDup (stash <$> validators inputs);
  pf_disjoint : assert_council_disjoint (council inputs) (stash <$> validators inputs) true = Ok tt;
  pf_keys : NoDup authorities.*1.*2 /\ NoDup authorities.*2;
  pf_network : validate_mainnet_network_keys authorities = Ok tt;
  pf_bonded : forall who, who ∈ stash <$> validators inputs ->
    exists b, (who, b) ∈ funding_balances funding /\ VALIDATOR_BOND < b;
  pf_accounts : NoDup (funding_balances funding).*1 /\ length (funding_balances funding) = 13%nat;
  pf_reserved : forall who, who ∈ (funding_balances funding).*1 -> who ∉ reserved_mainnet_accounts;
  pf_issuance : Params.EXISTENTIAL_DEPOSIT + zsum (funding_balances funding).*2 < 2 ^ 128;
  pf_usable : forall who b, (who, b) ∈ funding_balances funding ->
    Params.EXISTENTIAL_DEPOSIT <= b /\ b <> TEST_CURRENCY_ENDOWMENT;
  pf_faucet : funding_faucet_state funding = PermanentlyDisabled /\
    funding_faucet_authority funding = None /\ funding_faucet_budget funding = 0;
  pf_custody : exists total, validate (allocation inputs)
      ((stash <$> validators inputs) ++ council inputs ++ [spec_builder inputs]) = Ok total /\
    (custody (allocation inputs), total) ∈ funding_balances funding
}.

Lemma existsb_false {A} (f : A -> bool) l x : existsb f l = false -> x ∈ l -> f x = false.
Proof.
  intros Hl Hx. destruct (f x) eqn:E; [|done]. rewrite <- Hl. symmetry. apply existsb_exists.
  exists x. split; [by apply list_elem_of_In|done].
Qed.

Lemma rfold_unit_Ok {E A} (f : unit -> A -> result E unit) l x : rfold f tt l = Ok tt -> x ∈ l -> f tt x = Ok tt.
Proof.
  intros Hl Hx. induction Hx as [x l|x y l _ IH]; cbn [rfold] in Hl; apply rbind_Ok_inv in Hl as ([] & H1 & H2); auto.
Qed.

Lemma imap_pair_snd {A} (l : list A) : (imap pair l).*2 = l.
Proof.
  rewrite fmap_imap. change (imap (fun _ x => x) l = l).
  induction l as [|x l IH]; [done|]. rewrite imap_cons. f_equal. exact IH.
Qed.

Lemma resolved_authorities_stashes vs authorities :
  resolved_authorities vs = Ok authorities -> authorities.*1.*1 = stash <$> vs.
Proof.
  unfold resolved_authorities. intros Hr%rmapM_Ok_inv. rewrite <- (imap_pair_snd vs) at 1.
  induction Hr as [|v a vs' l Ha _ IH]; csimpl; [done|]. rewrite IH. f_equal. rinv. by destruct v.
Qed.

Lemma distinct_NoDup l : bool_decide (distinct l = length l) = true <-> NoDup l.
Proof. rewrite bool_decide_eq_true. apply list_to_set_NoDup. Qed.

Lemma validate_session_keys_Ok authorities :
  validate_session_keys authorities = Ok tt -> NoDup authorities.*1.*2 /\ NoDup authorities.*2.
Proof.
  unfold validate_session_keys. destruct (_ || _) eqn:E; [done|]. intros _. bool_to_prop.
  split; apply list_to_set_NoDup; unfold distinct in *; by rewrite !length_fmap.
Qed.

(** The running total of the endowments with the reserve is checked. *)
Lemma issuance_fits (bal : list (AccountId * Balance)) acc u :
  rfold (fun total (e : AccountId * Balance) => ok_or (checked_u 128 (total + e.2)) IssuanceOverflows) acc bal = Ok u ->
  acc < 2 ^ 128 -> acc + zsum bal.*2 < 2 ^ 128.
Proof.
  revert acc; induction bal as [|e bal IH]; intros acc; csimpl; [unfold zsum; simpl; lia|].
  intros Hf Hacc. rinv. unfold checked_u in *. case_decide as Hr; simplify_eq. unfold in_u in Hr.
  apply IH in Hf; [|lia]. change (zsum (?x :: ?l)) with (x + zsum l). lia.
Qed.

(** What the check of the funding establishes. *)
Lemma validate_mainnet_funding_Ok funding vs cs builder cust tot u :
  validate_mainnet_funding funding vs cs builder cust tot = Ok u ->
  let bal := funding_balances funding in
  (NoDup bal.*1 /\ length bal = 13%nat /\ forall who, who ∈ bal.*1 <-> who ∈ vs ++ cs ++ [builder] ++ [cust]) /\
  (forall e, e ∈ bal -> e.1 ∉ reserved_mainnet_accounts /\ Params.EXISTENTIAL_DEPOSIT <= e.2 /\
     e.2 <> TEST_CURRENCY_ENDOWMENT /\ (e.1 = cust -> e.2 = tot) /\ (e.1 ∈ vs -> VALIDATOR_BOND < e.2)) /\
  Params.EXISTENTIAL_DEPOSIT + zsum bal.*2 < 2 ^ 128 /\
  funding_faucet_state funding = PermanentlyDisabled /\ funding_faucet_authority funding = None /\
  funding_faucet_budget funding = 0.
Proof.
  unfold validate_mainnet_funding. set (bal := funding_balances funding). intros Hok. cbv zeta in Hok |- *.
  repeat (apply rbind_Ok_inv in Hok as (? & ?%ensure_Ok & Hok)).
  apply rbind_Ok_inv in Hok as (? & Hsum & Hf%ensure_Ok). bool_to_prop.
  split_and!; try done.
  - apply list_to_set_NoDup. by rewrite length_fmap.
  - congruence.
  - intros who. rewrite <- !(elem_of_list_to_set (C := gset AccountId)). match goal with Hx : list_to_set _ = _ |- _ => by rewrite Hx end.
  - intros e He.
    repeat match goal with Hx : existsb _ bal = false |- _ => apply (existsb_false _ _ e Hx) in He as ?; clear Hx end.
    bool_to_prop. split_and!; try done.
    + intros Hc. match goal with Hx : (_ =? cust) && _ = false |- _ => apply andb_false_iff in Hx as [Hx|Hx] end; bool_to_prop; done.
    + intros Hc. match goal with Hx : bool_decide _ && _ = false |- _ => apply andb_false_iff in Hx as [Hx|Hx] end; bool_to_prop; done.
  - by apply issuance_fits in Hsum.
  - by destruct (funding_faucet_authority funding) eqn:E; [exfalso; eauto|].
Qed.

Lemma mainnet_plan_facts inputs authorities funding :
  mainnet_plan inputs = Ok (authorities, funding) -> plan_facts inputs authorities funding.
Proof.
  unfold mainnet_plan. intros Hok. cbv zeta in Hok.
  do 3 (apply rbind_Ok_inv in Hok as (? & ?%ensure_Ok & Hok)).
  apply rbind_Ok_inv in Hok as ([] & Hdis & Hok). do 2 (apply rbind_Ok_inv in Hok as (? & ?%ensure_Ok & Hok)).
  apply rbind_Ok_inv in Hok as (auths & Hauth & Hok). apply rbind_Ok_inv in Hok as ([] & Hkeys%validate_session_keys_Ok & Hok).
  do 4 (apply rbind_Ok_inv in Hok as (? & ? & Hok)). apply rbind_Ok_inv in Hok as (tot & Htot & Hok).
  set (fund := mkGenesisFunding _ _ _ _) in Hok.
  apply rbind_Ok_inv in Hok as (? & Hfund%validate_mainnet_funding_Ok & Hok).
  apply rbind_Ok_inv in Hok as ([] & Hnet & Hok). cbv zeta in Hfund. clearbody fund. injection Hok as <- <-.
  destruct Hfund as ((Hnd & Hlen & Helem) & Heach & Hsum & Hfau). bool_to_prop.
  apply resolved_authorities_stashes in Hauth. unfold distinct in *.
  split; try done.
  - split; [done|]. apply list_to_set_NoDup. congruence.
  - split; [done|]. apply list_to_set_NoDup. congruence.
  - intros who Hwho. assert (who ∈ (funding_balances fund).*1) as (e & -> & He)%list_elem_of_fmap
      by (apply Helem, elem_of_app; auto). destruct e as [w b]. exists b. split; [done|]. by apply (Heach _ He).
  - intros who (e & -> & He)%list_elem_of_fmap. by apply (Heach _ He).
  - intros who b He. destruct (Heach _ He) as (_ & ? & ? & _). done.
  - exists tot. split; [by rinv|]. assert (custody (allocation inputs) ∈ (funding_balances fund).*1) as (e & Hc & He)%list_elem_of_fmap
      by (apply Helem; set_solver). destruct (Heach _ He) as (_ & _ & _ & Ht & _). destruct e; simpl in *. subst. by rewrite <- Ht.
Qed.

(** The checks themselves do not panic. *)
Lemma mainnet_plan_no_panic inputs : mainnet_plan inputs <> Panic.
Proof.
  unfold mainnet_plan, validate_mainnet_funding, validate_mainnet_network_keys, resolved_authorities,
    validate_session_keys, resolved_float, assert_council_disjoint, validate, check_tranche. no_panic.
Qed.

(** No validator reuses a key of a testnet operator or of the keyring. *)
Lemma validate_mainnet_network_keys_Ok authorities a source f :
  validate_mainnet_network_keys authorities = Ok tt -> a ∈ authorities -> (source, f) ∈ forbidden_keys ->
  a.1.1 <> f.1.1 /\ a.1.2 <> f.1.2 /\ a.2 <> f.2.
Proof.
  intros Hv Ha Hf. apply (rfold_unit_Ok _ _ _ Hv) in Hf. simpl in Hf.
  apply list_elem_of_lookup in Ha as [i Hi].
  assert ((i, a) ∈ imap pair authorities) as Hin by (apply elem_of_lookup_imap; eauto).
  apply (rfold_unit_Ok _ _ _ Hf) in Hin. simpl in Hin. unfold collision in Hin.
  repeat (case_match; bool_to_prop); done.
Qed.

(** ** The genesis patch *)

(** The patch of a network genesis, once its assertions hold. *)
Definition network_patch (authorities : list Authority) (funding : GenesisFunding) (roles : GenesisRoles)
    (cid minv : Z) : RuntimeGenesis :=
  let who := authorities.*1.*1 in
  mkRuntimeGenesis (role_foundation_members roles) FoundationOnly who (zlen who) minv None (Some Params.MaxNominators)
    (2000 * Params.UNIT) (10 * Params.UNIT) ((fun w => (w, w, 2000 * Params.UNIT)) <$> who) cid (funding_balances funding)
    ((fun a : Authority => (a.1.1, a.1.1, (a.1.2, a.2))) <$> authorities) (Some (role_ising_spec_builder roles))
    (funding_faucet_state funding) (funding_faucet_authority funding) true None
    [(ISING_SUBNET, BILLION / 2); (QVRF_SUBNET, BILLION / 2)] (funding_faucet_budget funding).

Lemma assert_iff b r (m : gresult r) g : (assert b;;? m) = Ok g <-> b = true /\ m = Ok g.
Proof. destruct b; simpl; [tauto|]. split; [done|]. by intros []. Qed.

Lemma disjoint_iff council operators require :
  assert_council_disjoint council operators require = Ok tt <->
  (require = true -> forall who, who ∈ council -> who ∉ operators).
Proof.
  unfold assert_council_disjoint. destruct require; simpl; [|done].
  destruct (head _) as [x|] eqn:Hh.
  - split; [done|]. intros Hd. apply head_Some_elem_of, list_elem_of_filter in Hh as [? ?]. by destruct (Hd eq_refl x).
  - split; [|done]. intros _ _ who Hc Ho. apply head_None in Hh.
    assert (who ∈ filter (fun who => who ∈ operators) council) as Hin by (by apply list_elem_of_filter).
    rewrite Hh in Hin. by apply not_elem_of_nil in Hin.
Qed.

Lemma assert_disjoint_iff council operators require r (m : gresult r) g :
  ((match assert_council_disjoint council operators require with Ok _ => Ok tt | _ => Panic end);;? m) = Ok g <->
  (require = true -> forall who, who ∈ council -> who ∉ operators) /\ m = Ok g.
Proof.
  rewrite <- disjoint_iff. destruct (assert_council_disjoint _ _ _) as [[]| |]; simpl; [tauto|..]; by split; [|intros []].
Qed.

Lemma funded_iff (bal : list (AccountId * Balance)) l :
  forallb (fun who => existsb (fun e : AccountId * Balance => (e.1 =? who) && (VALIDATOR_BOND <? e.2)) bal) l = true <->
  forall who, who ∈ l -> exists b, (who, b) ∈ bal /\ VALIDATOR_BOND < b.
Proof.
  rewrite forallb_forall. setoid_rewrite <- list_elem_of_In. split; intros Hall who Hin; specialize (Hall who Hin).
  - apply existsb_exists in Hall as ([w b] & He%list_elem_of_In & Hb). simpl in *. bool_to_prop. subst. eauto.
  - destruct Hall as (b & He & Hb). apply existsb_exists. exists (who, b). split; [by apply list_elem_of_In|].
    simpl. rewrite Z.eqb_refl. by apply Z.ltb_lt in Hb as ->.
Qed.

(** A genesis is exported exactly when its assertions hold. *)
Lemma network_genesis_iff authorities funding roles cid minv g :
  network_genesis authorities funding roles cid minv = Ok g <->
  (1 <= zlen authorities <= 32 /\ 1 <= minv <= zlen authorities) /\
  NoDup authorities.*1.*1 /\
  (forall who, who ∈ authorities.*1.*1 -> exists b, (who, b) ∈ funding_balances funding /\ VALIDATOR_BOND < b) /\
  NoDup (funding_balances funding).*1 /\
  (1 <= zlen (role_foundation_members roles) <= 32 /\ NoDup (role_foundation_members roles)) /\
  (require_council_disjoint roles = true -> forall who, who ∈ role_foundation_members roles -> who ∉ authorities.*1.*1) /\
  g = network_patch authorities funding roles cid minv.
Proof.
  unfold network_genesis. cbv zeta. rewrite !assert_iff, assert_disjoint_iff, assert_iff, funded_iff.
  rewrite <- (length_fmap fst (funding_balances funding)), !distinct_NoDup, !andb_true_iff, !negb_true_iff, !bool_decide_eq_false, !Z.leb_le.
  assert (zlen authorities <= 32 -> wrap_u 32 (zlen authorities) = zlen authorities) as Hw
    by (intros; apply wrap_u_small; unfold in_u, zlen in *; lia).
  assert (zlen authorities.*1.*1 = zlen authorities) as Hl by (unfold zlen; by rewrite !length_fmap).
  unfold network_patch. rewrite Hl. split.
  - intros ([Hlo H32] & [Hm1 Hm2] & Hnd & Hf & Hb & Hc0 & Hcn & Hd & Hc & [= <-]). rewrite Hw in * by done.
    split_and!; try done; unfold zlen in *; lia.
  - intros ([[Hlo H32] [Hm1 Hm2]] & Hnd & Hf & Hb & [[Hc0 Hc] Hcn] & Hd & ->). rewrite Hw by done.
    split_and!; try done; unfold zlen in *; lia.
Qed.

(** ** The pallets accept the patch *)

(** Every genesis builder of the repository that the patch configures takes
    its part of it, from any state; the mempool's, with the runtime's virtual
    machine, from any state without the default specification. *)
Definition genesis_accepted (g : RuntimeGenesis) : Prop :=
  (forall W (s : AdmissionState (W := W)), exists s',
     Admission.genesis_build Params.MaxAdmittedAuthorities (admission_mode g) (approved g) s = Ok s' /\
     Mode s' = FoundationOnly /\ Approved s' = list_to_set (approved g)) /\
  (forall W (s : EmissionState (W := W)), exists s',
     Emission.genesis_build runtime_emission_config (emission_enabled g) (emission_start_at g) (emission_routes g)
       (faucet_budget g) s = Ok s' /\ Routes s' = emission_routes g /\ FaucetBudget s' = faucet_budget g) /\
  (forall W (f : Faucet (W := W)), exists f',
     faucet_genesis (faucet_state g) (faucet_authority_config g) f = Ok f' /\ State f' = faucet_state g) /\
  chain_id_genesis (chain_id g) = Ok (Some (chain_id g)) /\
  (forall (P : MempoolPrims) (X : XqvmLib) programs steps memory upgrade_builder W (s : MempoolState (W := W)),
     let cfg := runtime_mempool_config upgrade_builder in
     let id := job_spec_id (default_ising_spec_name cfg) IsingFormulation None None in
     JobSpecs s !! id = None ->
     exists who s', default_ising_spec_builder g = Some who /\
       Mempool.genesis_build (H := XqvmAdapter programs steps memory) cfg (default_ising_spec_builder g) s = Ok s' /\
       JobSpecs s' = <[id := mkJobSpec who (default_ising_spec_name cfg) IsingFormulation None None (block_number s) 0 0]> (JobSpecs s)).

Lemma approved_total {E} max l (acc : gset AccountId) :
  NoDup l -> (forall who, who ∈ l -> who ∉ acc) -> Z.of_nat (size acc) + zlen l <= max ->
  rfold (fun (set : gset AccountId) who =>
      if bool_decide (who ∈ set) then Panic
      else if Z.of_nat (size set) <? max then Ok ({[who]} ∪ set) else Panic) acc l
  = @Ok E _ (list_to_set l ∪ acc).
Proof.
  intros Hnd. revert acc. induction Hnd as [|x l Hx Hnd IH]; intros acc Hfresh Hsize; csimpl; [f_equal; set_solver|].
  assert (x ∉ acc) as Hno by (apply Hfresh; left). rewrite bool_decide_eq_false_2 by done.
  unfold zlen in Hsize. simpl in Hsize. rewrite (proj2 (Z.ltb_lt _ _)) by lia. cbn [rbind].
  rewrite IH; [f_equal; set_solver| |].
  - intros who Hw [->%elem_of_singleton|Ha]%elem_of_union; [done|]. eapply Hfresh; [by right|done].
  - rewrite size_union, size_singleton by set_solver. unfold zlen. lia.
Qed.

Lemma network_genesis_accepted authorities funding roles cid minv g :
  network_genesis authorities funding roles cid minv = Ok g -> 0 < cid ->
  (funding_faucet_state funding = FaucetEnabled -> is_Some (funding_faucet_authority funding)) ->
  genesis_accepted g.
Proof.
  intros ([[_ Hn] _] & Hnd & _ & _ & _ & _ & ->)%network_genesis_iff Hcid Hauth. split_and!.
  - intros W s. unfold Admission.genesis_build. cbn [admission_mode approved network_patch].
    rewrite bool_decide_eq_false_2 by done.
    rewrite approved_total; [|done|set_solver|].
    + eexists. split_and!; [reflexivity|done|]. cbn. set_solver.
    + unfold Params.MaxAdmittedAuthorities. rewrite size_empty. unfold zlen in *. rewrite !length_fmap. lia.
  - intros W s. eexists. split_and!; [reflexivity|done|done].
  - intros W f. unfold faucet_genesis. cbn [faucet_state faucet_authority_config network_patch].
    destruct (decide (funding_faucet_state funding = FaucetEnabled)) as [He|He].
    + rewrite (bool_decide_eq_true_2 (is_Some _)), orb_true_r by auto. eexists; split; reflexivity.
    + rewrite bool_decide_eq_false_2 by done. eexists; split; reflexivity.
  - unfold chain_id_genesis. cbn [chain_id network_patch]. by rewrite (proj2 (Z.ltb_lt 0 cid)).
  - intros P X programs steps memory ub W s cfg id Hnone. cbn [default_ising_spec_builder network_patch].
    exists (role_ising_spec_builder roles). unfold Mempool.genesis_build, insert_default_ising_spec, insert_job_spec. cbn [rbind].
    fold id.
    rewrite bool_decide_true by done. cbn. eauto.
Qed.

(** ** Mainnet *)

(** Once the checks pass, no assertion of the construction fails. *)
Lemma plan_exports inputs authorities funding :
  plan_facts inputs authorities funding ->
  let roles := mkGenesisRoles (council inputs) (spec_builder inputs) (spec_builder inputs) true in
  network_genesis authorities funding roles MAINNET_CHAIN_ID 3 =
    Ok (network_patch authorities funding roles MAINNET_CHAIN_ID 3).
Proof.
  intros [[Hc Hcn] Hst [Hv Hvn] Hdis _ _ Hb [Hnd _] _ _ _ _ _]. cbv zeta. apply network_genesis_iff.
  rewrite Hst. assert (zlen authorities = 5) as ->.
  { rewrite <- Hst, !length_fmap in Hv. unfold zlen. by rewrite Hv. }
  cbn [role_foundation_members require_council_disjoint]. unfold zlen. rewrite Hc.
  split_and!; try done. by apply disjoint_iff.
Qed.

Lemma mainnet_genesis_Ok inputs g :
  mainnet_genesis inputs = Ok g ->
  exists authorities funding, plan_facts inputs authorities funding /\ genesis_accepted g /\
    g = network_patch authorities funding (mkGenesisRoles (council inputs) (spec_builder inputs) (spec_builder inputs) true)
          MAINNET_CHAIN_ID 3.
Proof.
  unfold mainnet_genesis. intros ([authorities funding] & Hp%mainnet_plan_facts & Hok)%rbind_Ok_inv.
  exists authorities, funding. split_and!; [done| |].
  - apply (network_genesis_accepted _ _ _ _ _ _ Hok); [done|]. destruct Hp as [_ _ _ _ _ _ _ _ _ _ _ [-> _] _]. done.
  - rewrite plan_exports in Hok by done. by injection Hok.
Qed.
End Genesis.

Lemma patch_babe_keys (l : list Authority) :
  ((fun a : Authority => (a.1.1, a.1.1, (a.1.2, a.2))) <$> l).*2.*1 = l.*1.*2.
Proof. induction l as [|a l IH]; csimpl; congruence. Qed.

Lemma patch_grandpa_keys (l : list Authority) :
  ((fun a : Authority => (a.1.1, a.1.1, (a.1.2, a.2))) <$> l).*2.*2 = l.*2.
Proof. induction l as [|a l IH]; csimpl; congruence. Qed.

(** ** What is published *)

Section Presets.
Context `{GenesisHashes, GenesisKeys}.

Lemma filter_id {A} (P : A -> Prop) `{!forall x, Decision (P x)} (l : list A) :
  (forall x, x ∈ l -> P x) -> filter P l = l.
Proof.
  induction l as [|x l IH]; intros Hl; [done|]. rewrite filter_cons_True by (apply Hl; left).
  f_equal. apply IH. intros; apply Hl; by right.
Qed.

(** As published, the council is unresolved and the mainnet preset refuses to
    be exported, whatever the placeholder hashes are. *)
Lemma quip_mainnet_unresolved : quip_mainnet_config_genesis = Err (UnresolvedCouncil MAINNET_COUNCIL_PLACEHOLDERS).
Proof.
  unfold quip_mainnet_config_genesis, mainnet_genesis, mainnet_plan, mainnet_inputs. cbn [council council_placeholders].
  assert (filter (fun label => mainnet_placeholder "council" label ∈ mainnet_placeholder "council" <$> MAINNET_COUNCIL_LABELS)
            MAINNET_COUNCIL_LABELS = MAINNET_COUNCIL_PLACEHOLDERS) as ->; [|reflexivity].
  change MAINNET_COUNCIL_PLACEHOLDERS with MAINNET_COUNCIL_LABELS. apply filter_id.
  intros label Hl. by apply list_elem_of_fmap_2.
Qed.

(** [preset_names] lists exactly the names [get_preset] knows, and the two
    unresolved presets are the only ones that cannot be exported. *)
Lemma get_preset_names id : is_Some (get_preset id) <-> id ∈ preset_names.
Proof.
  unfold get_preset, preset_names. rewrite !elem_of_cons, elem_of_nil.
  repeat case_bool_decide; try (split; [tauto|eauto]). split; [by intros []|tauto].
Qed.

Lemma refused_presets :
  get_preset QUIP_MAINNET_RUNTIME_PRESET = Some Panic /\ get_preset QUIP_TESTNET_RELAUNCH_RUNTIME_PRESET = Some Panic.
Proof. split; [|reflexivity]. unfold get_preset. simpl. by rewrite quip_mainnet_unresolved. Qed.

End Presets.

(** C30.  Building a mainnet genesis from the operators' inputs never panics:
    the assertions in the construction of the patch cannot fail once the checks
    before it have passed.  A genesis that is built has six distinct council
    seats and five distinct validators, disjoint from each other; thirteen
    distinct endowed accounts, none of them a placeholder, each with a usable
    balance, the validators' above the bond and the whole issuance within
    [u128]; the custody account holds exactly the allocation; the session keys
    are distinct and none, nor any stash, is a key of a testnet operator or of
    the development keyring; the faucet is off for good, without authority or
    budget.  And the genesis builders of all the repository's pallets that have
    one (admission, emission, faucet, chain id, and the compute mempool, which
    registers the default Ising specification for the given builder) accept
    it.  The preset published under the name quip-mainnet still has placeholder
    inputs and is refused, which [get_preset] does by a panic. *)
Theorem mainnet_genesis_sound `{GenesisHashes, GenesisKeys} (inputs : MainnetInputs) :
  get_preset QUIP_MAINNET_RUNTIME_PRESET = Some Panic /\
  mainnet_genesis inputs <> Panic /\
  forall g, mainnet_genesis inputs = Ok g ->
  (length (foundation_members g) = 6%nat /\ NoDup (foundation_members g)) /\
  (approved g = stash <$> validators inputs /\ length (approved g) = 5%nat /\ NoDup (approved g)) /\
  (forall who, who ∈ foundation_members g -> who ∉ approved g) /\
  (length (balances g) = 13%nat /\ NoDup (balances g).*1) /\
  (forall who b, (who, b) ∈ balances g -> who ∉ reserved_mainnet_accounts /\ Params.EXISTENTIAL_DEPOSIT <= b) /\
  (forall who, who ∈ approved g -> exists b, (who, b) ∈ balances g /\ VALIDATOR_BOND < b) /\
  Params.EXISTENTIAL_DEPOSIT + zsum (balances g).*2 < 2 ^ 128 /\
  (exists total, (custody (allocation inputs), total) ∈ balances g /\
     validate (allocation inputs) ((stash <$> validators inputs) ++ council inputs ++ [spec_builder inputs]) = Ok total) /\
  (NoDup (session_keys g).*2.*1 /\ NoDup (session_keys g).*2.*2) /\
  (forall k source f, k ∈ session_keys g -> (source, f) ∈ forbidden_keys ->
     k.1.1 <> f.1.1 /\ k.2.1 <> f.1.2 /\ k.2.2 <> f.2) /\
  (faucet_state g = PermanentlyDisabled /\ faucet_authority_config g = None /\ faucet_budget g = 0) /\
  genesis_accepted g.
Proof.
  split; [apply refused_presets|]. split.
  - unfold mainnet_genesis. apply rbind_no_panic; [apply mainnet_plan_no_panic|].
    intros [authorities funding] Hp%mainnet_plan_facts. by rewrite plan_exports.
  - intros g (authorities & funding & [Hc Hst Hv Hdis Hkeys Hnet Hb [Hnd Hlen] Hres Hiss Hus Hf (tot & Ht & Hcu)] & Hacc & ->)%mainnet_genesis_Ok.
    cbn [foundation_members approved balances session_keys faucet_state faucet_authority_config faucet_budget network_patch
         role_foundation_members].
    rewrite Hst. split_and!; try done; try (by destruct Hc, Hv, Hf); try (by apply Hv); try (by apply Hf).
    + by apply (proj1 (disjoint_iff _ _ true) Hdis).
    + intros who b Hin. split; [|by apply (Hus who b)]. apply Hres, list_elem_of_fmap. by exists (who, b).
    + eauto.
    + rewrite patch_babe_keys. apply Hkeys.
    + rewrite patch_grandpa_keys. apply Hkeys.
    + intros k source f (a & -> & Ha)%list_elem_of_fmap Hfk. simpl. eapply validate_mainnet_network_keys_Ok; eauto.
Qed.

(** Concrete hashes and keys: numbers computed from the lengths of the names. *)
#[local] Instance toy_hashes : GenesisHashes := {
  mainnet_placeholder := fun role label =>
    1000000 + 1000 * Z.of_nat (String.length role) + Z.of_nat (String.length label);
  revive_account := 999;
  schedule_valid := fun v => negb (locked v =? 0) && negb (per_block v =? 0)
}.
#[local] Instance toy_keys : GenesisKeys := {
  tx_account_from_seed := fun seed => 2000000 + Z.of_nat (String.length seed);
  babe_authority_from_seed := fun seed => 3000000 + Z.of_nat (String.length seed);
  grandpa_authority_from_seed := fun seed => 4000000 + Z.of_nat (String.length seed);
  keyring_seeds := ["//Alice"; "//Bob"; "//Charlie"]%string;
  dev_seeds := ["//Alice"; "//Bob"; "//Charlie"]%string;
  operator_babe := fun n => 5000000 + Z.of_nat n;
  operator_grandpa := fun n => 6000000 + Z.of_nat n
}.

(** One recipient, with two tranches ten blocks apart. *)
Definition toy_allocation : MainnetAllocation :=
  mkAllocation (Some (100 * Params.UNIT)) 91 (Some [92])
    (Some (mkTerms 10
       [mkTranche 92 1 (mkVestingInfo (20 * Params.UNIT) Params.UNIT 10);
        mkTranche 92 11 (mkVestingInfo (20 * Params.UNIT) Params.UNIT 20)])).

Definition toy_inputs : MainnetInputs :=
  mkMainnetInputs [1; 2; 3; 4; 5; 6] []
    ((fun n => mkMainnetValidator (10 + n) (Some (20 + n, 30 + n))) <$> [1; 2; 3; 4; 5]) 40
    MAINNET_VALIDATOR_FLOAT MAINNET_COUNCIL_FLOAT MAINNET_SPEC_BUILDER_FLOAT toy_allocation.

Lemma mainnet_genesis_sound_witness :
  exists g, mainnet_genesis toy_inputs = Ok g /\ length (balances g) = 13%nat /\ genesis_accepted g.
Proof.
  destruct (mainnet_genesis_sound toy_inputs) as (_ & _ & Hs).
  destruct (mainnet_genesis toy_inputs) as [g| |] eqn:E; [|vm_compute in E; discriminate E..].
  destruct (Hs g eq_refl) as (_ & _ & _ & [Hl _] & _ & _ & _ & _ & _ & _ & _ & Ha). exists g. auto.
Defined.

(** C19.  An accepted mainnet allocation plan: its total is the declared one;
    custody is apart from the placeholders, the operational accounts and the
    contract pallet; the recipients are distinct and each is apart from custody,
    the placeholders and the contract pallet (a recipient may be an operational
    account, a validator's stash included); exactly the recipients have tranches, at most 28 each and issued one cadence apart; every
    tranche starts after it is issued, moves enough to be a vested transfer, and
    is fully vested before the block number would overflow; and the tranches add
    up to at most the total, leaving nothing or a balance that can exist. *)
Theorem allocation_plan_sound `{GenesisHashes} (a : MainnetAllocation) (operational : list AccountId)
    (funded : Balance) (rs : list AccountId) (tm : AllocationTerms)
    (Hok : validate a operational = Ok funded) (Hrs : recipients a = Some rs) (Htm : terms a = Some tm)
    (Htyped : Forall tranche_typed (tranches tm)) :
  total a = Some funded /\ Params.EXISTENTIAL_DEPOSIT <= funded /\
  (custody a ∉ reserved_mainnet_accounts /\ custody a ∉ operational /\ custody a <> revive_account) /\
  (NoDup rs /\ rs <> [] /\ forall r, r ∈ rs -> r ∉ reserved_mainnet_accounts /\ r <> custody a /\ r <> revive_account) /\
  (forall r, r ∈ rs <-> tranches_of r (tranches tm) <> []) /\
  (forall r, evenly_issued (cadence_blocks tm) (tranches_of r (tranches tm))) /\
  Forall tranche_ok (tranches tm) /\
  let planned := zsum ((fun t => locked (schedule t)) <$> tranches tm) in
  planned <= funded /\ (planned = funded \/ Params.EXISTENTIAL_DEPOSIT <= funded - planned).
Proof. by apply (validate_sound a operational). Qed.

(** The recipient 92 is an operational account as well. *)
Lemma allocation_plan_sound_witness :
  validate toy_allocation [1; 2; 92] = Ok (100 * Params.UNIT) /\ total toy_allocation = Some (100 * Params.UNIT).
Proof.
  assert (validate toy_allocation [1; 2; 92] = Ok (100 * Params.UNIT)) as Hv by (vm_compute; reflexivity).
  split; [exact Hv|].
  destruct (allocation_plan_sound toy_allocation [1; 2; 92] _ [92] _ Hv eq_refl eq_refl) as [Ht _]; [|exact Ht].
  repeat constructor; vm_compute; congruence.
Defined.

(** ** The published presets *)

Section Published.
Context `{GenesisHashes, GenesisKeys}.

(** A genesis with test money, its authorities endowed. *)
Lemma testnet_genesis_exports authorities endowed roles cid minv :
  1 <= zlen authorities <= 32 -> 1 <= minv <= zlen authorities -> NoDup authorities.*1.*1 ->
  (forall who, who ∈ authorities.*1.*1 -> who ∈ endowed) -> NoDup endowed ->
  1 <= zlen (role_foundation_members roles) <= 32 -> NoDup (role_foundation_members roles) ->
  require_council_disjoint roles = false -> 0 < cid ->
  exists g, testnet_genesis authorities endowed roles cid minv = Ok g /\ genesis_accepted g.
Proof.
  intros Hlen Hmin Hnd Hend Hendn Hc Hcn Hdis Hcid. unfold testnet_genesis. set (funding := mkGenesisFunding _ _ _ _).
  exists (network_patch authorities funding roles cid minv).
  assert (network_genesis authorities funding roles cid minv = Ok (network_patch authorities funding roles cid minv)) as Hg.
  { apply network_genesis_iff. split_and!; try done; try lia; [| |by rewrite Hdis].
    - intros who Hw. exists TEST_CURRENCY_ENDOWMENT. split; [|reflexivity].
      apply list_elem_of_fmap. exists who. auto.
    - simpl. rewrite <- list_fmap_compose. unfold compose. simpl. by rewrite list_fmap_id. }
  split; [done|]. by apply (network_genesis_accepted _ _ _ _ _ _ Hg); [|eauto].
Qed.

(** The testnet preset is always exported and accepted. *)
Lemma quip_testnet_exports : exists g, quip_testnet_config_genesis = Ok g /\ genesis_accepted g.
Proof.
  unfold quip_testnet_config_genesis. cbn [or_panic rbind quip_testnet_authorities fmap list_fmap fst lookup list_lookup].
  apply testnet_genesis_exports; try done.
  all: apply (bool_decide_unpack _); vm_compute; exact I.
Qed.
End Published.
