(* ===== verification/RuntimeTheorems.v ===== *)
(** * Theorems about the composed runtime

    Properties that no component has alone: the emission controller, as the
    genesis patch configures it, next to the staking payouts. *)

From stdpp Require Import strings.
From S2P Require Import Prelude Frame RuntimeParams Emission StakingRewards Faucet Admission MainnetAllocation GenesisPresets GenesisTheorems Instances.

Open Scope Z_scope.

(** ** The annual budget *)

Section Budget.
Context `{SpArithmetic, !SpArithmeticLaws} {W : Type} `{Currency W, Issuance W, !IssuanceLaws W}.
Context (pot : Z -> AccountId).

(** The controller's storage after the genesis [g], on the ledger [w]. *)
Definition genesis_emission (g : RuntimeGenesis) (w : W) : eresult EmissionState :=
  Emission.genesis_build runtime_emission_config (emission_enabled g) (emission_start_at g) (emission_routes g)
    (faucet_budget g) (mkEmissionState false None [] ∅ 0 0 0 w []).

(** What the staking pallet pays over the eras (staked, issuance, duration). *)
Definition eras_paid (eras : list (Z * Z * Z)) : Balance :=
  zsum ((fun e => (era_payout e.1.1 e.1.2 e.2).1) <$> eras).

Lemma run_clock cfg x y :
  rtc (emission_step cfg pot) x y -> x.1 < 2 ^ 64 -> x.1 <= y.1 < 2 ^ 64.
Proof.
  induction 1 as [x|x y z Hstep _ IH]; [lia|]. intros Hx. inversion Hstep; subst; simpl in *; lia.
Qed.

Lemma accrue_route_budget total (s : @EmissionState W) r : FaucetBudget (accrue_route pot total s r) = FaucetBudget s.
Proof.
  destruct r as [id share]. unfold accrue_route. destruct (_ =? 0); [done|].
  destruct (fund_subnet _ _ _ _) as [s1| |] eqn:E; [|done..]. unfold fund_subnet, deposit_exact in E.
  destruct (deposit_creating _ _ _). by hinv.
Qed.

Lemma step_budget cfg x y : emission_step cfg pot x y -> FaucetBudget y.2 = FaucetBudget x.2.
Proof.
  destruct 1 as [now now' s _|now who amount s s' Hok|now subnet who amount s]; simpl.
  - unfold on_initialize, accrue. destruct (_ || _); [done|]. destruct (StartAt s); [|done].
    destruct (entitlement _ _) as [total|]; [|done]. generalize (Routes s) as l. intros l. revert s.
    induction l as [|r l IH]; intros s; [done|]. simpl. by rewrite IH, accrue_route_budget.
  - unfold mint_faucet, deposit_exact in Hok. destruct (deposit_creating _ _ _). by hinv.
  - unfold subnet_pay. destruct (_ || _); [done|]. by destruct (transfer_keep_alive _ _ _ _).
Qed.

Lemma run_budget cfg x y : rtc (emission_step cfg pot) x y -> FaucetBudget y.2 = FaucetBudget x.2.
Proof. induction 1 as [|x y z Hs _ IH]; [done|]. by rewrite IH, (step_budget cfg x y). Qed.

(** The first block of a chain puts the controller on its schedule. *)
Lemma genesis_on_schedule authorities funding roles cid minv g w s start :
  network_genesis authorities funding roles cid minv = Ok g -> 0 <= faucet_budget g ->
  genesis_emission g w = Ok s -> 0 < start < 2 ^ 64 ->
  let s1 := on_initialize runtime_emission_config pot start s in
  on_schedule runtime_emission_config start start s1 /\
  ScheduledIssued s1 = 0 /\ FaucetIssued s1 = 0 /\ FaucetBudget s1 = faucet_budget g /\ world s1 = w.
Proof.
  intros (_ & _ & _ & _ & _ & _ & ->)%network_genesis_iff Hb Hs Hst. unfold genesis_emission in Hs. cbn in Hb.
  cbn [emission_enabled emission_start_at emission_routes faucet_budget network_patch] in Hs.
  assert (s = mkEmissionState true None [(ISING_SUBNET, BILLION / 2); (QVRF_SUBNET, BILLION / 2)] ∅ 0
                (funding_faucet_budget funding) 0 w []) as -> by (vm_compute in Hs |- *; congruence).
  cbv zeta. unfold on_initialize, accrue. cbn [Enabled StartAt negb orb]. rewrite (proj2 (Z.eqb_neq _ _)) by lia.
  split; [|done]. split; cbn; try done; [lia|split; cbn|].
  - repeat constructor; set_solver.
  - split; [|done]. repeat constructor; done.
  - reflexivity.
  - intros id. unfold subnet_issued. cbn. by rewrite lookup_empty.
  - unfold within, entitled. cbn [Routes]. rewrite Z.sub_diag.
    apply Forall_forall. intros r Hr. assert (r.2 = BILLION / 2) as ->.
    { cbn in Hr. rewrite !elem_of_cons, elem_of_nil in Hr. by destruct Hr as [->|[->|[]]]. }
    unfold subnet_issued. cbn. rewrite lookup_empty. by rewrite mul_floor_spec.
Qed.

(** C20.  The annual budget.  From a genesis any preset builds, whatever
    blocks, faucet mints and reward payments follow the first block, what the
    controller has issued on its schedule together with what staking pays for
    eras within the elapsed time is at most 40 million QUIP per year of that
    time, pro rata; the issuance on the controller's ledger has moved by the
    schedule and the faucet only; and the faucet has minted at most the budget
    of the genesis. *)
Theorem annual_budget_kept authorities funding roles cid minv g w s start now' s' eras
    (Hg : network_genesis authorities funding roles cid minv = Ok g) (Hbudget : 0 <= faucet_budget g)
    (Hs : genesis_emission g w = Ok s) (Hstart : 0 < start < 2 ^ 64)
    (Hrun : rtc (emission_step runtime_emission_config pot) (start, on_initialize runtime_emission_config pot start s) (now', s'))
    (Heras : Forall (fun e => in_u 64 e.2) eras) (Hwithin : zsum eras.*2 <= 1000 * (now' - start)) :
  ScheduledIssued s' + eras_paid eras <= ANNUAL_EMISSION_QUIP * Params.UNIT * (now' - start) / YEAR_SECONDS /\
  total_issuance (world s') = total_issuance w + ScheduledIssued s' + FaucetIssued s' /\
  FaucetIssued s' <= faucet_budget g.
Proof.
  destruct (genesis_on_schedule _ _ _ _ _ g w s start Hg Hbudget Hs Hstart) as (Hos & Hsi0 & Hfi0 & Hfb0 & Hw0).
  pose proof (run_clock _ _ _ Hrun (proj2 Hstart)) as Hn. pose proof (run_budget _ _ _ Hrun) as Hb. simpl in Hn, Hb.
  destruct (emission_run_on_schedule runtime_emission_config pot start _ _ ltac:(done) Hrun Hos) as [Hos' Ho]. simpl in *.
  pose proof (on_schedule_total runtime_emission_config start now' s' ltac:(done) Hos') as Ht. pose proof (os_faucet _ _ _ _ Hos') as Hf.
  unfold off_books in Ho. rewrite Hsi0, Hfi0, Hw0 in Ho. rewrite Hb, Hfb0 in Hf. split_and!; [|lia|done].
  pose proof (era_payouts_rate eras Heras) as [Hp _]. fold (eras_paid eras) in Hp. cbv zeta in Hp.
  unfold entitled in Ht. rewrite sat_u_small in Ht by (unfold in_u; lia).
  change (AnnualEmission runtime_emission_config) with 30000000000000000000 in Ht.
  change StakingAnnualEmission with 10000000000000000000 in Hp. change MILLISECONDS_PER_YEAR with (1000 * YEAR_SECONDS) in Hp.
  change (ANNUAL_EMISSION_QUIP * Params.UNIT) with 40000000000000000000.
  apply Z.div_le_lower_bound; [done|]. pose proof (Z.mul_div_le (30000000000000000000 * (now' - start)) YEAR_SECONDS ltac:(done)).
  assert (0 < YEAR_SECONDS) by done. nia.
Qed.
End Budget.

(** *** Witness: a year after a genesis of two operators *)

Definition year_funding : GenesisFunding :=
  mkGenesisFunding [(1, TEST_CURRENCY_ENDOWMENT); (2, TEST_CURRENCY_ENDOWMENT)] FaucetEnabled (Some 1) (50 * Params.UNIT).
Definition year_authorities : list Authority := [(1, 11, 21); (2, 12, 22)].
Definition year_roles : GenesisRoles := mkGenesisRoles [1] 1 1 false.
Definition year_genesis : RuntimeGenesis := network_patch year_authorities year_funding year_roles 42 1.
Definition year_pot (subnet : Z) : AccountId := 100 + subnet.
Definition year_start : @EmissionState Ledger.t :=
  default (mkEmissionState false None [] ∅ 0 0 0 (Ledger.mk ∅ ∅) []) (rok (genesis_emission year_genesis (Ledger.mk ∅ ∅))).
Definition year_end : @EmissionState Ledger.t :=
  on_initialize runtime_emission_config year_pot (1000 + YEAR_SECONDS)
    (on_initialize runtime_emission_config year_pot 1000 year_start).

Lemma annual_budget_kept_witness :
  ScheduledIssued year_end = 30000000 * Params.UNIT /\
  eras_paid [(0, 0, 1000 * YEAR_SECONDS)] = 10000000 * Params.UNIT /\
  ScheduledIssued year_end + eras_paid [(0, 0, 1000 * YEAR_SECONDS)] <=
    ANNUAL_EMISSION_QUIP * Params.UNIT * (1000 + YEAR_SECONDS - 1000) / YEAR_SECONDS.
Proof.
  split; [vm_compute; reflexivity|]. split; [vm_compute; reflexivity|].
  apply (annual_budget_kept year_pot year_authorities year_funding year_roles 42 1 year_genesis (Ledger.mk ∅ ∅) year_start 1000
           (1000 + YEAR_SECONDS) year_end [(0, 0, 1000 * YEAR_SECONDS)]).
  - vm_compute; reflexivity.
  - discriminate.
  - vm_compute; reflexivity.
  - lia.
  - apply rtc_once, es_block. unfold YEAR_SECONDS. lia.
  - repeat constructor; discriminate.
  - discriminate.
Defined.
