(* ===== verification/MeteringTheorems.v ===== *)
(** * Theorems about metering

    That what a call is charged covers its work, that the largest admissible
    work fits a block, and that the mempool's integrity test passes. *)

From stdpp Require Import strings.
From S2P Require Import Prelude Validation PuzzleSpec Frame RuntimeParams Weights MainnetAllocation RuntimeWeights QuantumPow MempoolCore Mempool MempoolProps Difficulty QuantumPowProps Emission StakingRewards Xqvm RuntimeConfig XqvmAdapter Metering Runtime CallWeights Instances.

Open Scope Z_scope.

Section Prices.
Context `{PerbillTimes, !PerbillTimesLaws, DbWeight, !DbWeightLaws}.

(** An exact share is not rounded. *)
Lemma perbill_exact share x y : 0 <= share <= BILLION -> 0 <= x -> share * x = BILLION * y -> perbill_times share x = y.
Proof. intros Hs Hx Hy. pose proof (perbill_times_nearest share x Hs Hx) as Hn. rewrite Hy in Hn. unfold BILLION in *. lia. Qed.

Lemma normal_max_time : ref_time normal_max = 1500000000000.
Proof. by apply perbill_exact. Qed.

Lemma normal_max_proof : 13835058055282163710 <= proof_size normal_max <= 13835058055282163712.
Proof.
  pose proof (perbill_times_nearest NORMAL_DISPATCH_RATIO (proof_size max_block) ltac:(done) ltac:(done)) as Hn.
  unfold normal_max, perbill_weight. cbn [proof_size]. unfold BILLION, NORMAL_DISPATCH_RATIO, max_block in *. cbn [proof_size] in *. lia.
Qed.

Lemma initialize_proof : 1844674407370955160 <= perbill_times AVERAGE_ON_INITIALIZE_RATIO (proof_size max_block) <= 1844674407370955162.
Proof.
  pose proof (perbill_times_nearest AVERAGE_ON_INITIALIZE_RATIO (proof_size max_block) ltac:(done) ltac:(done)) as Hn.
  unfold BILLION, AVERAGE_ON_INITIALIZE_RATIO, max_block in *. cbn [proof_size] in *. lia.
Qed.

Lemma normal_max_extrinsic_bound : 1299000000000 <= ref_time normal_max_extrinsic /\ 2 ^ 63 <= proof_size normal_max_extrinsic.
Proof.
  unfold normal_max_extrinsic, weight_sub. cbn [ref_time proof_size]. rewrite normal_max_time.
  pose proof normal_max_proof. pose proof initialize_proof as Hi.
  unfold perbill_weight in *. cbn [ref_time proof_size] in *.
  rewrite (perbill_exact AVERAGE_ON_INITIALIZE_RATIO (ref_time max_block) 200000000000) by done.
  change (ref_time ExtrinsicBaseWeight) with 323359000. change (proof_size ExtrinsicBaseWeight) with 0.
  unfold sat_u. lia.
Qed.

Lemma time_mul a n : in_u 64 (a * n) -> weight_mul (from_parts a 0) n = from_parts (a * n) 0.
Proof. intros Ha. unfold weight_mul. cbn [ref_time proof_size]. by rewrite sat_u_small. Qed.

Lemma time_add a b p : in_u 64 (a + b) -> in_u 64 p -> weight_add (from_parts a p) (from_parts b 0) = from_parts (a + b) p.
Proof. intros Ha Hp. unfold weight_add. cbn [ref_time proof_size]. rewrite Z.add_0_r. by rewrite !sat_u_small. Qed.

Lemma reads_exact n : 0 <= n < 2 ^ 32 -> reads n = from_parts (db_read * n) 0.
Proof. intros Hn. pose proof db_read_bound. unfold reads. rewrite sat_u_small; [done|]. unfold in_u. nia. Qed.

Lemma writes_exact n : 0 <= n < 2 ^ 32 -> writes n = from_parts (db_write * n) 0.
Proof. intros Hn. pose proof db_write_bound. unfold writes. rewrite sat_u_small; [done|]. unfold in_u. nia. Qed.

Lemma step_price : XqvmWeightPerStep = from_parts 35858 0.
Proof.
  pose proof db_read_bound. unfold XqvmWeightPerStep, execute_step_weight. rewrite reads_exact by lia.
  repeat (rewrite time_mul by (unfold in_u; lia)). repeat (rewrite time_add by (unfold in_u; lia)).
  unfold weight_sub. cbn [ref_time proof_size].
  replace (17599105 + 17929 * 1 + db_read * 1 - (17599105 + 17929 * 0 + db_read * 1)) with 17929 by lia. reflexivity.
Qed.

Lemma execute_price s : 0 <= s <= MaxProgramSize -> execute_weight s = from_parts (16348300 + 14331 * s + db_read) 69037.
Proof.
  pose proof db_read_bound. unfold MaxProgramSize. intros Hs. unfold execute_weight, weight_add, weight_mul, reads.
  cbn [ref_time proof_size]. apply (f_equal2 from_parts); [|reflexivity]. unfold sat_u. lia.
Qed.

Lemma len_u32_small {A} (l : list A) n : zlen l <= n -> n < 2 ^ 32 -> len_u32 l = zlen l /\ 0 <= len_u32 l <= n.
Proof. intros Hl Hn. unfold len_u32. pose proof (zlen_nonneg l). rewrite wrap_u_small by (unfold in_u; lia). lia. Qed.

(** *** Programs *)

(** A limit that [execute] accepts never costs more than half of what normal
    calls may use of a block. *)
Lemma execute_declared_fits limit :
  0 <= limit <= RuntimeConfig.MaxStepLimit -> ref_time (execute_declared limit) <= ref_time normal_max / 2.
Proof.
  unfold RuntimeConfig.MaxStepLimit, execute_declared, weight_add, weight_mul. cbv zeta. cbn [ref_time].
  rewrite step_price, execute_price, normal_max_time by done. cbn [ref_time]. pose proof db_read_bound.
  change (1500000000000 / 2) with 750000000000. change (Z.max 35858 1) with 35858. unfold RuntimeConfig.MaxProgramSize.
  rewrite (sat_u_small 64 (750000000000 - _)) by (unfold in_u; lia). intros [Hl0 Hl].
  pose proof (Z.mul_div_le (750000000000 - (16348300 + 14331 * 65536 + db_read)) 35858 ltac:(lia)).
  unfold sat_u. lia.
Qed.

Lemma execute_refund bytecode used limit :
  zlen bytecode <= RuntimeConfig.MaxProgramSize -> 0 <= used <= limit ->
  weight_le (execute_actual bytecode used) (execute_declared limit).
Proof.
  intros Hl Hu. destruct (len_u32_small bytecode _ Hl) as [_ Hlen]; [done|]. unfold execute_actual, execute_declared.
  apply weight_add_mono.
  - rewrite !execute_price by done. split; cbn [ref_time proof_size]; lia.
  - rewrite step_price. by apply weight_mul_mono; [|done].
Qed.

Lemma store_program_refund `{XqvmLib} bytecode program w :
  decode bytecode = Some program -> 0 <= blocks (shape_of (code program)) <= RuntimeConfig.MaxProgramBlocks ->
  store_program_actual bytecode = Some w -> weight_le w (store_program_declared bytecode).
Proof.
  intros Hd Hb. unfold store_program_actual, store_program_declared. rewrite Hd. intros [= <-].
  unfold store_program_weight. do 2 (apply weight_add_mono; [|reflexivity]). apply weight_add_mono; [reflexivity|].
  by apply weight_mul_mono.
Qed.

(** *** Submissions *)

Lemma lookup_weight_ok : weight_ok QuantumProgramLookupWeight.
Proof. apply weight_mul_ok. Qed.

Lemma transform_weight_mono n m b : 0 <= n <= m -> weight_le (transform_weight n b) (transform_weight m true).
Proof.
  intros Hn. unfold transform_weight. apply weight_add_mono.
  - rewrite step_price. by apply weight_mul_mono.
  - destruct b; [reflexivity|]. destruct lookup_weight_ok as [[? _] [? _]]. by split.
Qed.

(** The steps a submission is charged for, with programs from [source]. *)
Lemma vm_usage_bound `{XqvmLib, !XqvmLibLaws} {W} source budget mem who id sols payee (s : @MempoolState W) :
  0 <= budget < 2 ^ 64 -> 0 <= (@vm_usage (XqvmAdapter source budget mem) W who id sols payee s).1 <= budget.
Proof.
  intros Hb. unfold vm_usage. destruct (rbind _ _) as [[order spec]| |]; [|simpl; lia..]. cbn [fst].
  cbn [vm_transform_solutions XqvmAdapter]. unfold transform.
  destruct (transform_program spec); [|simpl; lia].
  destruct (source _); [|simpl; lia]. destruct (decode _); [|simpl; lia]. apply transform_loop_steps; [done|lia|lia].
Qed.

Lemma submission_refund `{XqvmLib, !XqvmLibLaws} {W} source mem cfg who id sols payee (s : @MempoolState W) :
  weight_le (@do_submit_solution _ (XqvmAdapter source QuantumMaxTransformSteps mem) W cfg who id sols payee s).2
    submit_solution_declared.
Proof.
  unfold do_submit_solution. pose proof (vm_usage_bound source QuantumMaxTransformSteps mem who id sols payee s ltac:(done)) as Hu.
  destruct (vm_usage who id sols payee s) as [steps has]. cbn [fst snd] in *. unfold submit_solution_declared.
  apply weight_add_mono; [by destruct (bool_decide _)|by apply transform_weight_mono].
Qed.

(** *** Proofs *)

(** The documented formula; nothing saturates within the limits. *)
Lemma submit_proof_price n e k :
  0 <= n <= QuantumPowMaxNodes -> 0 <= e <= QuantumPowMaxEdges -> 0 <= k <= QuantumPowMaxSolutions ->
  submit_proof_weight n e k = from_parts
    (4352766000 + 11 * db_read + 3 * db_write +
     1200 * n + 2400 * e + 6000 * (k * n) + 19100 * (k * e) + 1200 * (k * k * n) + 535 * (n * e)) 423913.
Proof.
  unfold QuantumPowMaxNodes, QuantumPowMaxEdges, QuantumPowMaxSolutions. intros Hn He Hk.
  pose proof db_read_bound. pose proof db_write_bound.
  assert (0 <= k * n <= 32 * 5000) by nia. assert (0 <= k * e <= 32 * 50000) by nia.
  assert (0 <= k * k <= 32 * 32) by nia. assert (0 <= k * k * n <= 32 * 32 * 5000) by nia.
  assert (0 <= n * e <= 5000 * 50000) by nia.
  unfold submit_proof_weight, submit_proof_bench, submit_proof_dimension_weight. cbv zeta.
  rewrite !reads_exact, writes_exact by lia.
  unfold SUBMIT_PROOF_K1_NODE, SUBMIT_PROOF_K2_EDGE, SUBMIT_PROOF_K3_SOLUTION_NODE, SUBMIT_PROOF_K4_SOLUTION_EDGE,
    SUBMIT_PROOF_K5_SOLUTION_SQ_NODE, SUBMIT_PROOF_K6_NODE_EDGE.
  repeat (rewrite time_mul by (unfold in_u; lia)). rewrite <- ?Z.mul_assoc.
  repeat (rewrite time_add by (unfold in_u; lia)). f_equal. lia.
Qed.

(** *** The integrity test *)

(** The encoded sizes recorded with the benchmarks ([max_size]), as bounds. *)
Definition measured_sizes : StorageSizes :=
  mkStorageSizes 640946 297 305 1305 1305 128 109 24 16 8 28 32 101 100166 4.
Definition sizes_within (a b : StorageSizes) : Prop :=
  (0 <= size_job_orders a <= size_job_orders b) /\ (0 <= size_job_specs a <= size_job_specs b) /\
  (0 <= size_proposer_orders a <= size_proposer_orders b) /\ (0 <= size_order_top_solvers a <= size_order_top_solvers b) /\
  (0 <= size_order_front_runner a <= size_order_front_runner b) /\ (0 <= size_account a <= size_account b) /\
  (0 <= size_solvers a <= size_solvers b) /\ (0 <= size_open_orders a <= size_open_orders b) /\
  (0 <= size_total_issuance a <= size_total_issuance b) /\ (0 <= size_next_order_id a <= size_next_order_id b) /\
  (0 <= size_orders_expiring_at a <= size_orders_expiring_at b) /\
  (0 <= size_order_payee_requirements a <= size_order_payee_requirements b) /\
  (0 <= size_order_payees a <= size_order_payees b) /\ (0 <= size_order_solutions a <= size_order_solutions b) /\
  (0 <= size_block_number a <= size_block_number b).

(** The proof floors cover everything settlement, refunds, proposals and
    submissions touch. *)
Lemma envelopes_covered sz :
  sizes_within sz measured_sizes ->
  claim_reward_proof_envelope sz <= CLAIM_REWARD_PROOF_FLOOR /\
  reclaim_order_proof_envelope sz <= RECLAIM_ORDER_PROOF_FLOOR /\
  propose_job_proof_envelope sz <= PROPOSE_JOB_PROOF_FLOOR /\
  submit_solution_proof_envelope sz <= SUBMIT_SOLUTION_PROOF_FLOOR.
Proof.
  intros (H1' & H2' & H3' & H4' & H5' & H6' & H7' & H8' & H9' & H10' & H11' & H12' & H13' & H14' & H15').
  cbn [measured_sizes size_job_orders size_job_specs size_proposer_orders size_order_top_solvers size_order_front_runner
    size_account size_solvers size_open_orders size_total_issuance size_next_order_id size_orders_expiring_at
    size_order_payee_requirements size_order_payees size_order_solutions size_block_number] in *.
  unfold claim_reward_proof_envelope, reclaim_order_proof_envelope, propose_job_proof_envelope, submit_solution_proof_envelope,
    CLAIM_REWARD_PROOF_FLOOR, RECLAIM_ORDER_PROOF_FLOOR, PROPOSE_JOB_PROOF_FLOOR, SUBMIT_SOLUTION_PROOF_FLOOR, MAX_REWARD_WINNERS.
  change TRIE_OVERHEAD_PER_KEY with 4950. cbv zeta. change (sat_u 64 (32 + 1)) with 33.
  repeat match goal with |- context [sat_u 64 ?x] =>
    lazymatch x with context [sat_u] => fail | _ => rewrite (sat_u_small 64 x) by (unfold in_u; lia) end end.
  split_and!; lia.
Qed.

Lemma checked_weights_fit :
  Forall (fun c : Weight * Z => c.2 <= proof_size c.1 /\ weight_le c.1 normal_max_extrinsic) checked_weights.
Proof.
  pose proof db_read_bound. pose proof db_write_bound. destruct normal_max_extrinsic_bound as [Ht Hp].
  unfold checked_weights, propose_job_weight, propose_job_with_payee_requirement_weight, claim_reward_weight, reclaim_order_weight,
    submit_solution_with_payee_weight, submit_solution_weight, transform_weight, QuantumProgramLookupWeight.
  rewrite step_price, execute_price by done.
  cbv zeta. unfold QuantumMaxNodes, QuantumMaxEdges, QuantumMaxSolutions, QuantumMaxTransformSteps, RuntimeConfig.MaxProgramSize,
    with_propose_job_proof_floor, with_claim_reward_proof_floor, with_reclaim_order_proof_floor, with_submit_solution_proof_floor,
    propose_job_bench, propose_job_with_payee_requirement_bench, claim_reward_bench, claim_reward_dust_bench, reclaim_order_bench,
    submit_solution_bench, submit_solution_with_payee_bench, submit_solution_replacement_bench, submit_solution_clear_payee_bench.
  rewrite ?reads_exact, ?writes_exact by lia.
  repeat (rewrite time_mul by (unfold in_u; lia)). repeat (rewrite time_add by (unfold in_u; lia)).
  unfold weight_mul, weight_add, weight_max, weight_le, PROPOSE_JOB_PROOF_FLOOR, CLAIM_REWARD_PROOF_FLOOR,
    RECLAIM_ORDER_PROOF_FLOOR, SUBMIT_SOLUTION_PROOF_FLOOR. cbn [ref_time proof_size fst snd].
  repeat constructor; cbn [fst snd ref_time proof_size]; unfold sat_u; lia.
Qed.

Lemma normal_max_extrinsic_le : weight_le normal_max_extrinsic normal_max.
Proof.
  pose proof normal_max_proof. pose proof initialize_proof. unfold normal_max_extrinsic, weight_sub.
  split; cbn [ref_time proof_size]; [rewrite normal_max_time|];
    unfold perbill_weight; cbn [ref_time proof_size]; [rewrite (perbill_exact _ _ 200000000000) by done|];
    change (ref_time ExtrinsicBaseWeight) with 323359000; change (proof_size ExtrinsicBaseWeight) with 0; unfold sat_u; lia.
Qed.

(** The mempool's integrity test passes. *)
Lemma integrity_test_passes sz : sizes_within sz measured_sizes -> check_claim_reward_weight sz = true.
Proof.
  intros (Hc & Hr & Hp & Hs)%envelopes_covered. unfold check_claim_reward_weight.
  apply Z.leb_le in Hc, Hr, Hp, Hs. rewrite Hc, Hr, Hp, Hs, !andb_true_l. apply forallb_forall. intros [w floor] Hin%list_elem_of_In.
  pose proof checked_weights_fit as Hall. rewrite Forall_forall in Hall. destruct (Hall _ Hin) as [Hf Hle]. cbn [fst snd] in *.
  apply Z.leb_le in Hf. rewrite Hf, !bool_decide_eq_true_2; [done| |done]. by rewrite Hle, normal_max_extrinsic_le.
Qed.

(** *** Every call *)

Lemma fits_call t p w : fits t p w -> t <= 1299000000000 -> p <= 2 ^ 63 -> weight_le w normal_max_extrinsic.
Proof. intros Hf Ht Hp. destruct normal_max_extrinsic_bound. eapply fits_le; [exact Hf|lia|lia]. Qed.

(** A weight that is a sum of table entries fits when the sum of their bounds does. *)
Ltac weigh := eapply fits_call; [eauto 30 with weigh|lia|lia].

Lemma len_u32_bounded {A} (l : list A) n : zlen l <= n -> n < 2 ^ 32 -> 0 <= len_u32 l <= n.
Proof. intros Hl Hn. by apply (len_u32_small l n). Qed.

Lemma value_count_bounded spec : spec_bounded spec -> 0 <= allowed_value_input_count spec <= QuantumPowMaxAllowedValues.
Proof. unfold spec_bounded. intros Hb. split; [|done]. destruct spec; simpl; try lia. unfold len_u32, wrap_u. apply Z.mod_pos_bound. lia. Qed.

Lemma xqvm_call_fits c {C S M} (rt : @Runtime C S M) :
  call_bounded (XqvmCall c) rt -> weight_le (xqvm_weight c) normal_max_extrinsic.
Proof.
  destruct c as [bytecode|hash calldata slots limit|hash|hash]; cbn [call_bounded xqvm_weight]; intros Hb.
  - unfold store_program_declared, store_program_weight. pose proof (len_u32_bounded bytecode _ Hb ltac:(done)) as Hl.
    unfold RuntimeConfig.MaxProgramSize, RuntimeConfig.MaxProgramBlocks in *. weigh.
  - pose proof (execute_declared_fits limit Hb) as Ht. rewrite normal_max_time in Ht. destruct normal_max_extrinsic_bound as [Hm Hp].
    split; [change (1500000000000 / 2) with 750000000000 in Ht; lia|]. unfold execute_declared. rewrite step_price, execute_price by done.
    unfold weight_add, weight_mul. cbn [proof_size]. unfold sat_u. lia.
  - unfold remove_program_declared, remove_program_weight, RuntimeConfig.MaxProgramSize. weigh.
  - unfold evict_program_weight, RuntimeConfig.MaxProgramSize. weigh.
Qed.

Lemma proposal_fits params mode :
  zlen (p_nodes params) <= QuantumMaxNodes -> zlen (p_edges params) <= QuantumMaxEdges ->
  weight_le (propose_job_declared params mode) normal_max_extrinsic /\
  weight_le (propose_job_with_payee_requirement_declared params mode) normal_max_extrinsic.
Proof.
  intros Hn%len_u32_bounded He%len_u32_bounded; [|done..].
  unfold propose_job_declared, propose_job_with_payee_requirement_declared. destruct (bid_dimensions mode) as [b t].
  unfold propose_job_weight, propose_job_with_payee_requirement_weight, with_propose_job_proof_floor, propose_job_bench,
    propose_job_with_payee_requirement_bench, PROPOSE_JOB_PROOF_FLOOR, QuantumMaxNodes, QuantumMaxEdges in *.
  split; weigh.
Qed.

Lemma mempool_call_fits c {C S M} (rt : @Runtime C S M) :
  call_bounded (MempoolCall c) rt -> weight_le (mempool_weight c) normal_max_extrinsic.
Proof.
  pose proof checked_weights_fit as Hall. rewrite Forall_forall in Hall.
  assert (forall w floor, (w, floor) ∈ checked_weights -> weight_le w normal_max_extrinsic) as Hck
    by (intros w floor Hin; exact (proj2 (Hall _ Hin))).
  destruct c as [| |? ? ? v t|? params ? mode ? ? ? ? [|]|? ? [|]| | |]; cbn [call_bounded mempool_weight]; intros Hb.
  - unfold register_solver_bench. weigh.
  - unfold deregister_solver_bench. weigh.
  - unfold register_job_spec_declared, register_job_spec_bench, QuantumProgramValidationWeight, store_program_weight,
      RuntimeConfig.MaxProgramSize, RuntimeConfig.MaxProgramBlocks.
    match goal with |- context [weight_mul _ (?a + ?b)%Z] => assert (0 <= a + b <= 2)%Z by (repeat case_bool_decide; lia) end. weigh.
  - destruct Hb as (Hn & He & _). exact (proj2 (proposal_fits params mode Hn He)).
  - destruct Hb as (Hn & He & _). exact (proj1 (proposal_fits params mode Hn He)).
  - eapply Hck. do 5 right. left.
  - eapply Hck. do 4 right. left.
  - eapply Hck. do 2 right. left.
  - eapply Hck. do 3 right. left.
  - unfold purge_result_bench. weigh.
Qed.

Lemma pow_call_fits c {C S M} (rt : @Runtime C S M) :
  call_bounded (PowCall c) rt -> weight_le (pow_weight c rt) normal_max_extrinsic.
Proof.
  destruct c as [| |ns es h j spin| | | | | |proof| |]; cbn [call_bounded pow_weight]; intros Hb;
    try (unfold register_miner_bench, deregister_miner_bench, set_default_topology_bench, set_difficulty_bench,
      set_topology_curve_bench, add_mineable_topology_bench, remove_mineable_topology_bench; weigh).
  - destruct Hb as (Hn%len_u32_bounded & He%len_u32_bounded & Hh%value_count_bounded & Hj%value_count_bounded & Hs%value_count_bounded); [|done..].
    unfold register_topology_declared, register_topology_weight, register_topology_bench, REGISTER_TOPOLOGY_ALLOWED_VALUE,
      QuantumPowMaxNodes, QuantumPowMaxEdges, QuantumPowMaxAllowedValues in *. rewrite !sat_u_small by (unfold in_u; rewrite ?sat_u_small by (unfold in_u; lia); lia).
    assert (0 <= allowed_value_input_count h + allowed_value_input_count j + allowed_value_input_count spin <= 96) by lia. weigh.
  - destruct Hb as [Hk Ht]. apply len_u32_bounded in Hk; [|done]. unfold submit_proof_declared.
    assert (forall n e, 0 <= n <= QuantumPowMaxNodes -> 0 <= e <= QuantumPowMaxEdges ->
      weight_le (submit_proof_weight n e (len_u32 (solutions proof))) normal_max_extrinsic) as Hw.
    { intros n e Hn He. rewrite submit_proof_price by done. destruct normal_max_extrinsic_bound as [Hm Hp].
      pose proof db_read_bound. pose proof db_write_bound. set (k := len_u32 _) in *.
      unfold QuantumPowMaxNodes, QuantumPowMaxEdges, QuantumPowMaxSolutions in *.
      assert (0 <= k * n <= 32 * 5000) by nia. assert (0 <= k * e <= 32 * 50000) by nia. assert (0 <= k * k <= 32 * 32) by nia.
      assert (0 <= k * k * n <= 32 * 32 * 5000) by nia. assert (0 <= n * e <= 5000 * 50000) by nia.
      split; cbn [ref_time proof_size]; lia. }
    destruct (RegisteredTopologies _ !! _) as [topology|] eqn:E; [|by apply Hw].
    destruct (Ht topology eq_refl) as [Hn%len_u32_bounded He%len_u32_bounded]; [|done..]. by apply Hw.
Qed.

(** A call's own weight: with the weights of the SDK's part at zero. *)
Definition own_weight {C S M} (c : PalletCall) (rt : @Runtime C S M) : Weight :=
  call_weight (from_parts 0 0) (fun _ => from_parts 0 0) c rt.

(** Every call of the repository's pallets can be included: its own weight is
    at most what one normal call may use. *)
Lemma call_fits c {C S M} (rt : @Runtime C S M) :
  call_bounded c rt -> weight_le (own_weight c rt) normal_max_extrinsic.
Proof.
  unfold own_weight. destruct c as [c|c|c|c|c|c|c|c]; cbn [call_weight].
  - intros _. destruct c; cbn; unfold do_something_weight, cause_error_weight; weigh.
  - apply xqvm_call_fits.
  - apply mempool_call_fits.
  - apply pow_call_fits.
  - intros _. destruct c; cbn; unfold mint_weight, set_authority_weight, disable_weight; weigh.
  - intros _. destruct c; cbn; unfold set_descriptor_weight, clear_descriptor_weight, participate_weight; weigh.
  - destruct c as [who|who|mode|call]; cbn [call_bounded admission_weight]; intros Hb;
      unfold approve_weight, remove_weight, on_removal_weight, advance_weight, dispatch_as_root_weight, RootFilterWeight; weigh.
  - intros _. destruct c; cbn; unfold discretionary_slash_weight, set_limits_weight; weigh.
Qed.

(** The SDK's part is added to the own weight and nothing else depends on it. *)
Lemma call_weight_split c {C S M} (rt : @Runtime C S M) export info :
  weight_ok export -> (forall call, weight_ok (info call)) ->
  call_weight export info c rt =
    match foreign_weight export info c with Some w => (own_weight c rt + w)%weight | None => own_weight c rt end.
Proof.
  intros He Hi. destruct c as [c|c|c|c|c|c|[who|who|mode|call]|c]; try reflexivity;
    unfold own_weight; cbn [call_weight admission_weight foreign_weight].
  assert (weight_ok (from_parts 0 500)) by done. assert (weight_ok remove_weight) by apply weight_add_ok. unfold on_removal_weight.
  rewrite (weight_add_comm (from_parts 0 0)), weight_add_zero, <- (weight_add_assoc export), (weight_add_comm export), weight_add_assoc;
    auto using weight_add_ok.
Qed.

(** The expiry loop closes and visits at most what its budgets allow. *)
Lemma finalise_loop_work `{MempoolPrims} {W} n now budget bucket fin vis (s s' : @MempoolState W) bucket' fin' vis' :
  0 <= budget -> 0 <= fin -> fin + budget < 2 ^ 32 -> 0 <= vis -> vis + Z.of_nat n < 2 ^ 64 ->
  finalise_loop n now budget bucket fin vis s = Ok (s', bucket', fin', vis') ->
  0 <= fin' <= fin + budget /\ 0 <= vis' <= vis + Z.of_nat n.
Proof.
  revert budget bucket fin vis s. induction n as [|n IH]; intros budget bucket fin vis s Hb Hf Hfb Hv Hvn Hok; simpl in Hok.
  { simplify_eq. lia. }
  destruct (_ && _); [|simplify_eq; lia]. apply rbind_Ok_inv in Hok as (s1 & _ & Hok).
  match type of Hok with context [zlen ?l] => set (taken := l) in * end.
  assert (0 <= zlen taken <= budget) by (subst taken; unfold zlen; rewrite length_take; lia).
  unfold u32_add, u64_add in Hok. rewrite !sat_u_small in Hok by (unfold in_u; lia).
  destruct (zlen taken =? budget); [simplify_eq; lia|]. apply IH in Hok; lia.
Qed.

(** The hooks fit the part of the block set aside for them. *)
Lemma hooks_fit k v :
  0 <= k <= MAX_FINALISED_ORDERS_PER_BLOCK -> 0 <= v <= MAX_FINALISED_ORDERS_PER_BLOCK ->
  weight_le (hooks_weight k v) (perbill_weight AVERAGE_ON_INITIALIZE_RATIO max_block).
Proof.
  unfold MAX_FINALISED_ORDERS_PER_BLOCK. intros Hk Hv. pose proof initialize_proof as Hp.
  unfold hooks_weight, expiry_work_weight, finalise_expired_orders_bench, accrue_weight, register_miner_bench, reward_weight.
  change (MaxSubnets runtime_emission_config) with 32. change (sat_u 64 (2 * 32)) with 64.
  rewrite !(sat_u_small 64 (_ * k)) by (unfold in_u; lia).
  assert (0 <= 3 * k <= 24) by lia. assert (0 <= 4 * k <= 32) by lia.
  eapply fits_le; [eauto 100 with weigh|..]; unfold perbill_weight; cbn [ref_time proof_size].
  - rewrite (perbill_exact AVERAGE_ON_INITIALIZE_RATIO (ref_time max_block) 200000000000) by done. lia.
  - lia.
Qed.
End Prices.

(** C33.  Charges cover the work, and the work fits a block.  An executed
    program is charged at most what its call declared, and what it declared,
    for every step limit the pallet accepts, is at most half of the weight that
    normal calls have in a block.  A submission is charged at most what its
    call declared, on success and on failure, whatever its transform program
    does, and the declared weight fits a single call.  The declared weight of a
    proof follows the documented polynomial in the dimensions of its topology,
    and a block's worth of the largest proofs fits the normal weight of the
    block.  The repository's own weight of every call of its pallets, with
    arguments within their types' bounds, and the weight of every call of the
    vesting pallet for an account within its limits, is at most what one normal
    call may use.  That own weight is the whole weight of every call but two: a
    removal adds the SDK's weight of exporting an election, and a dispatch as
    Root the weight of the inner call, whatever these are, so that those two
    calls are as heavy as what they wrap.  A report of an equivocation pays for
    the guard's reads on top of the SDK's weight; and the hooks at the start of
    a block weigh at most what the block sets aside for them.  And the runtime's
    integrity test of the weights passes whenever the encoded sizes of the
    stored types are at most the measured ones. *)
Theorem metered_work_fits `{PerbillTimes, !PerbillTimesLaws, DbWeight, !DbWeightLaws, XqvmLib, !XqvmLibLaws, MempoolPrims}
    {C : Type} (xs : @XqvmState C)
    (Hstored : forall h b, Programs xs !! h = Some b -> zlen b <= RuntimeConfig.MaxProgramSize) :
  (forall who hash calldata slots limit xs',
     execute runtime_xqvm_config (Signed who) hash calldata slots limit xs = Ok xs' ->
     exists bytecode used out, Programs xs !! hash = Some bytecode /\
       xs' = Xqvm.emit (ProgramExecuted who hash used out) xs /\
       weight_le (execute_actual bytecode used) (execute_declared limit) /\
       ref_time (execute_declared limit) <= ref_time normal_max / 2) /\
  (forall W cfg who id sols payee (s : @MempoolState W),
     let vm := XqvmAdapter (QuantumProgramSource xs) QuantumMaxTransformSteps RuntimeConfig.MaxVmMemory in
     weight_le (@do_submit_solution _ vm W cfg who id sols payee s).2 submit_solution_declared /\
     weight_le submit_solution_declared normal_max_extrinsic) /\
  (forall W proof (s : @PowState W) topology,
     RegisteredTopologies s !! proof_topology_hash proof = Some topology ->
     zlen (nodes topology) <= QuantumPowMaxNodes -> zlen (edges topology) <= QuantumPowMaxEdges ->
     zlen (solutions proof) <= QuantumPowMaxSolutions ->
     let n := zlen (nodes topology) in let e := zlen (edges topology) in let k := zlen (solutions proof) in
     ref_time (submit_proof_declared proof s) =
       ref_time (submit_proof_weight 0 0 0) +
       (1200 * n + 2400 * e + 6000 * (k * n) + 19100 * (k * e) + 1200 * (k * k * n) + 535 * (n * e)) /\
     QuantumPowMaxProofsPerBlock * ref_time (submit_proof_declared proof s) <= ref_time normal_max) /\
  (forall S M (rt : @Runtime C S M) c,
     (call_bounded c rt -> weight_le (own_weight c rt) normal_max_extrinsic) /\
     forall export_terminal call_info, weight_ok export_terminal -> (forall call, weight_ok (call_info call)) ->
       call_weight export_terminal call_info c rt =
         match foreign_weight export_terminal call_info c with
         | Some w => (own_weight c rt + w)%weight
         | None => own_weight c rt
         end) /\
  (forall f l n, f ∈ Vesting.table -> 0 <= l <= Vesting.MaxLocks -> 0 <= n <= MAX_VESTING_SCHEDULES ->
     weight_le (f l n) normal_max_extrinsic) /\
  (forall report validators nominators, weight_ok (report validators nominators) ->
     weight_le (report validators nominators) (Equivocation.report_equivocation report validators nominators) /\
     weight_le (reads 3) (Equivocation.report_equivocation report validators nominators)) /\
  (forall W now (s s' : @MempoolState W) closed visited, finalise_expired_orders now s = Ok (s', closed, visited) ->
     weight_le (hooks_weight closed visited) (perbill_weight AVERAGE_ON_INITIALIZE_RATIO max_block)) /\
  (forall sz, sizes_within sz measured_sizes -> check_claim_reward_weight sz = true).
Proof.
  split_and!.
  - intros who hash calldata slots limit xs' Hok. destruct (execute_steps runtime_xqvm_config _ _ _ _ _ _ _ Hok) as (used & out & -> & Hu & Hl & _).
    unfold execute in Hok. cbn in Hok. hinv.
    match goal with Hb : Programs xs !! hash = Some ?b |- _ => exists b, used, out; specialize (Hstored _ _ Hb) end.
    split_and!; [done|done|by apply execute_refund|apply execute_declared_fits; split; [lia|exact Hl]].
  - intros W cfg who id sols payee s. split; [apply submission_refund|].
    pose proof checked_weights_fit as Hall. rewrite Forall_forall in Hall.
    assert ((submit_solution_declared, SUBMIT_SOLUTION_PROOF_FLOOR) ∈ checked_weights) as Hin by (do 4 right; left).
    exact (proj2 (Hall _ Hin)).
  - intros W proof s topology Ht Hn He Hk n e k. unfold submit_proof_declared. rewrite Ht.
    destruct (len_u32_small _ _ Hn) as [-> Hn']; [done|]. destruct (len_u32_small _ _ He) as [-> He']; [done|].
    destruct (len_u32_small _ _ Hk) as [-> Hk']; [done|]. unfold zlen in Hn', He', Hk'.
    pose proof db_read_bound. pose proof db_write_bound. rewrite normal_max_time.
    rewrite !submit_proof_price by (unfold zlen; lia || (split; done)). cbn [ref_time].
    unfold QuantumPowMaxNodes, QuantumPowMaxEdges, QuantumPowMaxSolutions, QuantumPowMaxProofsPerBlock in *.
    subst n e k. set (n := zlen (nodes topology)) in *. set (e := zlen (edges topology)) in *. set (k := zlen (solutions proof)) in *.
    assert (0 <= n /\ 0 <= e /\ 0 <= k) as (? & ? & ?) by (split_and!; apply zlen_nonneg).
    assert (0 <= k * n <= 32 * 5000) by nia. assert (0 <= k * e <= 32 * 50000) by nia. assert (0 <= k * k <= 32 * 32) by nia.
    assert (0 <= k * k * n <= 32 * 32 * 5000) by nia. assert (0 <= n * e <= 5000 * 50000) by nia. split; lia.
  - intros S M rt c. split; [apply call_fits|]. intros export info. apply call_weight_split.
  - intros f l n Hf Hl Hn. eapply fits_call; [by apply Vesting.table_fits|lia|lia].
  - apply Equivocation.report_pays_guard.
  - intros W now s s' closed visited Hok. unfold finalise_expired_orders in Hok.
    apply rbind_Ok_inv in Hok as ([[[s1 bucket] k] v] & Hloop & [= _ <- <-]).
    apply finalise_loop_work in Hloop as [Hk Hv]; [by apply hooks_fit|done..].
  - apply integrity_test_passes.
Qed.

(** *** Witness: a stored program of three bytes runs *)

Definition metered_state : @XqvmState Ledger.t := mkXqvmState {[ 6 := [1; 2; 3] ]} {[ 6 := 7 ]} {[ 6 := 0 ]} (Ledger.mk ∅ ∅) [].
Definition metered_after : @XqvmState Ledger.t :=
  default metered_state (rok (execute runtime_xqvm_config (Signed 7) 6 [] 1 5 metered_state)).

Lemma metered_work_fits_witness :
  execute runtime_xqvm_config (Signed 7) 6 [] 1 5 metered_state = Ok metered_after /\
  ref_time (execute_declared 5) <= 750000000000 /\
  check_claim_reward_weight measured_sizes = true.
Proof.
  assert (execute runtime_xqvm_config (Signed 7) 6 [] 1 5 metered_state = Ok metered_after) as Hok by (vm_compute; reflexivity).
  destruct (metered_work_fits metered_state) as (He & _ & _ & _ & _ & _ & _ & Hc).
  - intros h b Hb. cbn [Programs metered_state] in Hb. apply lookup_singleton_Some in Hb as [_ <-]. discriminate.
  - split; [exact Hok|]. destruct (He 7 6 [] 1 5 metered_after Hok) as (_ & _ & _ & _ & _ & _ & Hle).
    split; [exact Hle|]. apply Hc. unfold sizes_within. cbn. lia.
Defined.
